(* ===== verification/_CoqProject ===== *)
-Q . S2P
Prelude.v
Types.v
DriverApi.v
Arch.v
Amd64.v
Aarch64.v
Session.v
SessionFacts.v
SessionRace.v
Registry.v
Events.v
Views.v
Text.v
TextFacts.v
AsciiFacts.v
Host.v
Artifact.v
ArtifactFormats.v
ArtifactFacts.v
ArtifactFiles.v
ArtifactFilesFacts.v
Guest.v
GuestFacts.v
SessionGuest.v
Snapshot.v
ImageFacts.v
Profile.v
ProfileFacts.v
SystemMap.v
Linux.v
LinuxFacts.v
LinuxPathFacts.v
Windows.v
WindowsFacts.v
WindowsProcessFacts.v
HostFs.v
Sequence.v
Publication.v
PublicationFacts.v
Command.v
Process.v
Fake.v
FakeFacts.v
Socket.v
Gdb.v
GdbFacts.v
Qmp.v
QmpFacts.v
Live.v
Qemu.v
QemuFacts.v
VirtualBox.v
Xen.v
XenFacts.v
Libvirt.v
Ffi.v
FfiFacts.v
LiveFacts.v
Cli.v
CliFacts.v
EndToEnd.v
CliProcessFacts.v
