(* ===== verification/Prelude.v ===== *)
(** * A verified model of the LibVMI-Rust workspace

    LibVMI-Rust reads, and where a hypervisor allows it writes and controls,
    the state of virtual machines: live ones through a hypervisor's own
    interfaces, stopped ones through the memory images they left.  The crates
    under [src/crates/] are modelled here as shallow embeddings; this file is
    their prelude and describes the whole.

    ** The program and its model

    A provider (a driver crate) connects to a target and gives a session of
    facets: memory, registers, control, events, views, acquisition.  The core
    adds virtual addresses to the memory facet, through a translator of the
    guest's architecture and a cache of its results.  Introspection of an
    operating system is built on virtual reads and on profiles that give
    symbols and structure offsets.  A C interface and a command line put the
    parts together.

    - [Types], [DriverApi], [Arch]: vmi-types, vmi-driver-api, vmi-arch-api.
      Errors are the constructors of [VmiError]; a facet is a record of
      operations over the provider's state; [AddressTranslator] is a record,
      with the law [PageLinear] a session relies on.
    - [Amd64], [Aarch64]: the page walks, against walks by table indices.
    - [Session], [SessionFacts], [Registry]: vmi-core.  A session's state is
      the provider's state and the cache behind its mutex; its operations run
      one after the other.  [SessionRace] cuts a translation and a write where
      the code holds the lock, for threads that share a session.
    - [Events], [Views]: vmi-events as a step relation over producers,
      consumers, a mutex, a condition variable and a clock; vmi-views.
    - [Text], [TextFacts], [AsciiFacts], [Host]: what the code uses of the
      standard library's text, readers, paths and files.
    - [Artifact], [ArtifactFormats], [ArtifactFacts], [ArtifactFiles],
      [ArtifactFilesFacts]: vmi-artifact, from bundles of segments through
      the image formats to files, compression and manifests.
    - [Snapshot]: vmi-driver-dump and vmi-driver-snapshot.  [ImageFacts]:
      what the fields of an image file say its memory is, for each opener.
    - [Guest], [GuestFacts], [SessionGuest], [Linux], [LinuxFacts],
      [LinuxPathFacts], [Windows], [WindowsFacts], [WindowsProcessFacts]:
      vmi-os-linux and vmi-os-windows, proved against the class of guest
      memories, which a session implements.
    - [Profile], [ProfileFacts], [SystemMap]: vmi-profile.
    - [HostFs], [Sequence], [Publication], [PublicationFacts]: the files the
      providers publish and the counters they draw names from, as programs
      and steps that run interleaved.
    - [Command], [Process]: the child processes of the live providers.
    - [Fake], [FakeFacts]: the provider of vmi-testkit.
    - [Socket], [Gdb], [GdbFacts], [Qmp], [QmpFacts], [Qemu], [QemuFacts]:
      vmi-driver-qemu, over a peer and a clock that may do anything.
    - [Live], [LiveFacts], [VirtualBox], [Xen], [XenFacts], [Libvirt]: the
      other live providers; what they each have a copy of is in [Live].
    - [Ffi], [FfiFacts]: vmi-ffi over the memory of its caller.
    - [Cli], [CliFacts], [CliProcessFacts]: vmi-cli.
    - [EndToEnd]: snapshot, provider, session, translator and introspector
      put together.

    Modules carry the names of the Rust types, definitions those of the
    functions; [X_step] is one round of the loop of [X].

    ** What the theorems show

    - The whole: what is read out of a saved machine, physically, virtually
      or as a list of processes, is what the tables and bytes of its file mean
      to the format, the architecture and the operating system; and so is what
      the command line prints of them.
    - Translation: the walks refine the architectures' walks; every outcome
      is within its bounds or an architectural error; a cached translation is
      the translator's on present memory, across failed writes and other
      translators too; the cache is a bounded first-in first-out map.
    - Memory: virtual reads and writes are correct byte by byte across pages;
      a snapshot read is all or nothing, whichever opener and format it came
      from; the transport of xenctrl moves exactly its range; QEMU's monitor
      is asked for consecutive chunks and believed exactly; reads through C
      handles and through the command line are those of the image.
    - Decoding: for arbitrary bytes, accepted images are sorted and disjoint
      where the format promises it; LiME and System.map text round-trip;
      manifests stay below their directory and within their limits; files are
      read whole or refused.
    - Introspection: each listing succeeds exactly when the structure in
      guest memory closes within its limit, and returns exactly it.
    - State: the registry refines a map, views a set, symbol tables a list
      under two indexes; C handles are never reused.
    - Concurrency: the event queue keeps order and capacity and loses no
      wakeup; publications are atomic whatever runs beside them and whatever
      fails; identifiers are drawn once; a command's output is complete.
    - Protocols: QMP and GDB exchanges are exactly the well-formed ones, their
      loops end, and a register write that succeeds was read back.
    - Some theorems are of behaviour the code does not mean to have: two of
      the image decoders, one of the QMP client, one of threads that share a
      session, one of providers that share a temporary name.

    ** Conventions, bounds and fuel

    A [w]-bit unsigned integer is a [Z] with [in_width w]; checked,
    saturating and wrapping operations are written out.  [usize] is 64 bits
    wide and no slice is longer than [isize_max].  A [Duration] counts
    nanoseconds.  [String]s are Rocq strings of the same bytes, and error
    messages are formatted as the code formats them.  Fallible code gives
    [result]; code with state is [stateful], and the next statement after
    [?] is the [let?] of its monad.

    Allocation may fail: [Allocator] says which requests succeed, and
    [ample] that all within [isize_max] do; [alloc_limit] is that no larger
    one does.  A mutex is its contents and whether it is poisoned.

    A loop that is not structural runs with fuel, as [loop_pos] on a binary
    number or a [Fixpoint] on a natural one.  Where a theorem says that a loop
    ends, a measure decreases (bytes of a buffer or a stream still to go, the
    entries of a list within a limit, identifiers of a 16-bit space, events of
    a socket still to come), or the fuel is more than the rounds a repetition
    check allows (nodes of a 64-bit space, field lists of a 32-bit space), and
    the answer is that of the unbounded run, [loop_runs].  A theorem that
    describes successes in both directions needs no more fuel than they take;
    for the walks up dentries, along processes and along field lists, that
    they end on every image is a conclusion of its own.

    ** What is not modelled

    - Third-party crates and the system: bitflags, serde_json, pdb and the
      decompressors are classes with the laws their documentation gives; so
      are the clock, starting processes and threads, libxenctrl's functions
      and the printing of quoted strings.  What a started [xl], [virsh] or
      VBoxManage does to the disk is arbitrary ([Live.Transport]).
    - The [Session] trait objects of the live providers: their facets return
      the session itself, and their operations, which have effects, are the
      definitions; the offline and test providers give [DriverApi.Session].
    - Paths are their components, so two spellings of one path are one path;
      symbolic links are those [canonicalize] resolves.
    - [flush], [sync_all] as durability, [Debug] output of structures, and
      the stream wrapper that chooses between a TCP and a Unix socket.
    - Unwinding: no modelled function panics, so [catch_unwind] is its
      operation; a lock found poisoned is handled as the code does.  A pointer
      of the C interface is an address, aligned as its contract demands.
    - The facade crate [vmi], which only re-exports, and all tests. *)

From Stdlib Require Export ZArith Lia.
From stdpp Require Export base gmap list strings pretty sorting.
From Stdlib Require Export Strings.Byte.

#[global] Open Scope Z_scope.

Declare Scope rust_scope.
Delimit Scope rust_scope with rust.

(** ** Results and stateful computations *)

(** [core::result::Result]. *)
Inductive result (E A : Type) : Type :=
| Ok (a : A)
| Err (e : E).

Arguments Ok {E A} a.
Arguments Err {E A} e.

#[global] Instance result_ret E : MRet (result E) := fun A a => Ok a.
#[global] Instance result_bind E : MBind (result E) :=
  fun A B k m => match m with Ok a => k a | Err e => Err e end.
#[global] Instance result_fmap E : FMap (result E) :=
  fun A B f m => match m with Ok a => Ok (f a) | Err e => Err e end.

#[global] Instance result_eq_dec {E A} `{EqDecision E, EqDecision A} :
  EqDecision (result E A).
Proof. solve_decision. Defined.

Definition is_ok {E A} (m : result E A) : bool :=
  match m with Ok _ => true | Err _ => false end.

Definition map_err {E F A} (f : E -> F) (m : result E A) : result F A :=
  match m with Ok a => Ok a | Err e => Err (f e) end.

(** [Option::ok_or]. *)
Definition ok_or {E A} (o : option A) (e : E) : result E A :=
  match o with Some a => Ok a | None => Err e end.

(** A computation on an explicit store of type [S]; an error keeps the
    store reached so far, as an early return in Rust does. *)
Definition stateful (S E A : Type) : Type := S -> result E A * S.

#[global] Instance stateful_ret S E : MRet (stateful S E) :=
  fun A a s => (Ok a, s).
#[global] Instance stateful_bind S E : MBind (stateful S E) :=
  fun A B k m s =>
    match m s with
    | (Ok a, s') => k a s'
    | (Err e, s') => (Err e, s')
    end.

Definition lift {S E A} (m : result E A) : stateful S E A := fun s => (m, s).
Definition fail {S E A} (e : E) : stateful S E A := fun s => (Err e, s).

(** The early-return notation [let? x := m in k] is the [?] operator. *)
Notation "'let?' x ':=' m 'in' k" :=
  (mbind (fun x => k) m)
  (at level 10, x name, m at level 200, k at level 200) : rust_scope.
Notation "'let?' ' p ':=' m 'in' k" :=
  (mbind (fun p => k) m)
  (at level 10, p strict pattern, m at level 200, k at level 200) : rust_scope.
#[global] Open Scope rust_scope.

(** ** Loops

    A Rust [loop] or [while] is a step function returning the next loop
    state or the value the loop is left with.  Fuel is binary, so a bound
    such as [2 ^ 64] costs nothing to evaluate. *)
Fixpoint loop_pos {S R} (p : positive) (step : S -> S + R) (s : S) : S + R :=
  match p with
  | xH => step s
  | xO q =>
      match loop_pos q step s with
      | inl s' => loop_pos q step s'
      | inr r => inr r
      end
  | xI q =>
      match step s with
      | inl s' =>
          match loop_pos q step s' with
          | inl s'' => loop_pos q step s''
          | inr r => inr r
          end
      | inr r => inr r
      end
  end.

Fixpoint loop_nat {S R} (n : nat) (step : S -> S + R) (s : S) : S + R :=
  match n with
  | O => inl s
  | Datatypes.S m =>
      match step s with
      | inl s' => loop_nat m step s'
      | inr r => inr r
      end
  end.

(** [run_loop p step stuck s]: the loop with fuel [p]; [stuck] is the value
    of a loop that ran out of fuel (the theorems show it is not reached). *)
Definition run_loop {S R} (p : positive) (step : S -> S + R) (stuck : S -> R)
    (s : S) : R :=
  match loop_pos p step s with inl s' => stuck s' | inr r => r end.

(** The loop as the source runs it, with no bound: the rounds it makes up to
    its result.  A loop that never ends has none. *)
Inductive loop_runs {S R} (step : S -> S + R) : S -> R -> Prop :=
| loop_done s r : step s = inr r -> loop_runs step s r
| loop_round s s' r : step s = inl s' -> loop_runs step s' r -> loop_runs step s r.

(** [for i in 0..count]: the body is run exactly [count] times unless it
    breaks or returns. *)
Inductive flow (A : Type) : Type := Continue (a : A) | Break (a : A).
Arguments Continue {A} a.
Arguments Break {A} a.

Definition for_step {E A} (body : Z -> A -> result E (flow A)) (ia : Z * A)
    : (Z * A) + result E A :=
  match body (fst ia) (snd ia) with
  | Ok (Continue a) => inl (fst ia + 1, a)
  | Ok (Break a) => inr (Ok a)
  | Err e => inr (Err e)
  end.

Definition for_range {E A} (count : Z) (body : Z -> A -> result E (flow A)) (init : A)
    : result E A :=
  if count <=? 0 then Ok init
  else match loop_pos (Z.to_pos count) (for_step body) (0, init) with
       | inl (_, a) => Ok a
       | inr r => r
       end.

(** ** Machine integers: a value of width [w] is a [Z] in [0 .. 2^w - 1] *)

Definition in_width (w x : Z) : Prop := 0 <= x < 2 ^ w.
Abbreviation in_u8 := (in_width 8).
Abbreviation in_u16 := (in_width 16).
Abbreviation in_u32 := (in_width 32).
Abbreviation in_u64 := (in_width 64).

Definition u64_max : Z := 2 ^ 64 - 1.
Definition isize_max : Z := 2 ^ 63 - 1.

Definition checked_add (w a b : Z) : option Z :=
  if a + b <? 2 ^ w then Some (a + b) else None.
Definition checked_sub (a b : Z) : option Z :=
  if b <=? a then Some (a - b) else None.
Definition checked_mul (w a b : Z) : option Z :=
  if a * b <? 2 ^ w then Some (a * b) else None.
Definition checked_shl (w a s : Z) : option Z :=
  if s <? w then Some (Z.shiftl a s mod 2 ^ w) else None.
Definition wrapping_add (w a b : Z) : Z := (a + b) mod 2 ^ w.
Definition saturating_add (w a b : Z) : Z := Z.min (a + b) (2 ^ w - 1).
Definition saturating_sub (a b : Z) : Z := Z.max (a - b) 0.
Definition div_ceil (a b : Z) : Z := (a + b - 1) / b.
(** [!x] at width [w]. *)
Definition wnot (w x : Z) : Z := Z.ldiff (Z.ones w) x.
(** [usize::try_from] and its like, to width [w]. *)
Definition try_width (w x : Z) : option Z := if x <? 2 ^ w then Some x else None.

(** ** Bytes and slices *)

Definition byte_val (b : byte) : Z := Z.of_N (Byte.to_N b).
Definition byte_of (z : Z) : byte :=
  match Byte.of_N (Z.to_N (z mod 256)) with Some b => b | None => x00 end.

#[global] Instance byte_eq_dec : EqDecision byte := Byte.byte_eq_dec.

Definition zlen {A} (l : list A) : Z := Z.of_nat (length l).

(** [slice.get(a..b)]. *)
Definition get_range {A} (l : list A) (a b : Z) : option (list A) :=
  if (0 <=? a) && (a <=? b) && (b <=? zlen l)
  then Some (take (Z.to_nat (b - a)) (drop (Z.to_nat a) l))
  else None.

(** [buffer.get_mut(a..b)?.copy_from_slice(src)], the source having the
    length of the range. *)
Definition put_range {A} (l : list A) (a b : Z) (src : list A) : option (list A) :=
  if (0 <=? a) && (a <=? b) && (b <=? zlen l)
  then Some (take (Z.to_nat a) l ++ src ++ drop (Z.to_nat b) l)
  else None.

Fixpoint le_val (bs : list byte) : Z :=
  match bs with
  | [] => 0
  | b :: rest => byte_val b + 256 * le_val rest
  end.

Fixpoint le_bytes (n : nat) (z : Z) : list byte :=
  match n with
  | O => []
  | S m => byte_of z :: le_bytes m (z / 256)
  end.

Definition be_val (bs : list byte) : Z := le_val (reverse bs).

(** [v.windows(2)] as pairs. *)
Definition windows2 {A} (l : list A) : list (A * A) := zip l (tail l).

(** [sort_by_key]: the standard library's sort is stable. *)
Fixpoint insert_by_key {A} (key : A -> Z) (x : A) (l : list A) : list A :=
  match l with
  | [] => [x]
  | y :: rest =>
      if key x <=? key y then x :: l else y :: insert_by_key key x rest
  end.

Definition sort_by_key {A} (key : A -> Z) (l : list A) : list A :=
  foldr (insert_by_key key) [] l.

(** ** Text *)

Definition bytes_of_string (s : string) : list byte := String.list_byte_of_string s.
Definition string_of_bytes (bs : list byte) : string := String.string_of_list_byte bs.

(** [slice.starts_with]. *)
Definition starts_with (data pre : list byte) : bool :=
  bool_decide (take (length pre) data = pre).

Definition hex_digit (d : Z) : Ascii.ascii :=
  Ascii.ascii_of_N (Z.to_N (if d <? 10 then 48 + d else 87 + d)).

Fixpoint hex_go (fuel : nat) (z : Z) (acc : string) : string :=
  match fuel with
  | O => acc
  | S f =>
      let acc' := String.String (hex_digit (z mod 16)) acc in
      if z / 16 =? 0 then acc' else hex_go f (z / 16) acc'
  end.

(** [{:#x}] of an integer of at most 128 bits. *)
Definition hex (z : Z) : string := ("0x" +:+ hex_go 32 z "")%string.
(** [{}] of an integer. *)
Definition dec (z : Z) : string := pretty z.

(** ** Allocation and locking, the two ambient failures of the code *)

(** The global allocator, asked for a total number of elements at a named
    site.  [Vec] and [String] refuse a capacity above [isize::MAX] bytes. *)
Class Allocator := {
  alloc_ok : string -> Z -> bool;
  alloc_limit : forall what n, isize_max < n -> alloc_ok what n = false;
}.

Definition reserve_error (n : Z) : string :=
  if isize_max <? n
  then "memory allocation failed because the computed capacity exceeded the collection's maximum"
  else "memory allocation failed because the memory allocator returned an error".

(** [try_reserve]/[try_reserve_exact] up to a total of [n] elements. *)
Definition try_reserve `{Allocator} (what : string) (n : Z) : result string unit :=
  if alloc_ok what n then Ok tt else Err (reserve_error n).

(** An allocator that never runs out below the limit. *)
Definition ample_allocator : Allocator.
Proof.
  refine {| alloc_ok := fun _ n => n <=? isize_max |}.
  intros _ n Hn. apply Z.leb_gt. exact Hn.
Defined.

(** Every allocation a collection may ask for succeeds. *)
Definition ample `{Allocator} : Prop := forall what n, n <= isize_max -> alloc_ok what n = true.

Lemma ample_ample : @ample ample_allocator.
Proof. intros what n Hn. by apply Z.leb_le. Qed.

Lemma reserve_ample `{Allocator} (Hample : ample) what n : n <= isize_max -> try_reserve what n = Ok tt.
Proof. intros Hn. unfold try_reserve. by rewrite Hample. Qed.

Record Mutex (A : Type) : Type := MkMutex { poisoned : bool; guarded : A }.
Arguments MkMutex {A} poisoned guarded.
Arguments poisoned {A} m.
Arguments guarded {A} m.

Definition mutex_new {A} (a : A) : Mutex A := MkMutex false a.
Definition lock {A} (m : Mutex A) : result string A :=
  if poisoned m then Err "poisoned lock: another task failed inside"%string
  else Ok (guarded m).
Definition store {A} (m : Mutex A) (a : A) : Mutex A := MkMutex (poisoned m) a.

(** * Shared lemmas *)

Create HintDb rust discriminated.
Create Rewrite HintDb rust_len.


Lemma bind_Ok {E A B} (m : result E A) (k : A -> result E B) b :
  mbind k m = Ok b <-> exists a, m = Ok a /\ k a = Ok b.
Proof. destruct m; cbn; split; [eauto| intros (? & [= ->] & ?); done | done | intros (? & [=] & _)]. Qed.

Lemma bind_Err {E A B} (m : result E A) (k : A -> result E B) e :
  mbind k m = Err e <-> m = Err e \/ exists a, m = Ok a /\ k a = Err e.
Proof.
  destruct m as [a|e']; cbn; split; [eauto| |intros [= ->]; auto|].
  - intros [[=]|(? & [= ->] & ?)]; done.
  - intros [[= ->]|(? & [=] & _)]; done.
Qed.

Lemma ok_or_Ok {E A} (o : option A) (e : E) a : ok_or o e = Ok a <-> o = Some a.
Proof. destruct o; cbn; naive_solver. Qed.

Lemma map_err_Ok {E F A} (f : E -> F) (m : result E A) a :
  map_err f m = Ok a <-> m = Ok a.
Proof. destruct m; cbn; naive_solver. Qed.

(** [inv_ok]: turn every [... = Ok _] obtained from binds into its steps. *)
Ltac inv_ok :=
  repeat match goal with
  | H : mbind _ _ = Ok _ |- _ =>
      let a := fresh "v" in let H1 := fresh "Hm" in
      apply bind_Ok in H as (a & H1 & H)
  | H : ok_or _ _ = Ok _ |- _ => apply ok_or_Ok in H
  | H : map_err _ _ = Ok _ |- _ => apply map_err_Ok in H
  | H : Ok _ = Ok _ |- _ => injection H as H
  | H : Err _ = Ok _ |- _ => discriminate H
  | H : mret _ = Ok _ |- _ => cbn in H
  | H : Some _ = Some _ |- _ => injection H as H
  | H : None = Some _ |- _ => discriminate H
  end.

(** ** Loops *)

Lemma loop_nat_add {S R} (step : S -> S + R) m n s :
  loop_nat (m + n) step s =
  match loop_nat m step s with inl s' => loop_nat n step s' | inr r => inr r end.
Proof. revert s; induction m as [|m IH]; intros s; cbn; [done|]. by destruct (step s). Qed.

Lemma loop_pos_nat {S R} (step : S -> S + R) p s :
  loop_pos p step s = loop_nat (Pos.to_nat p) step s.
Proof.
  revert s; induction p as [p IH|p IH|]; intros s.
  - rewrite Pos2Nat.inj_xI. cbn [loop_pos].
    replace (Datatypes.S (2 * Pos.to_nat p))%nat
      with (1 + (Pos.to_nat p + Pos.to_nat p))%nat by lia.
    cbn [Nat.add loop_nat]. destruct (step s) as [s'|r]; [|done].
    rewrite loop_nat_add, IH. destruct (loop_nat _ step s'); auto.
  - rewrite Pos2Nat.inj_xO. cbn [loop_pos].
    replace (2 * Pos.to_nat p)%nat with (Pos.to_nat p + Pos.to_nat p)%nat by lia.
    rewrite loop_nat_add, IH. destruct (loop_nat _ step s); auto.
  - change (Pos.to_nat 1) with 1%nat. cbn [loop_pos loop_nat]. by destruct (step s).
Qed.

(** Partial correctness: an invariant of the loop body. *)
Lemma loop_pos_inv {S R} (I : S -> Prop) (Q : R -> Prop) (step : S -> S + R) p s :
  I s ->
  (forall s, I s -> match step s with inl s' => I s' | inr r => Q r end) ->
  match loop_pos p step s with inl s' => I s' | inr r => Q r end.
Proof.
  intros Hs Hstep. rewrite loop_pos_nat. revert s Hs.
  induction (Pos.to_nat p) as [|n IH]; intros s Hs; cbn; [done|].
  specialize (Hstep s Hs). destruct (step s); [by apply IH|done].
Qed.

(** Total correctness: an invariant and a measure below the fuel. *)
Lemma loop_pos_total {S R} (I : S -> Prop) (Q : R -> Prop) (m : S -> Z)
    (step : S -> S + R) p s :
  I s -> m s < Zpos p ->
  (forall s, I s -> 0 <= m s) ->
  (forall s, I s -> match step s with
                    | inl s' => I s' /\ m s' < m s
                    | inr r => Q r end) ->
  exists r, loop_pos p step s = inr r /\ Q r.
Proof.
  intros Hs Hm Hpos Hstep. rewrite loop_pos_nat.
  assert (Hn : m s < Z.of_nat (Pos.to_nat p)) by lia. clear Hm.
  revert s Hs Hn. induction (Pos.to_nat p) as [|n IH]; intros s Hs Hn; cbn.
  - specialize (Hpos s Hs). lia.
  - specialize (Hstep s Hs). destruct (step s) as [s'|r].
    + destruct Hstep as [HI Hlt]. apply IH; [done|lia].
    + eauto.
Qed.

Lemma run_loop_total {S R} (I : S -> Prop) (Q : R -> Prop) (m : S -> Z)
    (step : S -> S + R) (stuck : S -> R) p s :
  I s -> m s < Zpos p ->
  (forall s, I s -> 0 <= m s) ->
  (forall s, I s -> match step s with
                    | inl s' => I s' /\ m s' < m s
                    | inr r => Q r end) ->
  Q (run_loop p step stuck s).
Proof.
  intros Hs Hm Hpos Hstep. unfold run_loop.
  destruct (loop_pos_total I Q m step p s Hs Hm Hpos Hstep) as (r & -> & Hr). exact Hr.
Qed.

(** An invariant of a counted loop, indexed by the number of rounds done. *)
Lemma for_range_inv {E A} (I : Z -> A -> Prop) (Q : A -> Prop) (R : E -> Prop)
    count (body : Z -> A -> result E (flow A)) init :
  0 <= count -> I 0 init ->
  (forall i a, 0 <= i < count -> I i a ->
     match body i a with
     | Ok (Continue a') => I (i + 1) a'
     | Ok (Break a') => Q a'
     | Err e => R e
     end) ->
  match for_range count body init with
  | Ok a => I count a \/ Q a
  | Err e => R e
  end.
Proof.
  intros Hc Hinit Hbody. unfold for_range. destruct (Z.leb_spec count 0).
  { assert (count = 0) as -> by lia. by left. }
  rewrite loop_pos_nat.
  assert (Hgen : forall n i a, 0 <= i -> i + Z.of_nat n = count -> I i a ->
    match loop_nat n (for_step body) (i, a) with
    | inl (j, a') => j = count /\ I count a'
    | inr (Ok a') => Q a'
    | inr (Err e) => R e
    end).
  { induction n as [|n IH]; intros i a Hi Hn Ha; cbn.
    - assert (i = count) as -> by lia. done.
    - unfold for_step at 1. cbn. specialize (Hbody i a ltac:(lia) Ha).
      destruct (body i a) as [[a'|a']|e]; [|done|done]. apply IH; [lia|lia|done]. }
  specialize (Hgen (Pos.to_nat (Z.to_pos count)) 0 init ltac:(lia) ltac:(lia) Hinit).
  destruct (loop_nat _ _ _) as [[j a]|[a|e]]; [left; apply Hgen|by right|done].
Qed.

(** A loop that finished is not affected by more fuel. *)
Lemma loop_pos_more {S R} (step : S -> S + R) p q s r :
  loop_pos p step s = inr r -> (p <= q)%positive -> loop_pos q step s = inr r.
Proof.
  rewrite !loop_pos_nat. intros H Hle.
  replace (Pos.to_nat q) with (Pos.to_nat p + (Pos.to_nat q - Pos.to_nat p))%nat by lia.
  by rewrite loop_nat_add, H.
Qed.

(** A loop that finished within its fuel ends without it. *)
Lemma loop_pos_runs {S R} (step : S -> S + R) p s r : loop_pos p step s = inr r -> loop_runs step s r.
Proof.
  rewrite loop_pos_nat. generalize (Pos.to_nat p) as n. intros n. revert s.
  induction n as [|n IH]; intros s; cbn [loop_nat]; [done|].
  destruct (step s) as [s'|r'] eqn:E; [|by intros [= <-]; constructor].
  intros Hn. eapply loop_round; [exact E|by apply IH].
Qed.

(** A set of numbers below [N] has at most [N] elements: the bound on loops
    that never visit a number twice. *)
Lemma size_in_range (X : gset Z) N :
  0 <= N -> (forall x, x ∈ X -> 0 <= x < N) -> Z.of_nat (size X) <= N.
Proof.
  intros HN HX. assert (Hsub : X ⊆ list_to_set (seqZ 0 N)).
  { intros x Hx. apply elem_of_list_to_set, elem_of_seqZ. specialize (HX x Hx). lia. }
  apply subseteq_size in Hsub. rewrite size_list_to_set in Hsub by apply NoDup_seqZ.
  rewrite length_seqZ in Hsub. lia.
Qed.

(** ** Machine integers *)

Lemma checked_add_Some w a b c :
  checked_add w a b = Some c <-> c = a + b /\ a + b < 2 ^ w.
Proof. unfold checked_add. destruct (Z.ltb_spec (a + b) (2 ^ w)); intuition (congruence || lia). Qed.
Lemma checked_sub_Some a b c : checked_sub a b = Some c <-> c = a - b /\ b <= a.
Proof. unfold checked_sub. destruct (Z.leb_spec b a); intuition (congruence || lia). Qed.
Lemma checked_mul_Some w a b c :
  checked_mul w a b = Some c <-> c = a * b /\ a * b < 2 ^ w.
Proof. unfold checked_mul. destruct (Z.ltb_spec (a * b) (2 ^ w)); intuition (congruence || lia). Qed.
Lemma try_width_Some w a c : try_width w a = Some c <-> c = a /\ a < 2 ^ w.
Proof. unfold try_width. destruct (Z.ltb_spec a (2 ^ w)); intuition (congruence || lia). Qed.

Lemma checked_add_fits w a b : a + b < 2 ^ w -> checked_add w a b = Some (a + b).
Proof. intros. by apply checked_add_Some. Qed.
Lemma checked_sub_fits a b : b <= a -> checked_sub a b = Some (a - b).
Proof. intros. by apply checked_sub_Some. Qed.
Lemma checked_mul_fits w a b : a * b < 2 ^ w -> checked_mul w a b = Some (a * b).
Proof. intros. by apply checked_mul_Some. Qed.
Lemma try_width_fits w a : a < 2 ^ w -> try_width w a = Some a.
Proof. intros. by apply try_width_Some. Qed.

(** [inv_checked]: the arithmetic content of successful checked operations. *)
Ltac inv_checked :=
  repeat match goal with
  | H : checked_add _ _ _ = Some _ |- _ => apply checked_add_Some in H as [-> H]
  | H : checked_sub _ _ = Some _ |- _ => apply checked_sub_Some in H as [-> H]
  | H : checked_mul _ _ _ = Some _ |- _ => apply checked_mul_Some in H as [-> H]
  | H : try_width _ _ = Some _ |- _ => apply try_width_Some in H as [-> H]
  end.

(** Closed range goals, by evaluation. *)
Ltac width_const :=
  unfold in_width; split; [vm_compute; discriminate | vm_compute; reflexivity].

(** ** Bits *)

Lemma ones_eq n : Z.ones n = 2 ^ n - 1.
Proof. rewrite Z.ones_equiv. lia. Qed.

(** Clearing the low [n] bits. *)
Lemma ldiff_ones x n : 0 <= n -> Z.ldiff x (Z.ones n) = x - x mod 2 ^ n.
Proof.
  intros Hn. rewrite Z.ldiff_ones_r, Z.shiftl_mul_pow2, Z.shiftr_div_pow2 by done.
  pose proof (Z.div_mod x (2 ^ n)). lia.
Qed.

Lemma ldiff_ones_div x n : 0 <= n -> Z.ldiff x (Z.ones n) = 2 ^ n * (x / 2 ^ n).
Proof. intros. rewrite ldiff_ones by done. pose proof (Z.div_mod x (2 ^ n)). lia. Qed.

Lemma land_wnot w x m : 0 <= w -> in_width w x -> Z.land x (wnot w m) = Z.ldiff x m.
Proof.
  intros Hw [H0 H1]. unfold wnot. apply Z.bits_inj'. intros i Hi.
  rewrite Z.land_spec, !Z.ldiff_spec.
  destruct (Z.lt_ge_cases i w).
  - rewrite Z.ones_spec_low by lia. by rewrite andb_true_l.
  - rewrite Z.ones_spec_high by lia.
    rewrite <- (Z.mod_small x (2 ^ w)), Z.mod_pow2_bits_high by lia. done.
Qed.

(** Joining an aligned value with a small one is addition. *)
Lemma lor_add a b n :
  0 <= n -> a mod 2 ^ n = 0 -> 0 <= b < 2 ^ n -> Z.lor a b = a + b.
Proof.
  intros Hn Ha Hb. symmetry. apply Z.add_nocarry_lor.
  apply Z.bits_inj'. intros i Hi. rewrite Z.land_spec, Z.bits_0.
  destruct (Z.lt_ge_cases i n).
  - replace (Z.testbit a i) with (Z.testbit (a mod 2 ^ n) i)
      by (apply Z.mod_pow2_bits_low; lia).
    by rewrite Ha, Z.bits_0.
  - rewrite <- (Z.mod_small b (2 ^ n)), Z.mod_pow2_bits_high by lia.
    apply andb_false_r.
Qed.

Lemma lor_lt_pow2 a b n : 0 <= n -> 0 <= a < 2 ^ n -> 0 <= b < 2 ^ n -> Z.lor a b < 2 ^ n.
Proof.
  intros Hn Ha Hb. assert (E : Z.lor a b = Z.lor a b mod 2 ^ n).
  { rewrite <- Z.land_ones, Z.land_lor_distr_l, !Z.land_ones, !Z.mod_small by lia. done. }
  rewrite E. apply Z.mod_pos_bound. lia.
Qed.

Lemma ldiff_lt_pow2 a b n : 0 <= n -> 0 <= a < 2 ^ n -> 0 <= Z.ldiff a b < 2 ^ n.
Proof.
  intros Hn Ha. assert (E : Z.ldiff a b = Z.ldiff a b mod 2 ^ n).
  { rewrite <- Z.land_ones by lia. rewrite <- (Z.mod_small a (2 ^ n)) at 1 by lia.
    rewrite <- Z.land_ones by lia. apply Z.bits_inj'. intros i Hi.
    rewrite Z.ldiff_spec, !Z.land_spec, Z.ldiff_spec.
    by destruct (Z.testbit a i), (Z.testbit b i), (Z.testbit (Z.ones n) i). }
  rewrite E. apply Z.mod_pos_bound. lia.
Qed.

(** Extracting the field of bits [n .. w - 1] in place. *)
Lemma land_field x n w :
  0 <= n <= w ->
  Z.land x (Z.ldiff (Z.ones w) (Z.ones n)) = 2 ^ n * ((x mod 2 ^ w) / 2 ^ n).
Proof.
  intros. rewrite <- ldiff_ones_div by lia. rewrite <- Z.land_ones by lia.
  apply Z.bits_inj'. intros i Hi. rewrite !Z.land_spec, !Z.ldiff_spec, Z.land_spec.
  by rewrite andb_assoc.
Qed.

(** Testing a single-bit mask. *)
Lemma land_pow2_eqb x n : 0 <= n -> (Z.land x (2 ^ n) =? 0) = negb (Z.testbit x n).
Proof.
  intros Hn. apply eq_true_iff_eq. rewrite Z.eqb_eq, negb_true_iff. split.
  - intros H. pose proof (Z.land_spec x (2 ^ n) n) as Hs.
    by rewrite H, Z.bits_0, Z.pow2_bits_true, andb_true_r in Hs by done.
  - intros H. apply Z.bits_inj'. intros i Hi.
    rewrite Z.land_spec, Z.bits_0, Z.pow2_bits_eqb by done.
    destruct (Z.eqb_spec n i) as [<-|]; [by rewrite H|apply andb_false_r].
Qed.

Lemma wnot_ones w n : 0 <= n <= w -> wnot w (Z.ones n) = 2 ^ w - 2 ^ n.
Proof.
  intros. unfold wnot. rewrite ldiff_ones, ones_eq by lia.
  rewrite <- (ones_eq w), <- Z.land_ones, Z.land_comm by lia.
  rewrite (Z.land_ones (Z.ones n)) by lia. rewrite !ones_eq.
  pose proof (Z.pow_le_mono_r 2 n w). pose proof (Z.pow_pos_nonneg 2 n).
  rewrite Z.mod_small by lia. lia.
Qed.

(** An address is the sign extension of its low [b] bits iff it lies in the
    lower or the upper canonical half. *)
Lemma sign_extended_iff a b (Hb : 1 <= b <= 63) (Ha : in_u64 a) :
  (2 ^ b * (a / 2 ^ b) =? (if negb (Z.testbit a (b - 1)) then 0 else 2 ^ 64 - 2 ^ b)) = true
  <-> a < 2 ^ (b - 1) \/ 2 ^ 64 - 2 ^ (b - 1) <= a.
Proof.
  unfold in_width in Ha. rewrite Z.eqb_eq.
  pose proof (Z.pow_pos_nonneg 2 (b - 1)). pose proof (Z.pow_pos_nonneg 2 (64 - b)).
  assert (E1 : 2 ^ b = 2 * 2 ^ (b - 1)) by (rewrite <- Z.pow_succ_r by lia; f_equal; lia).
  assert (E2 : 2 ^ 64 = 2 ^ b * 2 ^ (64 - b)) by (rewrite <- Z.pow_add_r by lia; f_equal; lia).
  pose proof (Z.testbit_spec' a (b - 1)) as Hbit.
  assert (Hq : a / 2 ^ b = a / 2 ^ (b - 1) / 2).
  { rewrite Z.div_div, E1 by lia. f_equal. lia. }
  pose proof (Z.div_mod a (2 ^ (b - 1))). pose proof (Z.mod_pos_bound a (2 ^ (b - 1))).
  set (q := a / 2 ^ (b - 1)) in *. set (p := 2 ^ (b - 1)) in *.
  set (r := 2 ^ (64 - b)) in *. set (m := a mod p) in *.
  set (h := q / 2) in *.
  assert (Eq : q = 2 * h + Z.b2z (Z.testbit a (b - 1))).
  { pose proof (Z.div_mod q 2). lia. }
  rewrite Hq, E2, E1 in *. clearbody q p r m h.
  assert (Hh : 0 <= h < r) by (destruct (Z.testbit a (b - 1)); cbn in *; nia).
  destruct (Z.testbit a (b - 1)); cbn [negb Z.b2z] in *; subst q.
  - split; [intros; right; nia|]. intros [?|?]; [nia|].
    assert (h = r - 1 \/ h + 1 <= r - 1) as [->|?] by lia; nia.
  - split; [intros; left; nia|]. intros [?|?]; [|nia].
    assert (h = 0 \/ 1 <= h) as [->|?] by lia; nia.
Qed.

Lemma land_ones_range x n : 0 <= n -> 0 <= Z.land x (Z.ones n) < 2 ^ n.
Proof. intros. rewrite Z.land_ones by lia. apply Z.mod_pos_bound. lia. Qed.

Lemma mod_pow2_mod x m n : 0 <= m <= n -> (x mod 2 ^ n) mod 2 ^ m = x mod 2 ^ m.
Proof.
  intros. rewrite <- !Z.land_ones by lia. rewrite <- Z.land_assoc. f_equal.
  rewrite (Z.land_comm (Z.ones n)), Z.land_ones, ones_eq by lia.
  apply Z.mod_small. pose proof (Z.pow_pos_nonneg 2 m).
  pose proof (Z.pow_le_mono_r 2 m n). lia.
Qed.

(** ** Bytes *)

Lemma byte_val_range b : 0 <= byte_val b < 256.
Proof. unfold byte_val. pose proof (Byte.to_N_bounded b). lia. Qed.

Lemma byte_val_of z : byte_val (byte_of z) = z mod 256.
Proof.
  unfold byte_val, byte_of. pose proof (Z.mod_pos_bound z 256).
  destruct (Byte.of_N (Z.to_N (z mod 256))) as [b|] eqn:E.
  - apply Byte.to_of_N in E. rewrite E. lia.
  - apply Byte.of_N_None_iff in E. lia.
Qed.

Lemma byte_of_val b : byte_of (byte_val b) = b.
Proof.
  pose proof (byte_val_of (byte_val b)) as H. pose proof (byte_val_range b).
  rewrite Z.mod_small in H by lia. unfold byte_val in H at 1 3. apply N2Z.inj in H.
  pose proof (Byte.of_to_N b) as E1. pose proof (Byte.of_to_N (byte_of (byte_val b))) as E2.
  rewrite H, E1 in E2. by injection E2.
Qed.

Lemma length_le_bytes n z : length (le_bytes n z) = n.
Proof. revert z; induction n; intros z; cbn; auto. Qed.

Lemma le_val_range bs : 0 <= le_val bs < 2 ^ (8 * zlen bs).
Proof.
  unfold zlen. induction bs as [|b bs IH]; cbn [le_val length]; [cbn; lia|].
  rewrite Nat2Z.inj_succ, Z.mul_succ_r, Z.pow_add_r by lia.
  pose proof (byte_val_range b). change (2 ^ 8) with 256. lia.
Qed.

Lemma le_val_bytes n z : le_val (le_bytes n z) = z mod 2 ^ (8 * Z.of_nat n).
Proof.
  revert z; induction n as [|n IH]; intros z; cbn [le_bytes le_val].
  - by rewrite Z.mod_1_r.
  - rewrite IH, byte_val_of, Nat2Z.inj_succ, Z.mul_succ_r, Z.add_comm.
    rewrite Z.pow_add_r by lia. change (2 ^ 8) with 256.
    rewrite Z.mul_comm, (Z.mul_comm (2 ^ _) 256).
    rewrite Z.rem_mul_r by lia. lia.
Qed.

Lemma le_bytes_val bs : le_bytes (length bs) (le_val bs) = bs.
Proof.
  induction bs as [|b bs IH]; cbn [length le_val le_bytes]; [done|].
  pose proof (byte_val_range b). f_equal.
  - rewrite <- (byte_of_val b) at 2. unfold byte_of.
    replace ((byte_val b + 256 * le_val bs) mod 256) with (byte_val b mod 256); [done|].
    by rewrite (Z.mul_comm 256), Z.mod_add by lia.
  - rewrite (Z.mul_comm 256), Z.div_add, Z.div_small by lia. exact IH.
Qed.

(** ** Slices *)

Lemma zlen_nonneg {A} (l : list A) : 0 <= zlen l.
Proof. unfold zlen. lia. Qed.
Lemma zlen_app {A} (l k : list A) : zlen (l ++ k) = zlen l + zlen k.
Proof. unfold zlen. rewrite length_app. lia. Qed.
Lemma zlen_cons {A} (x : A) l : zlen (x :: l) = 1 + zlen l.
Proof. unfold zlen. cbn [length]. lia. Qed.
Lemma zlen_nil {A} : zlen (@nil A) = 0.
Proof. done. Qed.
Lemma zlen_0 {A} (l : list A) : zlen l = 0 -> l = [].
Proof. destruct l; [done|]. rewrite zlen_cons. pose proof (zlen_nonneg l). lia. Qed.
#[export] Hint Rewrite @zlen_app @zlen_cons @zlen_nil : rust_len.
#[export] Hint Resolve zlen_nonneg : rust.

Lemma get_range_Some {A} (l : list A) a b r :
  get_range l a b = Some r <->
  0 <= a <= b /\ b <= zlen l /\ r = take (Z.to_nat (b - a)) (drop (Z.to_nat a) l).
Proof.
  unfold get_range.
  destruct (Z.leb_spec 0 a), (Z.leb_spec a b), (Z.leb_spec b (zlen l)); cbn;
    intuition (congruence || lia).
Qed.

Lemma get_range_fits {A} (l : list A) a b : 0 <= a <= b -> b <= zlen l -> is_Some (get_range l a b).
Proof. intros. eexists. by apply get_range_Some. Qed.

Lemma zlen_get_range {A} (l : list A) a b r : get_range l a b = Some r -> zlen r = b - a.
Proof.
  intros (? & ? & ->)%get_range_Some. unfold zlen in *.
  rewrite length_take, length_drop. lia.
Qed.

Lemma get_range_app {A} (l k : list A) a b :
  0 <= a <= b -> b <= zlen l -> get_range (l ++ k) a b = get_range l a b.
Proof.
  intros Ha Hb. unfold get_range. pose proof (zlen_nonneg k). rewrite zlen_app.
  rewrite (proj2 (Z.leb_le 0 a)), (proj2 (Z.leb_le a b)), (proj2 (Z.leb_le b (zlen l))),
    (proj2 (Z.leb_le b (zlen l + zlen k))) by lia. cbn. f_equal.
  unfold zlen in *. rewrite drop_app_le, take_app_le by (rewrite ?length_drop; lia). done.
Qed.

(** Reading exactly the middle part of a concatenation. *)
Lemma get_range_mid {A} (l m k : list A) a b :
  a = zlen l -> b = a + zlen m -> get_range (l ++ m ++ k) a b = Some m.
Proof.
  intros -> ->. apply get_range_Some. autorewrite with rust_len.
  pose proof (zlen_nonneg l). pose proof (zlen_nonneg m). pose proof (zlen_nonneg k).
  split; [lia|]. split; [lia|].
  replace (Z.to_nat (zlen l)) with (length l) by (unfold zlen; lia).
  rewrite drop_app_length. replace (Z.to_nat _) with (length m) by (unfold zlen; lia).
  by rewrite take_app_length.
Qed.

Lemma lookup_get_range {A} (l : list A) a b r i :
  get_range l a b = Some r -> (i < length r)%nat -> r !! i = l !! (Z.to_nat a + i)%nat.
Proof.
  intros (? & ? & ->)%get_range_Some Hi. rewrite length_take in Hi.
  by rewrite lookup_take_lt, lookup_drop by lia.
Qed.

Lemma put_range_Some {A} (l : list A) a b src r :
  put_range l a b src = Some r <->
  0 <= a <= b /\ b <= zlen l /\ r = take (Z.to_nat a) l ++ src ++ drop (Z.to_nat b) l.
Proof.
  unfold put_range.
  destruct (Z.leb_spec 0 a), (Z.leb_spec a b), (Z.leb_spec b (zlen l)); cbn;
    intuition (congruence || lia).
Qed.

Lemma put_range_fits {A} (l : list A) a b src : 0 <= a <= b -> b <= zlen l -> is_Some (put_range l a b src).
Proof. intros. eexists. by apply put_range_Some. Qed.

(** Overwriting a range: the source inside it, the old list outside. *)
Lemma put_range_lookup {A} (l : list A) a b src r :
  put_range l a b src = Some r -> zlen src = b - a ->
  zlen r = zlen l /\
  forall i : nat, r !! i =
    if (Z.of_nat i <? a) || (b <=? Z.of_nat i) then l !! i else src !! (i - Z.to_nat a)%nat.
Proof.
  intros (Hab & Hb & ->)%put_range_Some Hsrc. unfold zlen in *.
  assert (Ht : length (take (Z.to_nat a) l) = Z.to_nat a) by (rewrite length_take; lia).
  split.
  - rewrite !length_app, Ht, length_drop. lia.
  - intros i. destruct (Z.ltb_spec (Z.of_nat i) a); cbn [orb].
    + rewrite lookup_app_l, lookup_take_lt by (rewrite ?Ht; lia). done.
    + rewrite lookup_app_r, Ht by lia. destruct (Z.leb_spec b (Z.of_nat i)).
      * rewrite lookup_app_r, lookup_drop by lia. f_equal. lia.
      * rewrite lookup_app_l by lia. done.
Qed.

(** A list from a family of defined values. *)
Lemma list_of_family {A} (f : nat -> option A) n :
  (forall i, (i < n)%nat -> is_Some (f i)) ->
  exists l, length l = n /\ forall i, (i < n)%nat -> f i = l !! i.
Proof.
  induction n as [|n IH]; intros Hf; [exists []; split; [done|lia]|].
  destruct IH as (l & Hl & Heq); [intros; apply Hf; lia|].
  destruct (Hf n) as [x Hx]; [lia|]. exists (l ++ [x]).
  rewrite length_app. cbn. split; [lia|]. intros i Hi.
  destruct (decide (i = n)) as [->|].
  - rewrite lookup_app_r, Hl, Nat.sub_diag by lia. done.
  - rewrite lookup_app_l by lia. apply Heq. lia.
Qed.

(** ** Sorting and adjacent pairs *)

Section sorting.
Context {A : Type} (key : A -> Z).

Abbreviation by_key := (fun x y => key x <= key y).

Lemma insert_by_key_Permutation x l : insert_by_key key x l ≡ₚ x :: l.
Proof.
  induction l as [|y l IH]; cbn; [done|].
  destruct (key x <=? key y); [done|]. rewrite IH. constructor.
Qed.

Lemma sort_by_key_Permutation l : sort_by_key key l ≡ₚ l.
Proof.
  induction l as [|x l IH]; cbn; [done|].
  unfold sort_by_key in IH. by rewrite insert_by_key_Permutation, IH.
Qed.

Lemma insert_by_key_sorted x l :
  StronglySorted by_key l -> StronglySorted by_key (insert_by_key key x l).
Proof.
  induction 1 as [|y l Hs IH Hall]; cbn; [repeat constructor|].
  destruct (Z.leb_spec (key x) (key y)).
  - constructor; [by constructor|]. constructor; [done|].
    eapply Forall_impl; [exact Hall|]. cbn. intros. lia.
  - constructor; [done|]. rewrite insert_by_key_Permutation. constructor; [lia|done].
Qed.

Lemma sort_by_key_sorted l : StronglySorted by_key (sort_by_key key l).
Proof. induction l; cbn; [constructor|]. by apply insert_by_key_sorted. Qed.

Lemma sort_by_key_id l : StronglySorted by_key l -> sort_by_key key l = l.
Proof.
  induction 1 as [|y l Hs IH Hall]; cbn; [done|].
  unfold sort_by_key in IH. rewrite IH.
  destruct Hall as [|z l Hz _]; cbn; [done|].
  by rewrite (proj2 (Z.leb_le _ _) Hz).
Qed.
End sorting.

Lemma windows2_cons2 {A} (x y : A) l : windows2 (x :: y :: l) = (x, y) :: windows2 (y :: l).
Proof. done. Qed.

(** A check on adjacent pairs is a check on all pairs when it composes. *)
Lemma windows2_StronglySorted {A} (R : A -> A -> Prop) `{!Transitive R} l :
  Forall (fun '(x, y) => R x y) (windows2 l) -> StronglySorted R l.
Proof.
  intros H. apply Sorted_StronglySorted; [intros ? ? ?; etransitivity; eauto|].
  induction l as [|x [|y l] IH]; [constructor|repeat constructor|].
  rewrite windows2_cons2 in H. apply Forall_cons in H as [Hxy H].
  constructor; [by apply IH|]. by constructor.
Qed.

(** ** Step relations *)

(** An invariant of every step holds in every reachable state. *)
Lemma rtc_invariant {S} (R : S -> S -> Prop) (I : S -> Prop) s s' :
  (forall s s', I s -> R s s' -> I s') -> rtc R s s' -> I s -> I s'.
Proof. intros Hstep. induction 1 as [|x y z Hxy _ IH]; [done|]. intros Hx. by eapply IH, Hstep. Qed.
