(* ===== verification/Types.v ===== *)
(** * Shared types of the workspace ([crates/vmi-types])

    Addresses, memory ranges, scalars, capabilities, errors and the
    provider/target descriptors every other component exchanges. *)

From S2P Require Import Prelude.

(** ** Addresses ([address.rs]): three distinct newtypes over [u64] *)

Module Gpa.
Record t : Type := new { raw : Z }.
End Gpa.

Module Gva.
Record t : Type := new { raw : Z }.
End Gva.

Module TranslationRoot.
Record t : Type := new { raw : Z }.
End TranslationRoot.

#[global] Instance Gpa_eq_dec : EqDecision Gpa.t.
Proof. solve_decision. Defined.
#[global] Instance Gva_eq_dec : EqDecision Gva.t.
Proof. solve_decision. Defined.
#[global] Instance TranslationRoot_eq_dec : EqDecision TranslationRoot.t.
Proof. solve_decision. Defined.

Definition gpa_display (a : Gpa.t) : string := hex (Gpa.raw a).
Definition gva_display (a : Gva.t) : string := hex (Gva.raw a).
Definition root_display (r : TranslationRoot.t) : string := hex (TranslationRoot.raw r).

Module MemoryRange.
Record t : Type := new { start : Gpa.t; length : Z }.

Definition end_ (r : t) : option Gpa.t :=
  Gpa.new <$> checked_add 64 (Gpa.raw (start r)) (length r).

Definition contains (r : t) (address : Gpa.t) : bool :=
  let start := Gpa.raw (start r) in
  let end_ := saturating_add 128 start (length r) in
  let value := Gpa.raw address in
  (start <=? value) && (value <? end_).
End MemoryRange.

#[global] Instance MemoryRange_eq_dec : EqDecision MemoryRange.t.
Proof. solve_decision. Defined.

(** ** Capabilities ([capability.rs]) *)

Module Capability.
Inductive t : Type :=
| MemoryRead | MemoryWrite | RegisterRead | RegisterWrite | Control
| Events | MemoryView | Acquisition | Lifecycle.

Definition ALL : list t :=
  [MemoryRead; MemoryWrite; RegisterRead; RegisterWrite; Control;
   Events; MemoryView; Acquisition; Lifecycle].

(** [1 << k], the flag constant of each capability. *)
Definition bit (c : t) : Z :=
  match c with
  | MemoryRead => Z.shiftl 1 0
  | MemoryWrite => Z.shiftl 1 1
  | RegisterRead => Z.shiftl 1 2
  | RegisterWrite => Z.shiftl 1 3
  | Control => Z.shiftl 1 4
  | Events => Z.shiftl 1 5
  | MemoryView => Z.shiftl 1 6
  | Acquisition => Z.shiftl 1 7
  | Lifecycle => Z.shiftl 1 8
  end.

Definition as_str (c : t) : string :=
  match c with
  | MemoryRead => "memory_read"
  | MemoryWrite => "memory_write"
  | RegisterRead => "register_read"
  | RegisterWrite => "register_write"
  | Control => "control"
  | Events => "events"
  | MemoryView => "memory_view"
  | Acquisition => "acquisition"
  | Lifecycle => "lifecycle"
  end.
End Capability.

#[global] Instance Capability_eq_dec : EqDecision Capability.t.
Proof. solve_decision. Defined.

(** The flag-set operations of the [bitflags] crate the code calls, with
    their documented meaning bit by bit; a set is its [u64] of bits. *)
Class Bitflags := {
  bf_empty : Z;
  bf_insert : Z -> Z -> Z;
  bf_union : Z -> Z -> Z;
  bf_difference : Z -> Z -> Z;
  bf_contains : Z -> Z -> bool;
  bf_intersects : Z -> Z -> bool;
  bf_is_empty : Z -> bool;
  bf_empty_spec : forall i, Z.testbit bf_empty i = false;
  bf_insert_spec : forall a b i,
    Z.testbit (bf_insert a b) i = Z.testbit a i || Z.testbit b i;
  bf_union_spec : forall a b i,
    Z.testbit (bf_union a b) i = Z.testbit a i || Z.testbit b i;
  bf_difference_spec : forall a b i,
    Z.testbit (bf_difference a b) i = Z.testbit a i && negb (Z.testbit b i);
  bf_contains_spec : forall a b, bf_contains a b = true <->
    (forall i, Z.testbit b i = true -> Z.testbit a i = true);
  bf_intersects_spec : forall a b, bf_intersects a b = true <->
    (exists i, Z.testbit a i = true /\ Z.testbit b i = true);
  bf_is_empty_spec : forall a, bf_is_empty a = true <->
    (forall i, Z.testbit a i = false);
}.

Module CapabilitySet.
Section ops.
Context `{Bitflags}.

Definition t : Type := Z.
Definition empty : Z := bf_empty.

Definition from_caps (caps : list Capability.t) : Z :=
  foldl (fun set cap => bf_insert set (Capability.bit cap)) bf_empty caps.

Definition contains_capability (s : Z) (c : Capability.t) : bool :=
  bf_contains s (Capability.bit c).

Definition insert_capability (s : Z) (c : Capability.t) : Z :=
  bf_insert s (Capability.bit c).

Definition difference_of (s other : Z) : Z := bf_difference s other.

Definition is_empty (s : Z) : bool := bf_is_empty s.

Definition iter_capabilities (s : Z) : list Capability.t :=
  filter (fun c => contains_capability s c = true) Capability.ALL.

Definition display (s : Z) : string :=
  match iter_capabilities s with
  | first :: rest =>
      foldl (fun acc cap => acc +:+ "," +:+ Capability.as_str cap)
        (Capability.as_str first) rest
  | [] => "<empty>"
  end.
End ops.
End CapabilitySet.

(** ** Errors ([error.rs]) *)

Module ScalarDecodeError.
Inductive t : Type := WrongWidth (expected actual : Z).

Definition display (e : t) : string :=
  match e with
  | WrongWidth expected actual => "expected " +:+ dec expected +:+ " bytes, got " +:+ dec actual
  end.
End ScalarDecodeError.

Module VmiErrorKind.
Inductive t : Type :=
| Attach | Capability | Unsupported | Read | Translation | Decode
| Timeout | Cancelled | Backend.
End VmiErrorKind.

Module VmiError.
Inductive t : Type :=
| AttachRejected (provider : string) (missing : Z)
| CapabilityMissing (provider : string) (capability : Capability.t)
| UnsupportedOperation (provider operation : string)
| ReadFailed (address length : Z)
| NonCanonicalAddress (address bits : Z)
| PageNotPresent (address level : Z)
| InvalidPageTableEntry (entry level : Z)
| ScalarDecode (e : ScalarDecodeError.t)
| Timeout (operation : string)
| Cancelled (operation : string)
| Backend (message : string).

Definition kind (e : t) : VmiErrorKind.t :=
  match e with
  | AttachRejected _ _ => VmiErrorKind.Attach
  | CapabilityMissing _ _ => VmiErrorKind.Capability
  | UnsupportedOperation _ _ => VmiErrorKind.Unsupported
  | ReadFailed _ _ => VmiErrorKind.Read
  | NonCanonicalAddress _ _ | PageNotPresent _ _ | InvalidPageTableEntry _ _ =>
      VmiErrorKind.Translation
  | ScalarDecode _ => VmiErrorKind.Decode
  | Timeout _ => VmiErrorKind.Timeout
  | Cancelled _ => VmiErrorKind.Cancelled
  | Backend _ => VmiErrorKind.Backend
  end.

(** The texts of the variants. *)
Definition display `{Bitflags} (e : t) : string :=
  match e with
  | AttachRejected provider missing =>
      "provider " +:+ provider +:+ " rejected attach because required capabilities are missing: "
        +:+ CapabilitySet.display missing
  | CapabilityMissing provider capability =>
      "provider " +:+ provider +:+ " does not expose capability " +:+ Capability.as_str capability
  | UnsupportedOperation provider operation =>
      "operation " +:+ operation +:+ " is not supported by provider " +:+ provider
  | ReadFailed address length => "read failed at " +:+ dec address +:+ " for " +:+ dec length +:+ " bytes"
  | NonCanonicalAddress address bits =>
      "virtual address " +:+ hex address +:+ " is not canonical for " +:+ dec bits +:+ "-bit addressing"
  | PageNotPresent address level =>
      "page-table entry is not present at level " +:+ dec level +:+ " for virtual address " +:+ hex address
  | InvalidPageTableEntry entry level =>
      "invalid page-table entry " +:+ hex entry +:+ " at level " +:+ dec level
  | ScalarDecode e => "scalar decode failed: " +:+ ScalarDecodeError.display e
  | Timeout operation => "operation " +:+ operation +:+ " timed out"
  | Cancelled operation => "operation " +:+ operation +:+ " was cancelled"
  | Backend message => "backend error: " +:+ message
  end.
End VmiError.

#[global] Instance ScalarDecodeError_eq_dec : EqDecision ScalarDecodeError.t.
Proof. solve_decision. Defined.
#[global] Instance VmiError_eq_dec : EqDecision VmiError.t.
Proof. solve_decision. Defined.
#[global] Instance VmiErrorKind_eq_dec : EqDecision VmiErrorKind.t.
Proof. solve_decision. Defined.

Abbreviation Result := (result VmiError.t).
Abbreviation Backend := VmiError.Backend.

(** ** Scalars ([primitive.rs]) *)

Module ByteOrder.
Inductive t : Type := LittleEndian | BigEndian.
End ByteOrder.

(** The [Scalar] trait: a width in bytes and the two decoders. *)
Module Scalar.
Class t : Type := impl {
  WIDTH : nat;
  from_le_bytes : list byte -> Z;
  from_be_bytes : list byte -> Z;
}.

(** Two's complement reading of an unsigned value of [w] bits. *)
Definition to_signed (w v : Z) : Z := if v <? 2 ^ (w - 1) then v else v - 2 ^ w.

Definition unsigned (n : nat) : t := impl n le_val be_val.
Definition signed (n : nat) : t :=
  impl n (fun bs => to_signed (8 * Z.of_nat n) (le_val bs))
    (fun bs => to_signed (8 * Z.of_nat n) (be_val bs)).

Definition u8 : t := unsigned 1.
Definition u16 : t := unsigned 2.
Definition u32 : t := unsigned 4.
Definition u64 : t := unsigned 8.
Definition u128 : t := unsigned 16.
Definition i8 : t := signed 1.
Definition i16 : t := signed 2.
Definition i32 : t := signed 4.
Definition i64 : t := signed 8.
Definition i128 : t := signed 16.
End Scalar.

Definition decode_scalar (T : Scalar.t) (bytes : list byte) (order : ByteOrder.t)
    : result ScalarDecodeError.t Z :=
  if negb (zlen bytes =? Z.of_nat Scalar.WIDTH) then
    Err (ScalarDecodeError.WrongWidth (Z.of_nat Scalar.WIDTH) (zlen bytes))
  else
    Ok (match order with
        | ByteOrder.LittleEndian => Scalar.from_le_bytes bytes
        | ByteOrder.BigEndian => Scalar.from_be_bytes bytes
        end).

(** ** Providers and targets ([provider.rs], [target.rs]) *)

Module ProviderMaturity.
Inductive t : Type := Supported | Preview | Experimental | CompileOnly.
End ProviderMaturity.

Module ProviderDescriptor.
Record t : Type := mk {
  id : string;
  display_name : string;
  version : option string;
  maturity : ProviderMaturity.t;
  capabilities : Z;
}.

Definition new (id display_name : string) (maturity : ProviderMaturity.t)
    (capabilities : Z) : t :=
  mk id display_name None maturity capabilities.
End ProviderDescriptor.

Module TargetSelector.
Inductive t : Type := Any | Named (name : string).
End TargetSelector.

Module AttachRequest.
Record t : Type := mk {
  selector : TargetSelector.t;
  required_capabilities : Z;
}.
Definition any (required : Z) : t := mk TargetSelector.Any required.
Definition named (name : string) (required : Z) : t :=
  mk (TargetSelector.Named name) required.
Definition default `{Bitflags} : t := any CapabilitySet.empty.
End AttachRequest.

Module GuestArchitecture.
Inductive t : Type := Amd64 | Aarch64 | Unknown.
End GuestArchitecture.

Module ConsistencyMode.
Inductive t : Type := LiveBestEffort | Paused | ImmutableSnapshot.
End ConsistencyMode.

Module TargetDescriptor.
Record t : Type := new {
  id : string;
  display_name : option string;
  architecture : GuestArchitecture.t;
  consistency : ConsistencyMode.t;
}.
End TargetDescriptor.

(** * Lemmas *)

Lemma exists_bit x : x <> 0 -> exists i, Z.testbit x i = true.
Proof.
  intros Hx. destruct (Z.lt_ge_cases 0 x).
  - exists (Z.log2 x). by apply Z.bit_log2.
  - exists (Z.log2 (Z.pred (- x)) + 1). apply Z.bits_above_log2_neg; lia.
Qed.

(** The plain [u64] implementation of the flag operations. *)
#[refine] Definition bitflags_u64 : Bitflags := {|
  bf_empty := 0;
  bf_insert := Z.lor;
  bf_union := Z.lor;
  bf_difference := Z.ldiff;
  bf_contains a b := Z.land a b =? b;
  bf_intersects a b := negb (Z.land a b =? 0);
  bf_is_empty a := a =? 0;
|}.
Proof.
  - apply Z.bits_0.
  - apply Z.lor_spec.
  - apply Z.lor_spec.
  - apply Z.ldiff_spec.
  - intros a b. rewrite Z.eqb_eq. split.
    + intros <- i. rewrite Z.land_spec. intros [? _]%andb_true_iff. done.
    + intros Hb. apply Z.bits_inj. intros i. rewrite Z.land_spec.
      specialize (Hb i). destruct (Z.testbit b i); [by rewrite Hb|apply andb_false_r].
  - intros a b. rewrite negb_true_iff, Z.eqb_neq. split.
    + intros (i & Hi)%exists_bit. exists i. by apply andb_true_iff; rewrite <- Z.land_spec.
    + intros (i & Ha & Hb) H0. pose proof (Z.land_spec a b i) as H.
      by rewrite H0, Z.bits_0, Ha, Hb in H.
  - intros a. rewrite Z.eqb_eq. split; [intros ->; apply Z.bits_0|].
    intros H. apply Z.bits_inj. intros i. by rewrite H, Z.bits_0.
Defined.

(** The bit position of a capability. *)
Definition capability_index (c : Capability.t) : Z :=
  match c with
  | Capability.MemoryRead => 0 | Capability.MemoryWrite => 1
  | Capability.RegisterRead => 2 | Capability.RegisterWrite => 3
  | Capability.Control => 4 | Capability.Events => 5
  | Capability.MemoryView => 6 | Capability.Acquisition => 7
  | Capability.Lifecycle => 8
  end.

Lemma capability_bit c i :
  Z.testbit (Capability.bit c) i = (i =? capability_index c).
Proof.
  assert (H : Capability.bit c = 2 ^ capability_index c) by (by destruct c).
  rewrite H, Z.pow2_bits_eqb by (by destruct c). apply Z.eqb_sym.
Qed.

Lemma capability_index_inj c d : capability_index c = capability_index d -> c = d.
Proof. by destruct c, d. Qed.

Section capabilities.
Context `{Bitflags}.

Lemma contains_capability_testbit s c :
  CapabilitySet.contains_capability s c = Z.testbit s (capability_index c).
Proof.
  apply eq_true_iff_eq. unfold CapabilitySet.contains_capability.
  rewrite bf_contains_spec. split.
  - intros Hb. apply Hb. by rewrite capability_bit, Z.eqb_refl.
  - intros Hs i. rewrite capability_bit, Z.eqb_eq. by intros ->.
Qed.

Lemma from_caps_testbit caps i :
  Z.testbit (CapabilitySet.from_caps caps) i = true <->
  exists c, c ∈ caps /\ capability_index c = i.
Proof.
  unfold CapabilitySet.from_caps.
  assert (G : forall s, Z.testbit (foldl (fun set cap => bf_insert set (Capability.bit cap)) s caps) i = true
    <-> Z.testbit s i = true \/ exists c, c ∈ caps /\ capability_index c = i).
  { induction caps as [|d caps IH]; intros s; cbn [foldl].
    - set_solver.
    - rewrite IH, bf_insert_spec, orb_true_iff, capability_bit, Z.eqb_eq. set_solver. }
  rewrite G, bf_empty_spec. naive_solver.
Qed.

(** Membership in a set built from a list is membership in the list. *)
Lemma from_caps_contains caps c :
  CapabilitySet.contains_capability (CapabilitySet.from_caps caps) c = true <-> c ∈ caps.
Proof.
  rewrite contains_capability_testbit, from_caps_testbit. split; [|eauto].
  by intros (d & Hd & ->%capability_index_inj).
Qed.

Lemma difference_contains s o c :
  CapabilitySet.contains_capability (CapabilitySet.difference_of s o) c =
  CapabilitySet.contains_capability s c && negb (CapabilitySet.contains_capability o c).
Proof. rewrite !contains_capability_testbit. apply bf_difference_spec. Qed.

(** The attach gate: nothing is missing iff every requested capability is offered. *)
Lemma nothing_missing_iff caps available :
  CapabilitySet.is_empty
    (CapabilitySet.difference_of (CapabilitySet.from_caps caps) available) = true <->
  Forall (fun c => CapabilitySet.contains_capability available c = true) caps.
Proof.
  unfold CapabilitySet.is_empty, CapabilitySet.difference_of.
  rewrite bf_is_empty_spec, Forall_forall. split.
  - intros Hempty c Hc. specialize (Hempty (capability_index c)).
    rewrite contains_capability_testbit. rewrite bf_difference_spec in Hempty.
    assert (Z.testbit (CapabilitySet.from_caps caps) (capability_index c) = true) as Hr
      by (apply from_caps_testbit; eauto).
    rewrite Hr in Hempty. by destruct (Z.testbit available _).
  - intros Hall i. rewrite bf_difference_spec. apply andb_false_iff.
    destruct (Z.testbit (CapabilitySet.from_caps caps) i) eqn:E; [right|by left].
    apply from_caps_testbit in E as (c & Hc & <-). apply negb_false_iff.
    rewrite <- contains_capability_testbit. by apply Hall.
Qed.

(** Iteration lists the members in declaration order, without repetition. *)
Lemma iter_capabilities_from_caps caps :
  CapabilitySet.iter_capabilities (CapabilitySet.from_caps caps) =
  filter (fun c => c ∈ caps) Capability.ALL.
Proof.
  unfold CapabilitySet.iter_capabilities. apply list_filter_iff. apply from_caps_contains.
Qed.
End capabilities.

(** ** Memory ranges *)

Lemma contains_spec r a :
  in_u64 (Gpa.raw (MemoryRange.start r)) -> in_u64 (MemoryRange.length r) ->
  MemoryRange.contains r a = true <->
  Gpa.raw (MemoryRange.start r) <= Gpa.raw a
    < Gpa.raw (MemoryRange.start r) + MemoryRange.length r.
Proof.
  unfold MemoryRange.contains, saturating_add, in_width. intros Hs Hl.
  rewrite Z.min_l by lia. rewrite andb_true_iff, Z.leb_le, Z.ltb_lt. lia.
Qed.

(** ** Scalars *)

Lemma to_signed_wrap w v :
  0 < w -> - 2 ^ (w - 1) <= v < 2 ^ (w - 1) -> Scalar.to_signed w (v mod 2 ^ w) = v.
Proof.
  intros Hw Hv. unfold Scalar.to_signed.
  assert (E : 2 ^ w = 2 * 2 ^ (w - 1)) by (rewrite <- Z.pow_succ_r by lia; f_equal; lia).
  destruct (Z.lt_ge_cases v 0).
  - replace (v mod 2 ^ w) with (v + 2 ^ w).
    + destruct (Z.ltb_spec (v + 2 ^ w) (2 ^ (w - 1))); lia.
    + rewrite <- (Z.mod_add v 1) by lia. rewrite Z.mod_small by lia. lia.
  - rewrite Z.mod_small by lia. destruct (Z.ltb_spec v (2 ^ (w - 1))); lia.
Qed.

(** The bytes [to_le_bytes]/[to_be_bytes] of an [n]-byte value. *)
Definition encode_scalar (n : nat) (order : ByteOrder.t) (v : Z) : list byte :=
  match order with
  | ByteOrder.LittleEndian => le_bytes n v
  | ByteOrder.BigEndian => reverse (le_bytes n v)
  end.

Lemma zlen_encode_scalar n order v : zlen (encode_scalar n order v) = Z.of_nat n.
Proof.
  unfold zlen. destruct order; cbn [encode_scalar]; by rewrite ?length_reverse, length_le_bytes.
Qed.

Lemma decode_encode_unsigned n order v :
  decode_scalar (Scalar.unsigned n) (encode_scalar n order v) order
  = Ok (v mod 2 ^ (8 * Z.of_nat n)).
Proof.
  unfold decode_scalar. rewrite zlen_encode_scalar.
  cbn [Scalar.unsigned Scalar.signed Scalar.WIDTH Scalar.from_le_bytes Scalar.from_be_bytes].
  rewrite Z.eqb_refl. cbn [negb]. f_equal.
  destruct order; cbn [encode_scalar]; unfold be_val;
    rewrite ?reverse_involutive; apply le_val_bytes.
Qed.

Lemma decode_encode_signed n order v :
  decode_scalar (Scalar.signed n) (encode_scalar n order v) order
  = Ok (Scalar.to_signed (8 * Z.of_nat n) (v mod 2 ^ (8 * Z.of_nat n))).
Proof.
  unfold decode_scalar. rewrite zlen_encode_scalar.
  cbn [Scalar.unsigned Scalar.signed Scalar.WIDTH Scalar.from_le_bytes Scalar.from_be_bytes].
  rewrite Z.eqb_refl. cbn [negb]. f_equal.
  destruct order; cbn [encode_scalar]; unfold be_val;
    rewrite ?reverse_involutive, le_val_bytes; done.
Qed.

(** * Properties *)

(** Every scalar type decodes, in either byte order, exactly the value
    that was encoded, and any other byte count is refused with both widths. *)
Theorem decode_scalar_roundtrip (n : nat) (order : ByteOrder.t) (v : Z) (bytes : list byte)
    (Hn : (0 < n)%nat) :
  (0 <= v < 2 ^ (8 * Z.of_nat n) ->
   decode_scalar (Scalar.unsigned n) (encode_scalar n order v) order = Ok v) /\
  (- 2 ^ (8 * Z.of_nat n - 1) <= v < 2 ^ (8 * Z.of_nat n - 1) ->
   decode_scalar (Scalar.signed n) (encode_scalar n order v) order = Ok v) /\
  (length bytes <> n ->
   decode_scalar (Scalar.unsigned n) bytes order =
     Err (ScalarDecodeError.WrongWidth (Z.of_nat n) (zlen bytes))).
Proof.
  split; [|split].
  - intros Hv. by rewrite decode_encode_unsigned, Z.mod_small.
  - intros Hv. rewrite decode_encode_signed, to_signed_wrap by lia. done.
  - intros Hl. unfold decode_scalar, zlen. cbn.
    destruct (Z.eqb_spec (Z.of_nat (length bytes)) (Z.of_nat n)); [lia|done].
Qed.

Lemma decode_scalar_roundtrip_witness :
  decode_scalar Scalar.u16 [x34; x12] ByteOrder.LittleEndian = Ok 0x1234 /\
  decode_scalar Scalar.u16 (encode_scalar 2 ByteOrder.BigEndian 0x1234) ByteOrder.BigEndian = Ok 0x1234.
Proof.
  split; [reflexivity|].
  destruct (decode_scalar_roundtrip 2 ByteOrder.BigEndian 0x1234 [] ltac:(lia)) as [H _].
  apply H. split; reflexivity || discriminate.
Defined.

(** A memory range contains exactly the half-open interval from its
    start, also at the top of the address space where its end does not fit
    [u64]; [end] is the first address past it when there is one. *)
Theorem memory_range_half_open (r : MemoryRange.t) (a : Gpa.t)
    (Hs : in_u64 (Gpa.raw (MemoryRange.start r)))
    (Hl : in_u64 (MemoryRange.length r)) (Ha : in_u64 (Gpa.raw a)) :
  (MemoryRange.contains r a = true <->
   Gpa.raw (MemoryRange.start r) <= Gpa.raw a
     < Gpa.raw (MemoryRange.start r) + MemoryRange.length r) /\
  match MemoryRange.end_ r with
  | Some e => Gpa.raw e = Gpa.raw (MemoryRange.start r) + MemoryRange.length r
  | None => MemoryRange.contains r a = true <-> Gpa.raw (MemoryRange.start r) <= Gpa.raw a
  end.
Proof.
  rewrite contains_spec by done. split; [done|].
  unfold MemoryRange.end_. destruct (checked_add _ _ _) as [e|] eqn:E;
    cbn [fmap option_fmap option_map].
  - by apply checked_add_Some in E as [-> _].
  - unfold checked_add in E. unfold in_width in *.
    destruct (Z.ltb_spec (Gpa.raw (MemoryRange.start r) + MemoryRange.length r) (2 ^ 64)); [done|].
    rewrite contains_spec by done. lia.
Qed.

Lemma memory_range_half_open_witness :
  MemoryRange.contains (MemoryRange.new (Gpa.new u64_max) 1) (Gpa.new u64_max) = true.
Proof.
  apply (memory_range_half_open (MemoryRange.new (Gpa.new u64_max) 1) (Gpa.new u64_max));
    [width_const..|]. vm_compute. intuition discriminate.
Defined.

(** A capability set built from a list has exactly the listed members,
    iterates them once each in declaration order, and the set difference
    the attach check computes is empty iff every requested capability is
    available. *)
Theorem capability_set_membership `{Bitflags} (caps : list Capability.t) (available : Z) :
  (forall c, CapabilitySet.contains_capability (CapabilitySet.from_caps caps) c = true
     <-> c ∈ caps) /\
  CapabilitySet.iter_capabilities (CapabilitySet.from_caps caps)
    = filter (fun c => c ∈ caps) Capability.ALL /\
  (CapabilitySet.is_empty
     (CapabilitySet.difference_of (CapabilitySet.from_caps caps) available) = true <->
   Forall (fun c => CapabilitySet.contains_capability available c = true) caps).
Proof.
  split; [intros c; apply from_caps_contains|].
  split; [apply iter_capabilities_from_caps|apply nothing_missing_iff].
Qed.

Lemma capability_set_membership_witness :
  @CapabilitySet.iter_capabilities bitflags_u64
    (@CapabilitySet.from_caps bitflags_u64 [Capability.Control; Capability.MemoryRead])
  = [Capability.MemoryRead; Capability.Control].
Proof.
  rewrite (proj1 (proj2 (@capability_set_membership bitflags_u64
    [Capability.Control; Capability.MemoryRead] 0))). vm_compute. reflexivity.
Defined.
