(* ===== verification/DriverApi.v ===== *)
(** * The provider contract ([crates/vmi-driver-api])

    The facet traits of a provider session as records of operations over
    the provider's own state, cancellation, and the free functions that
    read and write through them. *)

From S2P Require Import Prelude.
From S2P Require Import Types.

(** [MemoryAccess::read_into(&self, address, buffer)]: the buffer comes
    back with whatever the read left in it, also after an error. *)
Record MemoryAccess (S : Type) : Type := {
  read_into : S -> Gpa.t -> list byte -> Result unit * list byte;
}.
Arguments read_into {S} m.

(** [&dyn MemoryAccess] at one moment of its provider. *)
Definition Reader : Type := Gpa.t -> list byte -> Result unit * list byte.

Record MemoryWriteAccess (S : Type) : Type := {
  write : S -> Gpa.t -> list byte -> Result unit * S;
}.
Arguments write {S} m.

Record CpuAccess (S : Type) : Type := {
  read_register : S -> Z -> string -> Result Z * S;
  write_register : S -> Z -> string -> Z -> Result unit * S;
}.
Arguments read_register {S} c.
Arguments write_register {S} c.

Module ExecutionState.
Inductive t : Type := Running | Paused | Shutdown | Unknown.
End ExecutionState.

Record ControlAccess (S : Type) : Type := {
  execution_state : S -> Result ExecutionState.t * S;
  pause : S -> Result unit * S;
  resume : S -> Result unit * S;
}.
Arguments execution_state {S} c.
Arguments pause {S} c.
Arguments resume {S} c.

Record VmiEvent : Type := MkVmiEvent {
  ev_kind : string;
  ev_vcpu : option Z;
  ev_address : option Gpa.t;
}.

(** A [Duration] is a number of nanoseconds. *)
Record EventAccess (S : Type) : Type := {
  next_event : S -> Z -> Result (option VmiEvent) * S;
}.
Arguments next_event {S} e.

Record ViewAccess (S : Type) : Type := {
  active_view : S -> Result Z * S;
  switch_view : S -> Z -> Result unit * S;
}.
Arguments active_view {S} v.
Arguments switch_view {S} v.

(** Acquisition writes files: the provider's state holds the file system. *)
Record AcquisitionAccess (S : Type) : Type := {
  save_physical_range : S -> string -> Gpa.t -> Z -> Result unit * S;
  save_snapshot : S -> string -> Result unit * S;
}.
Arguments save_physical_range {S} a.
Arguments save_snapshot {S} a.

Module LifecycleEvent.
Inductive t : Type :=
| Reconnected (gen : Z)
| Rebooted (gen : Z)
| MemoryTopologyChanged (gen : Z)
| Destroyed (gen : Z).

Definition generation (e : t) : Z :=
  match e with
  | Reconnected g | Rebooted g | MemoryTopologyChanged g | Destroyed g => g
  end.
End LifecycleEvent.

Record TargetLifecycle (S : Type) : Type := {
  generation : S -> Z;
  next_lifecycle_event : S -> Z -> Result (option LifecycleEvent.t) * S;
}.
Arguments generation {S} t.
Arguments next_lifecycle_event {S} t.

(** ** Cancellation

    A token is a shared flag that only ever goes up; a check sees its value
    at that moment, so an operation with two checks takes two values. *)
Module CancellationToken.
Definition check (cancelled : bool) (operation : string) : Result unit :=
  if cancelled then Err (VmiError.Cancelled operation) else Ok tt.
End CancellationToken.

Definition read_into_cancellable {S} (m : MemoryAccess S) (s : S) (address : Gpa.t)
    (buffer : list byte) (before after : bool) : Result unit * list byte :=
  match CancellationToken.check before "memory read" with
  | Err e => (Err e, buffer)
  | Ok _ =>
      match read_into m s address buffer with
      | (Err e, buffer') => (Err e, buffer')
      | (Ok _, buffer') => (CancellationToken.check after "memory read", buffer')
      end
  end.

Definition next_event_cancellable {S} (ev : EventAccess S) (s : S) (timeout : Z)
    (before after : bool) : Result (option VmiEvent) * S :=
  match CancellationToken.check before "event wait" with
  | Err e => (Err e, s)
  | Ok _ =>
      match next_event ev s timeout with
      | (Err e, s') => (Err e, s')
      | (Ok event, s') =>
          (let? _ := CancellationToken.check after "event wait" in Ok event, s')
      end
  end.

Definition save_physical_range_cancellable {S} (a : AcquisitionAccess S) (s : S)
    (path : string) (start : Gpa.t) (length : Z) (before after : bool)
    : Result unit * S :=
  match CancellationToken.check before "physical range acquisition" with
  | Err e => (Err e, s)
  | Ok _ =>
      match save_physical_range a s path start length with
      | (Err e, s') => (Err e, s')
      | (Ok _, s') => (CancellationToken.check after "physical range acquisition", s')
      end
  end.

Definition save_snapshot_cancellable {S} (a : AcquisitionAccess S) (s : S)
    (path : string) (before after : bool) : Result unit * S :=
  match CancellationToken.check before "snapshot acquisition" with
  | Err e => (Err e, s)
  | Ok _ =>
      match save_snapshot a s path with
      | (Err e, s') => (Err e, s')
      | (Ok _, s') => (CancellationToken.check after "snapshot acquisition", s')
      end
  end.

(** ** Sessions and connectors *)

(** [dyn Session]: the descriptors and one accessor per facet. *)
Record Session (S : Type) : Type := {
  provider : ProviderDescriptor.t;
  target : TargetDescriptor.t;
  capabilities : Z;
  memory : Result (MemoryAccess S);
  memory_write : Result (MemoryWriteAccess S);
  cpu : Result (CpuAccess S);
  control : Result (ControlAccess S);
  events : Result (EventAccess S);
  views : Result (ViewAccess S);
  acquisition : Result (AcquisitionAccess S);
  lifecycle : Result (TargetLifecycle S);
}.
Arguments provider {S} s.
Arguments target {S} s.
Arguments capabilities {S} s.
Arguments memory {S} s.
Arguments memory_write {S} s.
Arguments cpu {S} s.
Arguments control {S} s.
Arguments events {S} s.
Arguments views {S} s.
Arguments acquisition {S} s.
Arguments lifecycle {S} s.

(** [dyn Connector]: a session comes with the state it starts in. *)
Record Connector (S : Type) : Type := {
  descriptor : ProviderDescriptor.t;
  connect : AttachRequest.t -> Result (Session S * S);
}.
Arguments descriptor {S} c.
Arguments connect {S} c.

Section api.
Context `{Allocator}.

Definition missing_capability (provider_id : string) (capability : Capability.t)
    : Result VmiError.t :=
  let? _ := map_err (fun error =>
      Backend ("failed to allocate missing-capability provider ID: " +:+ error))
    (try_reserve "missing-capability provider ID" (Z.of_nat (String.length provider_id))) in
  Ok (VmiError.CapabilityMissing provider_id capability).

(** The default body of every facet accessor, [Err(missing_capability(..)?)]. *)
Definition default_facet {A} (provider_id : string) (capability : Capability.t) : Result A :=
  let? e := missing_capability provider_id capability in Err e.

(** The defaults of the trait, for a provider that overrides none. *)
Definition default_session {S} (p : ProviderDescriptor.t) (t : TargetDescriptor.t)
    (caps : Z) : Session S := {|
  provider := p;
  target := t;
  capabilities := caps;
  memory := default_facet (ProviderDescriptor.id p) Capability.MemoryRead;
  memory_write := default_facet (ProviderDescriptor.id p) Capability.MemoryWrite;
  cpu := default_facet (ProviderDescriptor.id p) Capability.RegisterRead;
  control := default_facet (ProviderDescriptor.id p) Capability.Control;
  events := default_facet (ProviderDescriptor.id p) Capability.Events;
  views := default_facet (ProviderDescriptor.id p) Capability.MemoryView;
  acquisition := default_facet (ProviderDescriptor.id p) Capability.Acquisition;
  lifecycle := default_facet (ProviderDescriptor.id p) Capability.Lifecycle;
|}.

Definition allocate_read_buffer (length : Z) : Result (list byte) :=
  let? _ := map_err (fun error =>
      Backend ("failed to allocate " +:+ dec length +:+ "-byte read buffer: " +:+ error))
    (try_reserve "read buffer" length) in
  Ok (replicate (Z.to_nat length) x00).

Definition read_bytes (memory : Reader) (address : Gpa.t) (length : Z)
    : Result (list byte) :=
  let? buffer := allocate_read_buffer length in
  match memory address buffer with
  | (Ok _, buffer') => Ok buffer'
  | (Err e, _) => Err e
  end.

Definition read_scalar (T : Scalar.t) (memory : Reader) (address : Gpa.t) (order : ByteOrder.t) : Result Z :=
  let? buffer := allocate_read_buffer (Z.of_nat Scalar.WIDTH) in
  match memory address buffer with
  | (Ok _, buffer') => map_err VmiError.ScalarDecode (decode_scalar T buffer' order)
  | (Err e, _) => Err e
  end.

Definition write_bytes {S} (m : MemoryWriteAccess S) (s : S) (address : Gpa.t)
    (data : list byte) : Result unit * S :=
  write m s address data.
End api.

(** The contract of a memory: it holds at most one byte per address, and a
    read succeeds exactly when every byte asked for is there, returning
    those bytes; a buffer never changes its length, and no slice is longer
    than [isize::MAX]. *)
Class ByteMemory (memory : Reader) (byte_at : Z -> option byte) : Prop := {
  byte_memory_ok : forall address buffer buffer',
    zlen buffer <= isize_max -> memory address buffer = (Ok tt, buffer') ->
    length buffer' = length buffer /\
    forall i, (i < length buffer)%nat ->
      byte_at (Gpa.raw address + Z.of_nat i) = buffer' !! i;
  byte_memory_read : forall address buffer bytes,
    length bytes = length buffer -> zlen buffer <= isize_max ->
    (forall i, (i < length bytes)%nat ->
       byte_at (Gpa.raw address + Z.of_nat i) = bytes !! i) ->
    memory address buffer = (Ok tt, bytes);
}.

(** A memory of aligned 64-bit words, for concrete page tables. *)
Definition words_reader (words : list (Z * Z)) : Reader := fun address buffer =>
  match find (fun w => fst w =? Gpa.raw address) words with
  | Some (_, value) =>
      if (length buffer =? 8)%nat then (Ok tt, le_bytes 8 value)
      else (Err (VmiError.ReadFailed (Gpa.raw address) (zlen buffer)), buffer)
  | None => (Err (VmiError.ReadFailed (Gpa.raw address) (zlen buffer)), buffer)
  end.

(** * Lemmas *)

Section api_lemmas.
Context `{Allocator}.

Lemma allocate_read_buffer_Ok n b :
  allocate_read_buffer n = Ok b -> b = replicate (Z.to_nat n) x00 /\ n <= isize_max.
Proof.
  unfold allocate_read_buffer, try_reserve. destruct (alloc_ok _ _) eqn:E; cbn; [|done].
  intros [= <-]. split; [done|]. destruct (Z.le_gt_cases n isize_max) as [?|Hgt]; [done|].
  by rewrite alloc_limit in E.
Qed.

(** A scalar read yields a value of the scalar's width, whatever the memory does. *)
Lemma read_scalar_u64_range rd a order v :
  read_scalar Scalar.u64 rd a order = Ok v -> in_u64 v.
Proof.
  unfold read_scalar. intros Hr. inv_ok. destruct (rd a v0) as [[[]|e] b]; [|done].
  inv_ok. unfold decode_scalar in Hr. cbn [Scalar.u64 Scalar.unsigned Scalar.WIDTH] in Hr.
  destruct (Z.eqb_spec (zlen b) (Z.of_nat 8)) as [Hl|]; cbn [negb] in Hr; [|done].
  injection Hr as <-. unfold in_width. change (2 ^ 64) with (2 ^ (8 * Z.of_nat 8)).
  destruct order; cbn [Scalar.from_le_bytes Scalar.from_be_bytes];
    [|unfold be_val; replace (zlen b) with (zlen (reverse b)) in Hl
        by (unfold zlen; by rewrite length_reverse)]; rewrite <- Hl; apply le_val_range.
Qed.
End api_lemmas.

(** ** A memory given byte by byte *)

Fixpoint bytes_from (byte_at : Z -> option byte) (a : Z) (n : nat) : option (list byte) :=
  match n with
  | O => Some []
  | S n' =>
      match byte_at a, bytes_from byte_at (a + 1) n' with
      | Some b, Some bs => Some (b :: bs)
      | _, _ => None
      end
  end.

Definition memory_of (byte_at : Z -> option byte) : Reader := fun address buffer =>
  match bytes_from byte_at (Gpa.raw address) (length buffer) with
  | Some bs => (Ok tt, bs)
  | None => (Err (VmiError.ReadFailed (Gpa.raw address) (zlen buffer)), buffer)
  end.

(** Memory as patches, the newest first: every patch is an address and the
    bytes from there on. *)
Fixpoint patched_byte (patches : list (Z * list byte)) (a : Z) : option byte :=
  match patches with
  | [] => None
  | (start, bs) :: rest =>
      if (start <=? a) && (a <? start + zlen bs) then bs !! Z.to_nat (a - start)
      else patched_byte rest a
  end.

Definition patched_memory : MemoryAccess (list (Z * list byte)) :=
  {| read_into := fun patches => memory_of (patched_byte patches) |}.

Definition patched_memory_write : MemoryWriteAccess (list (Z * list byte)) :=
  {| write := fun patches address data =>
       match bytes_from (patched_byte patches) (Gpa.raw address) (length data) with
       | Some _ => (Ok tt, (Gpa.raw address, data) :: patches)
       | None => (Err (Backend "write outside memory"), patches)
       end |}.

Lemma bytes_from_Some byte_at a n bs :
  bytes_from byte_at a n = Some bs <->
  length bs = n /\ forall i, (i < n)%nat -> byte_at (a + Z.of_nat i) = bs !! i.
Proof.
  revert a bs. induction n as [|n IH]; intros a bs; cbn.
  - split; [intros [= <-]; split; [done|lia]|]. by intros [->%nil_length_inv _].
  - split.
    + destruct (byte_at a) as [b|] eqn:Hb; [|done].
      destruct (bytes_from byte_at (a + 1) n) as [bs'|] eqn:Hbs; [|done]. intros [= <-].
      apply IH in Hbs as [<- Hbs]. split; [done|]. intros [|i] Hi; [by rewrite Z.add_0_r|].
      cbn. rewrite <- Hbs by lia. f_equal. lia.
    + intros [Hl Hbs]. destruct bs as [|b bs]; [done|]. injection Hl as Hl.
      specialize (Hbs 0%nat) as Hb. rewrite Z.add_0_r in Hb. rewrite Hb by lia.
      assert (bytes_from byte_at (a + 1) n = Some bs) as ->; [|done].
      apply IH. split; [done|]. intros i Hi. trans (byte_at (a + Z.of_nat (S i))); [f_equal; lia|].
      exact (Hbs (S i) ltac:(lia)).
Qed.

#[export] Instance memory_of_bytes byte_at : ByteMemory (memory_of byte_at) byte_at.
Proof.
  split.
  - intros address buffer buffer' _. unfold memory_of.
    destruct (bytes_from _ _ _) as [bs|] eqn:Hbs; [|done]. intros [= <-].
    by apply bytes_from_Some in Hbs.
  - intros address buffer bytes Hl _ Hb. unfold memory_of.
    assert (bytes_from byte_at (Gpa.raw address) (length buffer) = Some bytes) as ->; [|done].
    apply bytes_from_Some. by rewrite <- Hl.
Qed.
