(* ===== verification/Arch.v ===== *)
(** * The translator contract ([crates/vmi-arch-api])

    [Translation] and the [AddressTranslator] trait, and the law a session
    relies on when it caches one translation per page. *)

From S2P Require Import Prelude.
From S2P Require Import Types.
From S2P Require Import DriverApi.

Module Translation.
Record t : Type := new { physical_address : Gpa.t; page_size : Z }.
End Translation.

#[global] Instance Translation_eq_dec : EqDecision Translation.t.
Proof. solve_decision. Defined.

Record AddressTranslator : Type := {
  cache_tag : Z;
  translate : Reader -> TranslationRoot.t -> Gva.t -> Result Translation.t;
}.

(** The page an address lies in, and its offset there. *)
Definition page_base (va : Z) : Z := 2 ^ 12 * (va / 2 ^ 12).
Definition page_offset (va : Z) : Z := va mod 2 ^ 12.

(** What the page cache of a session needs from a translator: inside a
    4 KiB page the translation is linear, and it fails for the page if it
    fails for an address of the page, with an error of the same kind. *)
Class PageLinear (tr : AddressTranslator) : Prop :=
  page_linear : forall memory root va, in_u64 va ->
    match translate tr memory root (Gva.new (page_base va)) with
    | Ok t =>
        translate tr memory root (Gva.new va) =
          Ok (Translation.new
                (Gpa.new (Gpa.raw (Translation.physical_address t) + page_offset va))
                (Translation.page_size t)) /\
        0 <= Gpa.raw (Translation.physical_address t) /\
        Gpa.raw (Translation.physical_address t) + page_offset va < 2 ^ 64
    | Err e => exists e', translate tr memory root (Gva.new va) = Err e' /\
                          VmiError.kind e' = VmiError.kind e
    end.

(** ** Lemmas on pages *)

Lemma page_split va : page_base va + page_offset va = va.
Proof. unfold page_base, page_offset. pose proof (Z.div_mod va (2 ^ 12)). lia. Qed.

Lemma page_offset_range va : 0 <= page_offset va < 2 ^ 12.
Proof. apply Z.mod_pos_bound. lia. Qed.

Lemma page_base_u64 va : in_u64 va -> in_u64 (page_base va).
Proof. unfold in_width, page_base. intros. pose proof (Z.div_mod va (2 ^ 12)). pose proof (page_offset_range va). unfold page_offset in *. lia. Qed.

(** Bits above the page offset do not see the offset. *)
Lemma page_base_shift va n : 12 <= n -> page_base va / 2 ^ n = va / 2 ^ n.
Proof.
  intros Hn. unfold page_base.
  replace n with (12 + (n - 12)) by lia. rewrite Z.pow_add_r, <- !Z.div_div by lia.
  f_equal. rewrite Z.mul_comm, Z.div_mul by lia. done.
Qed.

Lemma page_base_mod va n : 12 <= n -> page_base va mod 2 ^ n + page_offset va = va mod 2 ^ n.
Proof.
  intros Hn. pose proof (page_split va). pose proof (page_base_shift va n Hn).
  pose proof (Z.div_mod va (2 ^ n)). pose proof (Z.div_mod (page_base va) (2 ^ n)). lia.
Qed.

(** Joining a frame with an in-page offset of size [2 ^ n]. *)
Lemma frame_join base va n :
  0 <= n -> base mod 2 ^ n = 0 -> Z.lor base (va mod 2 ^ n) = base + va mod 2 ^ n.
Proof. intros. apply lor_add with n; [done|done|]. apply Z.mod_pos_bound. lia. Qed.
