(* ===== verification/Amd64.v ===== *)
(** * AMD64 address translation ([crates/vmi-arch-amd64])

    The four- and five-level page walk with 4 KiB, 2 MiB and 1 GiB leaves,
    an arithmetic reference walk it refines, and the bounds of its results. *)

From S2P Require Import Prelude.
From S2P Require Import Types.
From S2P Require Import DriverApi.
From S2P Require Import Arch.

Module Amd64.

Definition PRESENT : Z := 1.
Definition LARGE : Z := Z.shiftl 1 7.
Definition ADDRESS_MASK : Z := 0x000ffffffffff000.

Definition is_canonical (address bits : Z) : bool :=
  match (value ← checked_shl 64 1 bits; checked_sub value 1) with
  | None => false
  | Some low_mask =>
      match checked_sub bits 1 with
      | None => false
      | Some sign_shift =>
          match checked_shl 64 1 sign_shift with
          | None => false
          | Some sign_bit =>
              let expected_upper :=
                if Z.land address sign_bit =? 0 then 0 else wnot 64 low_mask in
              Z.land address (wnot 64 low_mask) =? expected_upper
          end
      end
  end.

Section walk.
Context `{Allocator}.

(** The [for] loop over [shifts.iter().copied().enumerate()]: [shifts] is
    what is left of the list of length [count] from [position] on. *)
Fixpoint levels_loop (memory : Reader) (va count position : Z) (shifts : list Z)
    (table : Z) : Result Translation.t :=
  match shifts with
  | [] => Err (Backend "AMD64 translation level list is empty")
  | shift :: rest =>
      let? remaining := ok_or (checked_sub count position)
        (Backend "AMD64 translation level underflow") in
      let? level := ok_or (try_width 8 remaining)
        (Backend "AMD64 translation level overflow") in
      let index := Z.land (Z.shiftr va shift) 0x1ff in
      let? entry_offset := ok_or (checked_mul 64 index 8)
        (Backend "AMD64 page-table entry offset overflow") in
      let? entry_address := ok_or (checked_add 64 table entry_offset)
        (Backend "AMD64 page-table entry address overflow") in
      let? entry := read_scalar Scalar.u64 memory (Gpa.new entry_address)
        ByteOrder.LittleEndian in
      if Z.land entry PRESENT =? 0 then Err (VmiError.PageNotPresent va level)
      else if negb (Z.land entry LARGE =? 0) && (3 <? level) then
        Err (VmiError.InvalidPageTableEntry entry level)
      else if (level =? 3) && negb (Z.land entry LARGE =? 0) then
        Ok (Translation.new
              (Gpa.new (Z.lor (Z.land entry 0x000fffffc0000000) (Z.land va 0x3fffffff)))
              (Z.shiftl 1 30))
      else if (level =? 2) && negb (Z.land entry LARGE =? 0) then
        Ok (Translation.new
              (Gpa.new (Z.lor (Z.land entry 0x000fffffffe00000) (Z.land va 0x1fffff)))
              (Z.shiftl 1 21))
      else if level =? 1 then
        if negb (Z.land entry LARGE =? 0) then
          Err (VmiError.InvalidPageTableEntry entry level)
        else
          Ok (Translation.new
                (Gpa.new (Z.lor (Z.land entry ADDRESS_MASK) (Z.land va 0xfff)))
                (Z.shiftl 1 12))
      else levels_loop memory va count (position + 1) rest (Z.land entry ADDRESS_MASK)
  end.

Definition translate_levels (memory : Reader) (root : TranslationRoot.t)
    (address : Gva.t) (address_bits : Z) (shifts : list Z) : Result Translation.t :=
  let va := Gva.raw address in
  if negb (is_canonical va address_bits) then
    Err (VmiError.NonCanonicalAddress va address_bits)
  else
    levels_loop memory va (zlen shifts) 0 shifts
      (Z.land (TranslationRoot.raw root) ADDRESS_MASK).

Definition Amd64Translator : AddressTranslator := {|
  cache_tag := 0x414d4436345f3438;
  translate memory root address :=
    translate_levels memory root address 48 [39; 30; 21; 12];
|}.

Definition Amd64La57Translator : AddressTranslator := {|
  cache_tag := 0x414d4436345f3537;
  translate memory root address :=
    translate_levels memory root address 57 [48; 39; 30; 21; 12];
|}.
End walk.
End Amd64.

(** * The reference walk: the tables read as arithmetic on 9-bit indices *)

Module Amd64Spec.
Section spec.
Context `{Allocator}.

(** Canonical: the sign extension of the low [bits] bits. *)
Definition canonical (address bits : Z) : bool :=
  (1 <=? bits) && (bits <=? 63) &&
  ((address <? 2 ^ (bits - 1)) || (2 ^ 64 - 2 ^ (bits - 1) <=? address)).

(** The span of one entry of a level-[j+1] table. *)
Definition span (j : nat) : Z := 2 ^ (12 + 9 * Z.of_nat j).

Definition frame (entry size : Z) : Z := size * ((entry mod 2 ^ 52) / size).

Fixpoint walk (memory : Reader) (levels : nat) (table va : Z) : Result Translation.t :=
  match levels with
  | O => Err (Backend "AMD64 translation level list is empty")
  | S j =>
      let level := Z.of_nat levels in
      let? entry := read_scalar Scalar.u64 memory
        (Gpa.new (table + 8 * ((va / span j) mod 512))) ByteOrder.LittleEndian in
      if negb (Z.testbit entry 0) then Err (VmiError.PageNotPresent va level)
      else if Z.testbit entry 7 then
        if (level =? 2) || (level =? 3) then
          Ok (Translation.new (Gpa.new (frame entry (span j) + va mod span j)) (span j))
        else Err (VmiError.InvalidPageTableEntry entry level)
      else if level =? 1 then
        Ok (Translation.new (Gpa.new (frame entry (span j) + va mod span j)) (span j))
      else walk memory j (frame entry (2 ^ 12)) va
  end.

Definition translate (memory : Reader) (bits : Z) (levels : nat)
    (root : TranslationRoot.t) (address : Gva.t) : Result Translation.t :=
  if canonical (Gva.raw address) bits then
    walk memory levels (frame (TranslationRoot.raw root) (2 ^ 12)) (Gva.raw address)
  else Err (VmiError.NonCanonicalAddress (Gva.raw address) bits).
End spec.
End Amd64Spec.

(** * Lemmas *)

Import Amd64 Amd64Spec.

Fixpoint level_shifts (levels : nat) : list Z :=
  match levels with
  | O => []
  | S j => 12 + 9 * Z.of_nat j :: level_shifts j
  end.

Lemma is_canonical_spec a bits :
  in_u64 a -> 0 <= bits < 256 -> is_canonical a bits = canonical a bits.
Proof.
  intros Ha Hb. unfold is_canonical, canonical.
  destruct (Z.leb_spec 1 bits) as [H1|H1].
  2:{ assert (bits = 0) as -> by lia. done. }
  destruct (Z.leb_spec bits 63) as [H2|H2].
  2:{ unfold checked_shl. destruct (Z.ltb_spec bits 64); [lia|done]. }
  unfold checked_shl at 1. destruct (Z.ltb_spec bits 64); [|lia]. cbn [mbind option_bind].
  rewrite Z.shiftl_1_l, Z.mod_small by (split; [lia|apply Z.pow_lt_mono_r; lia]).
  rewrite checked_sub_fits by (pose proof (Z.pow_pos_nonneg 2 bits); lia).
  rewrite checked_sub_fits by lia.
  unfold checked_shl. destruct (Z.ltb_spec (bits - 1) 64); [|lia].
  rewrite Z.shiftl_1_l, Z.mod_small by (split; [lia|apply Z.pow_lt_mono_r; lia]).
  rewrite land_pow2_eqb, <- ones_eq, land_wnot, wnot_ones, ldiff_ones_div by first [done|lia].
  cbn [andb]. apply eq_true_iff_eq. rewrite orb_true_iff, Z.ltb_lt, Z.leb_le.
  apply sign_extended_iff; [lia|done].
Qed.

Section lemmas.
Context `{Allocator}.

Lemma land_1_testbit e : (Z.land e PRESENT =? 0) = negb (Z.testbit e 0).
Proof. change PRESENT with (2 ^ 0). by apply land_pow2_eqb. Qed.
Lemma land_LARGE_testbit e : (Z.land e LARGE =? 0) = negb (Z.testbit e 7).
Proof. change LARGE with (2 ^ 7). by apply land_pow2_eqb. Qed.

Lemma frame_mod e j m : 0 <= m <= j -> frame e (2 ^ j) mod 2 ^ m = 0.
Proof.
  intros. unfold frame. replace j with (m + (j - m)) at 1 by lia.
  rewrite Z.pow_add_r, <- Z.mul_assoc, Z.mul_comm by lia. apply Z.mod_mul. lia.
Qed.

Lemma frame_range e j : 0 <= j <= 52 -> 0 <= frame e (2 ^ j) /\ frame e (2 ^ j) + 2 ^ j <= 2 ^ 52.
Proof.
  intros. unfold frame. pose proof (Z.mod_pos_bound e (2 ^ 52)).
  assert (E : 2 ^ 52 = 2 ^ j * 2 ^ (52 - j)) by (rewrite <- Z.pow_add_r by lia; f_equal; lia).
  pose proof (Z.pow_pos_nonneg 2 j). pose proof (Z.pow_pos_nonneg 2 (52 - j)).
  assert (0 <= e mod 2 ^ 52 / 2 ^ j < 2 ^ (52 - j)).
  { split; [apply Z.div_pos; lia|]. apply Z.div_lt_upper_bound; lia. }
  nia.
Qed.

Lemma mask_frame e mask j :
  0 <= j <= 52 -> mask = Z.ldiff (Z.ones 52) (Z.ones j) -> Z.land e mask = frame e (2 ^ j).
Proof. intros ? ->. apply land_field. lia. Qed.

(** A leaf of span [2 ^ j]: frame and offset are joined by addition. *)
Lemma leaf_join e va mask omask j :
  0 <= j <= 52 -> mask = Z.ldiff (Z.ones 52) (Z.ones j) -> omask = Z.ones j ->
  Z.lor (Z.land e mask) (Z.land va omask) = frame e (2 ^ j) + va mod 2 ^ j.
Proof.
  intros Hj -> ->. rewrite (mask_frame e _ j Hj eq_refl), Z.land_ones by lia.
  apply frame_join; [lia|]. apply frame_mod. lia.
Qed.

Lemma levels_loop_walk memory va j count position table :
  (j <= 5)%nat -> count = position + Z.of_nat j -> in_u64 va -> 0 <= position ->
  0 <= table < 2 ^ 52 ->
  levels_loop memory va count position (level_shifts j) table = walk memory j table va.
Proof.
  intros Hj -> Hva Hpos. revert position table Hpos.
  induction j as [|j IH]; intros position table Hpos Ht; [done|].
  cbn [level_shifts levels_loop walk].
  rewrite checked_sub_fits by lia. cbn [ok_or mbind result_bind].
  rewrite try_width_fits by lia. cbn [ok_or mbind result_bind].
  change 0x1ff with (Z.ones 9). rewrite Z.land_ones, Z.shiftr_div_pow2 by lia.
  set (index := _ mod 2 ^ 9).
  assert (0 <= index < 2 ^ 9) by (apply Z.mod_pos_bound; lia).
  rewrite checked_mul_fits by lia. cbn [ok_or mbind result_bind].
  rewrite checked_add_fits by lia. cbn [ok_or mbind result_bind].
  change 512 with (2 ^ 9). fold (span j). rewrite (Z.mul_comm index 8).
  set (rd := read_scalar Scalar.u64 memory _ _).
  destruct rd as [e|err]; cbn [mbind result_bind]; [|done].
  replace (position + Z.of_nat (S j) - position) with (Z.of_nat (S j)) by lia.
  rewrite land_1_testbit, land_LARGE_testbit, negb_involutive.
  destruct (Z.testbit e 0); cbn [negb]; [|done].
  rewrite (leaf_join e va ADDRESS_MASK 0xfff 12), (mask_frame e ADDRESS_MASK 12),
    (leaf_join e va 0x000fffffc0000000 0x3fffffff 30),
    (leaf_join e va 0x000fffffffe00000 0x1fffff 21) by (lia || done).
  destruct (Z.testbit e 7); cbn [andb negb].
  - destruct j as [|[|[|[|[|j]]]]]; try lia; done.
  - rewrite !andb_false_r. destruct j as [|j]; [done|].
    destruct (Z.eqb_spec (Z.of_nat (S (S j))) 1) as [?|_]; [lia|].
    replace (position + Z.of_nat (S (S j))) with (position + 1 + Z.of_nat (S j)) by lia.
    apply IH; [lia..|]. pose proof (frame_range e 12). lia.
Qed.

(** Both translators are the reference walk, on every path and error. *)
Lemma translate_levels_spec memory root va bits j :
  (j <= 5)%nat -> in_u64 va -> 0 <= bits < 256 ->
  translate_levels memory root (Gva.new va) bits (level_shifts j) =
  Amd64Spec.translate memory bits j root (Gva.new va).
Proof.
  intros Hj Hva Hb. unfold translate_levels, Amd64Spec.translate. cbn [Gva.raw].
  rewrite is_canonical_spec by done.
  destruct (canonical va bits); cbn [negb]; [|done].
  rewrite (mask_frame _ ADDRESS_MASK 12) by (lia || done).
  apply levels_loop_walk; [done| |done|lia|].
  - unfold zlen. induction j as [|j IH]; [done|]. cbn [level_shifts length].
    rewrite Nat2Z.inj_succ. lia.
  - pose proof (frame_range (TranslationRoot.raw root) 12). lia.
Qed.

Lemma span_eq j : span j = 2 ^ (12 + 9 * Z.of_nat j).
Proof. done. Qed.

Lemma walk_linear memory j table va :
  (j <= 5)%nat ->
  match walk memory j table (page_base va) with
  | Ok t =>
      walk memory j table va =
        Ok (Translation.new
              (Gpa.new (Gpa.raw (Translation.physical_address t) + page_offset va))
              (Translation.page_size t)) /\
      0 <= Gpa.raw (Translation.physical_address t) /\
      Gpa.raw (Translation.physical_address t) + page_offset va < 2 ^ 64
  | Err e => exists e', walk memory j table va = Err e' /\
                        VmiError.kind e' = VmiError.kind e
  end.
Proof.
  intros Hj. revert table. induction j as [|j IH]; intros table; [eexists; eauto|].
  cbn [walk]. unfold span. rewrite page_base_shift by lia.
  set (rd := read_scalar _ _ _ _). destruct rd as [e|err]; cbn [mbind result_bind]; [|eauto].
  destruct (Z.testbit e 0); cbn [negb]; [|eexists; split; eauto].
  assert (Hleaf : (j < 3)%nat ->
    let t := Translation.new (Gpa.new (frame e (2 ^ (12 + 9 * Z.of_nat j))
      + page_base va mod 2 ^ (12 + 9 * Z.of_nat j))) (2 ^ (12 + 9 * Z.of_nat j)) in
    Gpa.raw (Translation.physical_address t) + page_offset va
      = frame e (2 ^ (12 + 9 * Z.of_nat j)) + va mod 2 ^ (12 + 9 * Z.of_nat j) /\
    0 <= Gpa.raw (Translation.physical_address t) /\
    Gpa.raw (Translation.physical_address t) + page_offset va < 2 ^ 64).
  { intros ?. cbn [Translation.physical_address Gpa.raw].
    pose proof (page_base_mod va (12 + 9 * Z.of_nat j)).
    pose proof (frame_range e (12 + 9 * Z.of_nat j)).
    pose proof (Z.mod_pos_bound (page_base va) (2 ^ (12 + 9 * Z.of_nat j))).
    pose proof (Z.mod_pos_bound va (2 ^ (12 + 9 * Z.of_nat j))).
    pose proof (Z.pow_pos_nonneg 2 (12 + 9 * Z.of_nat j)). lia. }
  destruct (Z.testbit e 7).
  - destruct ((_ =? 2) || _) eqn:El; [|eexists; split; eauto].
    destruct Hleaf as (-> & ? & ?); [|by auto].
    apply orb_true_iff in El as [El|El]; apply Z.eqb_eq in El; lia.
  - destruct (Z.eqb_spec (Z.of_nat (S j)) 1); [|apply IH; lia].
    destruct Hleaf as (-> & ? & ?); [lia|by auto].
Qed.

Lemma canonical_page_base va bits :
  13 <= bits -> in_u64 va -> canonical (page_base va) bits = canonical va bits.
Proof.
  intros Hb Hva. unfold canonical.
  destruct (Z.leb_spec 1 bits), (Z.leb_spec bits 63); cbn [andb]; try done.
  pose proof (page_split va). pose proof (page_offset_range va).
  assert (E1 : 2 ^ (bits - 1) = 2 ^ 12 * 2 ^ (bits - 13))
    by (rewrite <- Z.pow_add_r by lia; f_equal; lia).
  assert (E2 : 2 ^ 64 = 2 ^ 12 * 2 ^ 52) by done.
  unfold page_base in *. set (q := va / 2 ^ 12) in *. clearbody q. rewrite E1, E2.
  apply eq_true_iff_eq. rewrite !orb_true_iff, !Z.ltb_lt, !Z.leb_le. nia.
Qed.

Lemma translate_linear memory root va bits j :
  (j <= 5)%nat -> 13 <= bits -> in_u64 va ->
  match Amd64Spec.translate memory bits j root (Gva.new (page_base va)) with
  | Ok t =>
      Amd64Spec.translate memory bits j root (Gva.new va) =
        Ok (Translation.new
              (Gpa.new (Gpa.raw (Translation.physical_address t) + page_offset va))
              (Translation.page_size t)) /\
      0 <= Gpa.raw (Translation.physical_address t) /\
      Gpa.raw (Translation.physical_address t) + page_offset va < 2 ^ 64
  | Err e => exists e', Amd64Spec.translate memory bits j root (Gva.new va) = Err e' /\
                        VmiError.kind e' = VmiError.kind e
  end.
Proof.
  intros. unfold Amd64Spec.translate. cbn [Gva.raw]. rewrite canonical_page_base by done.
  destruct (canonical va bits); [by apply walk_linear|eexists; eauto].
Qed.

#[global] Instance amd64_page_linear : PageLinear Amd64Translator.
Proof.
  intros memory root va Hva. cbn [Arch.translate Amd64Translator].
  change [39; 30; 21; 12] with (level_shifts 4).
  rewrite !translate_levels_spec by (done || lia || by apply page_base_u64).
  apply translate_linear; [lia..|done].
Qed.

#[global] Instance amd64_la57_page_linear : PageLinear Amd64La57Translator.
Proof.
  intros memory root va Hva. cbn [Arch.translate Amd64La57Translator].
  change [48; 39; 30; 21; 12] with (level_shifts 5).
  rewrite !translate_levels_spec by (done || lia || by apply page_base_u64).
  apply translate_linear; [lia..|done].
Qed.

(** What the walk returns: an aligned frame below [2 ^ 52] plus the offset. *)
Lemma walk_Ok memory j table va t :
  walk memory j table va = Ok t ->
  exists n entry, In n [12; 21; 30] /\ Translation.page_size t = 2 ^ n /\
    Gpa.raw (Translation.physical_address t) = frame entry (2 ^ n) + va mod 2 ^ n.
Proof.
  revert table. induction j as [|j IH]; intros table; [done|]. cbn [walk].
  intros Hw. inv_ok. destruct (negb _); [done|]. destruct (Z.testbit v 7).
  - destruct (Z.eqb_spec (Z.of_nat (S j)) 2), (Z.eqb_spec (Z.of_nat (S j)) 3);
      cbn [orb] in Hw; try done; try lia; injection Hw as <-; cbn;
      [exists 21|exists 30]; exists v; rewrite span_eq.
    + replace (Z.of_nat j) with 1 by lia. cbn. auto.
    + replace (Z.of_nat j) with 2 by lia. cbn. auto.
  - destruct (Z.eqb_spec (Z.of_nat (S j)) 1); [|eauto].
    injection Hw as <-. exists 12, v. rewrite span_eq. replace (Z.of_nat j) with 0 by lia.
    cbn. auto.
Qed.

(** How the walk fails: an entry that is absent or has a misplaced large
    bit, or a read that failed, always inside a table. *)
Lemma walk_Err memory j table va e :
  (1 <= j)%nat -> 0 <= table -> table + 2 ^ 12 <= 2 ^ 52 -> in_u64 va ->
  walk memory j table va = Err e ->
  exists level address, 1 <= level <= Z.of_nat j /\ 0 <= address /\ address + 8 <= 2 ^ 52 /\
  (e = VmiError.PageNotPresent va level \/
   (exists entry, Z.testbit entry 7 = true /\ e = VmiError.InvalidPageTableEntry entry level) \/
   read_scalar Scalar.u64 memory (Gpa.new address) ByteOrder.LittleEndian = Err e).
Proof.
  intros Hj. revert table. induction j as [|j IH]; intros table H0 H1 Hva; [lia|]. cbn [walk].
  set (address := table + 8 * _).
  assert (0 <= address /\ address + 8 <= 2 ^ 52).
  { unfold address. pose proof (Z.mod_pos_bound (va / span j) 512). lia. }
  destruct (read_scalar _ _ (Gpa.new address) _) as [entry|err] eqn:Er; cbn [mbind result_bind].
  2:{ intros [= ->]. exists 1, address. intuition lia. }
  destruct (Z.testbit entry 0); cbn [negb].
  2:{ intros [= <-]. exists (Z.of_nat (S j)), 0. intuition lia. }
  destruct (Z.testbit entry 7) eqn:Elarge.
  - destruct (_ || _); [done|]. intros [= <-]. exists (Z.of_nat (S j)), 0. intuition (lia || eauto).
  - destruct (Z.eqb_spec (Z.of_nat (S j)) 1); [done|].
    intros Hw. pose proof (frame_range entry 12).
    apply IH in Hw as (level & a & ? & ?); [|lia..|done].
    exists level, a. intuition lia.
Qed.
End lemmas.

(** * Properties *)


(** The 1 GiB page of the repository's own test. *)
Definition example_tables : Reader :=
  words_reader [(0x1000, 0x2001); (0x2008, 0x80000081)].


(** A successful AMD64 translation is of a canonical address, has one of
    the three page sizes, lies below [2 ^ 52], keeps the address's offset in
    its page, and hence never needs the wrap-around of [u64]. *)
Lemma translate_levels_bounds `{Allocator} (memory : Reader)
    (root : TranslationRoot.t) (va bits : Z) (levels : nat) (t : Translation.t)
    (Hva : in_u64 va) (Hbits : 13 <= bits < 256) (Hlevels : (levels <= 5)%nat)
    (Ht : translate_levels memory root (Gva.new va) bits (level_shifts levels) = Ok t) :
  (va < 2 ^ (bits - 1) \/ 2 ^ 64 - 2 ^ (bits - 1) <= va) /\
  In (Translation.page_size t) [2 ^ 12; 2 ^ 21; 2 ^ 30] /\
  0 <= Gpa.raw (Translation.physical_address t) < 2 ^ 52 /\
  Gpa.raw (Translation.physical_address t) mod Translation.page_size t
    = va mod Translation.page_size t.
Proof.
  rewrite translate_levels_spec in Ht by (done || lia).
  unfold Amd64Spec.translate in Ht. cbn [Gva.raw] in Ht.
  destruct (canonical va bits) eqn:Hc; [|done].
  apply walk_Ok in Ht as (n & entry & Hn & -> & ->). split; [|split; [|split]].
  - unfold canonical in Hc. apply andb_true_iff in Hc as [_ Hc].
    by rewrite orb_true_iff, Z.ltb_lt, Z.leb_le in Hc.
  - cbn in *. intuition (subst; auto).
  - assert (0 <= n <= 52) by (cbn in Hn; lia). pose proof (frame_range entry n).
    pose proof (Z.mod_pos_bound va (2 ^ n)). pose proof (Z.pow_pos_nonneg 2 n). lia.
  - assert (0 <= n <= n) by (cbn in Hn; lia).
    rewrite Z.add_mod, frame_mod, Z.add_0_l, !Z.mod_mod by lia. done.
Qed.

(** What a walk of [levels] levels over [bits]-bit addresses fails for: a
    non-canonical address, an absent entry or a misplaced large bit at one of
    the levels, or the error of a read inside a table. *)
Definition architectural_failure `{Allocator} (memory : Reader) (va bits levels : Z) (e : VmiError.t) : Prop :=
  (2 ^ (bits - 1) <= va < 2 ^ 64 - 2 ^ (bits - 1) /\ e = VmiError.NonCanonicalAddress va bits) \/
  ((va < 2 ^ (bits - 1) \/ 2 ^ 64 - 2 ^ (bits - 1) <= va) /\
   exists level address, 1 <= level <= levels /\ 0 <= address /\ address + 8 <= 2 ^ 52 /\
   (e = VmiError.PageNotPresent va level \/
    (exists entry, Z.testbit entry 7 = true /\
       e = VmiError.InvalidPageTableEntry entry level) \/
    read_scalar Scalar.u64 memory (Gpa.new address) ByteOrder.LittleEndian = Err e)).

Lemma translate_levels_errors `{Allocator} (memory : Reader)
    (root : TranslationRoot.t) (va bits : Z) (levels : nat) (e : VmiError.t)
    (Hva : in_u64 va) (Hbits : 1 <= bits <= 63) (Hlevels : (1 <= levels <= 5)%nat)
    (He : translate_levels memory root (Gva.new va) bits (level_shifts levels) = Err e) :
  architectural_failure memory va bits (Z.of_nat levels) e.
Proof.
  rewrite translate_levels_spec in He by (done || lia).
  unfold Amd64Spec.translate in He. cbn [Gva.raw] in He. unfold canonical in He.
  rewrite (proj2 (Z.leb_le 1 bits)), (proj2 (Z.leb_le bits 63)) in He by lia. cbn [andb] in He.
  destruct ((va <? 2 ^ (bits - 1)) || (2 ^ 64 - 2 ^ (bits - 1) <=? va)) eqn:Hc.
  - right. rewrite orb_true_iff, Z.ltb_lt, Z.leb_le in Hc. split; [exact Hc|].
    pose proof (frame_range (TranslationRoot.raw root) 12).
    apply walk_Err in He; [done|lia..|done].
  - left. apply orb_false_iff in Hc as [H1%Z.ltb_ge H2%Z.leb_gt].
    injection He as <-. split; [split; [exact H1|exact H2]|done].
Qed.


