(* ===== verification/Aarch64.v ===== *)
(** * AArch64 address translation ([crates/vmi-arch-aarch64])

    The three granules, the validated translator and its walk with page and
    block descriptors, against an arithmetic reference walk. *)

From S2P Require Import Prelude.
From S2P Require Import Types.
From S2P Require Import DriverApi.
From S2P Require Import Arch.
From S2P Require Import Amd64.

Module Aarch64.

Definition VALID : Z := 1.
Definition TABLE_OR_PAGE : Z := Z.shiftl 1 1.
Definition PHYSICAL_ADDRESS_MASK : Z := 0x0000ffffffffffff.

Definition low_mask (bits : Z) : option Z :=
  value ← checked_shl 64 1 bits; checked_sub value 1.

Definition is_canonical (address bits : Z) : bool :=
  match low_mask bits with
  | None => false
  | Some low_mask =>
      match checked_sub bits 1 with
      | None => false
      | Some sign_shift =>
          match checked_shl 64 1 sign_shift with
          | None => false
          | Some sign_bit =>
              let expected_upper :=
                if Z.land address sign_bit =? 0 then 0 else wnot 64 low_mask in
              Z.land address (wnot 64 low_mask) =? expected_upper
          end
      end
  end.

Inductive TranslationGranule : Type := KiB4 | KiB16 | KiB64.

Definition page_shift (g : TranslationGranule) : Z :=
  match g with KiB4 => 12 | KiB16 => 14 | KiB64 => 16 end.
Definition index_bits (g : TranslationGranule) : Z :=
  match g with KiB4 => 9 | KiB16 => 11 | KiB64 => 13 end.
Definition maximum_levels (g : TranslationGranule) : Z :=
  match g with KiB4 | KiB16 => 4 | KiB64 => 3 end.
Definition granule_debug (g : TranslationGranule) : string :=
  match g with KiB4 => "KiB4" | KiB16 => "KiB16" | KiB64 => "KiB64" end.

Record Aarch64Translator : Type := MkAarch64Translator {
  granule : TranslationGranule;
  address_bits : Z;
}.

Definition default : Aarch64Translator := MkAarch64Translator KiB4 48.

Definition new (g : TranslationGranule) (address_bits : Z) : Result Aarch64Translator :=
  let page_shift := page_shift g in
  let? maximum_bits := ok_or
    (bits ← checked_mul 8 (index_bits g) (maximum_levels g); checked_add 8 page_shift bits)
    (Backend "AArch64 maximum address size overflow") in
  if (address_bits <=? page_shift) || (maximum_bits <? address_bits) || (48 <? address_bits)
  then Err (Backend ("invalid AArch64 address size " +:+ dec address_bits +:+ " for "
                       +:+ granule_debug g +:+ " granule"))
  else Ok (MkAarch64Translator g address_bits).

Definition cache_tag (t : Aarch64Translator) : Z :=
  let granule := match granule t with KiB4 => 4 | KiB16 => 16 | KiB64 => 64 end in
  Z.lor (Z.lor 0x4136340000000000 (Z.shiftl granule 8)) (address_bits t).

Section walk.
Context `{Allocator}.

(** The body of the [for ordinal in 0..level_count] loop, over the ordinals left. *)
Fixpoint levels_loop (memory : Reader) (va page_shift index_bits level_count first_level
    index_mask page_mask : Z) (ordinals : list Z) (table : Z) : Result Translation.t :=
  match ordinals with
  | [] => Err (Backend "AArch64 translation completed without a page or block")
  | ordinal :: rest =>
      let? level := ok_or (checked_add 8 first_level ordinal)
        (Backend "AArch64 translation level overflow") in
      let? remaining_levels := ok_or
        (remaining ← checked_sub level_count ordinal; checked_sub remaining 1)
        (Backend "AArch64 remaining level underflow") in
      let? entry_shift := ok_or
        (shift ← checked_mul 8 remaining_levels index_bits; checked_add 8 page_shift shift)
        (Backend "AArch64 entry shift overflow") in
      let index := Z.land (Z.shiftr va entry_shift) index_mask in
      let? entry_offset := ok_or (checked_mul 64 index 8)
        (Backend "AArch64 page-table entry offset overflow") in
      let? entry_address := ok_or (checked_add 64 table entry_offset)
        (Backend "AArch64 page-table entry address overflow") in
      let? entry := read_scalar Scalar.u64 memory (Gpa.new entry_address)
        ByteOrder.LittleEndian in
      if Z.land entry VALID =? 0 then Err (VmiError.PageNotPresent va level)
      else
        let table_or_page := negb (Z.land entry TABLE_OR_PAGE =? 0) in
        let last := bool_decide (checked_add 8 ordinal 1 = Some level_count) in
        if last then
          if negb table_or_page then Err (VmiError.InvalidPageTableEntry entry level)
          else
            let? page_size := ok_or (checked_shl 64 1 page_shift)
              (Backend "AArch64 page size overflow") in
            let? page_offset_mask := ok_or (checked_sub page_size 1)
              (Backend "AArch64 page mask underflow") in
            Ok (Translation.new
                  (Gpa.new (Z.lor
                     (Z.land (Z.land entry PHYSICAL_ADDRESS_MASK) (wnot 64 page_offset_mask))
                     (Z.land va page_offset_mask)))
                  page_size)
        else if table_or_page then
          levels_loop memory va page_shift index_bits level_count first_level
            index_mask page_mask rest
            (Z.land (Z.land entry PHYSICAL_ADDRESS_MASK) (wnot 64 page_mask))
        else if level =? 0 then Err (VmiError.InvalidPageTableEntry entry level)
        else
          let? block_size := ok_or (checked_shl 64 1 entry_shift)
            (Backend "AArch64 block size overflow") in
          let? block_offset_mask := ok_or (checked_sub block_size 1)
            (Backend "AArch64 block mask underflow") in
          Ok (Translation.new
                (Gpa.new (Z.lor
                   (Z.land (Z.land entry PHYSICAL_ADDRESS_MASK) (wnot 64 block_offset_mask))
                   (Z.land va block_offset_mask)))
                block_size)
  end.

Definition translate (t : Aarch64Translator) (memory : Reader)
    (root : TranslationRoot.t) (address : Gva.t) : Result Translation.t :=
  let va := Gva.raw address in
  if negb (is_canonical va (address_bits t)) then
    Err (VmiError.NonCanonicalAddress va (address_bits t))
  else
    let page_shift := page_shift (granule t) in
    let index_bits := index_bits (granule t) in
    let? translated_bits := ok_or (checked_sub (address_bits t) page_shift)
      (Backend "AArch64 address size underflow") in
    let level_count := div_ceil translated_bits index_bits in
    let? first_level := ok_or (checked_sub 4 level_count)
      (Backend "AArch64 translation level underflow") in
    let? index_mask := ok_or (low_mask index_bits)
      (Backend "AArch64 index mask overflow") in
    let? page_mask := ok_or (low_mask page_shift)
      (Backend "AArch64 page mask overflow") in
    let table := Z.land (Z.land (TranslationRoot.raw root) PHYSICAL_ADDRESS_MASK)
      (wnot 64 page_mask) in
    levels_loop memory va page_shift index_bits level_count first_level index_mask
      page_mask (seqZ 0 level_count) table.

Definition translator (t : Aarch64Translator) : AddressTranslator := {|
  Arch.cache_tag := cache_tag t;
  Arch.translate := translate t;
|}.
End walk.
End Aarch64.

(** * The reference walk *)

Module Aarch64Spec.
Import Aarch64.
Section spec.
Context `{Allocator}.

(** The granule is the page size, and a table is one page of
    entries of [2 ^ 3] bytes. *)
Definition log_page (g : TranslationGranule) : Z :=
  match g with KiB4 => 12 | KiB16 => 14 | KiB64 => 16 end.
Definition log_entries (g : TranslationGranule) : Z := log_page g - 3.

(** What [new] accepts. *)
Definition valid (t : Aarch64Translator) : Prop :=
  log_page (granule t) < address_bits t <= 48.

Definition frame (entry n : Z) : Z := 2 ^ n * ((entry mod 2 ^ 48) / 2 ^ n).

(** [walk .. levels]: [levels] tables remain; the last one is level 3. *)
Fixpoint walk (memory : Reader) (g : TranslationGranule) (levels : nat)
    (table va : Z) : Result Translation.t :=
  match levels with
  | O => Err (Backend "AArch64 translation completed without a page or block")
  | S j =>
      let level := 3 - Z.of_nat j in
      let shift := log_page g + log_entries g * Z.of_nat j in
      let leaf entry := Ok (Translation.new
        (Gpa.new (frame entry shift + va mod 2 ^ shift)) (2 ^ shift)) in
      let? entry := read_scalar Scalar.u64 memory
        (Gpa.new (table + 8 * ((va / 2 ^ shift) mod 2 ^ log_entries g)))
        ByteOrder.LittleEndian in
      if negb (Z.testbit entry 0) then Err (VmiError.PageNotPresent va level)
      else if Z.testbit entry 1 then
        if level =? 3 then leaf entry
        else walk memory g j (frame entry (log_page g)) va
      else if (level =? 3) || (level =? 0) then
        Err (VmiError.InvalidPageTableEntry entry level)
      else leaf entry
  end.

Definition level_count (t : Aarch64Translator) : nat :=
  Z.to_nat (div_ceil (address_bits t - log_page (granule t)) (log_entries (granule t))).

Definition translate (t : Aarch64Translator) (memory : Reader)
    (root : TranslationRoot.t) (address : Gva.t) : Result Translation.t :=
  if Amd64Spec.canonical (Gva.raw address) (address_bits t) then
    walk memory (granule t) (level_count t)
      (frame (TranslationRoot.raw root) (log_page (granule t))) (Gva.raw address)
  else Err (VmiError.NonCanonicalAddress (Gva.raw address) (address_bits t)).
End spec.
End Aarch64Spec.

(** * Lemmas *)

Import Aarch64 Aarch64Spec.

Section lemmas.
Context `{Allocator}.

Lemma page_shift_log g : page_shift g = log_page g.
Proof. by destruct g. Qed.

Lemma index_bits_log g : index_bits g = log_entries g.
Proof. by destruct g. Qed.

Lemma granule_bounds g : 12 <= log_page g <= 16 /\ 9 <= log_entries g <= 13.
Proof. unfold log_entries; destruct g; cbn; lia. Qed.

Lemma low_mask_ones n : 0 <= n < 64 -> low_mask n = Some (Z.ones n).
Proof.
  intros. unfold low_mask, checked_shl. destruct (Z.ltb_spec n 64); [|lia].
  cbn [mbind option_bind].
  rewrite Z.shiftl_1_l, Z.mod_small by (split; [lia|apply Z.pow_lt_mono_r; lia]).
  rewrite checked_sub_fits, <- ones_eq by (pose proof (Z.pow_pos_nonneg 2 n); lia). done.
Qed.

Lemma a64_is_canonical_spec a bits :
  in_u64 a -> 0 <= bits < 256 -> is_canonical a bits = Amd64Spec.canonical a bits.
Proof. exact (Amd64.is_canonical_spec a bits). Qed.

Lemma a64_mask_frame e n :
  0 <= n <= 48 ->
  Z.land (Z.land e PHYSICAL_ADDRESS_MASK) (wnot 64 (Z.ones n)) = frame e n.
Proof.
  intros. change PHYSICAL_ADDRESS_MASK with (Z.ones 48). rewrite Z.land_ones by lia.
  rewrite land_wnot, ldiff_ones_div by
    (try lia; pose proof (Z.mod_pos_bound e (2 ^ 48)); unfold in_width; lia). done.
Qed.

Lemma a64_frame_mod e n m : 0 <= m <= n -> frame e n mod 2 ^ m = 0.
Proof.
  intros. unfold frame. replace n with (m + (n - m)) at 1 by lia.
  rewrite Z.pow_add_r, <- Z.mul_assoc, Z.mul_comm by lia. apply Z.mod_mul. lia.
Qed.

Lemma a64_frame_range e n : 0 <= n <= 48 -> 0 <= frame e n /\ frame e n + 2 ^ n <= 2 ^ 48.
Proof.
  intros. unfold frame. pose proof (Z.mod_pos_bound e (2 ^ 48)).
  assert (E : 2 ^ 48 = 2 ^ n * 2 ^ (48 - n)) by (rewrite <- Z.pow_add_r by lia; f_equal; lia).
  pose proof (Z.pow_pos_nonneg 2 n). pose proof (Z.pow_pos_nonneg 2 (48 - n)).
  assert (0 <= e mod 2 ^ 48 / 2 ^ n < 2 ^ (48 - n)).
  { split; [apply Z.div_pos; lia|]. apply Z.div_lt_upper_bound; lia. }
  nia.
Qed.

(** A page or block of [2 ^ n] bytes, as the code builds it. *)
Lemma leaf_build e va n msg1 msg2 :
  0 <= n <= 48 ->
  (let? page_size := ok_or (checked_shl 64 1 n) (Backend msg1) in
   let? mask := ok_or (checked_sub page_size 1) (Backend msg2) in
   Ok (Translation.new
         (Gpa.new (Z.lor (Z.land (Z.land e PHYSICAL_ADDRESS_MASK) (wnot 64 mask))
                     (Z.land va mask))) page_size))
  = Ok (Translation.new (Gpa.new (frame e n + va mod 2 ^ n)) (2 ^ n)) :> Result _.
Proof.
  intros. unfold checked_shl. destruct (Z.ltb_spec n 64); [|lia].
  rewrite Z.shiftl_1_l, Z.mod_small by (split; [lia|apply Z.pow_lt_mono_r; lia]).
  cbn [ok_or mbind result_bind].
  rewrite checked_sub_fits by (pose proof (Z.pow_pos_nonneg 2 n); lia).
  cbn [ok_or mbind result_bind]. rewrite <- ones_eq, a64_mask_frame, Z.land_ones by lia.
  rewrite frame_join; [done|lia|]. apply a64_frame_mod. lia.
Qed.

Lemma a64_levels_loop_walk memory va g lc j table :
  (j < 5)%nat -> Z.of_nat j <= lc <= 4 -> in_u64 va ->
  log_page g + log_entries g * (Z.of_nat j - 1) <= 47 ->
  0 <= table < 2 ^ 48 ->
  levels_loop memory va (log_page g) (log_entries g) lc (4 - lc)
    (Z.ones (log_entries g)) (Z.ones (log_page g))
    (seqZ (lc - Z.of_nat j) (Z.of_nat j)) table
  = walk memory g j table va.
Proof.
  intros Hj Hlc Hva. pose proof (granule_bounds g) as [Hps Hib].
  revert table. induction j as [|j IH]; intros table Hs Ht; [done|].
  rewrite seqZ_cons by lia. cbn [levels_loop walk].
  rewrite (checked_add_fits 8 (4 - lc)) by lia. cbn [ok_or mbind result_bind option_bind].
  rewrite checked_sub_fits by lia. cbn [ok_or mbind result_bind option_bind].
  rewrite checked_sub_fits by lia. cbn [ok_or mbind result_bind option_bind].
  replace (lc - (lc - Z.of_nat (S j)) - 1) with (Z.of_nat j) by lia.
  rewrite checked_mul_fits by nia. cbn [ok_or mbind result_bind option_bind].
  rewrite (checked_add_fits 8 (log_page g)) by nia. cbn [ok_or mbind result_bind option_bind].
  rewrite (Z.mul_comm (Z.of_nat j)). set (shift := log_page g + log_entries g * Z.of_nat j).
  assert (0 <= shift <= 47) by (unfold shift; nia).
  rewrite Z.land_ones, Z.shiftr_div_pow2 by lia.
  set (index := _ mod 2 ^ log_entries g).
  assert (0 <= index < 2 ^ 13).
  { pose proof (Z.mod_pos_bound (va / 2 ^ shift) (2 ^ log_entries g)).
    pose proof (Z.pow_le_mono_r 2 (log_entries g) 13). unfold index. lia. }
  rewrite checked_mul_fits by lia. cbn [ok_or mbind result_bind].
  rewrite (checked_add_fits 64 table) by lia. cbn [ok_or mbind result_bind].
  rewrite (Z.mul_comm index 8). replace (4 - lc + (lc - Z.of_nat (S j))) with (3 - Z.of_nat j) by lia.
  set (rd := read_scalar Scalar.u64 memory _ _).
  destruct rd as [e|err]; cbn [mbind result_bind]; [|done].
  change VALID with (2 ^ 0). change TABLE_OR_PAGE with (2 ^ 1).
  rewrite !land_pow2_eqb, negb_involutive by lia.
  destruct (Z.testbit e 0); cbn [negb]; [|done].
  rewrite checked_add_fits by lia.
  destruct j as [|j].
  - rewrite bool_decide_eq_true_2 by (f_equal; lia).
    destruct (Z.testbit e 1); cbn [negb]; [|done].
    replace (log_page g) with shift at 1 2 by (unfold shift; lia).
    rewrite (leaf_build e va shift) by lia. done.
  - rewrite bool_decide_eq_false_2 by (intros [=]; lia).
    destruct (Z.eqb_spec (3 - Z.of_nat (S j)) 3); [lia|]. cbn [orb].
    rewrite a64_mask_frame by lia. destruct (Z.testbit e 1); cbn [negb].
    + replace (Z.succ (lc - Z.of_nat (S (S j)))) with (lc - Z.of_nat (S j)) by lia.
      replace (Z.pred (Z.of_nat (S (S j)))) with (Z.of_nat (S j)) by lia.
      apply IH; [lia..|nia|]. pose proof (a64_frame_range e (log_page g)).
      pose proof (Z.pow_pos_nonneg 2 (log_page g)). lia.
    + destruct (Z.eqb_spec (3 - Z.of_nat (S j)) 0); [done|].
      apply (leaf_build e va shift). lia.
Qed.

Lemma valid_bounds t : valid t ->
  let j := level_count t in
  (1 <= j <= 4)%nat /\ 13 <= address_bits t <= 48 /\
  div_ceil (address_bits t - log_page (granule t)) (log_entries (granule t)) = Z.of_nat j /\
  log_page (granule t) + log_entries (granule t) * (Z.of_nat j - 1) <= 47.
Proof.
  unfold valid, level_count, div_ceil. intros Hv.
  set (n := address_bits t - log_page (granule t)).
  assert (0 < n) by lia.
  set (q := (n + log_entries (granule t) - 1) / log_entries (granule t)).
  assert (Hq : 1 <= q <= 4 /\ log_entries (granule t) * (q - 1) <= n - 1).
  { unfold q, log_entries in *. destruct t as [[] bits]; cbn in *; unfold n in *;
      (split; [split; [apply Z.div_le_lower_bound; lia|
        apply Z.lt_succ_r; apply Z.div_lt_upper_bound; lia]|]);
      match goal with |- context [?a / ?b] => pose proof (Z.mul_div_le a b) end; lia. }
  destruct (granule_bounds (granule t)). unfold n in *. rewrite Z2Nat.id by lia. lia.
Qed.

(** A validated translator is its reference walk, on every path. *)
Lemma translate_spec t memory root va :
  valid t -> in_u64 va ->
  Aarch64.translate t memory root (Gva.new va)
  = Aarch64Spec.translate t memory root (Gva.new va).
Proof.
  intros Hv Hva. pose proof (valid_bounds t Hv) as (Hj & Hb & Hlc & Hs).
  pose proof (granule_bounds (granule t)) as [Hps Hib].
  unfold Aarch64.translate, Aarch64Spec.translate. cbn [Gva.raw].
  rewrite page_shift_log, index_bits_log.
  rewrite a64_is_canonical_spec by (done || lia).
  destruct (Amd64Spec.canonical _ _); cbn [negb]; [|done].
  rewrite checked_sub_fits by (unfold valid in Hv; lia). cbn [ok_or mbind result_bind].
  rewrite Hlc, checked_sub_fits by lia. cbn [ok_or mbind result_bind].
  rewrite !low_mask_ones by lia. cbn [ok_or mbind result_bind].
  rewrite a64_mask_frame by lia.
  replace (seqZ 0 (Z.of_nat (level_count t)))
    with (seqZ (Z.of_nat (level_count t) - Z.of_nat (level_count t)) (Z.of_nat (level_count t)))
    by (f_equal; lia).
  apply a64_levels_loop_walk; [lia..|done|done|].
  pose proof (a64_frame_range (TranslationRoot.raw root) (log_page (granule t))).
  pose proof (Z.pow_pos_nonneg 2 (log_page (granule t))). lia.
Qed.

Lemma a64_walk_linear memory g j table va :
  log_page g + log_entries g * (Z.of_nat j - 1) <= 47 ->
  match walk memory g j table (page_base va) with
  | Ok t =>
      walk memory g j table va =
        Ok (Translation.new
              (Gpa.new (Gpa.raw (Translation.physical_address t) + page_offset va))
              (Translation.page_size t)) /\
      0 <= Gpa.raw (Translation.physical_address t) /\
      Gpa.raw (Translation.physical_address t) + page_offset va < 2 ^ 64
  | Err e => exists e', walk memory g j table va = Err e' /\
                        VmiError.kind e' = VmiError.kind e
  end.
Proof.
  pose proof (granule_bounds g) as [Hps Hib].
  revert table. induction j as [|j IH]; intros table Hs; [eexists; eauto|].
  cbn [walk]. set (shift := log_page g + log_entries g * Z.of_nat j).
  assert (12 <= shift <= 47) by (unfold shift; nia).
  rewrite page_base_shift by lia.
  set (rd := read_scalar _ _ _ _). destruct rd as [e|err]; cbn [mbind result_bind]; [|eauto].
  destruct (Z.testbit e 0); cbn [negb]; [|eexists; split; eauto].
  assert (Hleaf : frame e shift + page_base va mod 2 ^ shift + page_offset va
      = frame e shift + va mod 2 ^ shift /\
    0 <= frame e shift + page_base va mod 2 ^ shift /\
    frame e shift + page_base va mod 2 ^ shift + page_offset va < 2 ^ 64).
  { pose proof (page_base_mod va shift). pose proof (a64_frame_range e shift).
    pose proof (Z.mod_pos_bound (page_base va) (2 ^ shift)).
    pose proof (Z.mod_pos_bound va (2 ^ shift)). pose proof (Z.pow_pos_nonneg 2 shift). lia. }
  destruct Hleaf as (Heq & ? & ?).
  destruct (Z.testbit e 1).
  - destruct (_ =? 3); [|apply IH; nia].
    cbn [Translation.physical_address Translation.page_size Gpa.raw].
    split_and!; [by rewrite Heq|done..].
  - destruct (_ || _); [eexists; split; eauto|].
    cbn [Translation.physical_address Translation.page_size Gpa.raw].
    split_and!; [by rewrite Heq|done..].
Qed.

#[global] Instance aarch64_page_linear t : valid t -> PageLinear (translator t).
Proof.
  intros Hv memory root va Hva. cbn [Arch.translate translator].
  rewrite !translate_spec by (done || by apply page_base_u64).
  unfold Aarch64Spec.translate. cbn [Gva.raw].
  pose proof (valid_bounds t Hv) as (Hj & Hb & _ & Hs).
  rewrite Amd64.canonical_page_base by (done || lia).
  destruct (Amd64Spec.canonical _ _); [by apply a64_walk_linear|eexists; eauto].
Qed.

Lemma a64_walk_Ok memory g j table va t :
  log_page g + log_entries g * (Z.of_nat j - 1) <= 47 ->
  walk memory g j table va = Ok t ->
  exists k entry, (k < j)%nat /\
    let n := log_page g + log_entries g * Z.of_nat k in
    n <= 47 /\ Translation.page_size t = 2 ^ n /\
    Gpa.raw (Translation.physical_address t) = frame entry n + va mod 2 ^ n.
Proof.
  destruct (granule_bounds g). revert table. induction j as [|j IH]; intros table Hs; [done|].
  cbn [walk]. intros Hw. inv_ok. destruct (negb _); [done|]. destruct (Z.testbit v 1).
  - destruct (_ =? 3).
    + injection Hw as <-. exists j, v. split; [lia|]. split; [lia|done].
    + apply IH in Hw as (k & entry & ? & ?); [|nia]. exists k, entry. split; [lia|done].
  - destruct (_ || _); [done|]. injection Hw as <-. exists j, v. split; [lia|]. split; [lia|done].
Qed.

(** The tag packs the granule and the address size in disjoint bit fields. *)
Lemma cache_tag_value t :
  0 <= address_bits t < 256 ->
  cache_tag t = 0x4136340000000000
    + 256 * (match granule t with KiB4 => 4 | KiB16 => 16 | KiB64 => 64 end)
    + address_bits t.
Proof.
  intros Hb. unfold cache_tag. rewrite (lor_add _ (address_bits t) 8);
    [by destruct (granule t)|lia|by destruct (granule t)|exact Hb].
Qed.
End lemmas.

(** * Properties *)

(** [Aarch64Translator::new] accepts exactly the address sizes above the
    page shift and up to 48 bits, and keeps its arguments; and the cache tag
    tells apart any two translators it accepts, and these from both AMD64
    translators, so their cached translations never mix. *)
Theorem aarch64_new_and_tag (g : TranslationGranule) (bits : Z) (t1 t2 : Aarch64Translator)
    (Hbits : 0 <= bits < 256) :
  (new g bits = Ok t1 <-> t1 = MkAarch64Translator g bits /\ valid t1) /\
  (valid t1 -> valid t2 -> cache_tag t1 = cache_tag t2 -> t1 = t2) /\
  (valid t1 -> forall `{Allocator},
     cache_tag t1 <> Arch.cache_tag Amd64.Amd64Translator /\
     cache_tag t1 <> Arch.cache_tag Amd64.Amd64La57Translator).
Proof.
  split; [|split].
  - unfold new, valid. rewrite page_shift_log, index_bits_log.
    assert (E : exists m, (b ← checked_mul 8 (log_entries g) (maximum_levels g);
        checked_add 8 (log_page g) b) = Some m /\ 48 <= m)
      by (destruct g; eexists; (split; [reflexivity|unfold log_entries; cbn; lia])).
    destruct E as (m & -> & Hm). cbn [ok_or mbind result_bind].
    destruct (Z.leb_spec bits (log_page g)), (Z.ltb_spec m bits), (Z.ltb_spec 48 bits);
      cbn [orb]; (split; [intros [=]; subst; cbn; (split; [done|lia])|
        intros [-> ?]; cbn in *; done || lia]).
  - unfold valid. intros H1 H2. destruct (granule_bounds (granule t1)), (granule_bounds (granule t2)).
    rewrite !cache_tag_value by lia.
    destruct t1 as [[] b1], t2 as [[] b2]; cbn in *; intros; f_equal; lia.
  - unfold valid. intros H1 A. destruct (granule_bounds (granule t1)).
    rewrite cache_tag_value by lia. cbn [Arch.cache_tag Amd64.Amd64Translator Amd64.Amd64La57Translator].
    destruct t1 as [[] b1]; cbn in *; lia.
Qed.

Lemma aarch64_new_and_tag_witness :
  new KiB16 47 = Ok (MkAarch64Translator KiB16 47) /\
  cache_tag (MkAarch64Translator KiB16 47) <> Arch.cache_tag (@Amd64.Amd64Translator ample_allocator).
Proof.
  destruct (aarch64_new_and_tag KiB16 47 (MkAarch64Translator KiB16 47)
    (MkAarch64Translator KiB16 47) ltac:(lia)) as (Hnew & _ & Htag).
  split; [apply Hnew; split; [reflexivity|split; cbn; lia]|].
  apply Htag. split; cbn; lia.
Defined.

(** C6: for every translator [new] accepts, the AArch64 walk is the
    arithmetic reference walk, result and error alike; a success has the
    size of a page or block of the granule, lies below [2 ^ 48] and keeps
    the offset of the address. *)
Theorem aarch64_refines_reference_walk `{Allocator} (t : Aarch64Translator)
    (memory : Reader) (root : TranslationRoot.t) (va : Z)
    (Hvalid : valid t) (Hva : in_u64 va) :
  Arch.translate (translator t) memory root (Gva.new va)
    = Aarch64Spec.translate t memory root (Gva.new va) /\
  (forall r, Arch.translate (translator t) memory root (Gva.new va) = Ok r ->
     (exists k, 0 <= k < 4 /\
        Translation.page_size r = 2 ^ (log_page (granule t) + log_entries (granule t) * k)) /\
     0 <= Gpa.raw (Translation.physical_address r) < 2 ^ 48 /\
     Gpa.raw (Translation.physical_address r) mod Translation.page_size r
       = va mod Translation.page_size r).
Proof.
  cbn [Arch.translate translator]. rewrite translate_spec by done. split; [done|].
  intros r Hr. pose proof (valid_bounds t Hvalid) as (Hj & _ & _ & Hs).
  unfold Aarch64Spec.translate in Hr. cbn [Gva.raw] in Hr.
  destruct (Amd64Spec.canonical _ _); [|done].
  apply a64_walk_Ok in Hr as (k & entry & Hk & Hn & -> & ->); [|exact Hs].
  destruct (granule_bounds (granule t)).
  set (n := log_page (granule t) + log_entries (granule t) * Z.of_nat k) in *.
  assert (0 <= n) by (unfold n; nia).
  split; [exists (Z.of_nat k); split; [lia|done]|]. split.
  - pose proof (a64_frame_range entry n). pose proof (Z.mod_pos_bound va (2 ^ n)).
    pose proof (Z.pow_pos_nonneg 2 n). lia.
  - pose proof (Z.pow_pos_nonneg 2 n).
    rewrite Z.add_mod, a64_frame_mod, Z.add_0_l, !Z.mod_mod by lia. done.
Qed.

Lemma aarch64_refines_reference_walk_witness :
  Arch.translate (@translator ample_allocator (MkAarch64Translator KiB64 42))
    (words_reader [(0x10000, 0x40000001)]) (TranslationRoot.new 0x10000) (Gva.new 0x1234567)
  = Ok (Translation.new (Gpa.new 0x41234567) (2 ^ 29)).
Proof.
  rewrite (proj1 (@aarch64_refines_reference_walk ample_allocator (MkAarch64Translator KiB64 42)
    (words_reader [(0x10000, 0x40000001)]) (TranslationRoot.new 0x10000) 0x1234567
    ltac:(split; cbn; lia) ltac:(width_const))).
  vm_compute. reflexivity.
Defined.
