(* ===== verification/Session.v ===== *)
(** * Sessions ([crates/vmi-core])

    The translation cache and a session's physical and virtual memory
    operations over it, with the lemmas on both. *)

From S2P Require Import Prelude.
From S2P Require Import Types.
From S2P Require Import DriverApi.
From S2P Require Import Arch.

Definition page_remaining (address : Z) : Result Z :=
  let? offset := ok_or (try_width 16 (Z.land address 0xfff)) (Backend "page offset overflow") in
  ok_or (checked_sub 4096 offset) (Backend "page offset exceeds page size").

(** ** The translation cache *)

Module TranslationCache.
Abbreviation key := (Z * Z * Z)%type.

Record t : Type := mk {
  capacity : Z;
  entries : gmap key Translation.t;
  order : list key;
}.

Section ops.
Context `{Allocator}.

Definition new (capacity : Z) : Result t :=
  if capacity =? 0 then Err (Backend "translation cache capacity must be non-zero")
  else
    let? allocation := ok_or (checked_add 64 capacity 1)
      (Backend "translation cache capacity overflow") in
    let? _ := map_err (fun error =>
        Backend ("failed to allocate translation cache: " +:+ error))
      (try_reserve "translation cache" allocation) in
    let? _ := map_err (fun error =>
        Backend ("failed to allocate translation cache order: " +:+ error))
      (try_reserve "translation cache order" allocation) in
    Ok (mk capacity ∅ []).

Definition get (c : t) (k : key) : option Translation.t := entries c !! k.

Definition insert (c : t) (k : key) (value : Translation.t) : Result unit * t :=
  let entries' := <[k := value]> (entries c) in
  match entries c !! k with
  | Some _ => (Ok tt, mk (capacity c) entries' (order c))
  | None =>
      let order' := order c ++ [k] in
      if capacity c <? Z.of_nat (size entries') then
        match order' with
        | oldest :: rest => (Ok tt, mk (capacity c) (delete oldest entries') rest)
        | [] => (Ok tt, mk (capacity c) entries' order')
        end
      else (Ok tt, mk (capacity c) entries' order')
  end.

Definition clear (c : t) : t := mk (capacity c) ∅ [].
End ops.
End TranslationCache.

Definition translation_cache_poisoned (error : string) : VmiError.t :=
  Backend ("translation cache synchronization failed: " +:+ error).

Definition offset_translation (translation : Translation.t) (page_offset : Z)
    (address : Gva.t) : Result Translation.t :=
  let? physical := ok_or
    (checked_add 64 (Gpa.raw (Translation.physical_address translation)) page_offset)
    (VmiError.ReadFailed (Gva.raw address) 1) in
  Ok (Translation.new (Gpa.new physical) (Translation.page_size translation)).

(** ** Sessions *)

Module VmiSession.
(** The mutable part of a session: the provider's own state and the cache. *)
Record state (S : Type) : Type := mk_state {
  backend : S;
  translations : Mutex TranslationCache.t;
}.
Arguments mk_state {S}.
Arguments backend {S} s.
Arguments translations {S} s.

Section ops.
Context `{Allocator} {S : Type} (session : Session S).
Abbreviation M := (stateful (state S) VmiError.t).

Definition attach (connector : Connector S) (request : AttachRequest.t)
    : Result (Session S * state S) :=
  let? ' (sess, st) := connect connector request in
  let? cache := TranslationCache.new 4096 in
  Ok (sess, mk_state st (mutex_new cache)).

Definition read_bytes (address : Gpa.t) (length : Z) : M (list byte) :=
  fun st =>
    (let? m := memory session in
     DriverApi.read_bytes (read_into m (backend st)) address length, st).

Definition read_scalar (T : Scalar.t) (address : Gpa.t) (order : ByteOrder.t) : M Z :=
  fun st =>
    (let? m := memory session in
     DriverApi.read_scalar T (read_into m (backend st)) address order, st).

Definition clear_translation_cache : M unit :=
  fun st =>
    match map_err translation_cache_poisoned (lock (translations st)) with
    | Err e => (Err e, st)
    | Ok cache =>
        (Ok tt, mk_state (backend st)
                  (store (translations st) (TranslationCache.clear cache)))
    end.

(** [result?; invalidation]: the cache is cleared whatever the result was. *)
Definition then_invalidate (write : M unit) : M unit :=
  fun st =>
    let '(result, st1) := write st in
    let '(invalidation, st2) := clear_translation_cache st1 in
    (let? _ := result in invalidation, st2).

Definition lift_write (w : S -> Result unit * S) : M unit :=
  fun st => let '(r, b) := w (backend st) in (r, mk_state b (translations st)).

Definition write_bytes (address : Gpa.t) (data : list byte) : M unit :=
  match memory_write session with
  | Err e => fail e
  | Ok m => then_invalidate (lift_write (fun b => DriverApi.write_bytes m b address data))
  end.

Definition translate (translator : AddressTranslator) (root : TranslationRoot.t)
    (address : Gva.t) : M Translation.t :=
  fun st =>
    let page_address := Z.land (Gva.raw address) (wnot 64 0xfff) in
    match ok_or (checked_sub (Gva.raw address) page_address)
            (Backend "virtual page offset underflow") with
    | Err e => (Err e, st)
    | Ok page_offset =>
        let key := (cache_tag translator, TranslationRoot.raw root, page_address) in
        match map_err translation_cache_poisoned (lock (translations st)) with
        | Err e => (Err e, st)
        | Ok cache =>
            match TranslationCache.get cache key with
            | Some value => (offset_translation value page_offset address, st)
            | None =>
                match (let? m := memory session in
                       Arch.translate translator (read_into m (backend st)) root
                         (Gva.new page_address)) with
                | Err e => (Err e, st)
                | Ok value =>
                    match map_err translation_cache_poisoned (lock (translations st)) with
                    | Err e => (Err e, st)
                    | Ok cache =>
                        let '(r, cache') := TranslationCache.insert cache key value in
                        let st' := mk_state (backend st) (store (translations st) cache') in
                        match r with
                        | Err e => (Err e, st')
                        | Ok _ => (offset_translation value page_offset address, st')
                        end
                    end
                end
            end
        end
    end.

(** The address and length of the next chunk of a virtual access of
    [length] bytes at [address] of which [completed] are done. *)
Definition read_chunk (address : Gva.t) (length completed : Z) : Result (Z * Z) :=
  let failed := VmiError.ReadFailed (Gva.raw address) length in
  let? completed_address := ok_or (try_width 64 completed) failed in
  let? current := ok_or (checked_add 64 (Gva.raw address) completed_address) failed in
  let? page_remaining := page_remaining current in
  let? remaining := ok_or (checked_sub length completed) failed in
  let chunk_length := Z.min page_remaining remaining in
  let? chunk_end := ok_or (checked_add 64 completed chunk_length)
    (Backend "virtual read chunk overflow") in
  Ok (current, chunk_end).

Definition read_virtual_step (translator : AddressTranslator) (root : TranslationRoot.t)
    (address : Gva.t) (length : Z) (m : MemoryAccess S)
    (ls : list byte * Z * state S)
    : (list byte * Z * state S) + (Result (list byte) * state S) :=
  let '(output, completed, st) := ls in
  if negb (completed <? length) then inr (Ok output, st)
  else
    match (let? ' (current, chunk_end) := read_chunk address length completed in
           let? chunk := ok_or (get_range output completed chunk_end)
             (Backend "virtual read chunk is out of bounds") in
           Ok (current, chunk_end, chunk)) with
    | Err e => inr (Err e, st)
    | Ok (current, chunk_end, chunk) =>
        match translate translator root (Gva.new current) st with
        | (Err e, st') => inr (Err e, st')
        | (Ok translation, st') =>
            match read_into m (backend st') (Translation.physical_address translation) chunk with
            | (Err e, _) => inr (Err e, st')
            | (Ok _, chunk') =>
                match put_range output completed chunk_end chunk' with
                | None => inr (Err (Backend "virtual read chunk is out of bounds"), st')
                | Some output' => inl (output', chunk_end, st')
                end
            end
        end
    end.

(** Each iteration completes at least one byte, so [length + 1] iterations
    are enough. *)
Definition read_virtual (translator : AddressTranslator) (root : TranslationRoot.t)
    (address : Gva.t) (length : Z) : M (list byte) :=
  fun st =>
    match map_err (fun error => Backend ("failed to allocate " +:+ dec length
              +:+ "-byte virtual read buffer: " +:+ error))
            (try_reserve "virtual read buffer" length) with
    | Err e => (Err e, st)
    | Ok _ =>
        match memory session with
        | Err e => (Err e, st)
        | Ok m =>
            run_loop (Z.to_pos (length + 1))
              (read_virtual_step translator root address length m)
              (fun ls => (Err (Backend "model fuel exhausted"), snd ls))
              (replicate (Z.to_nat length) x00, 0, st)
        end
    end.

Definition write_chunk (address : Gva.t) (length completed : Z) : Result (Z * Z) :=
  let failed := VmiError.ReadFailed (Gva.raw address) length in
  let? completed_address := ok_or (try_width 64 completed) failed in
  let? current := ok_or (checked_add 64 (Gva.raw address) completed_address) failed in
  let? page_remaining := page_remaining current in
  let? remaining := ok_or (checked_sub length completed)
    (Backend "virtual write progress exceeds input length") in
  let chunk_length := Z.min page_remaining remaining in
  let? chunk_end := ok_or (checked_add 64 completed chunk_length)
    (Backend "virtual write chunk overflow") in
  Ok (current, chunk_end).

Definition write_virtual_step (translator : AddressTranslator) (root : TranslationRoot.t)
    (address : Gva.t) (data : list byte) (m : MemoryWriteAccess S)
    (ls : Z * state S) : (Z * state S) + (Result unit * state S) :=
  let '(completed, st) := ls in
  if negb (completed <? zlen data) then inr (Ok tt, st)
  else
    match (let? ' (current, chunk_end) := write_chunk address (zlen data) completed in
           let? chunk := ok_or (get_range data completed chunk_end)
             (Backend "virtual write chunk is out of bounds") in
           Ok (current, chunk_end, chunk)) with
    | Err e => inr (Err e, st)
    | Ok (current, chunk_end, chunk) =>
        match translate translator root (Gva.new current) st with
        | (Err e, st') => inr (Err e, st')
        | (Ok translation, st') =>
            match lift_write
                    (fun b => write m b (Translation.physical_address translation) chunk)
                    st' with
            | (Err e, st'') => inr (Err e, st'')
            | (Ok _, st'') => inl (chunk_end, st'')
            end
        end
    end.

Definition write_virtual_body (translator : AddressTranslator) (root : TranslationRoot.t)
    (address : Gva.t) (data : list byte) : M unit :=
  fun st =>
    match memory_write session with
    | Err e => (Err e, st)
    | Ok m =>
        run_loop (Z.to_pos (zlen data + 1))
          (write_virtual_step translator root address data m)
          (fun ls => (Err (Backend "model fuel exhausted"), snd ls))
          (0, st)
    end.

Definition write_virtual (translator : AddressTranslator) (root : TranslationRoot.t)
    (address : Gva.t) (data : list byte) : M unit :=
  then_invalidate (write_virtual_body translator root address data).
End ops.
End VmiSession.

(** * The cache as a bounded queue of bindings *)

Module CacheSpec.
Import TranslationCache.

(** The bindings, oldest first. *)
Definition bindings (c : t) : list (key * Translation.t) :=
  omap (fun k => (fun v => (k, v)) <$> entries c !! k) (order c).

(** A known key is updated in place; a new one joins at the end, and the
    oldest leaves when the capacity is exceeded. *)
Definition fifo_insert (capacity : Z) (l : list (key * Translation.t)) (k : key)
    (v : Translation.t) : list (key * Translation.t) :=
  if bool_decide (k ∈ l.*1) then
    (fun kv => if bool_decide (fst kv = k) then (k, v) else kv) <$> l
  else
    let l' := l ++ [(k, v)] in
    if capacity <? zlen l' then tail l' else l'.

Definition wf (c : t) : Prop :=
  1 <= capacity c /\ NoDup (order c) /\ dom (entries c) = list_to_set (order c) /\
  zlen (order c) <= capacity c.
End CacheSpec.

(** * Lemmas on the cache *)

Section cache_lemmas.
Import TranslationCache CacheSpec.

Lemma wf_size c : wf c -> Z.of_nat (size (entries c)) = zlen (order c).
Proof.
  intros (_ & Hnd & Hdom & _). rewrite <- size_dom, Hdom, size_list_to_set by done. done.
Qed.

Lemma wf_elem c k : wf c -> k ∈ order c <-> is_Some (entries c !! k).
Proof.
  intros (_ & _ & Hdom & _). rewrite <- elem_of_dom, Hdom, elem_of_list_to_set. done.
Qed.

Lemma wf_new `{Allocator} n c : in_u64 n -> new n = Ok c -> wf c /\ capacity c = n /\ bindings c = [].
Proof.
  unfold new, in_width. intros Hn Hc. destruct (Z.eqb_spec n 0); [done|]. inv_ok. subst c.
  unfold wf. cbn. rewrite dom_empty_L. repeat split; [lia|constructor|unfold zlen; cbn; lia].
Qed.

Lemma wf_clear c : wf c -> wf (clear c) /\ bindings (clear c) = [].
Proof.
  intros (Hc & _). unfold wf, clear. cbn. rewrite dom_empty_L.
  repeat split; [done|constructor|unfold zlen; cbn; lia].
Qed.

Lemma bindings_keys c : wf c -> (bindings c).*1 = order c.
Proof.
  intros Hwf. unfold bindings.
  assert (Hin : forall k, k ∈ order c -> is_Some (entries c !! k)) by (intros; by apply wf_elem).
  induction (order c) as [|k l IH]; cbn; [done|].
  destruct (Hin k) as [v Hv]; [constructor|]. rewrite Hv. cbn. f_equal.
  apply IH. intros. apply Hin. by constructor.
Qed.

Definition binding (m : gmap key Translation.t) (k : key) : option (key * Translation.t) :=
  (fun v => (k, v)) <$> m !! k.

Lemma omap_binding_ext m m' (l : list key) :
  (forall k, k ∈ l -> m !! k = m' !! k) -> omap (binding m) l = omap (binding m') l.
Proof.
  intros Heq. induction l as [|k l IH]; [done|]. cbn.
  rewrite IH by (intros; apply Heq; by constructor).
  unfold binding at 1. by rewrite (Heq k) by constructor.
Qed.

Lemma omap_binding_update m k v (l : list key) :
  is_Some (m !! k) ->
  omap (binding (<[k := v]> m)) l =
  (fun kv => if bool_decide (fst kv = k) then (k, v) else kv) <$> omap (binding m) l.
Proof.
  intros [old Hk]. induction l as [|k' l IH]; [done|]. cbn. rewrite IH. clear IH.
  set (rest := omap (binding m) l). unfold binding.
  destruct (decide (k = k')) as [<-|Hne].
  - rewrite lookup_insert_eq, Hk. cbn. by rewrite bool_decide_eq_true_2 by done.
  - rewrite lookup_insert_ne by done. destruct (m !! k') as [v'|]; cbn; [|done].
    by rewrite bool_decide_eq_false_2 by done.
Qed.

Lemma insert_old c k v :
  wf c -> is_Some (get c k) ->
  let c' := mk (capacity c) (<[k := v]> (entries c)) (order c) in
  insert c k v = (Ok tt, c') /\ wf c' /\
  bindings c' = fifo_insert (capacity c) (bindings c) k v.
Proof.
  intros Hwf Hk. pose proof Hwf as (Hcap & Hnd & Hdom & Hlen).
  assert (Hin : k ∈ order c) by (by apply wf_elem).
  split; [|split].
  - unfold insert. unfold get in Hk. by destruct Hk as [old ->].
  - unfold wf. cbn. rewrite dom_insert_L, Hdom. repeat split; try done.
    apply (elem_of_list_to_set (C := gset key)) in Hin. set_solver.
  - unfold fifo_insert. rewrite bindings_keys, bool_decide_eq_true_2 by done.
    apply omap_binding_update. exact Hk.
Qed.

Lemma insert_room c k v :
  wf c -> get c k = None -> zlen (order c) < capacity c ->
  let c' := mk (capacity c) (<[k := v]> (entries c)) (order c ++ [k]) in
  insert c k v = (Ok tt, c') /\ wf c' /\
  bindings c' = fifo_insert (capacity c) (bindings c) k v.
Proof.
  intros Hwf Hk Hroom. pose proof Hwf as (Hcap & Hnd & Hdom & Hlen).
  assert (Hnin : k ∉ order c) by (rewrite wf_elem by done; unfold get in Hk; rewrite Hk; by intros [? [=]]).
  assert (Hb : omap (binding (<[k := v]> (entries c))) (order c ++ [k]) = bindings c ++ [(k, v)]).
  { rewrite omap_app. cbn. unfold binding at 2. rewrite lookup_insert_eq. cbn. f_equal.
    apply omap_binding_ext. intros k' Hk'. rewrite lookup_insert_ne; [done|]. by intros ->. }
  split; [|split].
  - unfold insert, get in *. rewrite Hk. rewrite map_size_insert_None by done.
    pose proof (wf_size c Hwf). destruct (Z.ltb_spec (capacity c) (Z.of_nat (S (size (entries c)))));
      [lia|done].
  - unfold wf. cbn. rewrite dom_insert_L, Hdom, list_to_set_app_L. repeat split; [done| |set_solver|].
    + apply NoDup_app. repeat split; [done| |apply NoDup_singleton]. set_solver.
    + rewrite zlen_app. unfold zlen at 2. cbn. lia.
  - unfold fifo_insert. rewrite bindings_keys, bool_decide_eq_false_2 by done.
    trans (omap (binding (<[k := v]> (entries c))) (order c ++ [k])); [done|].
    rewrite Hb. replace (zlen (bindings c ++ [(k, v)])) with (zlen (order c) + 1).
    + destruct (Z.ltb_spec (capacity c) (zlen (order c) + 1)); [lia|done].
    + rewrite zlen_app, <- bindings_keys by done. unfold zlen. rewrite length_fmap. done.
Qed.

Lemma insert_full c k v oldest rest :
  wf c -> get c k = None -> capacity c <= zlen (order c) -> order c = oldest :: rest ->
  let c' := mk (capacity c) (delete oldest (<[k := v]> (entries c))) (rest ++ [k]) in
  insert c k v = (Ok tt, c') /\ wf c' /\
  bindings c' = fifo_insert (capacity c) (bindings c) k v.
Proof.
  intros Hwf Hk Hfull Ho. pose proof Hwf as (Hcap & Hnd & Hdom & Hlen).
  assert (Hnin : k ∉ order c) by (rewrite wf_elem by done; unfold get in Hk; rewrite Hk; by intros [? [=]]).
  rewrite Ho in *. apply NoDup_cons in Hnd as [Hold Hnd]. apply not_elem_of_cons in Hnin as [Hne Hnin].
  destruct (proj1 (wf_elem c oldest Hwf)) as [vold Hvold]; [rewrite Ho; constructor|].
  assert (Hsize : (capacity c <? Z.of_nat (size (<[k := v]> (entries c)))) = true).
  { unfold get in Hk. rewrite map_size_insert_None by done. pose proof (wf_size c Hwf) as Hs.
    rewrite Ho in Hs. apply Z.ltb_lt. lia. }
  split; [|split].
  - unfold insert, get in *. rewrite Hk, Hsize, Ho. done.
  - unfold wf. cbn. rewrite dom_delete_L, dom_insert_L, Hdom, list_to_set_app_L.
    repeat split; [done| | |].
    + apply NoDup_app. repeat split; [done| |apply NoDup_singleton]. set_solver.
    + set_solver.
    + rewrite zlen_cons in Hlen. rewrite zlen_app. unfold zlen at 2. cbn. lia.
  - unfold fifo_insert. rewrite bindings_keys, Ho by done.
    rewrite bool_decide_eq_false_2 by (rewrite not_elem_of_cons; done).
    assert (Hb : bindings c = (oldest, vold) :: omap (binding (entries c)) rest).
    { unfold bindings. rewrite Ho. cbn. by rewrite Hvold. }
    replace (capacity c <? zlen (bindings c ++ [(k, v)])) with true.
    2:{ symmetry. apply Z.ltb_lt. rewrite zlen_app. unfold zlen at 2. cbn [length].
        assert (zlen (bindings c) = zlen (order c)) as ->
          by (rewrite <- bindings_keys by done; unfold zlen; by rewrite length_fmap).
        rewrite Ho. lia. }
    rewrite Hb. cbn [app tail].
    trans (omap (binding (delete oldest (<[k := v]> (entries c)))) (rest ++ [k])); [done|].
    rewrite omap_app. cbn. unfold binding at 2. rewrite lookup_delete_ne, lookup_insert_eq by done.
    cbn. f_equal. apply omap_binding_ext. intros k' Hk'.
    rewrite lookup_delete_ne, lookup_insert_ne by (intros ->; done). done.
Qed.

(** Insertion is the queue insertion; the new binding is there afterwards,
    and every other binding left is one that was there. *)
Lemma insert_spec c k v :
  wf c ->
  exists c', insert c k v = (Ok tt, c') /\ wf c' /\ capacity c' = capacity c /\
    bindings c' = fifo_insert (capacity c) (bindings c) k v /\
    get c' k = Some v /\
    (forall k' v', k' <> k -> get c' k' = Some v' -> get c k' = Some v').
Proof.
  intros Hwf. destruct (get c k) as [old|] eqn:Hk.
  - destruct (insert_old c k v Hwf) as (? & ? & ?); [by eauto|].
    eexists. repeat (split; [done|]). split; [apply lookup_insert_eq|].
    intros k' v' Hne. unfold get. cbn. by rewrite lookup_insert_ne.
  - destruct (Z.lt_ge_cases (zlen (order c)) (capacity c)) as [Hroom|Hfull].
    + destruct (insert_room c k v Hwf Hk Hroom) as (? & ? & ?).
      eexists. repeat (split; [done|]). split; [apply lookup_insert_eq|].
      intros k' v' Hne. unfold get. cbn. by rewrite lookup_insert_ne.
    + destruct (order c) as [|oldest rest] eqn:Ho.
      { destruct Hwf as (Hcap & _). unfold zlen in Hfull. cbn in Hfull. lia. }
      destruct (insert_full c k v oldest rest Hwf Hk) as (? & ? & ?); [by rewrite Ho|done|].
      assert (oldest <> k).
      { intros ->. destruct (proj1 (wf_elem c k Hwf)) as [? Hs]; [rewrite Ho; constructor|].
        unfold get in Hk. by rewrite Hk in Hs. }
      eexists. repeat (split; [done|]). unfold get. cbn. split.
      * by rewrite lookup_delete_ne, lookup_insert_eq.
      * intros k' v' Hne. rewrite lookup_delete_Some, lookup_insert_ne by done. by intros [_ ?].
Qed.
End cache_lemmas.

(** * Lemmas on sessions *)

Section session_lemmas.
Context `{Allocator} {S : Type} (session : Session S) (m : MemoryAccess S)
  (tr : AddressTranslator) `{!PageLinear tr}.
Context (Hmem : memory session = Ok m).
Import VmiSession.

Abbreviation reader st := (read_into m (backend st)).

(** Every cached translation of [tr] is what [tr] computes on the present memory. *)
Definition coherent (st : state S) : Prop :=
  forall root page t,
    TranslationCache.get (guarded (translations st)) (cache_tag tr, root, page) = Some t ->
    Arch.translate tr (reader st) (TranslationRoot.new root) (Gva.new page) = Ok t.

Definition ready (st : state S) : Prop :=
  poisoned (translations st) = false /\
  CacheSpec.wf (guarded (translations st)) /\ coherent st.

Lemma page_address_eq va : in_u64 va -> Z.land va (wnot 64 0xfff) = page_base va.
Proof.
  intros. change 0xfff with (Z.ones 12). rewrite land_wnot, ldiff_ones_div by (done || lia). done.
Qed.

Lemma offset_translation_fits t off a :
  Gpa.raw (Translation.physical_address t) + off < 2 ^ 64 ->
  offset_translation t off a =
  Ok (Translation.new (Gpa.new (Gpa.raw (Translation.physical_address t) + off))
        (Translation.page_size t)).
Proof. intros. unfold offset_translation. by rewrite checked_add_fits. Qed.

(** The two results agree, errors up to their kind. *)
Definition agree (r r' : Result Translation.t) : Prop :=
  match r, r' with
  | Ok t, Ok t' => t = t'
  | Err e, Err e' => VmiError.kind e = VmiError.kind e'
  | _, _ => False
  end.

(** A cached translation is the translation. *)
Lemma translate_coherent root va st :
  ready st -> in_u64 va ->
  exists r st', translate session tr root (Gva.new va) st = (r, st') /\
    agree r (Arch.translate tr (reader st) root (Gva.new va)) /\
    backend st' = backend st /\ ready st'.
Proof.
  intros Hready Hva. pose proof Hready as (Hpois & Hwf & Hcoh).
  pose proof (page_linear (reader st) root va Hva) as Hlin.
  unfold translate. cbn [Gva.raw]. rewrite page_address_eq by done.
  pose proof (page_split va). pose proof (page_offset_range va).
  rewrite checked_sub_fits by lia. cbn [ok_or].
  replace (va - page_base va) with (page_offset va) by lia.
  unfold lock at 1. rewrite Hpois. cbn [map_err].
  destruct (TranslationCache.get _ _) as [t|] eqn:Hget.
  - apply Hcoh in Hget. destruct root as [root]. cbn [TranslationRoot.raw] in Hget.
    rewrite Hget in Hlin. destruct Hlin as (Hva' & _ & Hfit).
    eexists _, st. rewrite offset_translation_fits by done. rewrite Hva'. done.
  - rewrite Hmem. cbn [mbind result_bind].
    destruct (Arch.translate tr (reader st) root (Gva.new (page_base va))) as [t|e] eqn:Ht.
    + unfold lock. rewrite Hpois. cbn [map_err].
      destruct (insert_spec _ (cache_tag tr, TranslationRoot.raw root, page_base va) t Hwf)
        as (c' & -> & Hwf' & _ & _ & Hnew & Hold).
      destruct Hlin as (Hva' & _ & Hfit).
      eexists _, _. split; [done|]. rewrite offset_translation_fits, Hva' by done.
      split; [done|]. split; [done|]. split; [exact Hpois|]. split; [done|].
      intros root' page t' Hget'. cbn [translations store guarded backend] in *.
      destruct (decide ((cache_tag tr, root', page)
        = (cache_tag tr, TranslationRoot.raw root, page_base va))) as [E|Hne].
      * injection E as -> ->. rewrite Hnew in Hget'. injection Hget' as <-.
        by destruct root.
      * apply Hcoh. by apply Hold in Hget'.
    + destruct Hlin as (e' & He' & Hk). eexists _, st. split; [done|].
      rewrite He'. cbn. done.
Qed.

(** Inside one page, translation is addition. *)
Lemma translate_same_page memory root va i t :
  in_u64 va -> 0 <= i -> page_offset va + i < 2 ^ 12 ->
  Arch.translate tr memory root (Gva.new va) = Ok t ->
  Arch.translate tr memory root (Gva.new (va + i)) =
    Ok (Translation.new (Gpa.new (Gpa.raw (Translation.physical_address t) + i))
          (Translation.page_size t)).
Proof.
  intros Hva Hi Hoff Ht.
  pose proof (page_split va). pose proof (page_offset_range va). unfold in_width in Hva.
  assert (Hdiv : (va + i) / 2 ^ 12 = va / 2 ^ 12).
  { symmetry. apply Z.div_unique with (page_offset va + i); [lia|].
    unfold page_base in *. lia. }
  assert (Hbase : page_base (va + i) = page_base va) by (unfold page_base; by rewrite Hdiv).
  pose proof (page_split (va + i)).
  assert (Hva' : in_u64 (va + i)).
  { unfold in_width, page_base in *. assert (va / 2 ^ 12 < 2 ^ 52) by
      (apply Z.div_lt_upper_bound; lia). lia. }
  pose proof (page_linear memory root va Hva) as Hl1.
  pose proof (page_linear memory root (va + i) Hva') as Hl2. rewrite Hbase in Hl2.
  destruct (Arch.translate tr memory root (Gva.new (page_base va))) as [t0|e].
  - destruct Hl1 as (E1 & _), Hl2 as (E2 & _). rewrite E1 in Ht. injection Ht as <-.
    rewrite E2. cbn. do 3 f_equal. lia.
  - destruct Hl1 as (e' & E1 & _). congruence.
Qed.

Lemma page_remaining_eq a : in_u64 a -> page_remaining a = Ok (2 ^ 12 - page_offset a).
Proof.
  intros. unfold page_remaining. change 0xfff with (Z.ones 12). rewrite Z.land_ones by lia.
  fold (page_offset a). pose proof (page_offset_range a).
  rewrite try_width_fits by lia. cbn [ok_or mbind result_bind].
  by rewrite checked_sub_fits by lia.
Qed.

(** The next chunk: at least one byte, inside one page, never past the end. *)
Lemma read_chunk_Ok va n completed :
  in_u64 va -> 0 <= completed < n -> n <= isize_max ->
  match read_chunk (Gva.new va) n completed with
  | Ok (current, chunk_end) =>
      current = va + completed /\ current < 2 ^ 64 /\ completed < chunk_end <= n /\
      page_offset current + (chunk_end - completed) <= 2 ^ 12
  | Err _ => 2 ^ 64 <= va + completed
  end.
Proof.
  unfold in_width, isize_max. intros Hva Hc Hn. unfold read_chunk. cbn [Gva.raw].
  rewrite try_width_fits by lia. cbn [ok_or mbind result_bind].
  destruct (checked_add 64 va completed) as [current|] eqn:E; cbn [ok_or mbind result_bind].
  2:{ unfold checked_add in E. destruct (Z.ltb_spec (va + completed) (2 ^ 64)); [done|lia]. }
  apply checked_add_Some in E as [-> Hfit].
  rewrite page_remaining_eq by (unfold in_width; lia). cbn [ok_or mbind result_bind].
  rewrite checked_sub_fits by lia. cbn [ok_or mbind result_bind].
  pose proof (page_offset_range (va + completed)).
  rewrite checked_add_fits by lia. cbn [ok_or mbind result_bind]. lia.
Qed.

Section virtual_read.
Context (memory : Reader) (byte_at : Z -> option byte) `{!ByteMemory memory byte_at}.
Context (root : TranslationRoot.t) (va n : Z).

(** The byte a virtual address translates to. *)
Definition virtual_byte (a : Z) : option byte :=
  match Arch.translate tr memory root (Gva.new a) with
  | Ok t => byte_at (Gpa.raw (Translation.physical_address t))
  | Err _ => None
  end.

Definition read_inv (ls : list byte * Z * state S) : Prop :=
  let '(output, completed, st) := ls in
  zlen output = n /\ 0 <= completed <= n /\ (0 < completed -> va + completed <= 2 ^ 64) /\
  ready st /\ reader st = memory /\
  forall i : nat, Z.of_nat i < completed -> virtual_byte (va + Z.of_nat i) = output !! i.

Definition read_post (r : Result (list byte) * state S) : Prop :=
  ready r.2 /\ reader r.2 = memory /\
  match r.1 with
  | Ok bs => zlen bs = n /\ (0 < n -> va + n <= 2 ^ 64) /\
      forall i : nat, Z.of_nat i < n -> virtual_byte (va + Z.of_nat i) = bs !! i
  | Err _ => ~ (va + n <= 2 ^ 64 /\
      forall i : nat, Z.of_nat i < n -> is_Some (virtual_byte (va + Z.of_nat i)))
  end.

(** The bytes of a chunk are those the memory holds from the chunk's
    physical address on. *)
Lemma chunk_bytes a t len :
  in_u64 a -> page_offset a + len <= 2 ^ 12 ->
  Arch.translate tr memory root (Gva.new a) = Ok t ->
  forall i : nat, Z.of_nat i < len ->
    virtual_byte (a + Z.of_nat i)
    = byte_at (Gpa.raw (Translation.physical_address t) + Z.of_nat i).
Proof.
  intros Ha Hlen Ht i Hi. unfold virtual_byte.
  rewrite (translate_same_page memory root a (Z.of_nat i) t) by (done || lia). done.
Qed.

Lemma read_step_inv ls :
  in_u64 va -> n <= isize_max -> read_inv ls ->
  match read_virtual_step session tr root (Gva.new va) n m ls with
  | inl ls' => read_inv ls' /\ n - ls'.1.2 < n - ls.1.2
  | inr r => read_post r
  end.
Proof.
  intros Hva Hn. destruct ls as [[output completed] st].
  intros (Hlen & Hc & Hend & Hready & Hrd & Hbytes). unfold read_virtual_step.
  destruct (Z.ltb_spec completed n) as [Hlt|Hge]; cbn [negb].
  2:{ assert (completed = n) as -> by lia. split; [done|]. split; [done|]. cbn. auto. }
  pose proof (read_chunk_Ok va n completed Hva ltac:(lia) Hn) as Hchunk.
  destruct (read_chunk _ _ _) as [[current chunk_end]|e]; cbn [mbind result_bind].
  2:{ split; [done|]. split; [done|]. cbn. lia. }
  destruct Hchunk as (-> & Hcur & Hce & Hpage).
  destruct (get_range output completed chunk_end) as [chunk|] eqn:Hget.
  2:{ unfold get_range in Hget. rewrite Hlen in Hget.
      destruct (Z.leb_spec 0 completed), (Z.leb_spec completed chunk_end),
        (Z.leb_spec chunk_end n); try lia; done. }
  cbn [ok_or mbind result_bind]. apply zlen_get_range in Hget.
  assert (Hcur' : in_u64 (va + completed)) by (unfold in_width in *; lia).
  destruct (translate_coherent root (va + completed) st Hready Hcur')
    as (r & st' & -> & Hagree & Hbk & Hready').
  rewrite Hrd in Hagree. assert (Hrd' : reader st' = memory) by (by rewrite Hbk).
  destruct r as [t|e], (Arch.translate tr memory root _) as [t'|e'] eqn:Ht; try done.
  2:{ split; [done|]. split; [done|]. cbn. intros [_ Hall].
      specialize (Hall (Z.to_nat completed)). rewrite Z2Nat.id in Hall by lia.
      destruct Hall as [b Hb]; [lia|]. unfold virtual_byte in Hb. by rewrite Ht in Hb. }
  cbn in Hagree. subst t'. rewrite Hrd'.
  pose proof (chunk_bytes (va + completed) t (chunk_end - completed) Hcur' Hpage Ht) as Hcb.
  destruct (memory (Translation.physical_address t) chunk) as [[[]|e] chunk'] eqn:Hread.
  - apply byte_memory_ok in Hread as [Hl Hb]; [|lia].
    destruct (put_range output completed chunk_end chunk') as [output'|] eqn:Hput.
    2:{ unfold put_range in Hput. rewrite Hlen in Hput.
        destruct (Z.leb_spec 0 completed), (Z.leb_spec completed chunk_end),
          (Z.leb_spec chunk_end n); try lia; done. }
    apply put_range_lookup in Hput as [Hl' Hlk]; [|unfold zlen in *; lia].
    split; [|cbn; lia]. split; [lia|]. split; [lia|].
    split; [intros; pose proof (page_split (va + completed)); unfold in_width, page_base in *;
      assert ((va + completed) / 2 ^ 12 < 2 ^ 52) by (apply Z.div_lt_upper_bound; lia); lia|].
    split; [done|]. split; [done|]. intros i Hi. rewrite Hlk.
    destruct (Z.ltb_spec (Z.of_nat i) completed); cbn [orb]; [by apply Hbytes|].
    destruct (Z.leb_spec chunk_end (Z.of_nat i)); [lia|].
    specialize (Hcb (i - Z.to_nat completed)%nat ltac:(lia)).
    replace (va + Z.of_nat i) with (va + completed + Z.of_nat (i - Z.to_nat completed)) by lia.
    rewrite Hcb. apply Hb. unfold zlen in Hget. lia.
  - split; [done|]. split; [done|]. cbn. intros [_ Hall].
    destruct (list_of_family (fun i => byte_at (Gpa.raw (Translation.physical_address t) + Z.of_nat i))
      (length chunk)) as (bs & Hbs & Hfam).
    { intros i Hi. rewrite <- Hcb by (unfold zlen in Hget; lia).
      specialize (Hall (Z.to_nat completed + i)%nat).
      replace (va + Z.of_nat (Z.to_nat completed + i)) with (va + completed + Z.of_nat i) in Hall by lia.
      apply Hall. unfold zlen in Hget. lia. }
    rewrite (byte_memory_read _ _ bs) in Hread; [done|done|lia|].
    intros i Hi. apply Hfam. lia.
Qed.

Lemma read_virtual_post st :
  in_u64 va -> 0 <= n -> alloc_ok "virtual read buffer" n = true ->
  ready st -> reader st = memory ->
  read_post (read_virtual session tr root (Gva.new va) n st).
Proof.
  intros Hva Hn Halloc Hready Hrd.
  assert (Hmax : n <= isize_max).
  { destruct (Z.le_gt_cases n isize_max) as [?|Hgt]; [done|]. by rewrite alloc_limit in Halloc. }
  unfold read_virtual, try_reserve. rewrite Halloc. cbn [map_err]. rewrite Hmem.
  apply (run_loop_total read_inv read_post (fun ls => n - ls.1.2)).
  - unfold read_inv. split; [unfold zlen; rewrite length_replicate; lia|].
    split; [lia|]. split; [lia|]. split; [done|]. split; [done|]. lia.
  - cbn. lia.
  - intros [[? ?] ?] (? & ? & _). cbn. lia.
  - intros ls Hls. by apply read_step_inv.
Qed.
End virtual_read.
End session_lemmas.
