(* ===== verification/SessionFacts.v ===== *)
(** * What a session guarantees ([crates/vmi-core])

    The cache is a bounded first-in first-out map; a cached translation is
    the translation; virtual reads are bytewise correct and virtual writes
    reach the provider chunk by chunk, with no stale translation left. *)

From S2P Require Import Prelude.
From S2P Require Import Types.
From S2P Require Import DriverApi.
From S2P Require Import Arch.
From S2P Require Import Amd64.
From S2P Require Import Session.

(** ** The cache against the queue of its bindings *)

Module CacheRun.
Import TranslationCache CacheSpec.

Inductive op : Type :=
| Insert (k : key) (v : Translation.t)
| Clear.

Definition step (c : t) (o : op) : t :=
  match o with
  | Insert k v => snd (insert c k v)
  | Clear => clear c
  end.

Definition spec_step (capacity : Z) (l : list (key * Translation.t)) (o : op)
    : list (key * Translation.t) :=
  match o with
  | Insert k v => fifo_insert capacity l k v
  | Clear => []
  end.

Definition find_binding (k : key) (l : list (key * Translation.t)) : option Translation.t :=
  snd <$> find (fun kv => bool_decide (fst kv = k)) l.
End CacheRun.

Section cache_facts.
Import TranslationCache CacheSpec CacheRun.

Lemma find_binding_omap m k (l : list key) :
  find_binding k (omap (binding m) l) = if bool_decide (k ∈ l) then m !! k else None.
Proof.
  unfold find_binding. induction l as [|k' l IH]; [done|]. cbn [omap list_omap].
  unfold binding at 1. destruct (m !! k') as [v|] eqn:Hv; cbn.
  - destruct (decide (k' = k)) as [->|Hne].
    + by rewrite !bool_decide_eq_true_2 by set_solver.
    + rewrite bool_decide_eq_false_2 by done. rewrite IH.
      by rewrite (bool_decide_ext (k ∈ k' :: l) (k ∈ l)) by set_solver.
  - rewrite IH. destruct (decide (k' = k)) as [->|Hne].
    + rewrite Hv. by repeat case_bool_decide.
    + by rewrite (bool_decide_ext (k ∈ k' :: l) (k ∈ l)) by set_solver.
Qed.

Lemma get_bindings c k : wf c -> get c k = find_binding k (bindings c).
Proof.
  intros Hwf. change (bindings c) with (omap (binding (entries c)) (order c)).
  rewrite find_binding_omap. unfold get.
  case_bool_decide as Hk; [done|]. rewrite wf_elem in Hk by done.
  by apply eq_None_not_Some.
Qed.

Lemma run_spec ops c :
  wf c ->
  let c' := foldl step c ops in
  wf c' /\ capacity c' = capacity c /\
  bindings c' = foldl (spec_step (capacity c)) (bindings c) ops.
Proof.
  revert c. induction ops as [|[k v|] ops IH]; intros c Hwf; cbn; [done| |].
  - destruct (insert_spec c k v Hwf) as (c' & Hi & Hwf' & Hcap & Hb & _).
    rewrite Hi. cbn. destruct (IH c' Hwf') as (? & ? & Hr).
    rewrite Hcap, Hb in *. done.
  - destruct (wf_clear c Hwf) as [Hwf' Hb]. destruct (IH _ Hwf') as (? & ? & Hr).
    rewrite Hb in Hr. done.
Qed.
End cache_facts.

(** C7: the translation cache is a bounded first-in first-out map.  After any
    sequence of insertions and clearings of a new cache, a lookup finds what
    the queue of bindings holds, the queue being updated in place by a known
    key, extended by a new one and cut at its oldest end; it never holds more
    than the capacity, and a capacity of zero is refused. *)
Theorem translation_cache_refines_fifo `{Allocator} (capacity : Z) (c : TranslationCache.t)
    (ops : list CacheRun.op) (Hcap : in_u64 capacity)
    (Hnew : TranslationCache.new capacity = Ok c) :
  let queue := foldl (CacheRun.spec_step capacity) [] ops in
  let c' := foldl CacheRun.step c ops in
  1 <= capacity /\ zlen queue <= capacity /\ NoDup (queue.*1) /\
  Z.of_nat (size (TranslationCache.entries c')) = zlen queue /\
  forall k, TranslationCache.get c' k = CacheRun.find_binding k queue.
Proof.
  destruct (wf_new capacity c Hcap Hnew) as (Hwf & Hc & Hb).
  destruct (run_spec ops c Hwf) as (Hwf' & Hc' & Hb'). rewrite Hc, Hb in Hb'. cbn.
  rewrite <- Hb', bindings_keys by done. pose proof Hwf' as (Hpos & Hnd & _ & Hlen).
  assert (Hl : zlen (CacheSpec.bindings (foldl CacheRun.step c ops))
               = zlen (TranslationCache.order (foldl CacheRun.step c ops))).
  { rewrite <- bindings_keys by done. unfold zlen. by rewrite length_fmap. }
  rewrite Hl, wf_size by done. repeat split; [lia|lia|done|].
  intros k. by apply get_bindings.
Qed.

Definition witness_translation (a : Z) : Translation.t := Translation.new (Gpa.new a) 4096.

Lemma translation_cache_refines_fifo_witness :
  TranslationCache.get
    (foldl CacheRun.step (TranslationCache.mk 2 ∅ [])
      [CacheRun.Insert (0, 0, 1) (witness_translation 10);
       CacheRun.Insert (0, 0, 2) (witness_translation 20);
       CacheRun.Insert (0, 0, 1) (witness_translation 11);
       CacheRun.Insert (0, 0, 3) (witness_translation 30)]) (0, 0, 1) = None.
Proof.
  destruct (@translation_cache_refines_fifo ample_allocator 2 (TranslationCache.mk 2 ∅ [])
      [CacheRun.Insert (0, 0, 1) (witness_translation 10);
       CacheRun.Insert (0, 0, 2) (witness_translation 20);
       CacheRun.Insert (0, 0, 1) (witness_translation 11);
       CacheRun.Insert (0, 0, 3) (witness_translation 30)])
    as (_ & _ & _ & _ & Hget); [width_const|reflexivity|].
  rewrite Hget. vm_compute. reflexivity.
Defined.

(** ** Every session operation keeps the cache coherent *)

Module SessionRun.
(** An operation of a session; each names the translator it is called with. *)
Inductive op : Type :=
| ReadBytes (address : Gpa.t) (n : Z)
| ReadScalar (T : Scalar.t) (address : Gpa.t) (order : ByteOrder.t)
| Translate (tr : AddressTranslator) (root : TranslationRoot.t) (va : Z)
| ReadVirtual (tr : AddressTranslator) (root : TranslationRoot.t) (va n : Z)
| ClearCache
| WriteBytes (address : Gpa.t) (data : list byte)
| WriteVirtual (tr : AddressTranslator) (root : TranslationRoot.t) (va : Z) (data : list byte).

Definition op_translator (o : op) : option AddressTranslator :=
  match o with
  | Translate tr _ _ | ReadVirtual tr _ _ _ | WriteVirtual tr _ _ _ => Some tr
  | ReadBytes _ _ | ReadScalar _ _ _ | ClearCache | WriteBytes _ _ => None
  end.

(** What a cache tag stands for: translators with the same tag translate
    alike.  Nothing is asked of translators with different tags. *)
Definition tag_law (tr tr' : AddressTranslator) : Prop :=
  cache_tag tr' = cache_tag tr ->
  forall memory root va, Arch.translate tr' memory root va = Arch.translate tr memory root va.

Definition tagged_apart (tr : AddressTranslator) (o : op) : Prop :=
  forall tr', op_translator o = Some tr' -> tag_law tr tr'.

Section step.
Context `{Allocator} {S : Type} (session : Session S).
Import VmiSession.

(** An operation of the session, its result dropped. *)
Definition step (st : state S) (o : op) : state S :=
  match o with
  | ReadBytes address n => snd (read_bytes session address n st)
  | ReadScalar T address order => snd (read_scalar session T address order st)
  | Translate tr root va => snd (translate session tr root (Gva.new va) st)
  | ReadVirtual tr root va n => snd (read_virtual session tr root (Gva.new va) n st)
  | ClearCache => snd (clear_translation_cache st)
  | WriteBytes address data => snd (write_bytes session address data st)
  | WriteVirtual tr root va data => snd (write_virtual session tr root (Gva.new va) data st)
  end.
End step.
End SessionRun.

Section coherence.
Context `{Allocator} {S : Type} (session : Session S) (m : MemoryAccess S)
  (tr : AddressTranslator) `{!PageLinear tr}.
Context (Hmem : memory session = Ok m).
Import VmiSession SessionRun.

(** What survives a write: an intact cache, coherent or not. *)
Definition intact (st : state S) : Prop :=
  poisoned (translations st) = false /\ CacheSpec.wf (guarded (translations st)).

Lemma ready_intact st : ready m tr st -> intact st.
Proof. by intros (? & ? & ?). Qed.

Lemma translate_intact tr' root va st :
  intact st -> intact (snd (translate session tr' root va st)).
Proof.
  intros [Hp Hwf]. unfold translate. destruct (ok_or _ _) as [off|]; [|done].
  unfold lock. rewrite Hp. cbn [map_err].
  destruct (TranslationCache.get _ _); [done|].
  destruct (mbind _ _) as [value|]; [|done].
  destruct (insert_spec (guarded (translations st))
    (Arch.cache_tag tr', TranslationRoot.raw root, Z.land (Gva.raw va) (wnot 64 0xfff)) value Hwf)
    as (c' & -> & Hwf' & _). done.
Qed.

Lemma clear_ready st :
  intact st ->
  exists st', clear_translation_cache st = (Ok tt, st') /\ ready m tr st' /\
    backend st' = backend st /\ CacheSpec.bindings (guarded (translations st')) = [].
Proof.
  intros [Hp Hwf]. unfold clear_translation_cache, lock. rewrite Hp. cbn [map_err].
  destruct (wf_clear _ Hwf) as [Hwf' Hb]. eexists. split; [done|].
  split; [|done]. split; [exact Hp|]. split; [done|].
  intros root page t. unfold TranslationCache.get. cbn. by rewrite lookup_empty.
Qed.

(** A write, whatever its outcome, ends with an empty cache. *)
Lemma then_invalidate_ready write st :
  intact (snd (write st)) ->
  exists st', then_invalidate write st = (fst (write st), st') /\ ready m tr st' /\
    backend st' = backend (snd (write st)) /\
    CacheSpec.bindings (guarded (translations st')) = [].
Proof.
  intros Hi. unfold then_invalidate. destruct (write st) as [r st1].
  destruct (clear_ready st1 Hi) as (st2 & -> & ?). exists st2.
  destruct r as [[]|e]; done.
Qed.

(** A translation by any translator leaves the cache coherent for [tr]. *)
Lemma translate_ready tr' root va st :
  tag_law tr tr' -> ready m tr st ->
  ready m tr (snd (translate session tr' root va st)) /\
  backend (snd (translate session tr' root va st)) = backend st.
Proof.
  intros Hlaw Hready. pose proof Hready as (Hp & Hwf & Hcoh). unfold translate.
  destruct (ok_or _ _) as [off|]; [|done]. unfold lock. rewrite Hp. cbn [map_err].
  destruct (TranslationCache.get _ _); [done|]. rewrite Hmem. cbn [mbind result_bind].
  set (page := Z.land _ _). destruct (Arch.translate tr' _ _ _) as [value|] eqn:Ht; [|done].
  destruct (insert_spec (guarded (translations st))
    (Arch.cache_tag tr', TranslationRoot.raw root, page) value Hwf)
    as (c' & -> & Hwf' & _ & _ & Hnew & Hold).
  split; [|done]. split; [exact Hp|]. split; [done|].
  intros root' page' t' Hget. cbn [snd translations store guarded backend] in *.
  destruct (decide ((cache_tag tr, root', page') = (cache_tag tr', TranslationRoot.raw root, page))) as [E|Hne].
  - injection E as Etag -> ->. rewrite Etag, Hnew in Hget. injection Hget as <-.
    rewrite <- (Hlaw (eq_sym Etag)). by destruct root.
  - apply Hcoh. by apply Hold in Hget.
Qed.

Lemma read_virtual_ready tr' root va n st :
  tag_law tr tr' -> ready m tr st -> ready m tr (snd (read_virtual session tr' root va n st)).
Proof.
  intros Hlaw Hst. unfold read_virtual. destruct (map_err _ _); [|done]. rewrite Hmem.
  unfold run_loop.
  pose proof (loop_pos_inv (fun ls => ready m tr ls.2)
    (fun r : Result (list byte) * state S => ready m tr r.2)
    (read_virtual_step session tr' root va n m)
    (Z.to_pos (n + 1)) (replicate (Z.to_nat n) x00, 0, st)) as Hloop.
  destruct (loop_pos _ _ _); apply Hloop; (done || clear Hloop).
  all: intros [[output completed] st0] Hst0; cbn in Hst0; unfold read_virtual_step.
  all: destruct (negb _); [done|].
  all: destruct (mbind _ _) as [[[current chunk_end] chunk]|e]; [|done].
  all: pose proof (translate_ready tr' root (Gva.new current) st0 Hlaw Hst0) as [Hst' _].
  all: destruct (translate _ _ _ _ _) as [[t|] st']; [|done]; cbn [snd] in Hst'.
  all: destruct (read_into _ _ _ _) as [[|] ?]; [|done]; by destruct (put_range _ _ _ _).
Qed.

Lemma write_virtual_body_intact tr' root va data st :
  intact st -> intact (snd (write_virtual_body session tr' root va data st)).
Proof.
  intros Hst. unfold write_virtual_body. destruct (memory_write session) as [w|]; [|done].
  unfold run_loop.
  pose proof (loop_pos_inv (fun ls => intact ls.2) (fun r => intact r.2)
    (write_virtual_step session tr' root va data w)
    (Z.to_pos (zlen data + 1)) (0, st)) as Hloop.
  destruct (loop_pos _ _ _); apply Hloop; (done || clear Hloop).
  all: intros [completed st0] Hst0; cbn in Hst0; unfold write_virtual_step.
  all: destruct (negb _); [done|].
  all: destruct (mbind _ _) as [[[current chunk_end] chunk]|e]; [|done].
  all: pose proof (translate_intact tr' root (Gva.new current) st0 Hst0) as Ht.
  all: destruct (translate _ _ _ _ _) as [[t|e] st']; [|done].
  all: unfold lift_write; destruct (write _ _ _ _) as [[|] b]; done.
Qed.

Lemma write_bytes_ready address data st :
  ready m tr st -> ready m tr (snd (write_bytes session address data st)).
Proof.
  intros Hst. unfold write_bytes. destruct (memory_write session) as [w|]; [|done].
  destruct (then_invalidate_ready
    (lift_write (fun b => DriverApi.write_bytes w b address data)) st)
    as (st' & -> & ? & _); [|done].
  unfold lift_write. destruct (DriverApi.write_bytes _ _ _ _). apply (ready_intact st Hst).
Qed.

Lemma write_virtual_ready tr' root va data st :
  ready m tr st -> ready m tr (snd (write_virtual session tr' root va data st)).
Proof.
  intros Hst. unfold write_virtual.
  destruct (then_invalidate_ready (write_virtual_body session tr' root va data) st)
    as (st' & -> & ? & _); [|done].
  by apply write_virtual_body_intact, ready_intact.
Qed.

Lemma step_ready st o : tagged_apart tr o -> ready m tr st -> ready m tr (step session st o).
Proof.
  intros Hlaw Hst. destruct o as [address n|T address order|tr' root va|tr' root va n| |address data|tr' root va data];
    cbn [step]; try done.
  - apply translate_ready; [by apply Hlaw|done].
  - apply read_virtual_ready; [by apply Hlaw|done].
  - destruct (clear_ready st (ready_intact st Hst)) as (st' & -> & ? & _). done.
  - by apply write_bytes_ready.
  - by apply write_virtual_ready.
Qed.

Lemma run_ready ops st :
  Forall (tagged_apart tr) ops -> ready m tr st -> ready m tr (foldl (step session) st ops).
Proof.
  intros Hops. revert st. induction Hops as [|o ops Ho Hops IH]; intros st Hst; cbn [foldl]; [done|].
  by apply IH, step_ready.
Qed.

Lemma attach_ready c request st :
  attach c request = Ok (session, st) -> ready m tr st.
Proof.
  unfold attach. intros Ha. inv_ok. destruct v as [sess b]. inv_ok. simplify_eq.
  apply wf_new in Hm0 as (Hwf & _ & Hb); [|width_const].
  split; [done|]. split; [done|]. intros root page t. cbn. intros Hget.
  rewrite get_bindings, Hb in Hget by done. done.
Qed.
End coherence.

(** C2: no stale translation survives, and no other translator's is served.
    After attaching and any sequence of reads, translations, virtual reads,
    cache clearings and physical or virtual writes (failed ones included),
    each with a translator of its own, where translators that share a cache
    tag translate alike, a translation through the session is the answer of
    the translator asked on the provider's present memory, errors up to their
    kind, and it leaves that memory as it is. *)
Theorem session_translations_are_current `{Allocator} {S : Type} (c : Connector S)
    (request : AttachRequest.t) (session : Session S) (m : MemoryAccess S)
    (tr : AddressTranslator) `{!PageLinear tr} (st : VmiSession.state S)
    (ops : list SessionRun.op) (root : TranslationRoot.t) (va : Z)
    (Hattach : VmiSession.attach c request = Ok (session, st))
    (Hmem : memory session = Ok m)
    (Hops : Forall (SessionRun.tagged_apart tr) ops) (Hva : in_u64 va) :
  let st1 := foldl (SessionRun.step session) st ops in
  let '(r, st2) := VmiSession.translate session tr root (Gva.new va) st1 in
  agree r (Arch.translate tr (read_into m (VmiSession.backend st1)) root (Gva.new va)) /\
  VmiSession.backend st2 = VmiSession.backend st1.
Proof.
  pose proof (attach_ready session m tr c request st Hattach) as Hready.
  apply (run_ready session m tr Hmem ops) in Hready; [|done]. cbv zeta.
  destruct (translate_coherent session m tr Hmem root va _ Hready Hva)
    as (r & st2 & -> & ? & ? & _). done.
Qed.

(** A session over patched memory with AMD64 tables for one page. *)
Definition example_descriptor : ProviderDescriptor.t :=
  ProviderDescriptor.mk "patched" "Patched memory" None ProviderMaturity.Experimental 0.
Definition example_target : TargetDescriptor.t :=
  TargetDescriptor.new "patched" None GuestArchitecture.Amd64 ConsistencyMode.LiveBestEffort.
Definition example_session : Session (list (Z * list byte)) := {|
  provider := example_descriptor;
  target := example_target;
  capabilities := 0;
  memory := Ok patched_memory;
  memory_write := Ok patched_memory_write;
  cpu := Err (Backend "none");
  control := Err (Backend "none");
  events := Err (Backend "none");
  views := Err (Backend "none");
  acquisition := Err (Backend "none");
  lifecycle := Err (Backend "none");
|}.
Definition example_tables : list (Z * list byte) :=
  [(0, le_bytes 8 0x1001); (0x1000, le_bytes 8 0x2001); (0x2000, le_bytes 8 0x3001);
   (0x3000, le_bytes 8 0x4001); (0x4000, le_bytes 8 0x5001 ++ le_bytes 8 0x7001);
   (0x5ffe, [x61; x62]); (0x7000, [x63; x64; x65])].
Definition example_connector : Connector (list (Z * list byte)) := {|
  descriptor := example_descriptor;
  connect := fun _ => Ok (example_session, example_tables);
|}.
Definition example_state : VmiSession.state (list (Z * list byte)) :=
  VmiSession.mk_state example_tables (mutex_new (TranslationCache.mk 4096 ∅ [])).

#[local] Existing Instance ample_allocator.

(** The operations before: the same page of the same root through five
    levels, through four, and then a page table entry is rewritten. *)
Definition example_ops : list SessionRun.op :=
  [SessionRun.Translate Amd64.Amd64La57Translator (TranslationRoot.new 0) 0xff0;
   SessionRun.Translate Amd64.Amd64Translator (TranslationRoot.new 0) 0xff0;
   SessionRun.WriteBytes (Gpa.new 0x3000) (le_bytes 8 0x9001);
   SessionRun.ReadVirtual Amd64.Amd64La57Translator (TranslationRoot.new 0) 0xff0 1].

(** Neither what was cached before the write nor what the other translator
    cached after it is served. *)
Lemma session_translations_are_current_witness :
  agree (fst (VmiSession.translate example_session Amd64.Amd64Translator
      (TranslationRoot.new 0) (Gva.new 0xff0)
      (foldl (SessionRun.step example_session) example_state example_ops)))
    (Ok (Translation.new (Gpa.new 0x9ff0) 4096)).
Proof.
  pose proof (@session_translations_are_current ample_allocator _ example_connector
    (AttachRequest.any 0) example_session patched_memory Amd64.Amd64Translator _ example_state
    example_ops (TranslationRoot.new 0) 0xff0 ltac:(vm_compute; reflexivity)
    ltac:(reflexivity)
    ltac:(repeat constructor; intros tr' [= <-] Htag; done || vm_compute in Htag; discriminate)
    ltac:(width_const)) as Hcurrent.
  cbv zeta in Hcurrent.
  destruct (VmiSession.translate _ _ _ _ _) as [r st2].
  destruct Hcurrent as [Hagree _]. exact Hagree.
Defined.

(** C4: a virtual read is all or nothing and bytewise correct.  When the
    buffer can be allocated and the cache is coherent, it succeeds exactly
    when the range ends within the address space and every byte of it is
    mapped to a byte the memory holds, whatever the pages it crosses; it then
    returns those bytes; it never runs out of iterations, and it leaves
    memory and coherence untouched. *)
Theorem read_virtual_bytewise `{Allocator} {S : Type} (session : Session S)
    (m : MemoryAccess S) (tr : AddressTranslator) `{!PageLinear tr}
    (byte_at : Z -> option byte) (root : TranslationRoot.t) (va n : Z)
    (st : VmiSession.state S)
    `{!ByteMemory (read_into m (VmiSession.backend st)) byte_at}
    (Hmem : memory session = Ok m) (Hva : in_u64 va) (Hn : 0 < n)
    (Halloc : alloc_ok "virtual read buffer" n = true) (Hready : ready m tr st) :
  let mapped a := virtual_byte tr (read_into m (VmiSession.backend st)) byte_at root a in
  let '(r, st') := VmiSession.read_virtual session tr root (Gva.new va) n st in
  read_into m (VmiSession.backend st') = read_into m (VmiSession.backend st) /\
  ready m tr st' /\
  (is_ok r = true <->
     va + n <= 2 ^ 64 /\ forall i : nat, Z.of_nat i < n -> is_Some (mapped (va + Z.of_nat i))) /\
  forall bs, r = Ok bs ->
    zlen bs = n /\ forall i : nat, Z.of_nat i < n -> mapped (va + Z.of_nat i) = bs !! i.
Proof.
  pose proof (read_virtual_post session m tr Hmem _ byte_at root va n st Hva ltac:(lia)
    Halloc Hready eq_refl) as Hpost.
  cbn. destruct (VmiSession.read_virtual _ _ _ _ _ _) as [[bs|e] st'];
    destruct Hpost as (Hready' & Hrd & Hbytes); cbn in *; (split; [done|]); (split; [done|]).
  - destruct Hbytes as (Hlen & Hend & Hbytes). split.
    + split; [|done]. intros _. split; [by apply Hend|]. intros i Hi. rewrite Hbytes by done.
      apply lookup_lt_is_Some. unfold zlen in Hlen. lia.
    + intros bs' [= <-]. done.
  - split; [|done]. split; [done|]. intros Hall. by destruct Hbytes.
Qed.

(** A read of three bytes across two pages that are not adjacent in
    physical memory. *)
Lemma read_virtual_bytewise_witness :
  exists st, VmiSession.read_virtual example_session Amd64.Amd64Translator
    (TranslationRoot.new 0x1000) (Gva.new 0xffe) 3 example_state = (Ok [x61; x62; x63], st) /\
  ready patched_memory Amd64.Amd64Translator st.
Proof.
  assert (Hready : ready patched_memory Amd64.Amd64Translator example_state).
  { apply (attach_ready example_session patched_memory Amd64.Amd64Translator example_connector
      (AttachRequest.any 0)). vm_compute. reflexivity. }
  pose proof (@read_virtual_bytewise ample_allocator _ example_session patched_memory
    Amd64.Amd64Translator _ (patched_byte example_tables) (TranslationRoot.new 0x1000) 0xffe 3
    example_state (memory_of_bytes _) eq_refl ltac:(width_const) ltac:(lia) eq_refl Hready)
    as Hread.
  cbv zeta in Hread.
  assert (Hr : fst (VmiSession.read_virtual example_session Amd64.Amd64Translator
    (TranslationRoot.new 0x1000) (Gva.new 0xffe) 3 example_state) = Ok [x61; x62; x63])
    by (vm_compute; reflexivity).
  destruct (VmiSession.read_virtual _ _ _ _ _ _) as [r st]. cbn in Hr. subst r.
  exists st. split; [reflexivity|]. exact (proj1 (proj2 Hread)).
Defined.

(** ** Virtual writes *)

Section virtual_write.
Context `{Allocator} {S : Type} (session : Session S) (m : MemoryAccess S)
  (w : MemoryWriteAccess S) (tr : AddressTranslator) `{!PageLinear tr}.
Context (Hmem : memory session = Ok m) (Hwrite : memory_write session = Ok w).
Context (root : TranslationRoot.t) (va : Z) (data : list byte).
Context (b0 : S).
Import VmiSession.

(** The chunks a write has made, and the provider states it went through,
    the newest first.  A chunk is not empty and stays within its page, and
    it goes to where the page was mapped at some state of this history. *)
Inductive written : list (list byte) -> S -> list S -> Prop :=
| written_none : written [] b0 []
| written_more chunks b hist bx t bytes b' :
    written chunks b hist ->
    0 < zlen bytes ->
    page_offset (va + zlen (concat chunks)) + zlen bytes <= 2 ^ 12 ->
    bx ∈ (b :: hist) ->
    Arch.translate tr (read_into m bx) root (Gva.new (va + zlen (concat chunks))) = Ok t ->
    write w b (Translation.physical_address t) bytes = (Ok tt, b') ->
    written (chunks ++ [bytes]) b' (b :: hist).

(** Cached translations hold at some state of a history. *)
Definition coherent_with (hist : list S) (st : state S) : Prop :=
  forall r page t,
    TranslationCache.get (guarded (translations st)) (cache_tag tr, r, page) = Some t ->
    exists b, b ∈ hist /\
      Arch.translate tr (read_into m b) (TranslationRoot.new r) (Gva.new page) = Ok t.

Lemma translate_with hist a st :
  intact st -> coherent_with (backend st :: hist) st -> in_u64 a ->
  exists r st', translate session tr root (Gva.new a) st = (r, st') /\
    backend st' = backend st /\ intact st' /\ coherent_with (backend st :: hist) st' /\
    match r with
    | Ok t => exists b, b ∈ backend st :: hist /\
        Arch.translate tr (read_into m b) root (Gva.new a) = Ok t
    | Err e => exists e',
        Arch.translate tr (read_into m (backend st)) root (Gva.new a) = Err e' /\
        VmiError.kind e = VmiError.kind e'
    end.
Proof.
  intros [Hp Hwf] Hcoh Ha.
  unfold translate. cbn [Gva.raw]. rewrite page_address_eq by done.
  pose proof (page_split a). pose proof (page_offset_range a).
  rewrite checked_sub_fits by lia. cbn [ok_or].
  replace (a - page_base a) with (page_offset a) by lia.
  unfold lock at 1. rewrite Hp. cbn [map_err].
  destruct (TranslationCache.get _ _) as [t|] eqn:Hget.
  - apply Hcoh in Hget as (b & Hb & Ht). destruct root as [rt]. cbn in Ht.
    pose proof (page_linear (read_into m b) (TranslationRoot.new rt) a Ha) as Hlin.
    rewrite Ht in Hlin. destruct Hlin as (Hlin & _ & Hfit).
    eexists _, st. rewrite offset_translation_fits by done.
    repeat (split; [done|]). by exists b.
  - rewrite Hmem. cbn [mbind result_bind].
    pose proof (page_linear (read_into m (backend st)) root a Ha) as Hlin.
    destruct (Arch.translate tr _ root (Gva.new (page_base a))) as [t|e] eqn:Ht.
    + unfold lock. rewrite Hp. cbn [map_err].
      destruct (insert_spec _ (cache_tag tr, TranslationRoot.raw root, page_base a) t Hwf)
        as (c' & -> & Hwf' & _ & _ & Hnew & Hold).
      destruct Hlin as (Hlin & _ & Hfit).
      eexists _, _. split; [done|]. rewrite offset_translation_fits by done.
      split; [done|]. split; [done|]. split; [|exists (backend st); split; [constructor|done]].
      intros r page t' Hget'. cbn [translations store guarded] in *.
      destruct (decide ((cache_tag tr, r, page)
        = (cache_tag tr, TranslationRoot.raw root, page_base a))) as [E|Hne].
      * injection E as -> ->. rewrite Hnew in Hget'. injection Hget' as <-.
        exists (backend st). split; [constructor|]. by destruct root.
      * eapply Hcoh. by apply Hold in Hget'.
    + destruct Hlin as (e' & He' & Hk). eexists _, st. repeat (split; [done|]). by exists e'.
Qed.

(** Why a write stopped after the chunks it made. *)
Definition stopped (chunks : list (list byte)) (b : S) (e : VmiError.t) (b' : S) : Prop :=
  let a := va + zlen (concat chunks) in
  (b' = b /\ 2 ^ 64 <= a) \/
  (b' = b /\ exists e', Arch.translate tr (read_into m b) root (Gva.new a) = Err e' /\
                        VmiError.kind e = VmiError.kind e') \/
  (exists address bytes, write w b address bytes = (Err e, b')).

Definition write_inv (ls : Z * state S) : Prop :=
  let '(completed, st) := ls in
  exists chunks hist, written chunks (backend st) hist /\
    concat chunks = take (Z.to_nat completed) data /\ 0 <= completed <= zlen data /\
    intact st /\ coherent_with (backend st :: hist) st.

Definition write_post (r : Result unit * state S) : Prop :=
  match r.1 with
  | Ok _ => exists chunks hist, written chunks (backend r.2) hist /\ concat chunks = data
  | Err e => exists chunks b hist rest, written chunks b hist /\
      concat chunks ++ rest = data /\ rest <> [] /\ stopped chunks b e (backend r.2)
  end.

Lemma write_chunk_Ok completed :
  in_u64 va -> 0 <= completed < zlen data -> zlen data <= isize_max ->
  match write_chunk (Gva.new va) (zlen data) completed with
  | Ok (current, chunk_end) =>
      current = va + completed /\ current < 2 ^ 64 /\ completed < chunk_end <= zlen data /\
      page_offset current + (chunk_end - completed) <= 2 ^ 12
  | Err _ => 2 ^ 64 <= va + completed
  end.
Proof.
  unfold in_width, isize_max. intros Hva Hc Hn. unfold write_chunk. cbn [Gva.raw].
  rewrite try_width_fits by lia. cbn [ok_or mbind result_bind].
  destruct (checked_add 64 va completed) as [current|] eqn:E; cbn [ok_or mbind result_bind].
  2:{ unfold checked_add in E. destruct (Z.ltb_spec (va + completed) (2 ^ 64)); [done|lia]. }
  apply checked_add_Some in E as [-> Hfit].
  rewrite page_remaining_eq by (unfold in_width; lia). cbn [ok_or mbind result_bind].
  rewrite checked_sub_fits by lia. cbn [ok_or mbind result_bind].
  pose proof (page_offset_range (va + completed)).
  rewrite checked_add_fits by lia. cbn [ok_or mbind result_bind]. lia.
Qed.

Lemma write_step_inv ls :
  in_u64 va -> zlen data <= isize_max -> write_inv ls ->
  match write_virtual_step session tr root (Gva.new va) data w ls with
  | inl ls' => write_inv ls' /\ zlen data - ls'.1 < zlen data - ls.1
  | inr r => write_post r /\ intact r.2
  end.
Proof.
  intros Hva Hn. destruct ls as [completed st].
  intros (chunks & hist & Hw & Hcat & Hc & Hi & Hcoh). unfold write_virtual_step.
  assert (Hoff : zlen (concat chunks) = completed).
  { rewrite Hcat. unfold zlen in *. rewrite length_take. lia. }
  destruct (Z.ltb_spec completed (zlen data)) as [Hlt|Hge]; cbn [negb].
  2:{ split; [|done]. exists chunks, hist. split; [done|]. rewrite Hcat.
      apply take_ge. unfold zlen in *. lia. }
  assert (Hstop : forall e st', intact st' ->
    stopped chunks (backend st) e (backend st') ->
    write_post (Err e, st') /\ intact st').
  { intros e st' Hi' Hs. split; [|done]. exists chunks, (backend st), hist.
    exists (drop (Z.to_nat completed) data). split; [done|]. rewrite Hcat, take_drop.
    split; [done|]. split; [|done]. intros Hnil%(f_equal length).
    rewrite length_drop in Hnil. unfold zlen in *. cbn in Hnil. lia. }
  pose proof (write_chunk_Ok completed Hva ltac:(lia) Hn) as Hchunk.
  destruct (write_chunk _ _ _) as [[current chunk_end]|e]; cbn [mbind result_bind].
  2:{ apply Hstop; [done|]. left. by rewrite Hoff. }
  destruct Hchunk as (-> & Hcur & Hce & Hpage).
  destruct (get_range data completed chunk_end) as [chunk|] eqn:Hget.
  2:{ unfold get_range in Hget.
      destruct (Z.leb_spec 0 completed), (Z.leb_spec completed chunk_end),
        (Z.leb_spec chunk_end (zlen data)); try lia; done. }
  cbn [ok_or mbind result_bind]. pose proof (zlen_get_range _ _ _ _ Hget) as Hlen.
  assert (Hcur' : in_u64 (va + completed)) by (unfold in_width in *; lia).
  destruct (translate_with hist (va + completed) st Hi Hcoh Hcur')
    as (r & st' & -> & Hbk & Hi' & Hcoh' & Hr).
  destruct r as [t|e].
  2:{ apply Hstop; [done|]. right; left. rewrite Hoff. by split. }
  destruct Hr as (bx & Hbx & Ht). unfold lift_write. rewrite Hbk.
  destruct (write w (backend st) (Translation.physical_address t) chunk)
    as [[[]|e] b'] eqn:Hwr.
  2:{ apply Hstop; [done|]. right; right. eauto. }
  split; [|cbn; lia].
  exists (chunks ++ [chunk]), (backend st :: hist). cbn [backend translations]. split.
  { econstructor; rewrite ?Hoff; (done || lia). }
  rewrite concat_app, Hcat. cbn. rewrite app_nil_r.
  split; [|split; [lia|split; [done|]]].
  - apply get_range_Some in Hget as (_ & _ & ->).
    rewrite take_take_drop. f_equal. lia.
  - intros rt page t' Hg. destruct (Hcoh' rt page t' Hg) as (b & Hb & Hbt).
    exists b. split; [by right|done].
Qed.

Lemma write_virtual_post st :
  in_u64 va -> zlen data <= isize_max -> ready m tr st -> backend st = b0 ->
  let r := write_virtual_body session tr root (Gva.new va) data st in
  write_post r /\ intact r.2.
Proof.
  intros Hva Hn Hready Hb. unfold write_virtual_body. rewrite Hwrite.
  apply (run_loop_total write_inv (fun r => write_post r /\ intact r.2)
    (fun ls => zlen data - ls.1)).
  - exists [], []. rewrite Hb. split; [constructor|]. split; [done|].
    split; [unfold zlen; lia|]. split; [by apply (ready_intact m tr)|].
    destruct Hready as (_ & _ & Hcoh). intros rt page t Hg. exists b0. split; [constructor|].
    rewrite <- Hb. by apply Hcoh.
  - cbn. lia.
  - intros [? ?] (? & ? & _ & _ & ? & _). cbn. lia.
  - intros ls Hls. by apply write_step_inv.
Qed.
End virtual_write.

(** C5: a virtual write reaches the provider chunk by chunk and leaves no
    stale translation.  It makes a sequence of provider writes, each within
    one page and sent where that page was mapped at some moment of the write,
    whose bytes together are a prefix of the data: all of it on success, and
    on failure a proper prefix followed by the end of the address space, a
    failed translation or the failed provider write that is reported.  It
    never runs out of iterations, and the cache is empty afterwards in every
    case. *)
Theorem write_virtual_chunks `{Allocator} {S : Type} (session : Session S)
    (m : MemoryAccess S) (w : MemoryWriteAccess S) (tr : AddressTranslator)
    `{!PageLinear tr} (root : TranslationRoot.t) (va : Z) (data : list byte)
    (st : VmiSession.state S)
    (Hmem : memory session = Ok m) (Hwrite : memory_write session = Ok w)
    (Hva : in_u64 va) (Hn : zlen data <= isize_max) (Hready : ready m tr st) :
  let b0 := VmiSession.backend st in
  let '(r, st') := VmiSession.write_virtual session tr root (Gva.new va) data st in
  (exists chunks b hist rest,
    written m w tr root va b0 chunks b hist /\ concat chunks ++ rest = data /\
    match r with
    | Ok _ => rest = [] /\ VmiSession.backend st' = b
    | Err e => rest <> [] /\ stopped m w tr root va chunks b e (VmiSession.backend st')
    end) /\
  CacheSpec.bindings (guarded (VmiSession.translations st')) = [] /\
  ready m tr st'.
Proof.
  destruct (write_virtual_post session m w tr Hmem Hwrite root va data _ st Hva Hn Hready
    eq_refl) as [Hpost Hi]. cbn.
  destruct (then_invalidate_ready m tr
    (VmiSession.write_virtual_body session tr root (Gva.new va) data) st Hi)
    as (st' & Heq & Hready' & Hb & Hempty).
  unfold VmiSession.write_virtual. rewrite Heq.
  destruct (VmiSession.write_virtual_body _ _ _ _ _ _) as [[[]|e] st1]; cbn in *.
  - destruct Hpost as (chunks & hist & Hw & <-). split; [|done].
    exists chunks, (VmiSession.backend st1), hist, []. by rewrite app_nil_r, Hb.
  - destruct Hpost as (chunks & b & hist & rest & Hw & Hd & Hr & Hs). split; [|done].
    exists chunks, b, hist, rest. by rewrite Hb.
Qed.

(** Four bytes at the end of one page go to two frames. *)
Lemma write_virtual_chunks_witness :
  exists chunks b hist rest,
    written patched_memory patched_memory_write Amd64.Amd64Translator
      (TranslationRoot.new 0x1000) 0xffe example_tables chunks b hist /\
    concat chunks ++ rest = [x70; x71; x72; x73] /\ rest = [].
Proof.
  pose proof (@write_virtual_chunks ample_allocator _
    (example_session) patched_memory patched_memory_write Amd64.Amd64Translator _
    (TranslationRoot.new 0x1000) 0xffe [x70; x71; x72; x73] example_state
    eq_refl eq_refl ltac:(width_const) ltac:(vm_compute; discriminate)
    ltac:(apply (attach_ready example_session patched_memory Amd64.Amd64Translator
      example_connector (AttachRequest.any 0)); vm_compute; reflexivity)) as Hwrite.
  cbv zeta in Hwrite.
  assert (Hr : fst (VmiSession.write_virtual example_session Amd64.Amd64Translator
    (TranslationRoot.new 0x1000) (Gva.new 0xffe) [x70; x71; x72; x73] example_state) = Ok tt)
    by (vm_compute; reflexivity).
  destruct (VmiSession.write_virtual _ _ _ _ _ _) as [r st]. cbn in Hr. subst r.
  destruct Hwrite as [(chunks & b & hist & rest & Hw & Hd & Hrest & _) _].
  exists chunks, b, hist, rest. exact (conj Hw (conj Hd Hrest)).
Defined.
