(* ===== verification/SessionRace.v ===== *)
(** * Threads that share a session ([crates/vmi-core])

    A session may be called from several threads.  [translate] holds the lock
    of the cache while it looks a page up and again while it inserts, not
    while it walks the tables; [write_bytes] takes it only to clear the cache.
    Here each call is cut at those points.  Alone, a call is the session's
    operation; interleaved, a translation walked before a write can be
    inserted after the write has cleared the cache, and stays. *)

From S2P Require Import Prelude.
From S2P Require Import Types.
From S2P Require Import DriverApi.
From S2P Require Import Arch.
From S2P Require Import Amd64.
From S2P Require Import Session.
From S2P Require Import SessionFacts.

Module SessionRace.
Import VmiSession.

Section race.
Context `{Allocator} {S : Type} (session : Session S).

(** What a call carries from the lookup to the insertion. *)
Record pending : Type := mk_pending { key : TranslationCache.key; page : Z; offset : Z }.

(** The first locked section: an answer, or a page that is not cached. *)
Definition lookup (tr : AddressTranslator) (root : TranslationRoot.t) (address : Gva.t) (st : state S)
    : Result Translation.t + pending :=
  let page_address := Z.land (Gva.raw address) (wnot 64 0xfff) in
  match ok_or (checked_sub (Gva.raw address) page_address) (Backend "virtual page offset underflow") with
  | Err e => inl (Err e)
  | Ok page_offset =>
      let key := (cache_tag tr, TranslationRoot.raw root, page_address) in
      match map_err translation_cache_poisoned (lock (translations st)) with
      | Err e => inl (Err e)
      | Ok cache =>
          match TranslationCache.get cache key with
          | Some value => inl (offset_translation value page_offset address)
          | None => inr (mk_pending key page_address page_offset)
          end
      end
  end.

(** The walk, with no lock held. *)
Definition walk (tr : AddressTranslator) (root : TranslationRoot.t) (p : pending) (st : state S)
    : Result Translation.t :=
  let? m := memory session in
  Arch.translate tr (read_into m (backend st)) root (Gva.new (page p)).

(** The second locked section. *)
Definition insert_walked (p : pending) (address : Gva.t) (value : Translation.t) (st : state S)
    : Result Translation.t * state S :=
  match map_err translation_cache_poisoned (lock (translations st)) with
  | Err e => (Err e, st)
  | Ok cache =>
      let '(r, cache') := TranslationCache.insert cache (key p) value in
      let st' := mk_state (backend st) (store (translations st) cache') in
      match r with
      | Err e => (Err e, st')
      | Ok _ => (offset_translation value (offset p) address, st')
      end
  end.

(** A thread that translates or writes, between its sections. *)
Inductive thread : Type :=
| Translating (tr : AddressTranslator) (root : TranslationRoot.t) (address : Gva.t)
| Walking (tr : AddressTranslator) (root : TranslationRoot.t) (address : Gva.t) (p : pending)
| Inserting (address : Gva.t) (p : pending) (value : Translation.t)
| Translated (r : Result Translation.t)
| Writing (address : Gpa.t) (data : list byte)
| Invalidating (result : Result unit)
| Written (r : Result unit).

Definition thread_step (t : thread) (st : state S) : thread * state S :=
  match t with
  | Translating tr root address =>
      match lookup tr root address st with
      | inl r => (Translated r, st)
      | inr p => (Walking tr root address p, st)
      end
  | Walking tr root address p =>
      match walk tr root p st with
      | Err e => (Translated (Err e), st)
      | Ok value => (Inserting address p value, st)
      end
  | Inserting address p value =>
      let '(r, st') := insert_walked p address value st in (Translated r, st')
  | Writing address data =>
      match memory_write session with
      | Err e => (Written (Err e), st)
      | Ok m =>
          let '(r, st') := lift_write (fun b => DriverApi.write_bytes m b address data) st in
          (Invalidating r, st')
      end
  | Invalidating result =>
      let '(invalidation, st') := clear_translation_cache st in
      (Written (let? _ := result in invalidation), st')
  | Translated _ | Written _ => (t, st)
  end.

(** The threads' turns, in the order given. *)
Fixpoint run (turns : list nat) (threads : list thread) (st : state S) : list thread * state S :=
  match turns with
  | [] => (threads, st)
  | k :: rest =>
      match threads !! k with
      | None => run rest threads st
      | Some t => let '(t', st') := thread_step t st in run rest (<[k := t']> threads) st'
      end
  end.

(** Undisturbed, a thread does what the session's operation does. *)
Theorem alone_translate tr root address st :
  run [0; 0; 0]%nat [Translating tr root address] st =
  let '(r, st') := translate session tr root address st in ([Translated r], st').
Proof.
  cbn. unfold lookup, translate. destruct (ok_or _ _) as [off|]; [|done].
  destruct (map_err translation_cache_poisoned _) as [cache|] eqn:Hc; [|done].
  destruct (TranslationCache.get _ _); [done|]. cbn. unfold walk. cbn [page].
  destruct (mbind _ _) as [value|]; [|done]. cbn. unfold insert_walked. cbn [key offset]. rewrite Hc.
  by destruct (TranslationCache.insert _ _ _) as [[[]|] ?].
Qed.

Theorem alone_write address data st :
  run [0; 0]%nat [Writing address data] st =
  let '(r, st') := write_bytes session address data st in ([Written r], st').
Proof.
  cbn. unfold write_bytes, then_invalidate. destruct (memory_write session) as [m|]; [|done].
  destruct (lift_write _ _) as [r st1]. cbn. by destruct (clear_translation_cache st1).
Qed.
End race.
End SessionRace.

#[local] Existing Instance ample_allocator.

(** A stale translation survives a write.  One thread has walked the tables
    when another rewrites the entry of the page and clears the cache; the
    first then inserts what it walked.  Both calls succeed, and from then on
    the session answers with the old frame although the tables hold the new
    one. *)
Theorem raced_translation_stays_stale :
  let translating := SessionRace.Translating Amd64.Amd64Translator (TranslationRoot.new 0x1000) (Gva.new 0xff0) in
  let writing := SessionRace.Writing (Gpa.new 0x4000) (le_bytes 8 0x9001) in
  let '(threads, st) := SessionRace.run example_session [0; 0; 1; 1; 0]%nat [translating; writing] example_state in
  threads = [SessionRace.Translated (Ok (Translation.new (Gpa.new 0x5ff0) 4096)); SessionRace.Written (Ok tt)] /\
  fst (VmiSession.translate example_session Amd64.Amd64Translator (TranslationRoot.new 0x1000) (Gva.new 0xff0) st)
    = Ok (Translation.new (Gpa.new 0x5ff0) 4096) /\
  Arch.translate Amd64.Amd64Translator (read_into patched_memory (VmiSession.backend st))
    (TranslationRoot.new 0x1000) (Gva.new 0xff0) = Ok (Translation.new (Gpa.new 0x9ff0) 4096).
Proof. vm_compute. done. Qed.
