(* ===== verification/Registry.v ===== *)
(** * The provider registry ([crates/vmi-core])

    Connectors by provider ID behind a read-write lock, and the descriptors
    listed in the order of their IDs. *)

From S2P Require Import Prelude.
From S2P Require Import Types.
From S2P Require Import DriverApi.
From S2P Require Import Arch.
From S2P Require Import Session.

(** Key order of a [BTreeMap<String, _>]: bytewise lexicographic. *)
Fixpoint string_leb (a b : string) : bool :=
  match a, b with
  | EmptyString, _ => true
  | String _ _, EmptyString => false
  | String x a', String y b' =>
      let x := Ascii.N_of_ascii x in
      let y := Ascii.N_of_ascii y in
      (x <? y)%N || ((x =? y)%N && string_leb a' b')
  end.

Fixpoint insert_entry {A} (x : string * A) (l : list (string * A)) : list (string * A) :=
  match l with
  | [] => [x]
  | y :: rest => if string_leb (fst x) (fst y) then x :: l else y :: insert_entry x rest
  end.

(** [map.iter()] of a [BTreeMap], in key order. *)
Definition btree_entries {A} (m : gmap string A) : list (string * A) :=
  foldr insert_entry [] (map_to_list m).

Module ProviderRegistry.
Section ops.
Context `{Allocator} {S : Type}.

(** [RwLock<BTreeMap<String, Arc<dyn Connector>>>]. *)
Definition t : Type := Mutex (gmap string (Connector S)).
Abbreviation M := (stateful t VmiError.t).

Definition registry_poisoned (error : string) : VmiError.t :=
  Backend ("provider registry synchronization failed: " +:+ error).

Definition try_clone_string (value field : string) : Result string :=
  let? _ := map_err (fun error =>
      Backend ("failed to allocate provider " +:+ field +:+ ": " +:+ error))
    (try_reserve field (Z.of_nat (String.length value))) in
  Ok value.

Definition try_clone_descriptor (d : ProviderDescriptor.t) : Result ProviderDescriptor.t :=
  let? id := try_clone_string (ProviderDescriptor.id d) "descriptor ID" in
  let? display_name := try_clone_string (ProviderDescriptor.display_name d)
    "descriptor display name" in
  let? version :=
    match ProviderDescriptor.version d with
    | None => Ok None
    | Some v => let? v' := try_clone_string v "descriptor version" in Ok (Some v')
    end in
  Ok (ProviderDescriptor.mk id display_name version
        (ProviderDescriptor.maturity d) (ProviderDescriptor.capabilities d)).

Definition new : t := mutex_new ∅.

Definition register (connector : Connector S) : M unit :=
  fun reg =>
    match try_clone_string (ProviderDescriptor.id (descriptor connector)) "provider ID" with
    | Err e => (Err e, reg)
    | Ok id =>
        if bool_decide (id = EmptyString) then
          (Err (Backend "provider ID must not be empty"), reg)
        else
          match map_err registry_poisoned (lock reg) with
          | Err e => (Err e, reg)
          | Ok providers =>
              match providers !! id with
              | Some _ =>
                  (Err (Backend ("provider " +:+ id +:+ " is already registered")), reg)
              | None => (Ok tt, store reg (<[id := connector]> providers))
              end
          end
    end.

Definition unregister (id : string) : M (Connector S) :=
  fun reg =>
    match map_err registry_poisoned (lock reg) with
    | Err e => (Err e, reg)
    | Ok providers =>
        (ok_or (providers !! id) (Backend ("provider " +:+ id +:+ " is not registered")),
         store reg (delete id providers))
    end.

Definition connector (reg : t) (id : string) : Result (Connector S) :=
  let? providers := map_err registry_poisoned (lock reg) in
  ok_or (providers !! id) (Backend ("provider " +:+ id +:+ " is not registered")).

Fixpoint clone_descriptors (connectors : list (Connector S))
    (descriptors : list ProviderDescriptor.t) : Result (list ProviderDescriptor.t) :=
  match connectors with
  | [] => Ok descriptors
  | c :: rest =>
      let? d := try_clone_descriptor (descriptor c) in
      clone_descriptors rest (descriptors ++ [d])
  end.

Definition descriptors (reg : t) : Result (list ProviderDescriptor.t) :=
  let? providers := map_err registry_poisoned (lock reg) in
  let? _ := map_err (fun error =>
      Backend ("failed to allocate provider connector snapshot: " +:+ error))
    (try_reserve "provider connector snapshot" (Z.of_nat (size providers))) in
  let connectors := snd <$> btree_entries providers in
  let? _ := map_err (fun error =>
      Backend ("failed to allocate provider descriptor list: " +:+ error))
    (try_reserve "provider descriptor list" (zlen connectors)) in
  clone_descriptors connectors [].

Definition attach (reg : t) (id : string) (request : AttachRequest.t)
    : Result (Session S * VmiSession.state S) :=
  let? c := connector reg id in
  VmiSession.attach c request.

Definition len (reg : t) : Result Z :=
  let? providers := map_err registry_poisoned (lock reg) in
  Ok (Z.of_nat (size providers)).

Definition is_empty (reg : t) : Result bool :=
  let? n := len reg in Ok (n =? 0).
End ops.
End ProviderRegistry.


(** * Lemmas *)

Lemma ascii_N_inj (x y : Ascii.ascii) : Ascii.N_of_ascii x = Ascii.N_of_ascii y -> x = y.
Proof. intros E. rewrite <- (Ascii.ascii_N_embedding x), E. apply Ascii.ascii_N_embedding. Qed.

Lemma string_leb_cons x a y b :
  string_leb (String x a) (String y b) = true <->
  (Ascii.N_of_ascii x < Ascii.N_of_ascii y)%N \/ (x = y /\ string_leb a b = true).
Proof.
  cbn. rewrite orb_true_iff, andb_true_iff, N.ltb_lt, N.eqb_eq.
  split; intros [?|[E ?]]; auto; right; [by apply ascii_N_inj in E|by subst].
Qed.

Lemma string_leb_total a b : string_leb a b = true \/ string_leb b a = true.
Proof.
  revert b. induction a as [|x a IH]; intros [|y b]; cbn [string_leb]; auto.
  change (string_leb (String x a) (String y b) = true \/
          string_leb (String y b) (String x a) = true).
  rewrite !string_leb_cons.
  destruct (N.lt_trichotomy (Ascii.N_of_ascii x) (Ascii.N_of_ascii y)) as [?|[E|?]]; auto.
  apply ascii_N_inj in E as ->. destruct (IH b); auto.
Qed.

Lemma string_leb_trans a b c :
  string_leb a b = true -> string_leb b c = true -> string_leb a c = true.
Proof.
  revert b c. induction a as [|x a IH]; intros [|y b] [|z c]; try done.
  rewrite !string_leb_cons. intros [?|[-> Hab]] [?|[-> Hbc]]; [left; lia|auto|auto|].
  right. split; [done|]. by apply (IH b).
Qed.

Lemma string_leb_antisym a b : string_leb a b = true -> string_leb b a = true -> a = b.
Proof.
  revert b. induction a as [|x a IH]; intros [|y b]; try done.
  rewrite !string_leb_cons. intros [?|[-> Hab]] [?|[E Hba]]; subst; try lia.
  f_equal. by apply IH.
Qed.

Lemma insert_entry_Permutation {A} (x : string * A) l : insert_entry x l ≡ₚ x :: l.
Proof.
  induction l as [|y l IH]; cbn; [done|].
  destruct (string_leb x.1 y.1); [done|]. rewrite IH. constructor.
Qed.

Lemma btree_entries_Permutation {A} (m : gmap string A) : btree_entries m ≡ₚ map_to_list m.
Proof.
  unfold btree_entries. induction (map_to_list m) as [|x l IH]; cbn; [done|].
  by rewrite insert_entry_Permutation, IH.
Qed.

(** Strict byte order of IDs. *)
Definition string_lt (a b : string) : Prop := string_leb a b = true /\ a <> b.

Lemma insert_entry_sorted {A} (x : string * A) l :
  x.1 ∉ l.*1 -> StronglySorted string_lt l.*1 ->
  StronglySorted string_lt (insert_entry x l).*1.
Proof.
  induction l as [|y l IH]; cbn; intros Hx Hs; [repeat constructor|].
  apply StronglySorted_inv in Hs as [Hs Hall]. apply not_elem_of_cons in Hx as [Hxy Hx].
  destruct (string_leb x.1 y.1) eqn:E; cbn.
  - constructor; [by constructor|]. constructor; [done|].
    eapply Forall_impl; [exact Hall|]. cbn. intros z [Hz Hne]. split.
    + by apply (string_leb_trans _ y.1).
    + intros <-. apply Hxy. by apply string_leb_antisym.
  - constructor; [by apply IH|].
    assert (Hp : (insert_entry x l).*1 ≡ₚ (x :: l).*1) by (by rewrite insert_entry_Permutation).
    rewrite Hp. cbn. constructor; [|done]. split; [|done].
    destruct (string_leb_total x.1 y.1); congruence.
Qed.

Lemma btree_entries_sorted {A} (m : gmap string A) :
  StronglySorted string_lt (btree_entries m).*1.
Proof.
  unfold btree_entries. pose proof (NoDup_fst_map_to_list m) as Hnd.
  induction (map_to_list m) as [|x l IH]; cbn; [constructor|].
  cbn in Hnd. apply NoDup_cons in Hnd as [Hx Hnd].
  apply insert_entry_sorted; [|by apply IH].
  assert (Hp : (foldr insert_entry [] l).*1 ≡ₚ l.*1); [|by rewrite Hp].
  apply fmap_Permutation. clear. induction l as [|y l IH]; cbn; [done|].
  by rewrite insert_entry_Permutation, IH.
Qed.

(** ** Runs of the registry *)

Module RegistryRun.
Section run.
Context `{Allocator} {S : Type}.
Import ProviderRegistry.

Inductive op : Type :=
| Register (c : Connector S)
| Unregister (id : string).

Definition step (reg : t) (o : op) : t :=
  match o with
  | Register c => snd (register c reg)
  | Unregister id => snd (unregister id reg)
  end.

Definition connector_id (c : Connector S) : string := ProviderDescriptor.id (descriptor c).

(** What a run leaves registered under an ID: a registration counts while
    the ID is free and not empty, an unregistration frees it. *)
Fixpoint registered (ops : list op) (now : option (Connector S)) (id : string)
    : option (Connector S) :=
  match ops with
  | [] => now
  | Register c :: rest =>
      registered rest
        (match now with
         | Some _ => now
         | None => if bool_decide (connector_id c = id /\ id <> EmptyString /\
                       alloc_ok "provider ID" (Z.of_nat (String.length id)) = true)
                   then Some c else None
         end) id
  | Unregister id' :: rest =>
      registered rest (if bool_decide (id' = id) then None else now) id
  end.
End run.
End RegistryRun.

Section registry_facts.
Context `{Allocator} {S : Type}.
Import ProviderRegistry RegistryRun.

Lemma try_clone_string_Ok value field s : try_clone_string value field = Ok s -> s = value.
Proof. unfold try_clone_string. intros Hs. by inv_ok. Qed.

Lemma try_clone_descriptor_Ok d d' : try_clone_descriptor d = Ok d' -> d' = d.
Proof.
  unfold try_clone_descriptor. intros Hd. inv_ok.
  apply try_clone_string_Ok in Hm, Hm0. subst. destruct d as [id name [version|] mat caps]; cbn in *.
  - destruct (try_clone_string version _) as [v'|] eqn:Hv; cbn in Hm1; inv_ok.
    apply try_clone_string_Ok in Hv. by subst.
  - inv_ok. by subst.
Qed.

Lemma clone_descriptors_Ok (cs : list (Connector S)) ds ds' :
  clone_descriptors cs ds = Ok ds' -> ds' = ds ++ (descriptor <$> cs).
Proof.
  revert ds. induction cs as [|c cs IH]; intros ds; cbn.
  - intros [= <-]. by rewrite app_nil_r.
  - intros Hd. inv_ok. apply try_clone_descriptor_Ok in Hm as ->.
    rewrite (IH _ Hd). by rewrite <- app_assoc.
Qed.

Definition out_of_memory : Prop := exists what n, alloc_ok what n = false.

Lemma try_reserve_Err what n e : try_reserve what n = Err e -> out_of_memory.
Proof. unfold try_reserve, out_of_memory. destruct (alloc_ok what n) eqn:E; [done|]. eauto. Qed.

Lemma map_err_Err {E F A} (f : E -> F) (x : result E A) e :
  map_err f x = Err e -> exists e', x = Err e'.
Proof. destruct x; cbn; [done|]. eauto. Qed.

Lemma try_clone_string_Err value field e : try_clone_string value field = Err e -> out_of_memory.
Proof.
  unfold try_clone_string. intros [[e' Hr]%map_err_Err|(? & ? & ?)]%bind_Err; [|done].
  by apply try_reserve_Err in Hr.
Qed.

Lemma clone_descriptors_Err (cs : list (Connector S)) ds e :
  clone_descriptors cs ds = Err e -> out_of_memory.
Proof.
  revert ds. induction cs as [|c cs IH]; intros ds; cbn; [done|].
  intros [Hd|(d & _ & Hd)]%bind_Err; [|by apply IH in Hd].
  unfold try_clone_descriptor in Hd.
  apply bind_Err in Hd as [Hd|(? & _ & Hd)]; [by apply try_clone_string_Err in Hd|].
  apply bind_Err in Hd as [Hd|(? & _ & Hd)]; [by apply try_clone_string_Err in Hd|].
  apply bind_Err in Hd as [Hd|(? & _ & Hd)]; [|done].
  destruct (ProviderDescriptor.version _); [|done].
  apply bind_Err in Hd as [Hd|(? & _ & Hd)]; [by apply try_clone_string_Err in Hd|done].
Qed.

(** The registry holds exactly what its run leaves, under each connector's
    own ID. *)
Definition tracks (reg : @t S) (now : string -> option (Connector S)) : Prop :=
  poisoned reg = false /\ (forall id, guarded reg !! id = now id) /\
  forall id c, now id = Some c -> connector_id c = id.

Lemma register_tracks reg now c :
  tracks reg now ->
  tracks (snd (register c reg)) (fun id => registered [Register c] (now id) id).
Proof.
  intros (Hp & Hnow & Hid). unfold register, try_clone_string, try_reserve. cbn [registered].
  fold (connector_id c).
  assert (Hsame : (forall id, connector_id c = id -> id <> EmptyString ->
      alloc_ok "provider ID" (Z.of_nat (String.length id)) = true -> is_Some (now id)) ->
    tracks reg (fun id => match now id with Some _ => now id | None =>
      if bool_decide (connector_id c = id /\ id <> EmptyString /\
        alloc_ok "provider ID" (Z.of_nat (String.length id)) = true) then Some c else None end)).
  { intros Hno. split; [done|]. split; intros id.
    - rewrite Hnow. destruct (now id) eqn:E; [done|]. case_bool_decide as Hc; [|done].
      destruct Hc as (? & ? & ?). destruct (Hno id); [done..|congruence].
    - intros c'. destruct (now id) eqn:E; [by intros [= <-]; apply Hid|].
      case_bool_decide as Hc; [|done]. intros [= <-]. apply Hc. }
  destruct (alloc_ok "provider ID" _) eqn:Ha; cbn [map_err mbind result_bind].
  2:{ apply Hsame. intros id <- _ Ha'. congruence. }
  case_bool_decide as He; [apply Hsame; intros; congruence|].
  unfold lock. rewrite Hp. cbn [map_err]. rewrite Hnow.
  destruct (now (connector_id c)) as [old|] eqn:Hold.
  - apply Hsame. intros id <- _ _. by rewrite Hold.
  - split; [done|]. split; intros id; cbn.
    + destruct (decide (connector_id c = id)) as [<-|Hne].
      * rewrite lookup_insert_eq, Hold. by rewrite bool_decide_eq_true_2.
      * rewrite lookup_insert_ne, Hnow by done. destruct (now id); [done|].
        rewrite bool_decide_eq_false_2; [done|tauto].
    + intros c'. destruct (now id) eqn:E; [by intros [= <-]; apply Hid|].
      case_bool_decide as Hc; [|done]. intros [= <-]. apply Hc.
Qed.

Lemma unregister_tracks reg now id' :
  tracks reg now ->
  tracks (snd (unregister id' reg)) (fun id => registered [Unregister id'] (now id) id).
Proof.
  intros (Hp & Hnow & Hid). unfold unregister, lock. rewrite Hp. cbn [map_err registered snd].
  split; [done|]. split; intros id; cbn.
  - case_bool_decide as E; [subst; by rewrite lookup_delete_eq|].
    by rewrite lookup_delete_ne, Hnow.
  - case_bool_decide; [done|]. apply Hid.
Qed.

Lemma run_tracks ops reg now :
  tracks reg now ->
  tracks (foldl step reg ops) (fun id => registered ops (now id) id).
Proof.
  revert reg now. induction ops as [|[c|id'] ops IH]; intros reg now Ht; cbn; [done| |].
  - exact (IH _ _ (register_tracks reg now c Ht)).
  - exact (IH _ _ (unregister_tracks reg now id' Ht)).
Qed.

Lemma tracks_ids reg now :
  tracks reg now -> connector_id <$> (btree_entries (guarded reg)).*2 = (btree_entries (guarded reg)).*1.
Proof.
  intros (_ & Hnow & Hid).
  assert (Hall : Forall (fun x => connector_id x.2 = x.1) (btree_entries (guarded reg))).
  { rewrite btree_entries_Permutation. apply Forall_forall. intros [id c] Hx.
    apply elem_of_map_to_list in Hx. apply Hid. by rewrite <- Hnow. }
  rewrite <- list_fmap_compose. apply list_fmap_ext. intros i x Hx.
  rewrite Forall_lookup in Hall. by apply (Hall i).
Qed.
End registry_facts.

(** C8: the provider registry is the map its run of registrations and
    unregistrations describes.  A lookup finds the connector an ID was last
    left with; a registration under a taken or empty ID fails and changes
    nothing; and the listed descriptors are those of exactly the registered
    connectors, in strictly increasing order of their IDs whatever the order
    they were registered in; listing fails only for want of memory. *)
Theorem registry_refines_map `{Allocator} {S : Type} (ops : list (@RegistryRun.op S)) :
  let reg := foldl RegistryRun.step ProviderRegistry.new ops in
  let now id := RegistryRun.registered ops None id in
  (forall id, ProviderRegistry.connector reg id =
     ok_or (now id) (Backend ("provider " +:+ id +:+ " is not registered"))) /\
  (forall c, is_Some (now (RegistryRun.connector_id c)) \/ RegistryRun.connector_id c = EmptyString ->
     exists e, ProviderRegistry.register c reg = (Err e, reg)) /\
  (forall ds, ProviderRegistry.descriptors reg = Ok ds ->
     StronglySorted string_lt (ProviderDescriptor.id <$> ds) /\
     ProviderRegistry.len reg = Ok (zlen ds) /\
     forall d, d ∈ ds <-> exists id c, now id = Some c /\ descriptor c = d) /\
  (forall e, ProviderRegistry.descriptors reg = Err e -> out_of_memory).
Proof.
  intros reg now.
  assert (Ht : tracks reg now).
  { apply (run_tracks ops ProviderRegistry.new (fun _ => None)).
    split; [done|]. split; [intros; apply lookup_empty|done]. }
  pose proof Ht as (Hp & Hnow & Hid). split; [|split; [|split]].
  - intros id. unfold ProviderRegistry.connector, lock. rewrite Hp. cbn. by rewrite Hnow.
  - intros c Hc. unfold ProviderRegistry.register. destruct (ProviderRegistry.try_clone_string _ _)
      as [id|e] eqn:Hs; [|by eexists]. apply try_clone_string_Ok in Hs as ->.
    case_bool_decide as He; [by eexists|]. unfold lock. rewrite Hp. cbn [map_err]. rewrite Hnow.
    destruct Hc as [[old Hold]|]; [|done]. unfold RegistryRun.connector_id in Hold.
    rewrite Hold. by eexists.
  - intros ds. unfold ProviderRegistry.descriptors, ProviderRegistry.len, lock. rewrite Hp.
    cbn [map_err mbind result_bind]. intros Hds. inv_ok.
    apply clone_descriptors_Ok in Hds as ->. cbn [app].
    rewrite <- list_fmap_compose. split; [|split].
    + pose proof (tracks_ids reg now Ht) as Hids. unfold RegistryRun.connector_id in Hids.
      rewrite <- list_fmap_compose in *. unfold compose in *. rewrite Hids. apply btree_entries_sorted.
    + unfold zlen. rewrite !length_fmap, btree_entries_Permutation, length_map_to_list. done.
    + intros d. rewrite btree_entries_Permutation, list_elem_of_fmap. split.
      * intros (c & -> & ([id c'] & -> & Hx%elem_of_map_to_list)%list_elem_of_fmap).
        exists id, c'. by rewrite <- Hnow.
      * intros (id & c & Hc & <-). exists c. split; [done|]. apply list_elem_of_fmap.
        exists (id, c). split; [done|]. apply elem_of_map_to_list. by rewrite Hnow.
  - intros e. unfold ProviderRegistry.descriptors, lock. rewrite Hp. cbn [map_err mbind result_bind].
    intros [[e' Hr]%map_err_Err|(? & _ & Hr)]%bind_Err; [by apply try_reserve_Err in Hr|].
    apply bind_Err in Hr as [[e' Hr]%map_err_Err|(? & _ & Hr)]; [by apply try_reserve_Err in Hr|].
    by apply clone_descriptors_Err in Hr.
Qed.
