(* ===== verification/Events.v ===== *)
(** * The bounded event queue ([crates/vmi-events])

    The queue behind its mutex, the body of the waiting loop of
    [next_event], and the interleavings of any number of producers and
    consumers around the condition variable as a step relation. *)

From S2P Require Import Prelude.
From S2P Require Import Types.
From S2P Require Import DriverApi.

Module EventQueue.
Record State : Type := MkState {
  events : list VmiEvent;
  closed : bool;
}.

Record t : Type := mk {
  capacity : Z;
  state : Mutex State;
}.

(** What an operation asks of the condition variable. *)
Inductive notification : Type := NotifyNone | NotifyOne | NotifyAll.

Definition poisoned (error : string) : VmiError.t :=
  Backend ("event queue synchronization failed: " +:+ error).

Definition set_state (q : t) (s : State) : t := mk (capacity q) (store (state q) s).

Definition new `{Allocator} (capacity : Z) : Result t :=
  if capacity =? 0 then Err (Backend "event queue capacity must be non-zero")
  else
    let? _ := map_err (fun error =>
        Backend ("failed to allocate event queue capacity " +:+ dec capacity +:+ ": " +:+ error))
      (try_reserve "event queue" capacity) in
    Ok (mk capacity (mutex_new (MkState [] false))).

Definition push (q : t) (event : VmiEvent) : Result unit * t * notification :=
  match map_err poisoned (lock (state q)) with
  | Err e => (Err e, q, NotifyNone)
  | Ok s =>
      if closed s then (Err (Backend "event queue is closed"), q, NotifyNone)
      else if zlen (events s) =? capacity q then
        (Err (Backend ("event queue capacity " +:+ dec (capacity q) +:+ " exceeded")),
         q, NotifyNone)
      else (Ok tt, set_state q (MkState (events s ++ [event]) (closed s)), NotifyOne)
  end.

Definition close (q : t) : Result unit * t * notification :=
  match map_err poisoned (lock (state q)) with
  | Err e => (Err e, q, NotifyNone)
  | Ok s => (Ok tt, set_state q (MkState (events s) true), NotifyAll)
  end.

Definition len (q : t) : Result Z :=
  let? s := map_err poisoned (lock (state q)) in Ok (zlen (events s)).

Definition is_empty (q : t) : Result bool :=
  let? n := len q in Ok (n =? 0).

(** *** [next_event]

    Instants and durations are in nanoseconds; an [Instant] counts seconds
    in 64 signed bits. *)
Definition instant_limit : Z := 2 ^ 63 * 10 ^ 9.
Definition MAX_WAIT_SLICE : Z := 24 * 60 * 60 * 10 ^ 9.

Definition deadline_of (now timeout : Z) : option Z :=
  if now + timeout <? instant_limit then Some (now + timeout) else None.

(** The loop body returns, or waits on the condition variable for at most
    so long. *)
Inductive outcome : Type :=
| Return (r : Result (option VmiEvent))
| Wait (remaining : Z).

Definition loop_body (deadline : option Z) (now : Z) (q : t) : outcome * t :=
  match map_err poisoned (lock (state q)) with
  | Err e => (Return (Err e), q)
  | Ok s =>
      match events s with
      | event :: rest => (Return (Ok (Some event)), set_state q (MkState rest (closed s)))
      | [] =>
          if closed s then (Return (Ok None), q)
          else
            match deadline with
            | Some d => if d <=? now then (Return (Ok None), q)
                        else (Wait (saturating_sub d now), q)
            | None => (Wait MAX_WAIT_SLICE, q)
            end
      end
  end.

(** A thread back from its wait, or (with [timed_out = false]) just called. *)
Definition resume (deadline : option Z) (timed_out : bool) (now : Z) (q : t) : outcome * t :=
  match map_err poisoned (lock (state q)) with
  | Err e => (Return (Err e), q)
  | Ok s =>
      if timed_out && (zlen (events s) =? 0) && bool_decide (is_Some deadline)
      then (Return (Ok None), q)
      else loop_body deadline now q
  end.
End EventQueue.

(** ** Producers and consumers around one queue *)

Module EventThreads.
Import EventQueue.

(** The threads inside [next_event] are blocked on the condition variable
    (with the instant their wait times out) or runnable (with the flag of
    their last wait); [returned] and [pushed] are the history. *)
Record config : Type := MkConfig {
  queue : EventQueue.t;
  now : Z;
  blocked : list (option Z * Z);
  runnable : list (option Z * bool);
  returned : list (Result (option VmiEvent));
  pushed : list VmiEvent;
}.

Definition start (q : EventQueue.t) (now : Z) : config := MkConfig q now [] [] [] [].

(** The condition variable: one notification wakes one blocked thread, if any. *)
Inductive notify : notification -> list (option Z * Z) -> list (option Z * bool) ->
    list (option Z * Z) -> list (option Z * bool) -> Prop :=
| notify_nothing bl run : notify NotifyNone bl run bl run
| notify_nobody run : notify NotifyOne [] run [] run
| notify_one l1 d u l2 run :
    notify NotifyOne (l1 ++ (d, u) :: l2) run (l1 ++ l2) (run ++ [(d, false)])
| notify_all bl run :
    notify NotifyAll bl run [] (run ++ ((fun b => (fst b, false)) <$> bl)).

Inductive step : config -> config -> Prop :=
| step_tick c t : now c <= t ->
    step c (MkConfig (queue c) t (blocked c) (runnable c) (returned c) (pushed c))
| step_push c e r q n bl run :
    push (queue c) e = (r, q, n) -> notify n (blocked c) (runnable c) bl run ->
    step c (MkConfig q (now c) bl run (returned c)
              (if is_ok r then pushed c ++ [e] else pushed c))
| step_close c r q n bl run :
    close (queue c) = (r, q, n) -> notify n (blocked c) (runnable c) bl run ->
    step c (MkConfig q (now c) bl run (returned c) (pushed c))
| step_call c timeout :
    step c (MkConfig (queue c) (now c) (blocked c)
              (runnable c ++ [(deadline_of (now c) timeout, false)]) (returned c) (pushed c))
| step_spurious c l1 d u l2 : blocked c = l1 ++ (d, u) :: l2 ->
    step c (MkConfig (queue c) (now c) (l1 ++ l2) (runnable c ++ [(d, false)])
              (returned c) (pushed c))
| step_timeout c l1 d u l2 : blocked c = l1 ++ (d, u) :: l2 -> u <= now c ->
    step c (MkConfig (queue c) (now c) (l1 ++ l2) (runnable c ++ [(d, true)])
              (returned c) (pushed c))
| step_return c l1 d timed_out l2 r q :
    runnable c = l1 ++ (d, timed_out) :: l2 ->
    resume d timed_out (now c) (queue c) = (Return r, q) ->
    step c (MkConfig q (now c) (blocked c) (l1 ++ l2) (returned c ++ [r]) (pushed c))
| step_wait c l1 d timed_out l2 remaining q :
    runnable c = l1 ++ (d, timed_out) :: l2 ->
    resume d timed_out (now c) (queue c) = (Wait remaining, q) ->
    step c (MkConfig q (now c) (blocked c ++ [(d, now c + remaining)]) (l1 ++ l2)
              (returned c) (pushed c)).

Definition reachable (c0 c : config) : Prop := rtc step c0 c.

(** The events handed out, in the order they were. *)
Definition delivered (c : config) : list VmiEvent :=
  omap (fun r => match r with Ok (Some e) => Some e | _ => None end) (returned c).
Definition queued (c : config) : list VmiEvent := events (guarded (state (queue c))).
Definition is_closed (c : config) : bool := closed (guarded (state (queue c))).
End EventThreads.

(** * Lemmas *)

Section event_lemmas.
Import EventQueue EventThreads.

(** What every reachable configuration satisfies. *)
Record invariant (cap : Z) (c : config) : Prop := {
  inv_intact : Prelude.poisoned (state (queue c)) = false;
  inv_capacity : capacity (queue c) = cap;
  inv_bound : zlen (queued c) <= cap;
  inv_fifo : pushed c = delivered c ++ queued c;
  inv_open : blocked c <> [] -> is_closed c = false;
  inv_awake : blocked c <> [] -> zlen (queued c) <= zlen (runnable c);
  inv_until : Forall (fun b => match fst b with Some d => d <= snd b | None => True end) (blocked c);
  inv_due : Forall (fun b => match b with (Some d, true) => d <= now c | _ => True end) (runnable c);
}.

(** The cases of one turn of a waiting thread. *)
Lemma resume_cases d timed_out t q :
  Prelude.poisoned (state q) = false ->
  let s := guarded (state q) in
  match events s with
  | e :: rest => resume d timed_out t q
      = (Return (Ok (Some e)), set_state q (MkState rest (closed s)))
  | [] =>
      (resume d timed_out t q = (Return (Ok None), q) /\
        (closed s = true \/ exists d', d = Some d' /\ (timed_out = true \/ d' <= t))) \/
      (exists w, resume d timed_out t q = (Wait w, q) /\ closed s = false /\
        match d with Some d' => timed_out = false /\ w = d' - t /\ t < d' | None => w = MAX_WAIT_SLICE end)
  end.
Proof.
  intros Hp s. unfold resume, loop_body, lock. rewrite Hp. cbn [map_err]. fold s.
  destruct (events s) as [|e rest] eqn:He.
  - cbn [zlen length]. rewrite zlen_nil. cbn [Z.eqb]. rewrite andb_true_r.
    destruct timed_out, d as [d|]; cbn [andb bool_decide]; try rewrite bool_decide_eq_true_2 by eauto;
      cbn [andb]; destruct (closed s); eauto 10.
    all: try (right; eexists; done).
    destruct (Z.leb_spec d t); [left; eauto 10|right].
    eexists. unfold saturating_sub. rewrite Z.max_l by lia. eauto.
  - replace (zlen (e :: rest) =? 0) with false; [by rewrite andb_false_r|].
    symmetry. apply Z.eqb_neq. rewrite zlen_cons. pose proof (zlen_nonneg rest). lia.
Qed.

Lemma notify_Forall n bl run bl' run' (P : option Z * Z -> Prop) (R : option Z * bool -> Prop) :
  notify n bl run bl' run' -> (forall d, R (d, false)) ->
  Forall P bl -> Forall R run -> Forall P bl' /\ Forall R run'.
Proof.
  intros Hn HR HP Hrun. destruct Hn as [| |l1 d u l2|bl run]; try done.
  - apply Forall_app in HP as [? [? ?]%Forall_cons]. rewrite !Forall_app. auto.
  - rewrite Forall_app, Forall_fmap. split; [done|]. split; [done|].
    apply Forall_forall. intros [d u] _. apply HR.
Qed.

#[local] Arguments delivered : simpl never.

Lemma delivered_snoc q t bl run rs r ps :
  delivered (MkConfig q t bl run (rs ++ [r]) ps) =
  delivered (MkConfig q t bl run rs ps) ++ match r with Ok (Some e) => [e] | _ => [] end.
Proof. unfold delivered. cbn. rewrite omap_app. cbn. by destruct r as [[e|]|]. Qed.

Lemma push_cases q e :
  Prelude.poisoned (state q) = false ->
  let s := guarded (state q) in
  (closed s = true /\ push q e = (Err (Backend "event queue is closed"), q, NotifyNone)) \/
  (closed s = false /\ zlen (events s) = capacity q /\
     push q e = (Err (Backend ("event queue capacity " +:+ dec (capacity q) +:+ " exceeded")),
                 q, NotifyNone)) \/
  (closed s = false /\ zlen (events s) <> capacity q /\
     push q e = (Ok tt, set_state q (MkState (events s ++ [e]) false), NotifyOne)).
Proof.
  intros Hp s. unfold push, lock. rewrite Hp. cbn [map_err]. fold s.
  destruct (closed s) eqn:Hc; [left; done|]. right.
  destruct (Z.eqb_spec (zlen (events s)) (capacity q)); [left|right]; done.
Qed.

Lemma notify_lengths n bl run bl' run' :
  notify n bl run bl' run' ->
  match n with
  | NotifyNone => bl' = bl /\ run' = run
  | NotifyOne => (bl' = [] /\ run' = run) \/ (bl <> [] /\ zlen run' = zlen run + 1)
  | NotifyAll => bl' = []
  end.
Proof.
  intros []; auto. right. rewrite zlen_app. split; [by destruct l1|done].
Qed.

Lemma invariant_push cap c e r q n bl run :
  invariant cap c -> push (queue c) e = (r, q, n) -> notify n (blocked c) (runnable c) bl run ->
  invariant cap (MkConfig q (now c) bl run (returned c) (if is_ok r then pushed c ++ [e] else pushed c)).
Proof.
  intros [Hp Hcap Hb Hf Ho Ha Hu Hd] Hpush Hn.
  pose proof (notify_Forall _ _ _ _ _ _
    (fun b => match b with (Some d, true) => d <= now c | _ => True end) Hn
    (fun d => match d with Some _ => I | None => I end) Hu Hd) as [Hu' Hd'].
  apply notify_lengths in Hn. unfold queued, is_closed in *.
  destruct (push_cases (queue c) e Hp) as [(Hc & E)|[(Hc & Hl & E)|(Hc & Hl & E)]];
    rewrite E in Hpush; injection Hpush as <- <- <-; cbn [is_ok].
  - destruct Hn as [-> ->]. by split.
  - destruct Hn as [-> ->]. by split.
  - split; cbn; try done.
    + unfold queued. cbn. rewrite zlen_app. unfold zlen at 2. cbn. lia.
    + by rewrite Hf, <- app_assoc.
    + unfold queued. cbn. rewrite zlen_app. unfold zlen at 2. cbn. intros Hbl.
      destruct Hn as [[-> _]|[Hbl' ->]]; [done|]. specialize (Ha Hbl'). lia.
Qed.

Lemma invariant_turn cap c l1 d timed_out l2 o q :
  invariant cap c -> runnable c = l1 ++ (d, timed_out) :: l2 ->
  resume d timed_out (now c) (queue c) = (o, q) ->
  invariant cap
    match o with
    | Return r => MkConfig q (now c) (blocked c) (l1 ++ l2) (returned c ++ [r]) (pushed c)
    | Wait w => MkConfig q (now c) (blocked c ++ [(d, now c + w)]) (l1 ++ l2) (returned c) (pushed c)
    end.
Proof.
  intros [Hp Hcap Hb Hf Ho Ha Hu Hd] Hrun Hres.
  pose proof (resume_cases d timed_out (now c) (queue c) Hp) as Hcases. cbn in Hcases.
  rewrite Hrun in *. apply Forall_app in Hd as [Hd1 [Hd2 Hd3]%Forall_cons].
  assert (Hd' : Forall (fun b => match b with (Some d, true) => d <= now c | _ => True end) (l1 ++ l2))
    by (by apply Forall_app).
  rewrite zlen_app, zlen_cons in Ha. pose proof (zlen_nonneg l1). pose proof (zlen_nonneg l2).
  unfold queued, is_closed in *. destruct (events _) as [|e rest] eqn:He.
  - destruct Hcases as [[E _]|(w & E & Hc & Hw)]; rewrite E in Hres; injection Hres as <- <-.
    + split; cbn; unfold queued, is_closed; cbn; rewrite ?He; try done.
      * by rewrite delivered_snoc, app_nil_r, Hf.
      * intros. rewrite zlen_nil, zlen_app. lia.
    + split; cbn; unfold queued, is_closed; cbn; rewrite ?He; try done.
      * intros. rewrite zlen_nil, zlen_app. lia.
      * apply Forall_app. split; [done|]. apply Forall_singleton. cbn.
        destruct d as [d|]; [lia|done].
  - rewrite Hcases in Hres. injection Hres as <- <-.
    rewrite zlen_cons in *. split; cbn; unfold queued, is_closed; cbn; try done; try lia.
    + rewrite delivered_snoc, Hf. unfold delivered. cbn. by rewrite <- app_assoc.
    + intros Hbl. specialize (Ha Hbl). rewrite zlen_app. lia.
Qed.

Lemma invariant_step cap c c' : invariant cap c -> step c c' -> invariant cap c'.
Proof.
  intros Hinv Hstep. destruct Hstep as [c t Ht|c e r q n bl run Hpush Hn|c r q n bl run Hclose Hn
    |c timeout|c l1 d u l2 Hbl|c l1 d u l2 Hbl Hu'|c l1 d to l2 r q Hrun Hres|c l1 d to l2 w q Hrun Hres].
  - destruct Hinv. split; cbn; try done. eapply Forall_impl; [exact inv_due0|].
    intros [[d|] []]; cbn; lia || done.
  - by eapply invariant_push.
  - destruct Hinv as [Hp Hcap Hb Hf Ho Ha Hu Hd]. unfold close, lock in Hclose.
    rewrite Hp in Hclose. cbn in Hclose. injection Hclose as <- <- <-.
    pose proof (notify_Forall _ _ _ _ _ _
      (fun b => match b with (Some d, true) => d <= now c | _ => True end) Hn
      (fun d => match d with Some _ => I | None => I end) Hu Hd) as [Hu1 Hd1].
    apply notify_lengths in Hn as ->. by split.
  - destruct Hinv. split; cbn; try done.
    + intros Hbl. specialize (inv_awake0 Hbl). unfold queued in *. cbn. rewrite zlen_app.
      pose proof (zlen_nonneg [(deadline_of (now c) timeout, false)]). lia.
    + apply Forall_app. split; [done|]. apply Forall_singleton. by destruct (deadline_of _ _).
  - destruct Hinv as [Hp Hcap Hb Hf Ho Ha Hu Hd]. rewrite Hbl in *.
    apply Forall_app in Hu as [Hu1 [_ Hu2]%Forall_cons]. split; cbn; try done.
    + intros Hne. apply Ho. by destruct l1.
    + intros Hne. unfold queued in *. cbn. rewrite zlen_app.
      specialize (Ha ltac:(by destruct l1)). pose proof (zlen_nonneg [(d, false)]). lia.
    + by apply Forall_app.
    + apply Forall_app. split; [done|]. apply Forall_singleton. by destruct d.
  - destruct Hinv as [Hp Hcap Hb Hf Ho Ha Hu Hd]. rewrite Hbl in *.
    apply Forall_app in Hu as [Hu1 [Hdu Hu2]%Forall_cons]. split; cbn; try done.
    + intros Hne. apply Ho. by destruct l1.
    + intros Hne. unfold queued in *. cbn. rewrite zlen_app.
      specialize (Ha ltac:(by destruct l1)). pose proof (zlen_nonneg [(d, true)]). lia.
    + by apply Forall_app.
    + apply Forall_app. split; [done|]. apply Forall_singleton. cbn in Hdu. destruct d; [lia|done].
  - exact (invariant_turn cap c l1 d to l2 (Return r) q Hinv Hrun Hres).
  - exact (invariant_turn cap c l1 d to l2 (Wait w) q Hinv Hrun Hres).
Qed.

Lemma invariant_start `{Allocator} cap q t :
  0 <= cap -> new cap = Ok q -> invariant cap (start q t).
Proof.
  unfold new. intros Hc Hq. destruct (cap =? 0); [done|]. inv_ok. subst q.
  split; cbn; try done; constructor.
Qed.

Lemma invariant_reachable `{Allocator} cap q t c :
  0 <= cap -> new cap = Ok q -> reachable (start q t) c -> invariant cap c.
Proof.
  intros Hc Hq. pose proof (invariant_start cap q t Hc Hq) as Hinv. revert Hinv.
  generalize (start q t). intros c0 Hinv Hreach. revert Hinv.
  induction Hreach as [|c1 c2 c3 Hs _ IH]; [done|]. intros Hinv. apply IH.
  by apply (invariant_step cap c1).
Qed.
End event_lemmas.

(** * Properties *)

(** C10: the event queue is a bounded first-in first-out channel under every
    interleaving of producers and waiting consumers.  The events handed out
    so far, in the order they were, followed by those still queued are
    exactly the events accepted, none lost, doubled or reordered; and never
    more are queued than the capacity the queue was created with. *)
Theorem event_queue_fifo `{Allocator} (capacity : Z) (q : EventQueue.t) (t : Z)
    (c : EventThreads.config) (Hcap : 0 <= capacity)
    (Hnew : EventQueue.new capacity = Ok q)
    (Hreach : EventThreads.reachable (EventThreads.start q t) c) :
  EventThreads.pushed c = EventThreads.delivered c ++ EventThreads.queued c /\
  zlen (EventThreads.queued c) <= capacity.
Proof. destruct (invariant_reachable capacity q t c Hcap Hnew Hreach). done. Qed.

(** C11: no wakeup is lost.  In every reachable configuration in which a
    consumer is blocked, the queue is open and every queued event has a
    runnable consumer on its way to it; and a consumer whose turn it is
    takes the oldest event if there is one, goes back to waiting only while
    the queue is open and empty and its deadline ahead, and otherwise gives
    up, which it does only on an empty queue that is closed or past the
    deadline. *)
Theorem event_queue_no_lost_wakeup `{Allocator} (capacity : Z) (q : EventQueue.t) (t : Z)
    (c : EventThreads.config) (Hcap : 0 <= capacity)
    (Hnew : EventQueue.new capacity = Ok q)
    (Hreach : EventThreads.reachable (EventThreads.start q t) c) :
  (EventThreads.blocked c <> [] ->
     EventThreads.is_closed c = false /\
     zlen (EventThreads.queued c) <= zlen (EventThreads.runnable c)) /\
  forall d timed_out, (d, timed_out) ∈ EventThreads.runnable c ->
    match EventThreads.queued c,
          fst (EventQueue.resume d timed_out (EventThreads.now c) (EventThreads.queue c)) with
    | e :: _, o => o = EventQueue.Return (Ok (Some e))
    | [], EventQueue.Return r => r = Ok None /\
        (EventThreads.is_closed c = true \/
         exists d', d = Some d' /\ d' <= EventThreads.now c)
    | [], EventQueue.Wait w =>
        EventThreads.is_closed c = false /\ 0 < w /\
        forall d', d = Some d' -> EventThreads.now c + w = d'
    end.
Proof.
  destruct (invariant_reachable capacity q t c Hcap Hnew Hreach) as [Hp _ _ _ Ho Ha _ Hd].
  split; [auto|]. intros d timed_out Hin. rewrite Forall_forall in Hd.
  specialize (Hd _ Hin). cbn in Hd.
  pose proof (resume_cases d timed_out (EventThreads.now c) (EventThreads.queue c) Hp) as Hcases.
  cbn in Hcases. unfold EventThreads.queued, EventThreads.is_closed.
  destruct (EventQueue.events _) as [|e rest]; [|by rewrite Hcases].
  destruct Hcases as [[-> Hwhy]|(w & -> & Hc & Hw)]; cbn.
  - split; [done|]. destruct Hwhy as [?|(d' & -> & [->|?])]; eauto.
  - split; [done|]. destruct d as [d|].
    + destruct Hw as (_ & -> & ?). split; [lia|]. intros d' [= <-]. lia.
    + subst w. split; [done|]. intros d' [=].
Qed.

Definition example_event (kind : string) : VmiEvent := MkVmiEvent kind None None.
Definition example_queue : EventQueue.t :=
  EventQueue.mk 1 (mutex_new (EventQueue.MkState [] false)).

(** A consumer waits, an event arrives: it is woken and the event is its. *)
Definition example_config : EventThreads.config :=
  EventThreads.MkConfig
    (EventQueue.mk 1 (mutex_new (EventQueue.MkState [example_event "a"] false)))
    5 [] [(Some 15, false)] [] [example_event "a"].

Lemma example_reachable : EventThreads.reachable (EventThreads.start example_queue 5) example_config.
Proof.
  apply (rtc_l _ _ (EventThreads.MkConfig example_queue 5 [] [(Some 15, false)] [] []));
    [exact (EventThreads.step_call (EventThreads.start example_queue 5) 10)|].
  apply (rtc_l _ _ (EventThreads.MkConfig example_queue 5 [(Some 15, 15)] [] [] []));
    [exact (EventThreads.step_wait (EventThreads.MkConfig example_queue 5 [] [(Some 15, false)] [] [])
       [] (Some 15) false [] 10 example_queue eq_refl eq_refl)|].
  apply rtc_once.
  exact (EventThreads.step_push (EventThreads.MkConfig example_queue 5 [(Some 15, 15)] [] [] [])
    (example_event "a") (Ok tt) (EventThreads.queue example_config) EventQueue.NotifyOne
    [] [(Some 15, false)] eq_refl (EventThreads.notify_one [] (Some 15) 15 [] [])).
Qed.

Lemma event_queue_fifo_witness :
  EventThreads.pushed example_config
    = EventThreads.delivered example_config ++ EventThreads.queued example_config.
Proof.
  exact (proj1 (@event_queue_fifo ample_allocator 1 example_queue 5 example_config
    ltac:(lia) eq_refl example_reachable)).
Defined.

Lemma event_queue_no_lost_wakeup_witness :
  fst (EventQueue.resume (Some 15) false 5 (EventThreads.queue example_config))
  = EventQueue.Return (Ok (Some (example_event "a"))).
Proof.
  destruct (@event_queue_no_lost_wakeup ample_allocator 1 example_queue 5 example_config
    ltac:(lia) eq_refl example_reachable) as [_ Hturn].
  exact (Hturn (Some 15) false ltac:(constructor)).
Defined.
