(* ===== verification/Views.v ===== *)
(** * Memory view identifiers ([crates/vmi-views])

    The bitmap of view identifiers, their allocation round the 16-bit
    space, and the set of views it stands for. *)

From S2P Require Import Prelude.
From S2P Require Import Types.

Definition VIEW_WORD_BITS : Z := 64.
Definition VIEW_WORDS : Z := 1024.

Module State.
Record t : Type := mk {
  views : list Z;
  view_count : Z;
  active : Z;
  next : Z;
}.

Definition location (view : Z) : Result (Z * Z) :=
  let word := view / VIEW_WORD_BITS in
  let? shift := ok_or (try_width 32 (view mod VIEW_WORD_BITS))
    (Backend "memory view bitmap shift overflow") in
  let? mask := ok_or (checked_shl 64 1 shift) (Backend "memory view bitmap mask overflow") in
  Ok (word, mask).

Definition word_at (st : t) (word : Z) : Z := default 0 (views st !! Z.to_nat word).

Definition contains (st : t) (view : Z) : Result bool :=
  if view =? 0 then Ok true
  else
    let? ' (word, mask) := location view in
    Ok (negb (Z.land (word_at st word) mask =? 0)).

Definition insert (view : Z) : stateful t VmiError.t bool := fun st =>
  match location view with
  | Err e => (Err e, st)
  | Ok (word, mask) =>
      if negb (Z.land (word_at st word) mask =? 0) then (Ok false, st)
      else
        match ok_or (checked_add 64 (view_count st) 1) (Backend "memory view count overflow"),
              ok_or (views st !! Z.to_nat word) (Backend "memory view bitmap index overflow") with
        | Err e, _ | Ok _, Err e => (Err e, st)
        | Ok next_count, Ok entry =>
            (Ok true, mk (<[Z.to_nat word := Z.lor entry mask]> (views st)) next_count
                         (active st) (next st))
        end
  end.

Definition remove (view : Z) : stateful t VmiError.t bool := fun st =>
  match location view with
  | Err e => (Err e, st)
  | Ok (word, mask) =>
      if Z.land (word_at st word) mask =? 0 then (Ok false, st)
      else
        match ok_or (checked_sub (view_count st) 1) (Backend "memory view count underflow"),
              ok_or (views st !! Z.to_nat word) (Backend "memory view bitmap index overflow") with
        | Err e, _ | Ok _, Err e => (Err e, st)
        | Ok next_count, Ok entry =>
            (Ok true, mk (<[Z.to_nat word := Z.land entry (wnot 64 mask)]> (views st)) next_count
                         (active st) (next st))
        end
  end.
End State.

Module MemoryViewManager.
Definition t : Type := Mutex State.t.
Abbreviation M := (stateful t VmiError.t).

Definition poisoned (error : string) : VmiError.t :=
  Backend ("memory view synchronization failed: " +:+ error).

Definition new : t := mutex_new (State.mk (replicate (Z.to_nat VIEW_WORDS) 0) 1 0 1).

(** An operation under the lock. *)
Definition locked {A} (op : stateful State.t VmiError.t A) : M A := fun mgr =>
  match map_err poisoned (lock mgr) with
  | Err e => (Err e, mgr)
  | Ok st => let '(r, st') := op st in (r, store mgr st')
  end.

Definition create_step (start : Z) (st : State.t) : State.t + (Result Z * State.t) :=
  let candidate := State.next st in
  let st1 := State.mk (State.views st) (State.view_count st) (State.active st)
               (wrapping_add 16 (State.next st) 1) in
  let exhausted st' :=
    if State.next st' =? start
    then inr (Err (Backend "memory view identifiers exhausted"), st')
    else inl st' in
  if negb (candidate =? 0) then
    match State.insert candidate st1 with
    | (Err e, st2) => inr (Err e, st2)
    | (Ok true, st2) => inr (Ok candidate, st2)
    | (Ok false, st2) => exhausted st2
    end
  else exhausted st1.

(** The loop tries each of the 2^16 identifiers at most once. *)
Definition create : M Z := locked (fun st =>
  run_loop (Z.to_pos (2 ^ 16)) (create_step (State.next st))
    (fun st' => (Err (Backend "model fuel exhausted"), st')) st).

Definition destroy (view : Z) : M unit := locked (fun st =>
  if view =? 0 then (Err (Backend "default memory view cannot be destroyed"), st)
  else if view =? State.active st then
    (Err (Backend ("active memory view " +:+ dec view +:+ " cannot be destroyed")), st)
  else
    match State.remove view st with
    | (Err e, st') => (Err e, st')
    | (Ok false, st') => (Err (Backend ("memory view " +:+ dec view +:+ " does not exist")), st')
    | (Ok true, st') => (Ok tt, st')
    end).

Fixpoint collect_views (st : State.t) (ids views : list Z) : Result (list Z) :=
  match ids with
  | [] => Ok views
  | view :: rest =>
      let? present := State.contains st view in
      collect_views st rest (if (present : bool) then views ++ [view] else views)
  end.

Definition views `{Allocator} (mgr : t) : Result (list Z) :=
  let? st := map_err poisoned (lock mgr) in
  let? _ := map_err (fun error =>
      Backend ("failed to allocate memory view list: " +:+ error))
    (try_reserve "memory view list" (State.view_count st)) in
  collect_views st (seqZ 0 (2 ^ 16)) [].

Definition active_view (mgr : t) : Result Z :=
  let? st := map_err poisoned (lock mgr) in Ok (State.active st).

Definition switch_view (view : Z) : M unit := locked (fun st =>
  match State.contains st view with
  | Err e => (Err e, st)
  | Ok false => (Err (Backend ("memory view " +:+ dec view +:+ " does not exist")), st)
  | Ok true => (Ok tt, State.mk (State.views st) (State.view_count st) view (State.next st))
  end).
End MemoryViewManager.

(** * The specification: a set of identifiers and the active one *)

Module ViewSpec.
Record t : Type := mk { ids : gset Z; active : Z }.

Inductive op : Type := Create | Destroy (view : Z) | Switch (view : Z).

(** An allowed response and the state it leaves. *)
Inductive respond (s : t) : op -> Result Z -> t -> Prop :=
| create_fresh v : 0 < v < 2 ^ 16 -> v ∉ ids s ->
    respond s Create (Ok v) (mk ({[v]} ∪ ids s) (active s))
| create_full : (forall v, 0 <= v < 2 ^ 16 -> v ∈ ids s) ->
    respond s Create (Err (Backend "memory view identifiers exhausted")) s
| destroy_present v : v <> 0 -> v <> active s -> v ∈ ids s ->
    respond s (Destroy v) (Ok v) (mk (ids s ∖ {[v]}) (active s))
| destroy_default : respond s (Destroy 0)
    (Err (Backend "default memory view cannot be destroyed")) s
| destroy_active v : v <> 0 -> v = active s ->
    respond s (Destroy v)
      (Err (Backend ("active memory view " +:+ dec v +:+ " cannot be destroyed"))) s
| destroy_absent v : v <> 0 -> v <> active s -> v ∉ ids s ->
    respond s (Destroy v) (Err (Backend ("memory view " +:+ dec v +:+ " does not exist"))) s
| switch_present v : v ∈ ids s -> respond s (Switch v) (Ok v) (mk (ids s) v)
| switch_absent v : v ∉ ids s ->
    respond s (Switch v) (Err (Backend ("memory view " +:+ dec v +:+ " does not exist"))) s.

Definition in_range (o : op) : Prop :=
  match o with Create => True | Destroy v | Switch v => in_u16 v end.

(** The implementation's response to an operation. *)
Definition run (o : op) (mgr : MemoryViewManager.t) : Result Z * MemoryViewManager.t :=
  match o with
  | Create => MemoryViewManager.create mgr
  | Destroy v => let '(r, mgr') := MemoryViewManager.destroy v mgr in ((fun _ => v) <$> r, mgr')
  | Switch v => let '(r, mgr') := MemoryViewManager.switch_view v mgr in ((fun _ => v) <$> r, mgr')
  end.

Fixpoint responses (ops : list op) (mgr : MemoryViewManager.t)
    : list (Result Z) * MemoryViewManager.t :=
  match ops with
  | [] => ([], mgr)
  | o :: rest =>
      let '(r, mgr') := run o mgr in
      let '(rs, mgr'') := responses rest mgr' in (r :: rs, mgr'')
  end.

Inductive spec_run : t -> list op -> list (Result Z) -> t -> Prop :=
| spec_done s : spec_run s [] [] s
| spec_more s o r s' ops rs s'' :
    respond s o r s' -> spec_run s' ops rs s'' -> spec_run s (o :: ops) (r :: rs) s''.
End ViewSpec.

(** * Lemmas *)

Section view_lemmas.
Import State.

(** The bit of a view. *)
Definition bit (st : t) (v : Z) : bool := Z.testbit (word_at st (v / 64)) (v mod 64).

Definition present (st : t) (v : Z) : bool := (v =? 0) || bit st v.

Lemma location_eq v : location v = Ok (v / 64, 2 ^ (v mod 64)).
Proof.
  unfold location, VIEW_WORD_BITS. pose proof (Z.mod_pos_bound v 64).
  rewrite try_width_fits by lia. cbn [ok_or mbind result_bind]. unfold checked_shl.
  rewrite (proj2 (Z.ltb_lt (v mod 64) 64)) by lia. cbn [ok_or mbind result_bind].
  rewrite Z.shiftl_1_l, Z.mod_small; [done|].
  split; [apply Z.pow_nonneg; lia|]. apply Z.pow_lt_mono_r; lia.
Qed.

Lemma mask_test st v : (Z.land (word_at st (v / 64)) (2 ^ (v mod 64)) =? 0) = negb (bit st v).
Proof. apply land_pow2_eqb. pose proof (Z.mod_pos_bound v 64). lia. Qed.

Lemma contains_eq st v : contains st v = Ok (present st v).
Proof.
  unfold contains, present. destruct (v =? 0); [done|].
  rewrite location_eq. cbn. by rewrite mask_test, negb_involutive.
Qed.

(** Well-formed states and the set they stand for. *)
Definition ids_of (st : t) : list Z := filter (fun v => present st v = true) (seqZ 0 (2 ^ 16)).

Record wf (st : t) : Prop := {
  wf_words : zlen (views st) = 1024;
  wf_range : Forall in_u64 (views st);
  wf_count : view_count st = zlen (ids_of st);
  wf_active : in_u16 (active st) /\ present st (active st) = true;
  wf_next : in_u16 (next st);
  wf_zero : bit st 0 = false;
}.

Lemma ids_of_spec st v : v ∈ ids_of st <-> in_u16 v /\ present st v = true.
Proof.
  unfold ids_of, in_width. rewrite list_elem_of_filter, elem_of_seqZ.
  split; intros [? ?]; split; (done || lia).
Qed.

(** Setting the bit of [v] to [b] and nothing else. *)
Definition updated (st st' : t) (v : Z) (b : bool) : Prop :=
  zlen (views st') = zlen (views st) /\ Forall in_u64 (views st') /\
  active st' = active st /\ next st' = next st /\
  forall v', in_u16 v' -> bit st' v' = if v' =? v then b else bit st v'.

Lemma word_lookup st v : zlen (views st) = 1024 -> in_u16 v ->
  exists w, views st !! Z.to_nat (v / 64) = Some w /\ word_at st (v / 64) = w.
Proof.
  unfold in_width, zlen. intros Hl Hv. unfold word_at.
  destruct (views st !! Z.to_nat (v / 64)) as [w|] eqn:E; [eauto|].
  apply lookup_ge_None in E. assert (v / 64 < 1024) by (apply Z.div_lt_upper_bound; lia). lia.
Qed.

Lemma set_bit st v w' c b :
  wf st -> in_u16 v -> in_u64 w' ->
  (forall i, 0 <= i -> Z.testbit w' i = if i =? v mod 64 then b else Z.testbit (word_at st (v / 64)) i) ->
  updated st (mk (<[Z.to_nat (v / 64) := w']> (views st)) c (active st) (next st)) v b.
Proof.
  intros Hwf Hv Hw Hbits. unfold in_width in Hv. split; [|split; [|split; [done|split; [done|]]]].
  - cbn. unfold zlen. by rewrite length_insert.
  - cbn. apply Forall_insert; [apply wf_range, Hwf|done].
  - intros v' Hv'. unfold in_width in Hv'. unfold bit, word_at. cbn [views].
    assert (Hlt : (Z.to_nat (v / 64) < length (views st))%nat).
    { pose proof (wf_words st Hwf). unfold zlen in *.
      assert (v / 64 < 1024) by (apply Z.div_lt_upper_bound; lia).
      pose proof (Z.div_pos v 64). lia. }
    pose proof (Z.mod_pos_bound v' 64). pose proof (Z.div_pos v' 64). pose proof (Z.div_pos v 64).
    pose proof (Z.div_mod v 64). pose proof (Z.div_mod v' 64).
    destruct (decide (v' / 64 = v / 64)) as [E|Hne].
    + rewrite E, list_lookup_insert_eq by done. cbn. rewrite Hbits by lia. unfold word_at.
      destruct (Z.eqb_spec (v' mod 64) (v mod 64)), (Z.eqb_spec v' v); try done; lia.
    + rewrite list_lookup_insert_ne by lia.
      destruct (Z.eqb_spec v' v); [congruence|done].
Qed.

Lemma present_updated st st' v b v' :
  updated st st' v b -> in_u16 v' -> v <> 0 ->
  present st' v' = if v' =? v then b else present st v'.
Proof.
  intros (_ & _ & _ & _ & Hb) Hv' Hv. unfold present. rewrite Hb by done.
  destruct (Z.eqb_spec v' v) as [->|]; [|done]. by destruct (Z.eqb_spec v 0).
Qed.

Lemma ids_of_NoDup st : NoDup (ids_of st).
Proof. apply NoDup_filter, NoDup_seqZ. Qed.

Lemma ids_of_add st st' v :
  in_u16 v -> present st v = false -> present st' v = true ->
  (forall v', in_u16 v' -> v' <> v -> present st' v' = present st v') ->
  zlen (ids_of st') = zlen (ids_of st) + 1.
Proof.
  intros Hv H1 H2 Hsame.
  assert (Hp : ids_of st' ≡ₚ v :: ids_of st).
  { apply NoDup_Permutation; [apply ids_of_NoDup| |].
    - constructor; [|apply ids_of_NoDup]. rewrite ids_of_spec. intros [_ ?]. congruence.
    - intros v'. rewrite elem_of_cons, !ids_of_spec. destruct (decide (v' = v)) as [->|Hne].
      + tauto.
      + split; [intros [? E]; right; by rewrite <- Hsame|intros [?|[? E]]; [done|by rewrite Hsame]]. }
  apply Permutation_length in Hp. rewrite length_cons in Hp. unfold zlen. lia.
Qed.

Lemma ids_of_ext st st' :
  (forall v, in_u16 v -> present st' v = present st v) ->
  zlen (ids_of st') = zlen (ids_of st).
Proof.
  intros Hsame. assert (Hp : ids_of st' ≡ₚ ids_of st).
  { apply NoDup_Permutation; [apply ids_of_NoDup..|]. intros v. rewrite !ids_of_spec.
    split; intros [? E]; (split; [done|]); [by rewrite <- Hsame|by rewrite Hsame]. }
  apply Permutation_length in Hp. unfold zlen. lia.
Qed.

Lemma wf_updated st st' v b :
  wf st -> in_u16 v -> v <> 0 -> v <> active st \/ b = true -> updated st st' v b ->
  view_count st' = view_count st + (Z.b2z b - Z.b2z (present st v)) -> wf st'.
Proof.
  intros Hwf Hv Hv0 Hact Hup Hc. pose proof Hup as (Hlen & Hrange & Ha & Hn & Hb).
  assert (Hpres : forall v', in_u16 v' -> present st' v' = if v' =? v then b else present st v')
    by (intros; by apply (present_updated st st' v b)).
  assert (Hv' : present st' v = b) by (rewrite Hpres, Z.eqb_refl by done; done).
  assert (Hsame : forall v', in_u16 v' -> v' <> v -> present st' v' = present st v').
  { intros v' Hin Hne. rewrite Hpres by done. by rewrite (proj2 (Z.eqb_neq v' v)). }
  destruct (wf_active st Hwf) as [Ha1 Ha2].
  split.
  - rewrite Hlen. apply Hwf.
  - done.
  - rewrite Hc, (wf_count st Hwf). destruct b, (present st v) eqn:Hold; cbn [Z.b2z].
    + rewrite Z.sub_diag, Z.add_0_r. apply ids_of_ext. intros v' Hin.
      destruct (decide (v' = v)) as [->|]; [by rewrite Hv', Hold|].
      by rewrite Hsame.
    + by rewrite (ids_of_add st st' v) by done.
    + rewrite (ids_of_add st' st v) by (done || (intros; symmetry; by apply Hsame)). lia.
    + rewrite Z.sub_diag, Z.add_0_r. apply ids_of_ext. intros v' Hin.
      destruct (decide (v' = v)) as [->|]; [by rewrite Hv', Hold|].
      by rewrite Hsame.
  - rewrite Ha. split; [done|]. destruct (decide (active st = v)) as [E|Hne].
    + rewrite E, Hv'. destruct Hact; [done|done].
    + by rewrite Hsame.
  - rewrite Hn. apply Hwf.
  - rewrite Hb by (unfold in_width; lia). rewrite (proj2 (Z.eqb_neq 0 v)) by done. apply Hwf.
Qed.

Lemma ids_of_bound st : zlen (ids_of st) <= 2 ^ 16.
Proof.
  unfold zlen, ids_of. pose proof (length_filter (fun v => present st v = true) (seqZ 0 (2 ^ 16))) as Hle.
  rewrite length_seqZ in Hle. lia.
Qed.

Lemma insert_present st v :
  in_u16 v -> bit st v = true -> insert v st = (Ok false, st).
Proof. intros Hv Hb. unfold insert. rewrite location_eq, mask_test, Hb. done. Qed.

Lemma insert_absent st v :
  wf st -> in_u16 v -> v <> 0 -> bit st v = false ->
  exists st', insert v st = (Ok true, st') /\ wf st' /\ updated st st' v true.
Proof.
  intros Hwf Hv Hv0 Hb. unfold insert. rewrite location_eq, mask_test, Hb. cbn [negb].
  pose proof (ids_of_bound st). pose proof (wf_count st Hwf).
  destruct (word_lookup st v (wf_words st Hwf) Hv) as (w & Hw & Hat).
  rewrite checked_add_fits by lia. rewrite Hw. cbn [ok_or].
  pose proof (Z.mod_pos_bound v 64).
  assert (Hrange : in_u64 w) by (eapply Forall_lookup_1; [apply wf_range, Hwf|exact Hw]).
  eexists. split; [done|].
  assert (Hup : updated st (mk (<[Z.to_nat (v / 64) := Z.lor w (2 ^ (v mod 64))]> (views st))
    (view_count st + 1) (active st) (next st)) v true).
  { apply set_bit; [done|done| |].
    - unfold in_width in *. split; [apply Z.lor_nonneg; lia|]. apply lor_lt_pow2; [lia..|].
      split; [apply Z.pow_nonneg; lia|apply Z.pow_lt_mono_r; lia].
    - intros i Hi. rewrite Hat, Z.lor_spec, Z.pow2_bits_eqb, Z.eqb_sym by lia.
      destruct (Z.eqb_spec i (v mod 64)); [apply orb_true_r|apply orb_false_r]. }
  split; [|exact Hup]. eapply (wf_updated st _ v true); try done; [auto|].
  cbn. unfold present. rewrite Hb. rewrite (proj2 (Z.eqb_neq v 0)) by done. cbn. lia.
Qed.

Lemma remove_absent st v : bit st v = false -> remove v st = (Ok false, st).
Proof. intros Hb. unfold remove. rewrite location_eq, mask_test, Hb. done. Qed.

Lemma remove_present st v :
  wf st -> in_u16 v -> v <> 0 -> v <> active st -> bit st v = true ->
  exists st', remove v st = (Ok true, st') /\ wf st' /\ updated st st' v false.
Proof.
  intros Hwf Hv Hv0 Hact Hb. unfold remove. rewrite location_eq, mask_test, Hb. cbn [negb].
  pose proof (wf_count st Hwf) as Hc.
  assert (Hin : v ∈ ids_of st).
  { apply ids_of_spec. split; [done|]. unfold present. by rewrite Hb, orb_true_r. }
  assert (1 <= view_count st).
  { rewrite Hc. unfold zlen. apply list_elem_of_split in Hin as (l1 & l2 & ->).
    rewrite length_app. cbn. lia. }
  destruct (word_lookup st v (wf_words st Hwf) Hv) as (w & Hw & Hat).
  rewrite checked_sub_fits by lia. rewrite Hw. cbn [ok_or].
  pose proof (Z.mod_pos_bound v 64).
  assert (Hrange : in_u64 w) by (eapply Forall_lookup_1; [apply wf_range, Hwf|exact Hw]).
  eexists. split; [done|].
  assert (Hup : updated st (mk (<[Z.to_nat (v / 64) := Z.land w (wnot 64 (2 ^ (v mod 64)))]> (views st))
    (view_count st - 1) (active st) (next st)) v false).
  { rewrite land_wnot by (done || lia). apply set_bit; [done|done| |].
    - apply ldiff_lt_pow2; [lia|done].
    - intros i Hi. rewrite Hat, Z.ldiff_spec, Z.pow2_bits_eqb, Z.eqb_sym by lia.
      destruct (Z.eqb_spec i (v mod 64)); [apply andb_false_r|apply andb_true_r]. }
  split; [|exact Hup]. eapply (wf_updated st _ v false); try done; [auto|].
  cbn. unfold present. rewrite Hb. rewrite orb_true_r. cbn. lia.
Qed.

Lemma collect_views_eq st ids acc :
  MemoryViewManager.collect_views st ids acc = Ok (acc ++ filter (fun v => present st v = true) ids).
Proof.
  revert acc. induction ids as [|v ids IH]; intros acc; cbn [MemoryViewManager.collect_views].
  - by rewrite app_nil_r.
  - rewrite contains_eq. cbn [mbind result_bind]. rewrite IH, filter_cons.
    destruct (present st v); cbn; [by rewrite <- app_assoc|done].
Qed.

Lemma collect_views_all st :
  MemoryViewManager.collect_views st (seqZ 0 (2 ^ 16)) [] = Ok (ids_of st).
Proof. unfold ids_of. by rewrite collect_views_eq, app_nil_l. Qed.

Lemma seqZ_sorted n : forall m, StronglySorted Z.lt (seqZ m (Z.of_nat n)).
Proof.
  induction n as [|n IH]; intros m; [constructor|].
  rewrite seqZ_cons by lia. replace (Z.pred (Z.of_nat (Datatypes.S n))) with (Z.of_nat n) by lia.
  constructor; [apply IH|]. apply Forall_forall. intros x Hx%elem_of_seqZ. lia.
Qed.

Lemma seqZ_increasing m n : 0 <= n -> StronglySorted Z.lt (seqZ m n).
Proof. intros Hn. rewrite <- (Z2Nat.id n) by done. apply seqZ_sorted. Qed.

Lemma filter_sorted (P : Z -> Prop) `{forall x, Decision (P x)} l :
  StronglySorted Z.lt l -> StronglySorted Z.lt (filter P l).
Proof.
  induction 1 as [|x l Hs IH Hall]; [constructor|]. rewrite filter_cons. case_decide; [|done].
  constructor; [done|]. apply Forall_forall. intros y [_ Hy]%list_elem_of_filter.
  rewrite Forall_forall in Hall. by apply Hall.
Qed.
Lemma ids_of_sorted st : StronglySorted Z.lt (ids_of st).
Proof. unfold ids_of. apply filter_sorted, seqZ_increasing. lia. Qed.

Opaque ids_of.

(** The bitmap alone decides what is present. *)
Lemma present_views st st' v : views st' = views st -> present st' v = present st v.
Proof. intros E. unfold present, bit, word_at. by rewrite E. Qed.

Lemma wf_moved st st' :
  wf st -> views st' = views st -> view_count st' = view_count st ->
  in_u16 (active st') -> present st (active st') = true -> in_u16 (next st') -> wf st'.
Proof.
  intros Hwf Hv Hc Ha Hpa Hn. split.
  - rewrite Hv. apply Hwf.
  - rewrite Hv. apply Hwf.
  - rewrite Hc, (wf_count st Hwf). symmetry. apply ids_of_ext. intros. by apply present_views.
  - split; [done|]. by rewrite (present_views st).
  - done.
  - unfold bit, word_at. rewrite Hv. apply Hwf.
Qed.

Section create.
Context (st0 : t) (Hwf : wf st0).
Abbreviation start := (next st0).

Definition nth_id (j : Z) : Z := (start + j) mod 2 ^ 16.

(** After [k] candidates: nothing changed but [next], all were taken. *)
Definition create_inv (st : t) : Prop :=
  views st = views st0 /\ view_count st = view_count st0 /\ active st = active st0 /\
  exists k, 0 <= k < 2 ^ 16 /\ next st = nth_id k /\
    forall j, 0 <= j < k -> present st0 (nth_id j) = true.

Definition create_post (r : Result Z * t) : Prop :=
  wf r.2 /\ active r.2 = active st0 /\
  match r.1 with
  | Ok v => in_u16 v /\ v <> 0 /\ present st0 v = false /\
      forall v', in_u16 v' -> present r.2 v' = if v' =? v then true else present st0 v'
  | Err e => e = Backend "memory view identifiers exhausted" /\ views r.2 = views st0 /\
      forall v, in_u16 v -> present st0 v = true
  end.

Lemma nth_id_u16 j : in_u16 (nth_id j).
Proof. unfold nth_id, in_width. apply Z.mod_pos_bound. lia. Qed.

Lemma nth_id_onto v : in_u16 v -> exists j, 0 <= j < 2 ^ 16 /\ nth_id j = v.
Proof.
  intros Hv. unfold in_width in Hv. exists ((v - start) mod 2 ^ 16).
  split; [apply Z.mod_pos_bound; lia|]. unfold nth_id.
  rewrite Z.add_mod_idemp_r by lia. replace (start + (v - start)) with v by lia.
  by apply Z.mod_small.
Qed.

Lemma nth_id_succ k : wrapping_add 16 (nth_id k) 1 = nth_id (k + 1).
Proof.
  unfold wrapping_add, nth_id. rewrite Z.add_mod_idemp_l by lia. f_equal. lia.
Qed.

Lemma nth_id_start k : 0 <= k < 2 ^ 16 -> nth_id (k + 1) = start -> k = 2 ^ 16 - 1.
Proof.
  intros Hk. pose proof (wf_next st0 Hwf) as Hs. unfold nth_id, in_width in *. intros E.
  pose proof (Z.div_mod (start + (k + 1)) (2 ^ 16)).
  assert (1 <= (start + (k + 1)) / 2 ^ 16 < 2 \/ (start + (k + 1)) / 2 ^ 16 < 1
    \/ 2 <= (start + (k + 1)) / 2 ^ 16) as [?|[?|?]] by lia; lia.
Qed.

Lemma create_moved st : create_inv st ->
  wf (mk (views st) (view_count st) (active st) (wrapping_add 16 (next st) 1)).
Proof.
  intros (Hv & Hc & Ha & k & Hk & Hn & _). destruct (wf_active st0 Hwf).
  apply (wf_moved st0); cbn; rewrite ?Ha; try done.
  rewrite Hn, nth_id_succ. apply nth_id_u16.
Qed.

(** A taken candidate: on to the next one, or all are taken. *)
Lemma create_taken st : create_inv st -> present st0 (next st) = true ->
  let st1 := mk (views st) (view_count st) (active st) (wrapping_add 16 (next st) 1) in
  match (if next st1 =? start
         then inr (Err (Backend "memory view identifiers exhausted"), st1)
         else inl st1 : t + (Result Z * t)) with
  | inl st' => create_inv st' /\
      2 ^ 16 - 1 - (next st' - start) mod 2 ^ 16 < 2 ^ 16 - 1 - (next st - start) mod 2 ^ 16
  | inr r => create_post r
  end.
Proof.
  intros Hinv Htaken. pose proof (create_moved st Hinv) as Hwf1.
  destruct Hinv as (Hv & Hc & Ha & k & Hk & Hn & Hall).
  rewrite Hn in Htaken. rewrite Hn, nth_id_succ in Hwf1.
  cbn zeta. cbn [next]. rewrite Hn, nth_id_succ.
  assert (Hall' : forall j, 0 <= j < k + 1 -> present st0 (nth_id j) = true).
  { intros j Hj. destruct (decide (j = k)) as [->|]; [done|]. apply Hall. lia. }
  destruct (Z.eqb_spec (nth_id (k + 1)) start) as [E|Hne].
  - apply nth_id_start in E; [|done]. split; [exact Hwf1|]. split; [done|]. cbn.
    split; [done|]. split; [done|]. intros v Hin. destruct (nth_id_onto v Hin) as (j & Hj & <-).
    apply Hall'. lia.
  - assert (k + 1 < 2 ^ 16).
    { destruct (decide (k + 1 = 2 ^ 16)) as [E|]; [|lia]. exfalso. apply Hne. unfold nth_id.
      rewrite E, <- (Z.mul_1_l (2 ^ 16)), Z.mod_add by lia.
      apply Z.mod_small. exact (wf_next st0 Hwf). }
    split.
    + split; [done|]. split; [done|]. split; [done|]. exists (k + 1). cbn. split; [lia|done].
    + cbn. unfold nth_id. rewrite !Zminus_mod_idemp_l.
      replace (start + k - start) with k by lia. replace (start + (k + 1) - start) with (k + 1) by lia.
      rewrite !Z.mod_small by lia. lia.
Qed.

Lemma create_step_inv st : create_inv st ->
  match MemoryViewManager.create_step start st with
  | inl st' => create_inv st' /\
      2 ^ 16 - 1 - (next st' - start) mod 2 ^ 16 < 2 ^ 16 - 1 - (next st - start) mod 2 ^ 16
  | inr r => create_post r
  end.
Proof.
  intros Hinv. pose proof (create_taken st Hinv) as Htaken.
  pose proof (create_moved st Hinv) as Hwf1.
  destruct Hinv as (Hv & Hc & Ha & k & Hk & Hn & Hall).
  unfold MemoryViewManager.create_step. destruct (Z.eqb_spec (next st) 0) as [E|Hne]; cbn [negb].
  - apply Htaken. unfold present. by rewrite E.
  - set (st1 := mk _ _ _ _) in *.
    assert (Hin : in_u16 (next st)) by (rewrite Hn; apply nth_id_u16).
    assert (Hp : forall v, present st1 v = present st0 v) by (intros; by apply present_views).
    destruct (bit st1 (next st)) eqn:Hb.
    + rewrite insert_present by done. apply Htaken.
      rewrite <- Hp. unfold present. by rewrite Hb, orb_true_r.
    + destruct (insert_absent st1 (next st) Hwf1 Hin Hne Hb) as (st2 & -> & Hwf2 & Hup).
      split; [done|]. cbn. pose proof Hup as (_ & _ & Ha2 & _). split; [by rewrite Ha2|].
      split; [done|]. split; [done|]. split.
      * rewrite <- Hp. unfold present. by rewrite Hb, (proj2 (Z.eqb_neq (next st) 0)).
      * intros v' Hv'. rewrite <- Hp. by apply present_updated.
Qed.

Lemma create_total :
  create_post (run_loop (Z.to_pos (2 ^ 16)) (MemoryViewManager.create_step start)
    (fun st' => (Err (Backend "model fuel exhausted"), st')) st0).
Proof.
  apply (run_loop_total create_inv create_post
    (fun st => 2 ^ 16 - 1 - (next st - start) mod 2 ^ 16)).
  - split; [done|]. split; [done|]. split; [done|]. exists 0. split; [lia|].
    split; [|lia]. unfold nth_id. rewrite Z.add_0_r, Z.mod_small; [done|].
    exact (wf_next st0 Hwf).
  - rewrite Z.sub_diag. change (0 mod 2 ^ 16) with 0. lia.
  - intros st _. pose proof (Z.mod_pos_bound (next st - start) (2 ^ 16)). lia.
  - apply create_step_inv.
Qed.
End create.

(** The set a manager stands for. *)
Definition abs (st : t) : ViewSpec.t := ViewSpec.mk (list_to_set (ids_of st)) (active st).

Lemma abs_in st v : v ∈ ViewSpec.ids (abs st) <-> in_u16 v /\ present st v = true.
Proof. cbn. by rewrite elem_of_list_to_set, ids_of_spec. Qed.

Definition managed (mgr : MemoryViewManager.t) : Prop :=
  poisoned mgr = false /\ wf (guarded mgr).

Lemma spec_eq (a b : ViewSpec.t) :
  (forall v, v ∈ ViewSpec.ids a <-> v ∈ ViewSpec.ids b) ->
  ViewSpec.active a = ViewSpec.active b -> a = b.
Proof.
  destruct a as [ia aa], b as [ib ab]. cbn. intros Hi ->. f_equal. by apply set_eq.
Qed.

Lemma locked_eq {A} (op : stateful t VmiError.t A) mgr :
  poisoned mgr = false ->
  MemoryViewManager.locked op mgr = (fst (op (guarded mgr)), store mgr (snd (op (guarded mgr)))).
Proof.
  intros Hp. unfold MemoryViewManager.locked, lock. rewrite Hp. cbn. by destruct (op _).
Qed.

Lemma create_refines mgr : managed mgr ->
  let '(r, mgr') := MemoryViewManager.create mgr in
  managed mgr' /\ ViewSpec.respond (abs (guarded mgr)) ViewSpec.Create r (abs (guarded mgr')).
Proof.
  intros [Hp Hwf]. unfold MemoryViewManager.create. rewrite locked_eq by done. cbv beta.
  pose proof (create_total (guarded mgr) Hwf) as (Hwf' & Ha & Hr).
  destruct (run_loop _ _ _ _) as [[v|e] st']; cbn [fst snd guarded store] in *.
  - destruct Hr as (Hv & Hv0 & Hfree & Hnew). split; [done|].
    replace (abs st') with (ViewSpec.mk ({[v]} ∪ ViewSpec.ids (abs (guarded mgr)))
      (ViewSpec.active (abs (guarded mgr)))).
    + constructor; [unfold in_width in Hv; lia|]. rewrite abs_in, Hfree. by intros [].
    + apply spec_eq; [|by cbn]. intros v'. rewrite abs_in. cbn [ViewSpec.ids].
      rewrite elem_of_union, elem_of_singleton, abs_in. destruct (decide (v' = v)) as [->|Hne].
      * rewrite Hnew, Z.eqb_refl by done. tauto.
      * split; [intros [?|[Hin ?]]; [done|]|intros [Hin Hpr]; right];
          (split; [done|]); specialize (Hnew v' Hin);
          rewrite (proj2 (Z.eqb_neq v' v)) in Hnew by done; congruence.
  - destruct Hr as (-> & Hv & Hall). split; [done|].
    replace (abs st') with (abs (guarded mgr)).
    + constructor. intros v Hv'. rewrite abs_in. split; [done|]. by apply Hall.
    + apply spec_eq; [|by cbn]. intros v. rewrite !abs_in.
      by rewrite (present_views (guarded mgr) st' v Hv).
Qed.

Lemma destroy_refines mgr v : managed mgr -> in_u16 v ->
  let '(r, mgr') := ViewSpec.run (ViewSpec.Destroy v) mgr in
  managed mgr' /\ ViewSpec.respond (abs (guarded mgr)) (ViewSpec.Destroy v) r (abs (guarded mgr')).
Proof.
  intros [Hp Hwf] Hv. cbn [ViewSpec.run]. unfold MemoryViewManager.destroy.
  rewrite locked_eq by done. cbv beta.
  destruct (Z.eqb_spec v 0) as [->|Hv0]; cbn; [split; [done|constructor]|].
  destruct (Z.eqb_spec v (active (guarded mgr))) as [Ea|Hna]; cbn.
  { split; [done|]. by constructor. }
  destruct (bit (guarded mgr) v) eqn:Hb.
  - destruct (remove_present (guarded mgr) v Hwf Hv Hv0 Hna Hb) as (st' & -> & Hwf' & Hup).
    cbn. split; [done|]. pose proof Hup as (_ & _ & Ha & _).
    replace (abs st') with (ViewSpec.mk (ViewSpec.ids (abs (guarded mgr)) ∖ {[v]})
      (ViewSpec.active (abs (guarded mgr)))).
    + constructor; [done|done|]. apply abs_in. split; [done|]. unfold present. by rewrite Hb, orb_true_r.
    + apply spec_eq; [|by cbn]. intros v'. rewrite abs_in. cbn [ViewSpec.ids].
      rewrite elem_of_difference, elem_of_singleton, abs_in.
      pose proof (present_updated (guarded mgr) st' v false v' Hup) as Hpu.
      destruct (decide (v' = v)) as [E|Hne]; [rewrite E, Z.eqb_refl in *|rewrite (proj2 (Z.eqb_neq v' v) Hne) in Hpu].
      * split; [tauto|]. intros [Hin Ht]. rewrite Hpu in Ht by done. done.
      * split; [intros [[Hin ?] _]|intros [Hin Ht]]; rewrite Hpu in * by done; tauto.
  - rewrite remove_absent by done. cbn. split; [done|]. constructor; [done..|].
    rewrite abs_in. intros [_ Ht]. unfold present in Ht. rewrite Hb, orb_false_r in Ht. lia.
Qed.

Lemma switch_refines mgr v : managed mgr -> in_u16 v ->
  let '(r, mgr') := ViewSpec.run (ViewSpec.Switch v) mgr in
  managed mgr' /\ ViewSpec.respond (abs (guarded mgr)) (ViewSpec.Switch v) r (abs (guarded mgr')).
Proof.
  intros [Hp Hwf] Hv. cbn [ViewSpec.run]. unfold MemoryViewManager.switch_view.
  rewrite locked_eq by done. cbv beta. rewrite contains_eq.
  destruct (present (guarded mgr) v) eqn:Hpr; cbn.
  - split.
    + split; [done|]. cbn. apply (wf_moved (guarded mgr)); try done. apply Hwf.
    + set (st' := mk _ _ v _). cbn in st'.
      replace (abs st') with (ViewSpec.mk (ViewSpec.ids (abs (guarded mgr))) v).
      * apply (ViewSpec.switch_present (abs (guarded mgr)) v). by apply abs_in.
      * apply spec_eq; [|unfold abs, st'; cbn [ViewSpec.active active]; reflexivity]. intros v'. cbn [ViewSpec.ids].
        rewrite (abs_in (guarded mgr)), (abs_in st').
        rewrite (present_views (guarded mgr) st' v' eq_refl). tauto.
  - split; [done|]. apply ViewSpec.switch_absent. rewrite abs_in, Hpr. by intros [].
Qed.

Lemma run_refines o mgr : ViewSpec.in_range o -> managed mgr ->
  let '(r, mgr') := ViewSpec.run o mgr in
  managed mgr' /\ ViewSpec.respond (abs (guarded mgr)) o r (abs (guarded mgr')).
Proof.
  destruct o; intros Ho Hm.
  - by apply create_refines.
  - by apply destroy_refines.
  - by apply switch_refines.
Qed.

Lemma responses_refine ops mgr : Forall ViewSpec.in_range ops -> managed mgr ->
  let '(rs, mgr') := ViewSpec.responses ops mgr in
  managed mgr' /\ ViewSpec.spec_run (abs (guarded mgr)) ops rs (abs (guarded mgr')).
Proof.
  intros Hops. revert mgr. induction Hops as [|o ops Ho Hops IH]; intros mgr Hm; cbn.
  - split; [done|constructor].
  - pose proof (run_refines o mgr Ho Hm) as Hrun. destruct (ViewSpec.run o mgr) as [r mgr1].
    destruct Hrun as [Hm1 Hr]. specialize (IH mgr1 Hm1).
    destruct (ViewSpec.responses ops mgr1) as [rs mgr2]. destruct IH as [Hm2 Hrs].
    split; [done|]. by econstructor.
Qed.

End view_lemmas.

Lemma ids_of_new : ids_of (guarded MemoryViewManager.new) = [0].
Proof.
  assert (Hp : ids_of (guarded MemoryViewManager.new) ≡ₚ [0]).
  { apply NoDup_Permutation; [apply ids_of_NoDup|apply NoDup_singleton|].
    intros v. rewrite ids_of_spec, list_elem_of_singleton. unfold present, bit.
    assert (Hw : forall w, State.word_at (guarded MemoryViewManager.new) w = 0).
    { intros w. unfold State.word_at, MemoryViewManager.new.
      cbn [guarded mutex_new State.views]. destruct (replicate _ _ !! _) as [x|] eqn:E; [|done].
      by apply lookup_replicate in E as [-> _]. }
    rewrite Hw, Z.bits_0, orb_false_r, Z.eqb_eq. split; [tauto|]. intros ->. split; [width_const|done]. }
  by apply Permutation_singleton_r in Hp.
Qed.

Lemma managed_new : managed MemoryViewManager.new.
Proof.
  split; [reflexivity|]. split.
  - vm_compute. reflexivity.
  - unfold MemoryViewManager.new. cbn [guarded mutex_new State.views].
    apply Forall_replicate. width_const.
  - rewrite ids_of_new. reflexivity.
  - split; [width_const|reflexivity].
  - width_const.
  - vm_compute. reflexivity.
Qed.

Lemma abs_new : abs (guarded MemoryViewManager.new) = ViewSpec.mk {[0]} 0.
Proof. unfold abs. rewrite ids_of_new. reflexivity. Qed.

(** * Properties *)

(** C12: the view manager implements a set of view identifiers.  Every
    sequence of creations, destructions and switches gets responses the
    specification allows: a creation returns a fresh non-zero identifier,
    and is refused only when all 2^16 are in use; destruction refuses the
    default, the active and an unknown view and otherwise removes exactly
    that one; a switch activates known views only; every refusal changes
    nothing.  The allocation loop always ends within one round. *)
Theorem views_refine_set (ops : list ViewSpec.op) (Hops : Forall ViewSpec.in_range ops) :
  let '(rs, mgr) := ViewSpec.responses ops MemoryViewManager.new in
  ViewSpec.spec_run (ViewSpec.mk {[0]} 0) ops rs (abs (guarded mgr)).
Proof.
  pose proof (responses_refine ops MemoryViewManager.new Hops managed_new) as Hr.
  rewrite abs_new in Hr. destruct (ViewSpec.responses ops _) as [rs mgr]. apply Hr.
Qed.

Lemma views_refine_set_witness :
  ViewSpec.spec_run (ViewSpec.mk {[0]} 0)
    [ViewSpec.Create; ViewSpec.Switch 1; ViewSpec.Destroy 1; ViewSpec.Destroy 0]
    [Ok 1; Ok 1; Err (Backend "active memory view 1 cannot be destroyed");
     Err (Backend "default memory view cannot be destroyed")]
    (abs (guarded (snd (ViewSpec.responses
      [ViewSpec.Create; ViewSpec.Switch 1; ViewSpec.Destroy 1; ViewSpec.Destroy 0]
      MemoryViewManager.new)))).
Proof.
  pose proof (views_refine_set
    [ViewSpec.Create; ViewSpec.Switch 1; ViewSpec.Destroy 1; ViewSpec.Destroy 0]
    ltac:(repeat constructor; vm_compute; discriminate)) as Hrun.
  assert (Hrs : fst (ViewSpec.responses
      [ViewSpec.Create; ViewSpec.Switch 1; ViewSpec.Destroy 1; ViewSpec.Destroy 0]
      MemoryViewManager.new) =
    [Ok 1; Ok 1; Err (Backend "active memory view 1 cannot be destroyed");
     Err (Backend "default memory view cannot be destroyed")]) by (vm_compute; reflexivity).
  destruct (ViewSpec.responses _ _) as [rs mgr]. cbn [fst snd] in *. subst rs. exact Hrun.
Defined.

(** Listing the views of a manager, after any sequence of operations,
    gives the identifiers of its set in strictly increasing order, the
    default view and the active view among them; the count the manager keeps
    is the length of the list, so the reserved list is exactly filled. *)
Theorem views_listed_in_order `{Allocator} (ops : list ViewSpec.op)
    (Hops : Forall ViewSpec.in_range ops) :
  let mgr := snd (ViewSpec.responses ops MemoryViewManager.new) in
  let count := State.view_count (guarded mgr) in
  if alloc_ok "memory view list" count then
    exists l, MemoryViewManager.views mgr = Ok l /\ zlen l = count /\
      StronglySorted Z.lt l /\
      (forall v, v ∈ l <-> v ∈ ViewSpec.ids (abs (guarded mgr))) /\
      0 ∈ l /\ exists a, MemoryViewManager.active_view mgr = Ok a /\ a ∈ l
  else exists e, MemoryViewManager.views mgr = Err e.
Proof.
  pose proof (responses_refine ops MemoryViewManager.new Hops managed_new) as Hr.
  destruct (ViewSpec.responses ops _) as [rs mgr]. destruct Hr as [[Hp Hwf] _]. cbn [snd]. cbv zeta.
  unfold MemoryViewManager.views, MemoryViewManager.active_view, lock, try_reserve. rewrite Hp.
  cbn [map_err mbind result_bind]. destruct (alloc_ok _ _); cbn [map_err mbind result_bind]; [|by eexists].
  rewrite collect_views_all.
  exists (ids_of (guarded mgr)). split; [done|]. split; [symmetry; apply wf_count, Hwf|].
  split; [apply ids_of_sorted|].
  split; [intros v; by rewrite abs_in, ids_of_spec|]. split.
  - apply ids_of_spec. split; [width_const|done].
  - exists (State.active (guarded mgr)). split; [done|]. apply ids_of_spec, Hwf.
Qed.

Lemma views_listed_in_order_witness :
  exists l, @MemoryViewManager.views ample_allocator
    (snd (ViewSpec.responses [ViewSpec.Create; ViewSpec.Create; ViewSpec.Destroy 1]
      MemoryViewManager.new)) = Ok l /\ zlen l = 2 /\ StronglySorted Z.lt l.
Proof.
  pose proof (@views_listed_in_order ample_allocator
    [ViewSpec.Create; ViewSpec.Create; ViewSpec.Destroy 1]
    ltac:(repeat constructor; vm_compute; discriminate)) as Hlist.
  cbv zeta in Hlist.
  assert (Hc : State.view_count (guarded (snd (ViewSpec.responses
    [ViewSpec.Create; ViewSpec.Create; ViewSpec.Destroy 1] MemoryViewManager.new))) = 2)
    by (vm_compute; reflexivity).
  rewrite Hc in Hlist. destruct Hlist as (l & Hl & Hlen & Hs & _). exists l. auto.
Defined.
