(* ===== verification/Text.v ===== *)
(** * Text of the standard library

    UTF-8 validation as [core::str::from_utf8] reports it, lossy decoding,
    and the parsing of integers, as the decoders and introspectors use them. *)

From S2P Require Import Prelude.

(** ** UTF-8 *)

Module Utf8.
(** The range a second byte must lie in, and the number of bytes, by the
    first byte of a sequence; [None] for a byte that starts none. *)
Definition lead (b : Z) : option (nat * Z * Z) :=
  if b <? 0x80 then Some (1%nat, 0, 0)
  else if b <? 0xc2 then None
  else if b <? 0xe0 then Some (2%nat, 0x80, 0xbf)
  else if b =? 0xe0 then Some (3%nat, 0xa0, 0xbf)
  else if b =? 0xed then Some (3%nat, 0x80, 0x9f)
  else if b <? 0xf0 then Some (3%nat, 0x80, 0xbf)
  else if b =? 0xf0 then Some (4%nat, 0x90, 0xbf)
  else if b <? 0xf4 then Some (4%nat, 0x80, 0xbf)
  else if b =? 0xf4 then Some (4%nat, 0x80, 0x8f)
  else None.

(** What one sequence at the front of the bytes is: [n] valid bytes, an
    invalid sequence of [n] bytes, or an incomplete one. *)
Inductive front : Type := Valid (n : nat) | Invalid (n : nat) | Incomplete.

Fixpoint continuation (count : nat) (lo hi : Z) (got : nat) (bs : list byte) : front :=
  match count with
  | O => Valid got
  | S count' =>
      match bs with
      | [] => Incomplete
      | b :: rest =>
          if (lo <=? byte_val b) && (byte_val b <=? hi)
          then continuation count' 0x80 0xbf (S got) rest
          else Invalid got
      end
  end.

Definition sequence (b : byte) (rest : list byte) : front :=
  match lead (byte_val b) with
  | None => Invalid 1
  | Some (n, lo, hi) => continuation (n - 1) lo hi 1 rest
  end.

(** [Utf8Error]: the length of the valid prefix and of the invalid sequence
    after it, none if the input ends within a sequence. *)
Record Error : Type := MkError { valid_up_to : Z; error_len : option Z }.

Fixpoint from_utf8_go (fuel : nat) (bs : list byte) (offset : Z) : result Error unit :=
  match fuel, bs with
  | S fuel', b :: rest =>
      match sequence b rest with
      | Valid n => from_utf8_go fuel' (drop n bs) (offset + Z.of_nat n)
      | Invalid n => Err (MkError offset (Some (Z.of_nat n)))
      | Incomplete => Err (MkError offset None)
      end
  | _, _ => Ok tt
  end.

(** [core::str::from_utf8]: every sequence has at least one byte, so the
    length of the input bounds the number of sequences. *)
Definition from_utf8 (bs : list byte) : result Error unit :=
  from_utf8_go (length bs) bs 0.

(** [Display] of the error. *)
Definition display (e : Error) : string :=
  match error_len e with
  | Some n => "invalid utf-8 sequence of " +:+ dec n +:+ " bytes from index "
                +:+ dec (valid_up_to e)
  | None => "incomplete utf-8 byte sequence from index " +:+ dec (valid_up_to e)
  end.

(** U+FFFD. *)
Definition replacement : list byte := [xef; xbf; xbd].
End Utf8.

(** ** Integers *)

Module ParseInt.
Inductive kind : Type := Empty | InvalidDigit | PosOverflow.

Definition display (k : kind) : string :=
  match k with
  | Empty => "cannot parse integer from empty string"
  | InvalidDigit => "invalid digit found in string"
  | PosOverflow => "number too large to fit in target type"
  end.

Definition digit (radix : Z) (b : byte) : option Z :=
  let v := byte_val b in
  let d :=
    if (48 <=? v) && (v <=? 57) then Some (v - 48)
    else if (97 <=? v) && (v <=? 122) then Some (v - 87)
    else if (65 <=? v) && (v <=? 90) then Some (v - 55)
    else None in
  match d with
  | Some d => if d <? radix then Some d else None
  | None => None
  end.

Fixpoint digits (w radix : Z) (bs : list byte) (acc : Z) : result kind Z :=
  match bs with
  | [] => Ok acc
  | b :: rest =>
      match digit radix b with
      | None => Err InvalidDigit
      | Some d =>
          match checked_mul w acc radix with
          | None => Err PosOverflow
          | Some m =>
              match checked_add w m d with
              | None => Err PosOverflow
              | Some acc' => digits w radix rest acc'
              end
          end
      end
  end.

(** [u64::from_str_radix] and the like: one leading [+] is allowed, but not
    alone. *)
Definition from_str_radix (w radix : Z) (text : string) : result kind Z :=
  match bytes_of_string text with
  | [] => Err Empty
  | b :: rest =>
      if bool_decide (b = x2b) then
        match rest with [] => Err InvalidDigit | _ => digits w radix rest 0 end
      else if bool_decide (b = x2d) && bool_decide (rest = []) then Err InvalidDigit
      else digits w radix (b :: rest) 0
  end.
End ParseInt.

(** [str::strip_prefix]. *)
Definition strip_prefix (pre text : string) : option string :=
  let t := bytes_of_string text in
  let p := bytes_of_string pre in
  if starts_with t p then Some (string_of_bytes (drop (length p) t)) else None.

(** ** Characters and lines *)

(** The characters of valid UTF-8, each by its bytes. *)
Fixpoint chars_go (fuel : nat) (bs : list byte) : list (list byte) :=
  match fuel, bs with
  | S fuel', b :: rest =>
      let n := match Utf8.sequence b rest with Utf8.Valid n => n | _ => 1%nat end in
      take n bs :: chars_go fuel' (drop n bs)
  | _, _ => []
  end.

Definition chars (text : string) : list (list byte) :=
  let bs := bytes_of_string text in chars_go (length bs) bs.

Definition of_chars (cs : list (list byte)) : string := string_of_bytes (concat cs).

(** [char::is_whitespace], the Unicode property White_Space. *)
Definition is_whitespace (c : list byte) : bool :=
  match byte_val <$> c with
  | [b] => ((0x09 <=? b) && (b <=? 0x0d)) || (b =? 0x20)
  | [b1; b2] => (b1 =? 0xc2) && ((b2 =? 0x85) || (b2 =? 0xa0))
  | [b1; b2; b3] =>
      ((b1 =? 0xe1) && (b2 =? 0x9a) && (b3 =? 0x80)) ||
      ((b1 =? 0xe2) && (b2 =? 0x80) &&
        (((0x80 <=? b3) && (b3 <=? 0x8a)) || (b3 =? 0xa8) || (b3 =? 0xa9) || (b3 =? 0xaf))) ||
      ((b1 =? 0xe2) && (b2 =? 0x81) && (b3 =? 0x9f)) ||
      ((b1 =? 0xe3) && (b2 =? 0x80) && (b3 =? 0x80))
  | _ => false
  end.

Fixpoint skip_whitespace (cs : list (list byte)) : list (list byte) :=
  match cs with
  | c :: rest => if is_whitespace c then skip_whitespace rest else cs
  | [] => []
  end.

(** [str::trim]. *)
Definition trim (text : string) : string :=
  of_chars (reverse (skip_whitespace (reverse (skip_whitespace (chars text))))).

Fixpoint split_whitespace_go (cs word : list (list byte)) : list (list (list byte)) :=
  let emit rest := if bool_decide (word = []) then rest else word :: rest in
  match cs with
  | [] => emit []
  | c :: rest =>
      if is_whitespace c then emit (split_whitespace_go rest [])
      else split_whitespace_go rest (word ++ [c])
  end.

(** [str::split_whitespace]. *)
Definition split_whitespace (text : string) : list string :=
  of_chars <$> split_whitespace_go (chars text) [].

(** [str::lines]: a line ends at a line feed, with the carriage return
    before it if there is one, or at the end of the text. *)
Definition strip_cr (line : list byte) : list byte :=
  if bool_decide (last line = Some x0d) then removelast line else line.

Fixpoint lines_go (bs line : list byte) : list (list byte) :=
  match bs with
  | [] => if bool_decide (line = []) then [] else [line]
  | b :: rest =>
      if bool_decide (b = x0a) then strip_cr line :: lines_go rest []
      else lines_go rest (line ++ [b])
  end.

Definition lines (text : string) : list string :=
  string_of_bytes <$> lines_go (bytes_of_string text) [].

Fixpoint trim_start_go (fuel : nat) (bs pre : list byte) : list byte :=
  match fuel with
  | O => bs
  | S fuel' => if starts_with bs pre then trim_start_go fuel' (drop (length pre) bs) pre else bs
  end.

(** [str::trim_start_matches] of a non-empty prefix. *)
Definition trim_start_matches (pre text : string) : string :=
  let bs := bytes_of_string text in
  string_of_bytes (trim_start_go (length bs) bs (bytes_of_string pre)).

Fixpoint contains_bytes (bs pat : list byte) : bool :=
  starts_with bs pat || match bs with [] => false | _ :: rest => contains_bytes rest pat end.

(** [str::contains]. *)
Definition contains (text pat : string) : bool :=
  contains_bytes (bytes_of_string text) (bytes_of_string pat).

(** ** ASCII and single characters *)

(** [u8::to_ascii_lowercase] and [to_ascii_uppercase]. *)
Definition lower_byte (b : byte) : byte :=
  let v := byte_val b in if (65 <=? v) && (v <=? 90) then byte_of (v + 32) else b.
Definition upper_byte (b : byte) : byte :=
  let v := byte_val b in if (97 <=? v) && (v <=? 122) then byte_of (v - 32) else b.

Definition to_ascii_lowercase (text : string) : string :=
  string_of_bytes (lower_byte <$> bytes_of_string text).

(** [str::eq_ignore_ascii_case]. *)
Definition eq_ignore_ascii_case (a b : string) : bool :=
  bool_decide (lower_byte <$> bytes_of_string a = lower_byte <$> bytes_of_string b).

(** [char::is_ascii_alphanumeric] of a character, by its bytes. *)
Definition is_ascii_alphanumeric (c : list byte) : bool :=
  match byte_val <$> c with
  | [b] => ((48 <=? b) && (b <=? 57)) || ((65 <=? b) && (b <=? 90)) || ((97 <=? b) && (b <=? 122))
  | _ => false
  end.

(** [char::is_control], the general category Cc. *)
Definition is_control (c : list byte) : bool :=
  match byte_val <$> c with
  | [b] => (b <? 0x20) || (b =? 0x7f)
  | [b1; b2] => (b1 =? 0xc2) && (0x80 <=? b2) && (b2 <=? 0x9f)
  | _ => false
  end.

(** [str::split_once] at an ASCII character. *)
Fixpoint split_once_go (c : byte) (bs front : list byte) : option (list byte * list byte) :=
  match bs with
  | [] => None
  | b :: rest => if bool_decide (b = c) then Some (front, rest) else split_once_go c rest (front ++ [b])
  end.

Definition split_once (c : byte) (text : string) : option (string * string) :=
  match split_once_go c (bytes_of_string text) [] with
  | Some (front, back) => Some (string_of_bytes front, string_of_bytes back)
  | None => None
  end.

Fixpoint drop_byte (c : byte) (bs : list byte) : list byte :=
  match bs with
  | b :: rest => if bool_decide (b = c) then drop_byte c rest else bs
  | [] => []
  end.

(** [str::trim_end_matches] and [trim_matches] of an ASCII character. *)
Definition trim_end_matches (c : byte) (text : string) : string :=
  string_of_bytes (reverse (drop_byte c (reverse (bytes_of_string text)))).
Definition trim_matches (c : byte) (text : string) : string :=
  string_of_bytes (reverse (drop_byte c (reverse (drop_byte c (bytes_of_string text))))).

(** [strip_hex_prefix] of the providers. *)
Definition strip_hex_prefix (value : string) : string :=
  match strip_prefix "0x" value with
  | Some rest => rest
  | None => from_option (fun rest => rest) value (strip_prefix "0X" value)
  end.

(** ** Padded hexadecimal *)

Definition hex_byte (d : Z) : byte := byte_of (if d <? 10 then 48 + d else 87 + d).

(** The last [n] hexadecimal digits of a number, as [{:016x}] prints 16. *)
Fixpoint hex_bytes (n : nat) (v : Z) : list byte :=
  match n with
  | O => []
  | S n' => hex_bytes n' (v / 16) ++ [hex_byte (v mod 16)]
  end.

(** [{:0n$x}] of a number of at most [n] digits. *)
Definition hex_padded (n : nat) (v : Z) : string := string_of_bytes (hex_bytes n v).

(** A [match] arm of several string literals. *)
Definition one_of (name : string) (names : list string) : bool := bool_decide (name ∈ names).

(** ** Code points *)

(** The UTF-8 encoding of a code point, [String::push]. *)
Definition encode_utf8 (c : Z) : list byte :=
  if c <? 0x80 then [byte_of c]
  else if c <? 0x800 then [byte_of (0xc0 + c / 2 ^ 6); byte_of (0x80 + c mod 2 ^ 6)]
  else if c <? 0x10000 then
    [byte_of (0xe0 + c / 2 ^ 12); byte_of (0x80 + c / 2 ^ 6 mod 2 ^ 6); byte_of (0x80 + c mod 2 ^ 6)]
  else
    [byte_of (0xf0 + c / 2 ^ 18); byte_of (0x80 + c / 2 ^ 12 mod 2 ^ 6);
     byte_of (0x80 + c / 2 ^ 6 mod 2 ^ 6); byte_of (0x80 + c mod 2 ^ 6)].

(** [char::decode_utf16]: the code points of a sequence of words, an unpaired
    surrogate as an error. *)
Fixpoint decode_utf16 (words : list Z) : list (result Z Z) :=
  match words with
  | [] => []
  | u :: rest =>
      if negb ((0xd800 <=? u) && (u <=? 0xdfff)) then Ok u :: decode_utf16 rest
      else if 0xdc00 <=? u then Err u :: decode_utf16 rest
      else
        match rest with
        | [] => [Err u]
        | u2 :: rest' =>
            if negb ((0xdc00 <=? u2) && (u2 <=? 0xdfff)) then Err u :: decode_utf16 rest
            else Ok (0x10000 + (u - 0xd800) * 2 ^ 10 + (u2 - 0xdc00)) :: decode_utf16 rest'
        end
  end.
