(* ===== verification/TextFacts.v ===== *)
(** * UTF-8 in segments

    Validation sequence by sequence, and lossy decoding: every maximal
    invalid part becomes one replacement character. *)

From S2P Require Import Prelude.
From S2P Require Import Text.

Import Utf8.

Lemma bytes_of_string_of_bytes bs : bytes_of_string (string_of_bytes bs) = bs.
Proof. apply String.list_byte_of_string_of_list_byte. Qed.

Lemma string_app_assoc a b c : (a +:+ b) +:+ c = a +:+ (b +:+ c).
Proof.
  induction a as [|x a IH]; [done|].
  change (String.String x ((a +:+ b) +:+ c) = String.String x (a +:+ (b +:+ c))). by rewrite IH.
Qed.

Lemma string_app_nil_r a : a +:+ "" = a.
Proof.
  induction a as [|c a IH]; [done|].
  change (String.String c (a +:+ "") = String.String c a). by rewrite IH.
Qed.

Lemma string_of_bytes_app a b : string_of_bytes (a ++ b) = string_of_bytes a +:+ string_of_bytes b.
Proof.
  induction a as [|x a IH]; [done|].
  change (String.String (Ascii.ascii_of_byte x) (string_of_bytes (a ++ b)) =
    String.String (Ascii.ascii_of_byte x) (string_of_bytes a +:+ string_of_bytes b)). by rewrite IH.
Qed.

Lemma string_of_bytes_of_string s : string_of_bytes (bytes_of_string s) = s.
Proof. apply String.string_of_list_byte_of_string. Qed.

Lemma length_bytes_of_string s : length (bytes_of_string s) = String.length s.
Proof.
  unfold bytes_of_string, String.list_byte_of_string. rewrite length_map.
  induction s; cbn; by f_equal.
Qed.

Lemma continuation_valid count lo hi got bs n :
  continuation count lo hi got bs = Valid n ->
  n = (got + count)%nat /\ (count <= length bs)%nat /\
  forall more, continuation count lo hi got (take count bs ++ more) = Valid n.
Proof.
  revert lo hi got bs. induction count as [|count IH]; intros lo hi got bs; cbn [continuation].
  - intros [= <-]. split; [lia|]. split; [lia|done].
  - destruct bs as [|b bs]; [done|]. destruct (_ && _) eqn:E; [|done].
    intros (-> & Hl & Hm)%IH. split; [lia|]. split; [cbn; lia|]. intros more. cbn. by rewrite E, Hm.
Qed.

Lemma continuation_invalid count lo hi got bs n :
  continuation count lo hi got bs = Invalid n -> (got <= n <= got + length bs)%nat.
Proof.
  revert lo hi got bs. induction count as [|count IH]; intros lo hi got bs; cbn [continuation]; [done|].
  destruct bs as [|b bs]; [done|]. destruct (_ && _); [|intros [= <-]; lia].
  intros ?%IH. cbn. lia.
Qed.

Lemma lead_count b n lo hi : lead b = Some (n, lo, hi) -> (1 <= n)%nat.
Proof. unfold lead. repeat (destruct (_ <? _) || destruct (_ =? _)); intros [= <- _ _]; lia. Qed.

Lemma sequence_valid b rest n :
  sequence b rest = Valid n ->
  (1 <= n <= S (length rest))%nat /\ forall more, sequence b (take (n - 1) rest ++ more) = Valid n.
Proof.
  unfold sequence. destruct (lead _) as [[[k lo] hi]|] eqn:E; [|done]. apply lead_count in E.
  intros (-> & Hl & Hm)%continuation_valid. split; [lia|]. intros more.
  replace (1 + (k - 1) - 1)%nat with (k - 1)%nat by lia. apply Hm.
Qed.

Lemma sequence_invalid b rest n : sequence b rest = Invalid n -> (1 <= n <= S (length rest))%nat.
Proof.
  unfold sequence. destruct (lead _) as [[[k lo] hi]|]; [|intros [= <-]; lia].
  intros ?%continuation_invalid. lia.
Qed.

(** [std::string::String::from_utf8_lossy], the reference. *)
Fixpoint lossy_go (fuel : nat) (bs : list byte) : list byte :=
  match fuel, bs with
  | S fuel', b :: rest =>
      match sequence b rest with
      | Valid n => take n bs ++ lossy_go fuel' (drop n bs)
      | Invalid n => replacement ++ lossy_go fuel' (drop n bs)
      | Incomplete => replacement
      end
  | _, _ => []
  end.

Definition lossy (bs : list byte) : list byte := lossy_go (length bs) bs.

Lemma lossy_go_fuel f1 f2 bs : (length bs <= f1)%nat -> (length bs <= f2)%nat ->
  lossy_go f1 bs = lossy_go f2 bs.
Proof.
  revert f2 bs. induction f1 as [|f1 IH]; intros [|f2] [|b bs] H1 H2; cbn in H1, H2; try (done || lia).
  cbn [lossy_go]. destruct (sequence b bs) as [n|n|] eqn:E; [| |done].
  - apply sequence_valid in E as [Hn _]. f_equal. apply IH; rewrite length_drop; cbn; lia.
  - apply sequence_invalid in E. f_equal. apply IH; rewrite length_drop; cbn; lia.
Qed.

Lemma lossy_cons b rest :
  lossy (b :: rest) =
  match sequence b rest with
  | Valid n => take n (b :: rest) ++ lossy (drop n (b :: rest))
  | Invalid n => replacement ++ lossy (drop n (b :: rest))
  | Incomplete => replacement
  end.
Proof.
  unfold lossy at 1. cbn [length lossy_go]. destruct (sequence b rest) as [n|n|] eqn:E; [| |done].
  - apply sequence_valid in E as [Hn _]. f_equal. apply lossy_go_fuel; rewrite length_drop; cbn; lia.
  - apply sequence_invalid in E. f_equal. apply lossy_go_fuel; rewrite length_drop; cbn; lia.
Qed.

(** Valid text, sequence by sequence. *)
Inductive valid : list byte -> Prop :=
| valid_nil : valid []
| valid_sequence b rest n :
    sequence b rest = Valid n -> valid (drop n (b :: rest)) -> valid (b :: rest).

Lemma valid_app a b : valid a -> valid b -> valid (a ++ b).
Proof.
  intros Ha Hb. induction Ha as [|x rest n Hs Ha IH]; [done|].
  pose proof (sequence_valid _ _ _ Hs) as [Hn Hm]. destruct n as [|n]; [lia|].
  cbn [app]. apply valid_sequence with (S n).
  - rewrite <- (take_drop n rest), <- app_assoc. replace n with (S n - 1)%nat at 1 by lia. apply Hm.
  - cbn [drop] in *. rewrite drop_app_le by lia. done.
Qed.

Lemma from_utf8_go_valid fuel bs offset u :
  (length bs <= fuel)%nat -> from_utf8_go fuel bs offset = Ok u <-> valid bs.
Proof.
  destruct u. revert bs offset. induction fuel as [|fuel IH]; intros [|b bs] offset Hl; cbn in Hl; try lia.
  - split; [constructor|done].
  - split; [constructor|done].
  - cbn [from_utf8_go]. destruct (sequence b bs) as [n|n|] eqn:E.
    + pose proof (sequence_valid _ _ _ E) as [Hn _]. rewrite IH by (rewrite length_drop; cbn; lia).
      split; [by econstructor|]. intros Hv. inversion Hv. congruence.
    + split; [done|]. intros Hv. inversion Hv. congruence.
    + split; [done|]. intros Hv. inversion Hv. congruence.
Qed.

Lemma from_utf8_valid bs : from_utf8 bs = Ok tt <-> valid bs.
Proof. by apply from_utf8_go_valid. Qed.

Lemma valid_take_sequence b rest n : sequence b rest = Valid n -> valid (take n (b :: rest)).
Proof.
  intros Hs. pose proof (sequence_valid _ _ _ Hs) as [Hn Hm]. destruct n as [|n]; [lia|]. cbn [take].
  apply valid_sequence with (S n).
  - specialize (Hm []). rewrite app_nil_r in Hm. by replace n with (S n - 1)%nat at 1 by lia.
  - cbn [drop]. rewrite drop_ge by (rewrite length_take; lia). constructor.
Qed.

Lemma valid_replacement : valid replacement.
Proof. by apply from_utf8_valid. Qed.

(** What a validation error says about the lossy text. *)
Lemma from_utf8_go_error fuel bs offset e :
  (length bs <= fuel)%nat -> from_utf8_go fuel bs offset = Err e ->
  exists k : nat, valid_up_to e = offset + Z.of_nat k /\ (k <= length bs)%nat /\ valid (take k bs) /\
    match error_len e with
    | Some n => exists j : nat, n = Z.of_nat j /\ (1 <= j)%nat /\ (k + j <= length bs)%nat /\
        lossy bs = take k bs ++ replacement ++ lossy (drop (k + j) bs)
    | None => lossy bs = take k bs ++ replacement
    end.
Proof.
  revert bs offset. induction fuel as [|fuel IH]; intros [|b bs] offset Hl; cbn in Hl; try done; try lia.
  cbn [from_utf8_go]. rewrite lossy_cons. destruct (sequence b bs) as [n|n|] eqn:E.
  - pose proof (sequence_valid _ _ _ E) as [Hn _].
    intros (k & Hk & Hkl & Hv & Hlossy)%IH; [|rewrite length_drop; cbn; lia].
    rewrite length_drop in Hkl. cbn [length] in Hkl.
    assert (Htake : take (n + k) (b :: bs) = take n (b :: bs) ++ take k (drop n (b :: bs)))
      by (symmetry; apply take_take_drop).
    exists (n + k)%nat. split; [lia|]. split; [cbn; lia|]. split.
    { rewrite Htake. apply valid_app; [by apply valid_take_sequence|done]. }
    rewrite Htake. destruct (error_len e) as [len|].
    + destruct Hlossy as (j & -> & Hj & Hjl & ->). rewrite length_drop in Hjl. cbn [length] in Hjl.
      exists j. split; [done|]. split; [done|]. split; [cbn; lia|].
      rewrite drop_drop, Nat.add_assoc, app_assoc. done.
    + rewrite Hlossy. by rewrite app_assoc.
  - pose proof (sequence_invalid _ _ _ E) as Hn. intros [= <-]. exists 0%nat. cbn [valid_up_to error_len].
    split; [lia|]. split; [lia|]. split; [constructor|]. exists n. split; [done|]. split; [lia|].
    split; [cbn; lia|]. done.
  - intros [= <-]. exists 0%nat. cbn [valid_up_to error_len].
    split; [lia|]. split; [lia|]. split; [constructor|done].
Qed.

Lemma lossy_valid bs : valid bs -> lossy bs = bs.
Proof.
  induction 1 as [|b rest n Hs _ IH]; [done|]. rewrite lossy_cons, Hs, IH. apply take_drop.
Qed.

Lemma valid_lossy bs : valid (lossy bs).
Proof.
  remember (length bs) as l eqn:El. revert bs El. induction l as [l IH] using lt_wf_ind.
  intros [|b bs] ->; [constructor|]. rewrite lossy_cons. destruct (sequence b bs) as [n|n|] eqn:E.
  - pose proof (sequence_valid _ _ _ E) as [Hn _]. apply valid_app; [by apply valid_take_sequence|].
    eapply IH; [|done]. rewrite length_drop. cbn. lia.
  - pose proof (sequence_invalid _ _ _ E). apply valid_app; [apply valid_replacement|].
    eapply IH; [|done]. rewrite length_drop. cbn. lia.
  - apply valid_replacement.
Qed.

Lemma length_lossy bs : (length (lossy bs) <= 3 * length bs)%nat.
Proof.
  remember (length bs) as l eqn:El. revert bs El. induction l as [l IH] using lt_wf_ind.
  intros [|b bs] ->; [cbn; lia|]. rewrite lossy_cons. destruct (sequence b bs) as [n|n|] eqn:E.
  - pose proof (sequence_valid _ _ _ E) as [Hn _]. rewrite length_app, length_take.
    specialize (IH (length (drop n (b :: bs)))). rewrite length_drop in IH. cbn [length] in *.
    specialize (IH ltac:(lia) (drop n (b :: bs)) ltac:(by rewrite length_drop)). lia.
  - pose proof (sequence_invalid _ _ _ E). rewrite length_app. change (length replacement) with 3%nat.
    specialize (IH (length (drop n (b :: bs)))). rewrite length_drop in IH. cbn [length] in *.
    specialize (IH ltac:(lia) (drop n (b :: bs)) ltac:(by rewrite length_drop)). lia.
  - cbn. lia.
Qed.
