(* ===== verification/AsciiFacts.v ===== *)
(** * ASCII text

    What the functions of [str] do with printed text: characters, words,
    lines and hexadecimal digits. *)

From S2P Require Import Prelude.
From S2P Require Import Types.
From S2P Require Import Text.
From S2P Require Import TextFacts.

(** ** Bytes of ASCII text *)

(** A visible ASCII character. *)
Definition graphic (b : byte) : Prop := 0x21 <= byte_val b <= 0x7e.

#[global] Instance graphic_dec b : Decision (graphic b).
Proof. unfold graphic. apply _. Defined.

Definition ascii (b : byte) : Prop := byte_val b < 0x80.

Lemma chars_ascii_go n bs : Forall ascii bs -> length bs = n -> chars_go n bs = (fun b => [b]) <$> bs.
Proof.
  revert bs. induction n as [|n IH]; intros [|b bs] Hall Hl; try done.
  apply Forall_cons in Hall as [Hb Hall]. cbn [chars_go]. unfold Utf8.sequence, Utf8.lead.
  replace (byte_val b <? 0x80) with true by (symmetry; apply Z.ltb_lt; exact Hb).
  cbn. f_equal. apply IH; [done|]. by injection Hl.
Qed.

Lemma chars_ascii bs : Forall ascii bs -> chars (string_of_bytes bs) = (fun b => [b]) <$> bs.
Proof. intros. unfold chars. rewrite bytes_of_string_of_bytes. by apply chars_ascii_go. Qed.

Lemma of_chars_singles bs : of_chars ((fun b => [b]) <$> bs) = string_of_bytes bs.
Proof. unfold of_chars. f_equal. induction bs; cbn; by f_equal. Qed.

Lemma graphic_ascii b : graphic b -> ascii b.
Proof. unfold graphic, ascii. lia. Qed.

Lemma graphic_not_whitespace b : graphic b -> is_whitespace [b] = false.
Proof. unfold graphic, is_whitespace. cbn. intros. apply orb_false_iff. split; [apply andb_false_iff; right; apply Z.leb_gt|apply Z.eqb_neq]; lia. Qed.

(** Trimming a line that neither begins nor ends with a space. *)
Lemma trim_graphic b1 bs b2 :
  graphic b1 -> graphic b2 -> Forall ascii bs ->
  trim (string_of_bytes (b1 :: bs ++ [b2])) = string_of_bytes (b1 :: bs ++ [b2]).
Proof.
  intros H1 H2 Hbs. unfold trim. rewrite chars_ascii.
  2: { apply Forall_cons. split; [by apply graphic_ascii|]. apply Forall_app. split; [done|].
       apply Forall_singleton. by apply graphic_ascii. }
  set (cs := (fun b : byte => [b]) <$> b1 :: bs ++ [b2]).
  assert (Hskip : skip_whitespace cs = cs) by (unfold cs; cbn [fmap list_fmap skip_whitespace]; by rewrite graphic_not_whitespace).
  assert (Hrev : exists rest, reverse cs = [b2] :: rest).
  { exists (reverse ((fun b => [b]) <$> b1 :: bs)). unfold cs.
    rewrite app_comm_cons, fmap_app, reverse_app. done. }
  destruct Hrev as [rest Hrev]. rewrite Hskip, Hrev. cbn [skip_whitespace].
  rewrite graphic_not_whitespace by done. rewrite <- Hrev, reverse_involutive. apply of_chars_singles.
Qed.

(** Splitting a word, then a space. *)
Lemma split_word w rest acc :
  Forall graphic w -> acc ++ w <> [] ->
  split_whitespace_go (((fun b => [b]) <$> w) ++ [x20] :: rest) ((fun b => [b]) <$> acc) =
  ((fun b => [b]) <$> acc ++ w) :: split_whitespace_go rest [].
Proof.
  revert acc. induction w as [|b w IH]; intros acc Hw Hne; cbn [fmap list_fmap app split_whitespace_go].
  - cbn. rewrite app_nil_r in *. rewrite bool_decide_eq_false_2; [done|]. by destruct acc.
  - apply Forall_cons in Hw as [Hb Hw]. rewrite graphic_not_whitespace by done.
    change [[b]] with ((fun b => [b]) <$> [b]). rewrite <- fmap_app, IH, <- app_assoc; [done|done|].
    by destruct acc.
Qed.

Lemma split_last_word w acc :
  Forall graphic w -> acc ++ w <> [] ->
  split_whitespace_go ((fun b => [b]) <$> w) ((fun b => [b]) <$> acc) = [(fun b => [b]) <$> acc ++ w].
Proof.
  revert acc. induction w as [|b w IH]; intros acc Hw Hne; cbn [fmap list_fmap app split_whitespace_go].
  - rewrite app_nil_r in *. rewrite bool_decide_eq_false_2; [done|]. by destruct acc.
  - apply Forall_cons in Hw as [Hb Hw]. rewrite graphic_not_whitespace by done.
    change [[b]] with ((fun b => [b]) <$> [b]). rewrite <- fmap_app, IH, <- app_assoc; [done|done|].
    by destruct acc.
Qed.

Lemma split_three w1 w2 w3 :
  Forall graphic w1 -> Forall graphic w2 -> Forall graphic w3 ->
  w1 <> [] -> w2 <> [] -> w3 <> [] ->
  split_whitespace (string_of_bytes (w1 ++ x20 :: w2 ++ x20 :: w3)) =
  [string_of_bytes w1; string_of_bytes w2; string_of_bytes w3].
Proof.
  intros H1 H2 H3 N1 N2 N3. unfold split_whitespace. rewrite chars_ascii.
  2: { assert (Ha : forall w, Forall graphic w -> Forall ascii w)
         by (intros w Hw; eapply Forall_impl; [exact Hw|apply graphic_ascii]).
       rewrite !Forall_app, !Forall_cons, !Forall_app, !Forall_cons. by repeat split; auto. }
  rewrite !fmap_app. cbn [fmap list_fmap]. rewrite !fmap_app. cbn [fmap list_fmap].
  change (@nil (list byte)) with ((fun b : byte => [b]) <$> []) at 1.
  rewrite split_word by done.
  change (@nil (list byte)) with ((fun b : byte => [b]) <$> []) at 1.
  rewrite split_word by done.
  change (@nil (list byte)) with ((fun b : byte => [b]) <$> []) at 1.
  rewrite split_last_word by done. cbn [app fmap list_fmap].
  by rewrite !of_chars_singles.
Qed.

(** ** Hexadecimal addresses *)

Lemma hex_byte_cases d (P : byte -> Prop) :
  0 <= d < 16 ->
  P x30 -> P x31 -> P x32 -> P x33 -> P x34 -> P x35 -> P x36 -> P x37 -> P x38 -> P x39 ->
  P x61 -> P x62 -> P x63 -> P x64 -> P x65 -> P x66 -> P (hex_byte d).
Proof.
  intros Hd. intros.
  assert (E : d = 0 \/ d = 1 \/ d = 2 \/ d = 3 \/ d = 4 \/ d = 5 \/ d = 6 \/ d = 7 \/ d = 8 \/ d = 9
    \/ d = 10 \/ d = 11 \/ d = 12 \/ d = 13 \/ d = 14 \/ d = 15) by lia.
  by destruct_or! E; subst d.
Qed.

Lemma hex_byte_digit d : 0 <= d < 16 -> ParseInt.digit 16 (hex_byte d) = Some d.
Proof.
  intros Hd.
  assert (E : d = 0 \/ d = 1 \/ d = 2 \/ d = 3 \/ d = 4 \/ d = 5 \/ d = 6 \/ d = 7 \/ d = 8 \/ d = 9
    \/ d = 10 \/ d = 11 \/ d = 12 \/ d = 13 \/ d = 14 \/ d = 15) by lia.
  by destruct_or! E; subst d.
Qed.

(** A byte of a printed address. *)
Definition hexadecimal (b : byte) : Prop := graphic b /\ b <> x78 /\ b <> x2b /\ b <> x2d /\ b <> x23 /\ b <> x3a.

Lemma hex_bytes_all n v : Forall hexadecimal (hex_bytes n v).
Proof.
  revert v. induction n as [|n IH]; intros v; cbn [hex_bytes]; [constructor|].
  apply Forall_app. split; [apply IH|]. apply Forall_singleton.
  apply hex_byte_cases; [apply Z.mod_pos_bound; lia|..]; by vm_compute.
Qed.

Lemma length_hex_bytes n v : length (hex_bytes n v) = n.
Proof. revert v. induction n as [|n IH]; intros v; cbn; [done|]. rewrite length_app, IH. cbn. lia. Qed.

Lemma digits_app w radix xs ys acc :
  ParseInt.digits w radix (xs ++ ys) acc =
  match ParseInt.digits w radix xs acc with Ok v => ParseInt.digits w radix ys v | Err e => Err e end.
Proof.
  revert acc. induction xs as [|x xs IH]; intros acc; cbn; [done|].
  destruct (ParseInt.digit radix x); [|done]. destruct (checked_mul w acc radix); [|done].
  destruct (checked_add w _ _); [apply IH|done].
Qed.

Lemma digits_hex n v : 0 <= v < 16 ^ Z.of_nat n -> (n <= 16)%nat ->
  ParseInt.digits 64 16 (hex_bytes n v) 0 = Ok v.
Proof.
  revert v. induction n as [|n IH]; intros v Hv Hn; cbn [hex_bytes ParseInt.digits].
  { f_equal. change (16 ^ Z.of_nat 0) with 1 in Hv. lia. }
  assert (Hp : 16 ^ Z.of_nat (S n) = 16 * 16 ^ Z.of_nat n) by (rewrite Nat2Z.inj_succ, Z.pow_succ_r; lia).
  assert (Hle : 16 ^ Z.of_nat (S n) <= 2 ^ 64).
  { change (2 ^ 64) with (16 ^ 16). apply Z.pow_le_mono_r; lia. }
  pose proof (Z.div_mod v 16 ltac:(lia)) as Hdiv. pose proof (Z.mod_pos_bound v 16 ltac:(lia)) as Hmod.
  rewrite digits_app, IH by lia. cbn [ParseInt.digits]. rewrite hex_byte_digit by done.
  unfold checked_mul. replace (v / 16 * 16 <? 2 ^ 64) with true by (symmetry; apply Z.ltb_lt; lia).
  unfold checked_add. replace (v / 16 * 16 + v mod 16 <? 2 ^ 64) with true by (symmetry; apply Z.ltb_lt; lia).
  f_equal. lia.
Qed.

Lemma trim_start_go_none n bs pre : starts_with bs pre = false -> trim_start_go n bs pre = bs.
Proof. intros Hs. destruct n; cbn [trim_start_go]; [done|by rewrite Hs]. Qed.

Lemma parse_hex_padded n v : (1 <= n <= 16)%nat -> 0 <= v < 16 ^ Z.of_nat n ->
  ParseInt.from_str_radix 64 16 (hex_padded n v) = Ok v.
Proof.
  intros Hn Hv. pose proof (hex_bytes_all n v) as Hall. pose proof (length_hex_bytes n v) as Hlen.
  pose proof (digits_hex n v Hv ltac:(lia)) as Hd. unfold hex_padded, ParseInt.from_str_radix.
  rewrite bytes_of_string_of_bytes. destruct (hex_bytes n v) as [|b bs]; [cbn in Hlen; lia|].
  apply Forall_cons in Hall as [(_ & _ & N1 & N2 & _) _].
  by rewrite (bool_decide_eq_false_2 _ N1), (bool_decide_eq_false_2 _ N2).
Qed.

Lemma parse_hex v : in_u64 v ->
  ParseInt.from_str_radix 64 16 (trim_start_matches "0x" (string_of_bytes (hex_bytes 16 v))) = Ok v.
Proof.
  intros Hv. rewrite <- (parse_hex_padded 16 v) by (done || lia). f_equal. unfold hex_padded, trim_start_matches.
  pose proof (hex_bytes_all 16 v) as Hall. pose proof (length_hex_bytes 16 v) as Hlen.
  destruct (hex_bytes 16 v) as [|b1 [|b2 bs]]; [done|done|].
  apply Forall_cons in Hall as [_ Hall]. apply Forall_cons in Hall as [(_ & N3 & _) _].
  rewrite bytes_of_string_of_bytes, trim_start_go_none; [done|].
  apply bool_decide_eq_false_2. cbn. intros [= _ ?]. done.
Qed.

(** ** Lines *)

Lemma lines_go_line bs line rest :
  x0a ∉ bs -> lines_go (bs ++ x0a :: rest) line = strip_cr (line ++ bs) :: lines_go rest [].
Proof.
  revert line. induction bs as [|b bs IH]; intros line Hbs; cbn [app lines_go].
  - by rewrite app_nil_r.
  - apply not_elem_of_cons in Hbs as [Hb Hbs]. rewrite bool_decide_eq_false_2 by congruence.
    rewrite IH by done. by rewrite <- app_assoc.
Qed.

(** Words, each after a space. *)
Abbreviation singles := (fmap (M := list) (fun b : byte => [b])).

Lemma split_words_after w ws acc :
  Forall graphic w -> Forall (fun w => Forall graphic w /\ w <> []) ws -> acc ++ w <> [] ->
  split_whitespace_go (singles (w ++ flat_map (fun w => x20 :: w) ws)) (singles acc) =
  singles (acc ++ w) :: (singles <$> ws).
Proof.
  intros Hw Hws. revert w acc Hw. induction Hws as [|w' ws [Hw' Hne'] _ IH]; intros w acc Hw Hne; cbn [flat_map].
  - rewrite app_nil_r. by apply split_last_word.
  - rewrite fmap_app. cbn [app fmap list_fmap]. rewrite split_word by done. f_equal.
    change (@nil (list byte)) with ((fun b : byte => [b]) <$> []). by rewrite IH.
Qed.

Lemma split_words ws : Forall (fun w => Forall graphic w /\ w <> []) ws ->
  split_whitespace (string_of_bytes (flat_map (fun w => x20 :: w) ws)) = string_of_bytes <$> ws.
Proof.
  intros Hws. unfold split_whitespace. rewrite chars_ascii.
  2: { clear -Hws. induction Hws as [|w ws [Hw _] _ IH]; cbn [flat_map]; [constructor|].
       apply Forall_cons. split; [by vm_compute|]. apply Forall_app. split; [|done].
       eapply Forall_impl; [exact Hw|apply graphic_ascii]. }
  destruct Hws as [|w ws [Hw Hne] Hws]; cbn [flat_map app]; [done|]. cbn [fmap list_fmap split_whitespace_go].
  change (is_whitespace [x20]) with true. cbv iota. rewrite bool_decide_eq_true_2 by done.
  change (@nil (list byte)) with ((fun b : byte => [b]) <$> []).
  rewrite split_words_after by done. cbn [app fmap list_fmap]. rewrite of_chars_singles. f_equal.
  rewrite <- list_fmap_compose. apply list_fmap_ext. intros i w' _. apply of_chars_singles.
Qed.

Lemma lines_unix rows : Forall (fun row => (x0a ∉ row) /\ last row <> Some x0d) rows ->
  lines (string_of_bytes (concat ((fun row => row ++ [x0a]) <$> rows))) = string_of_bytes <$> rows.
Proof.
  intros Hall. unfold lines. f_equal. rewrite bytes_of_string_of_bytes.
  induction Hall as [|row rows [Hrow Hlast] _ IH]; [done|]. cbn [fmap list_fmap concat].
  rewrite <- app_assoc. cbn [app]. rewrite lines_go_line by done. rewrite IH. f_equal. cbn [app].
  unfold strip_cr. by rewrite bool_decide_eq_false_2.
Qed.

Lemma lines_rows rows : Forall (fun row => (x0a ∉ row) /\ last row <> Some x0d) rows ->
  lines (string_of_bytes (concat ((fun row => row ++ [x0d; x0a]) <$> rows))) = string_of_bytes <$> rows.
Proof.
  intros Hall. unfold lines. f_equal. rewrite bytes_of_string_of_bytes.
  induction Hall as [|row rows [Hrow Hlast] _ IH]; [done|]. cbn [fmap list_fmap concat].
  change [x0d; x0a] with ([x0d] ++ [x0a]). rewrite <- !app_assoc. cbn [app].
  change (row ++ x0d :: x0a :: ?r) with (row ++ [x0d] ++ x0a :: r).
  rewrite (app_assoc row). rewrite lines_go_line.
  2: { rewrite elem_of_app. intros [?|Hin]; [done|]. by apply list_elem_of_singleton in Hin. }
  rewrite IH. f_equal. cbn [app]. unfold strip_cr. rewrite last_snoc, bool_decide_eq_true_2 by done.
  apply removelast_last.
Qed.

Lemma split_once_spec c front back : c ∉ front ->
  split_once c (string_of_bytes (front ++ c :: back)) = Some (string_of_bytes front, string_of_bytes back).
Proof.
  intros Hc. unfold split_once. rewrite bytes_of_string_of_bytes.
  enough (Hgo : forall acc, split_once_go c (front ++ c :: back) acc = Some (acc ++ front, back)) by by rewrite Hgo.
  induction front as [|b front IH]; intros acc; cbn [app split_once_go].
  - by rewrite bool_decide_eq_true_2, app_nil_r by done.
  - apply not_elem_of_cons in Hc as [Hb Hc]. rewrite bool_decide_eq_false_2 by congruence.
    by rewrite IH, <- app_assoc.
Qed.
