(* ===== verification/Host.v ===== *)
(** * The host environment

    Readers, paths and files of the standard library, and the interfaces of
    the crates the loaders call: the decompressors and the JSON parser. *)

From S2P Require Import Prelude.

(** ** Readers *)

(** What the reads of a [Read] will find, in order: an interruption, an
    error, or bytes, of which a read takes as many as it asked for.  A read
    that finds nothing (or an empty chunk) returns 0. *)
Inductive io_event : Type := Interrupted | Failed (error : string) | Chunk (bytes : list byte).
Abbreviation stream := (list io_event).

(** [reader.read(&mut buffer[..n])], interruptions retried. *)
Fixpoint read_retry (s : stream) (n : Z) : result string (list byte) * stream :=
  match s with
  | [] => (Ok [], [])
  | Interrupted :: rest => read_retry rest n
  | Failed error :: rest => (Err error, rest)
  | Chunk bytes :: rest =>
      let taken := take (Z.to_nat n) bytes in
      let left_ := drop (Z.to_nat n) bytes in
      (Ok taken, if bool_decide (left_ = []) then rest else Chunk left_ :: rest)
  end.

(** [read_exact]: reads until the buffer is full. *)
Fixpoint read_exact (s : stream) (n : nat) : result string (list byte) :=
  match n with
  | O => Ok []
  | _ =>
      match s with
      | [] => Err "failed to fill whole buffer"%string
      | Interrupted :: rest => read_exact rest n
      | Failed error :: _ => Err error
      | Chunk [] :: _ => Err "failed to fill whole buffer"%string
      | Chunk bytes :: rest =>
          if (n <=? length bytes)%nat then Ok (take n bytes)
          else
            match read_exact rest (n - length bytes) with
            | Ok more => Ok (bytes ++ more)
            | Err error => Err error
            end
      end
  end.

(** ** Paths *)

Record Path : Type := MkPath { has_root : bool; components : list string }.

#[global] Instance Path_eq_dec : EqDecision Path.
Proof. solve_decision. Defined.

Fixpoint split_slash (bs acc : list byte) : list (list byte) :=
  match bs with
  | [] => [acc]
  | b :: rest => if bool_decide (b = x2f) then acc :: split_slash rest [] else split_slash rest (acc ++ [b])
  end.

(** Components without repeated separators; [.] counts only in front. *)
Definition parse_path (text : string) : Path :=
  let bs := bytes_of_string text in
  let root := bool_decide (head bs = Some x2f) in
  let parts := filter (fun p => p <> []) (split_slash bs []) in
  let names := string_of_bytes <$> parts in
  let tail_ := filter (fun p => p <> "."%string) (tail names) in
  MkPath root
    (match names with
     | [] => []
     | first :: _ => if root && bool_decide (first = "."%string) then tail_ else first :: tail_
     end).

(** [Path::parent]: nothing above a root or an empty path. *)
Definition parent (p : Path) : option Path :=
  match components p with
  | [] => None
  | _ => Some (MkPath (has_root p) (removelast (components p)))
  end.

(** [Path::file_name]: the last component, unless it is [.] or [..]. *)
Definition file_name (p : Path) : option string :=
  match last (components p) with
  | Some name => if bool_decide (name = "."%string) || bool_decide (name = ".."%string) then None else Some name
  | None => None
  end.

(** The part of a file name before its last dot, unless that comes first. *)
Fixpoint last_dot (bs : list byte) (index : nat) (found : option nat) : option nat :=
  match bs with
  | [] => found
  | b :: rest => last_dot rest (S index) (if bool_decide (b = x2e) then Some index else found)
  end.

Definition file_stem (name : string) : string :=
  match last_dot (bytes_of_string name) 0 None with
  | Some (S n) => string_of_bytes (take (S n) (bytes_of_string name))
  | _ => name
  end.

(** [PathBuf::set_extension] of an extension that is not empty. *)
Definition set_extension (p : Path) (extension : string) : Path :=
  match file_name p with
  | None => p
  | Some name => MkPath (has_root p) (removelast (components p) ++ [file_stem name +:+ "." +:+ extension])
  end.

Definition is_absolute (p : Path) : bool := has_root p.

(** [base.join(p)] of a relative path; a leading [.] disappears. *)
Definition join (base p : Path) : Path :=
  MkPath (has_root base)
    (components base ++
     (if bool_decide (base = MkPath false []) then components p
      else filter (fun c => c <> "."%string) (components p))).

(** [path.starts_with(base)], component by component. *)
Definition path_starts_with (p base : Path) : bool :=
  bool_decide (has_root p = has_root base /\
               take (length (components base)) (components p) = components base).

Fixpoint join_slash (names : list string) : string :=
  match names with
  | [] => ""
  | [n] => n
  | n :: rest => n +:+ "/" +:+ join_slash rest
  end.

Definition path_display (p : Path) : string :=
  (if has_root p then "/" else "") +:+ join_slash (components p).

(** ** The environment *)

Record File : Type := MkFile {
  metadata_len : result string Z;
  contents : stream;
  seek : Z -> result string stream;
}.

Class FileSystem := {
  open : string -> result string File;
  canonicalize : Path -> result string Path;
}.

(** The decompressing readers of flate2, bzip2, xz2 and zstd. *)
Class Decompressors := {
  gzip_reader : list byte -> stream;
  bzip2_reader : list byte -> stream;
  xz_reader : list byte -> stream;
  zstd_reader : list byte -> result string stream;
  zlib_reader : list byte -> stream;
}.

(** [serde_json::Value] through the accessors used; an object is a map,
    iterated without repeating a key. *)
Class SerdeJson := {
  Value : Type;
  from_str : string -> result string Value;
  as_object : Value -> option (list (string * Value));
  as_object_keys : forall v fields, as_object v = Some fields -> NoDup (fields.*1);
  as_array : Value -> option (list Value);
  as_u64 : Value -> option Z;
  as_u64_range : forall v n, as_u64 v = Some n -> in_u64 n;
  as_str : Value -> option string;
}.

(** [Map::get]. *)
Fixpoint map_get {A} (fields : list (string * A)) (name : string) : option A :=
  match fields with
  | [] => None
  | (n, v) :: rest => if bool_decide (n = name) then Some v else map_get rest name
  end.

(** A file system where every path holds the given bytes, read after one
    interruption, and only the empty path does not resolve. *)
Definition example_files (bytes : list byte) : FileSystem := {|
  open := fun path => Ok (MkFile (Ok (zlen bytes)) [Interrupted; Chunk bytes]
    (fun offset => Ok [Chunk (drop (Z.to_nat offset) bytes)]));
  canonicalize := fun p => if bool_decide (p = MkPath false []) then Err "No such file or directory"%string
    else Ok (MkPath true ["dumps"%string]);
|}.

(** ** What a stream holds *)

(** The bytes of a stream up to its end, if no read fails before it. *)
Fixpoint stream_bytes (s : stream) : option (list byte) :=
  match s with
  | [] => Some []
  | Interrupted :: rest => stream_bytes rest
  | Failed _ :: _ => None
  | Chunk [] :: _ => Some []
  | Chunk bytes :: rest => app bytes <$> stream_bytes rest
  end.

Lemma read_retry_spec s n :
  1 <= n ->
  match read_retry s n with
  | (Err _, _) => stream_bytes s = None
  | (Ok captured, s') =>
      zlen captured <= n /\
      if zlen captured =? 0 then stream_bytes s = Some []
      else stream_bytes s = app captured <$> stream_bytes s'
  end.
Proof.
  intros Hn. induction s as [|[|error|bytes] rest IH]; cbn [read_retry stream_bytes];
    [split; [rewrite zlen_nil; lia|done]|exact IH|done|].
  set (n' := Z.to_nat n). destruct bytes as [|b bytes].
  { rewrite take_nil. split; [rewrite zlen_nil; lia|done]. }
  assert (Hlen : zlen (take n' (b :: bytes)) <= n) by (unfold zlen; rewrite length_take; lia).
  split; [done|]. destruct (Z.eqb_spec (zlen (take n' (b :: bytes))) 0) as [E|_].
  { apply zlen_0 in E. destruct n' as [|m] eqn:En; [lia|done]. }
  case_bool_decide as E.
  - rewrite <- (take_drop n' (b :: bytes)) at 1. rewrite E, app_nil_r. done.
  - rewrite <- (take_drop n' (b :: bytes)) at 1.
    destruct (drop n' (b :: bytes)) as [|b' left_] eqn:Hd; [done|]. cbn [stream_bytes].
    destruct (stream_bytes rest); cbn; [|done]. by rewrite <- app_assoc.
Qed.
