(* ===== verification/Artifact.v ===== *)
(** * Snapshot bundles ([crates/vmi-artifact])

    Segments of guest physical memory and the all-or-nothing read across
    them, with the proof that a bundle sorted by address is a byte memory. *)

From S2P Require Import Prelude.
From S2P Require Import Types.
From S2P Require Import DriverApi.

Definition DEFAULT_MAX_DECODED_KDMP_SIZE : Z := 64 * 1024 * 1024 * 1024.
Definition DEFAULT_MAX_ARTIFACT_SIZE : Z := 64 * 1024 * 1024 * 1024.
Definition DEFAULT_MAX_MANIFEST_SEGMENTS : Z := 65536.
Definition DEFAULT_MAX_MANIFEST_BYTES : Z := 64 * 1024 * 1024 * 1024.
Definition DEFAULT_MAX_MANIFEST_SIZE : Z := 16 * 1024 * 1024.

Module ArtifactProvenance.
Record t : Type := mk { format : string; source : string }.
End ArtifactProvenance.

Module SnapshotSegment.
Record t : Type := mk { range : MemoryRange.t; data : list byte }.

Definition new (start : Gpa.t) (data : list byte) : t :=
  mk (MemoryRange.new start (default u64_max (try_width 64 (zlen data)))) data.

Definition bytes (s : t) : list byte := data s.

(** The raw start, the end in 128-bit arithmetic. *)
Definition start_raw (s : t) : Z := Gpa.raw (MemoryRange.start (range s)).
Definition end_raw (s : t) : Z := saturating_add 128 (start_raw s) (MemoryRange.length (range s)).
End SnapshotSegment.

Definition ranges_overlap (left right : MemoryRange.t) : bool :=
  let left_start := Gpa.raw (MemoryRange.start left) in
  let left_end := saturating_add 128 left_start (MemoryRange.length left) in
  let right_start := Gpa.raw (MemoryRange.start right) in
  let right_end := saturating_add 128 right_start (MemoryRange.length right) in
  (left_start <? right_end) && (right_start <? left_end).

Module SnapshotBundle.
Record t : Type := mk {
  provenance : ArtifactProvenance.t;
  segments : list SnapshotSegment.t;
}.

(** The first pass: how far the segments cover the request. *)
Fixpoint coverage (segments : list SnapshotSegment.t) (end_ covered : Z) : Z :=
  match segments with
  | [] => covered
  | segment :: rest =>
      if covered =? end_ then covered
      else
        let start := SnapshotSegment.start_raw segment in
        let segment_end := SnapshotSegment.end_raw segment in
        if covered <? start then covered
        else coverage rest end_
               (if covered <? segment_end then Z.min segment_end end_ else covered)
  end.

(** One segment of the second pass: what is copied out of it. *)
Definition copy_segment (failed : VmiError.t) (segment : SnapshotSegment.t)
    (output : list byte) (completed current : Z) : Result (list byte * Z * Z) :=
  let start := SnapshotSegment.start_raw segment in
  let segment_end := SnapshotSegment.end_raw segment in
  let? relative := ok_or (checked_sub current start) failed in
  let? offset := ok_or (try_width 64 relative) failed in
  let available :=
    default u64_max (match checked_sub segment_end current with
                     | Some length => try_width 64 length
                     | None => None
                     end) in
  let? remaining := ok_or (checked_sub (zlen output) completed) failed in
  let length := Z.min available remaining in
  let? output_end := ok_or (checked_add 64 completed length) failed in
  let? source_end := ok_or (checked_add 64 offset length) failed in
  let? source := ok_or (get_range (SnapshotSegment.bytes segment) offset source_end) failed in
  let? output' := ok_or (put_range output completed output_end source) failed in
  let? current' := ok_or (checked_add 128 current length) failed in
  Ok (output', output_end, current').

(** The second pass; the buffer keeps what was copied before an error. *)
Fixpoint copy_segments (failed : VmiError.t) (segments : list SnapshotSegment.t)
    (output : list byte) (completed current : Z) : Result (Z * Z) * list byte :=
  match segments with
  | [] => (Ok (completed, current), output)
  | segment :: rest =>
      if completed =? zlen output then (Ok (completed, current), output)
      else if current <? SnapshotSegment.start_raw segment then (Ok (completed, current), output)
      else if SnapshotSegment.end_raw segment <=? current then
        copy_segments failed rest output completed current
      else
        match copy_segment failed segment output completed current with
        | Err e => (Err e, output)
        | Ok (output', completed', current') =>
            copy_segments failed rest output' completed' current'
        end
  end.

Definition read_into (b : t) (address : Gpa.t) (output : list byte)
    : Result unit * list byte :=
  let failed := VmiError.ReadFailed (Gpa.raw address) (zlen output) in
  if zlen output =? 0 then (Ok tt, output)
  else
    let current := Gpa.raw address in
    let end_ := saturating_add 128 current (zlen output) in
    if saturating_add 128 u64_max 1 <? end_ then (Err failed, output)
    else if negb (coverage (segments b) end_ current =? end_) then (Err failed, output)
    else
      match copy_segments failed (segments b) output 0 current with
      | (Err e, output') => (Err e, output')
      | (Ok (completed, current'), output') =>
          if (completed =? zlen output') && (current' =? end_) then (Ok tt, output')
          else (Err failed, output')
      end.
End SnapshotBundle.

(** ** What a bundle holds *)

Module BundleSpec.
Import SnapshotSegment.

(** A segment as [SnapshotSegment::new] makes it on a 64-bit host. *)
Definition wf_segment (s : t) : Prop :=
  in_u64 (start_raw s) /\ MemoryRange.length (range s) = zlen (data s) /\
  zlen (data s) <= isize_max.

Definition segment_byte (s : t) (a : Z) : option byte :=
  if start_raw s <=? a then data s !! Z.to_nat (a - start_raw s) else None.

(** The byte at an address: that of the first segment that has it. *)
Fixpoint first_byte (segments : list t) (a : Z) : option byte :=
  match segments with
  | [] => None
  | s :: rest =>
      match segment_byte s a with Some b => Some b | None => first_byte rest a end
  end.

Definition byte_at (segments : list t) (a : Z) : option byte :=
  if a <? 2 ^ 64 then first_byte segments a else None.

Definition sorted (segments : list t) : Prop :=
  StronglySorted (fun x y => start_raw x <= start_raw y) segments.
End BundleSpec.

(** * Lemmas *)

Section bundle_lemmas.
Import SnapshotSegment SnapshotBundle BundleSpec.

Lemma end_raw_eq s : wf_segment s -> end_raw s = start_raw s + zlen (data s).
Proof.
  intros (Hs & Hl & Hn). unfold end_raw, saturating_add, in_width, isize_max in *.
  rewrite Hl. lia.
Qed.

Lemma segment_byte_Some s a : wf_segment s ->
  is_Some (segment_byte s a) <-> start_raw s <= a < end_raw s.
Proof.
  intros Hwf. rewrite end_raw_eq by done. unfold segment_byte.
  destruct (Z.leb_spec (start_raw s) a) as [Hle|Hgt].
  - rewrite lookup_lt_is_Some. unfold zlen. lia.
  - split; [intros [? [=]]|lia].
Qed.

Lemma segment_byte_None s a : wf_segment s ->
  a < start_raw s \/ end_raw s <= a -> segment_byte s a = None.
Proof.
  intros Hwf Ha. apply eq_None_not_Some. rewrite segment_byte_Some by done. lia.
Qed.

Lemma first_byte_above segments a :
  Forall wf_segment segments -> Forall (fun s => a < start_raw s) segments ->
  first_byte segments a = None.
Proof.
  induction segments as [|s rest IH]; intros Hwf Ha; cbn; [done|].
  apply Forall_cons in Hwf as [Hs Hwf]. apply Forall_cons in Ha as [Ha1 Ha].
  rewrite segment_byte_None by (done || lia). by apply IH.
Qed.

Lemma first_byte_nonneg segments a :
  Forall wf_segment segments -> is_Some (first_byte segments a) -> 0 <= a.
Proof.
  induction segments as [|s rest IH]; intros Hwf; cbn; [by intros [? [=]]|].
  apply Forall_cons in Hwf as [Hs Hwf]. destruct (segment_byte s a) eqn:E; [|by apply IH].
  intros _. destruct (proj1 (segment_byte_Some s a Hs)) as [? _]; [by rewrite E|].
  destruct Hs as [[? _] _]. lia.
Qed.

(** The first pass reaches the end iff every address has a byte. *)
Lemma coverage_spec segments end_ covered :
  Forall wf_segment segments -> sorted segments -> covered <= end_ ->
  covered <= coverage segments end_ covered <= end_ /\
  (forall a, covered <= a < coverage segments end_ covered -> is_Some (first_byte segments a)) /\
  (coverage segments end_ covered < end_ ->
     first_byte segments (coverage segments end_ covered) = None).
Proof.
  revert covered. induction segments as [|s rest IH]; intros covered Hwf Hs Hc; cbn [coverage].
  - split; [lia|]. split; [lia|done].
  - apply Forall_cons in Hwf as [Hw Hwf]. apply StronglySorted_inv in Hs as [Hs Hall].
    destruct (Z.eqb_spec covered end_) as [->|Hne].
    { split; [lia|]. split; lia. }
    destruct (Z.ltb_spec covered (start_raw s)) as [Hlt|Hge].
    { split; [lia|]. split; [lia|]. intros _. apply first_byte_above; [by constructor|].
      constructor; [done|]. eapply Forall_impl; [exact Hall|]. cbn. lia. }
    set (c' := if covered <? end_raw s then Z.min (end_raw s) end_ else covered).
    assert (Hc' : covered <= c' <= end_ /\
      (forall a, covered <= a < c' -> start_raw s <= a < end_raw s) /\
      (c' < end_ -> end_raw s <= c')).
    { unfold c'. destruct (Z.ltb_spec covered (end_raw s));
        (split; [lia|split; [intros a Ha; lia|lia]]). }
    clearbody c'. destruct Hc' as (Hr & Hin & Hout).
    destruct (IH c' Hwf Hs ltac:(lia)) as (IH1 & IH2 & IH3).
    set (r := coverage rest end_ c') in *. split; [lia|]. split.
    + intros a Ha. cbn. destruct (segment_byte s a) as [b|] eqn:E; [by eauto|].
      destruct (Z.lt_ge_cases a c').
      * apply eq_None_not_Some in E. exfalso. apply E. apply segment_byte_Some; [done|].
        apply Hin. lia.
      * apply IH2. lia.
    + intros Hlt. cbn. specialize (Hout ltac:(lia)).
      rewrite segment_byte_None by (done || lia). by apply IH3.
Qed.

(** Copying one segment: the bytes from [current] on, up to its end or the
    end of the buffer. *)
Lemma copy_segment_eq failed s output completed current :
  wf_segment s -> start_raw s <= current < end_raw s ->
  0 <= completed < zlen output -> zlen output <= isize_max -> current < 2 ^ 64 ->
  let n := Z.min (end_raw s - current) (zlen output - completed) in
  exists output', copy_segment failed s output completed current
      = Ok (output', completed + n, current + n) /\
    zlen output' = zlen output /\
    forall i : nat, output' !! i =
      if (completed <=? Z.of_nat i) && (Z.of_nat i <? completed + n)
      then segment_byte s (current + (Z.of_nat i - completed)) else output !! i.
Proof.
  intros Hwf Hcur Hcomp Hmax Hend n. pose proof (end_raw_eq s Hwf) as He.
  destruct Hwf as (Hst & Hl & Hn). unfold in_width, isize_max in *.
  unfold copy_segment. rewrite (checked_sub_fits current (start_raw s)) by lia. cbn [ok_or mbind result_bind].
  rewrite (try_width_fits 64 (current - start_raw s)) by lia. cbn [ok_or mbind result_bind].
  rewrite (checked_sub_fits (end_raw s) current), (try_width_fits 64 (end_raw s - current)) by lia.
  cbn [default from_option id]. rewrite (checked_sub_fits (zlen output) completed) by lia. cbn [ok_or mbind result_bind]. fold n.
  rewrite (checked_add_fits 64 completed) by lia. cbn [ok_or mbind result_bind].
  rewrite (checked_add_fits 64 (current - start_raw s)) by lia. cbn [ok_or mbind result_bind].
  destruct (get_range (bytes s) (current - start_raw s) (current - start_raw s + n)) as [src|] eqn:Hget.
  2:{ unfold get_range, bytes in Hget.
      destruct (Z.leb_spec 0 (current - start_raw s)),
        (Z.leb_spec (current - start_raw s) (current - start_raw s + n)),
        (Z.leb_spec (current - start_raw s + n) (zlen (data s))); try lia; done. }
  cbn [ok_or mbind result_bind]. pose proof (zlen_get_range _ _ _ _ Hget) as Hsrc.
  destruct (put_range output completed (completed + n) src) as [output'|] eqn:Hput.
  2:{ unfold put_range in Hput.
      destruct (Z.leb_spec 0 completed), (Z.leb_spec completed (completed + n)),
        (Z.leb_spec (completed + n) (zlen output)); try lia; done. }
  cbn [ok_or mbind result_bind]. rewrite (checked_add_fits 128) by lia. cbn [ok_or mbind result_bind].
  exists output'. split; [done|]. apply put_range_lookup in Hput as [Hlen Hlk]; [|lia].
  split; [done|]. intros i. rewrite Hlk.
  destruct (Z.ltb_spec (Z.of_nat i) completed), (Z.leb_spec completed (Z.of_nat i)),
    (Z.leb_spec (completed + n) (Z.of_nat i)), (Z.ltb_spec (Z.of_nat i) (completed + n));
    cbn [orb andb]; try lia; try done.
  rewrite (lookup_get_range _ _ _ _ _ Hget) by (unfold zlen in Hsrc; lia).
  unfold segment_byte, bytes. rewrite (proj2 (Z.leb_le _ _)) by lia. f_equal. lia.
Qed.

(** The second pass copies the bytes of a covered request. *)
Lemma copy_segments_spec failed segments output completed current :
  Forall wf_segment segments -> sorted segments ->
  0 <= completed <= zlen output -> zlen output <= isize_max -> 0 <= current ->
  let end_ := current + (zlen output - completed) in
  end_ <= 2 ^ 64 ->
  (forall a, current <= a < end_ -> is_Some (first_byte segments a)) ->
  exists output', copy_segments failed segments output completed current
      = (Ok (zlen output, end_), output') /\
    zlen output' = zlen output /\
    forall i : nat, Z.of_nat i < zlen output -> output' !! i =
      if completed <=? Z.of_nat i
      then first_byte segments (current + (Z.of_nat i - completed)) else output !! i.
Proof.
  revert output completed current. induction segments as [|s rest IH];
    intros output completed current Hwf Hs Hcomp Hmax Hcur end_ Hend Hcov; cbn [copy_segments].
  - assert (completed = zlen output) as ->.
    { destruct (Z.eq_dec completed (zlen output)); [done|].
      destruct (Hcov current) as [b Hb]; [unfold end_; lia|done]. }
    exists output. unfold end_. rewrite Z.sub_diag, Z.add_0_r. split; [done|]. split; [done|].
    intros i Hi. destruct (Z.leb_spec (zlen output) (Z.of_nat i)); [lia|done].
  - apply Forall_cons in Hwf as [Hw Hwf]. apply StronglySorted_inv in Hs as [Hs Hall].
    destruct (Z.eqb_spec completed (zlen output)) as [->|Hne].
    { exists output. unfold end_. rewrite Z.sub_diag, Z.add_0_r. split; [done|]. split; [done|].
      intros i Hi. destruct (Z.leb_spec (zlen output) (Z.of_nat i)); [lia|done]. }
    destruct (Z.ltb_spec current (start_raw s)) as [Hlt|Hge].
    { destruct (Hcov current) as [b Hb]; [unfold end_; lia|].
      rewrite first_byte_above in Hb; [done|by constructor|]. constructor; [done|].
      eapply Forall_impl; [exact Hall|]. cbn. lia. }
    destruct (Z.leb_spec (end_raw s) current) as [Hpast|Hin].
    + destruct (IH output completed current Hwf Hs Hcomp Hmax Hcur Hend) as (output' & -> & Hlen & Hlk).
      { intros a Ha. destruct (Hcov a Ha) as [b Hb]. cbn in Hb.
        rewrite segment_byte_None in Hb by (done || lia). by eauto. }
      exists output'. split; [done|]. split; [done|]. intros i Hi. rewrite Hlk by done.
      destruct (Z.leb_spec completed (Z.of_nat i)); [|done]. cbn.
      by rewrite segment_byte_None by (done || lia).
    + destruct (copy_segment_eq failed s output completed current Hw ltac:(lia) ltac:(lia)
        Hmax ltac:(unfold end_ in Hend; lia)) as (output1 & -> & Hlen1 & Hlk1).
      set (n := Z.min (end_raw s - current) (zlen output - completed)) in *.
      destruct (IH output1 (completed + n) (current + n) Hwf Hs ltac:(lia) ltac:(lia) ltac:(lia))
        as (output' & -> & Hlen & Hlk).
      { unfold end_ in Hend. lia. }
      { intros a Ha. destruct (Hcov a) as [b Hb]; [unfold end_; lia|]. cbn in Hb.
        rewrite segment_byte_None in Hb by (done || lia). by eauto. }
      exists output'. split; [f_equal; f_equal; unfold end_; f_equal; lia|]. split; [lia|].
      intros i Hi. rewrite Hlk by lia. cbn.
      destruct (Z.leb_spec (completed + n) (Z.of_nat i)).
      * rewrite (proj2 (Z.leb_le completed (Z.of_nat i))) by lia.
        rewrite segment_byte_None by (done || lia). f_equal. lia.
      * rewrite Hlk1. destruct (Z.leb_spec completed (Z.of_nat i)); cbn [andb]; [|done].
        rewrite (proj2 (Z.ltb_lt _ _)) by lia.
        destruct (segment_byte s _) eqn:E; [done|]. exfalso.
        apply eq_None_not_Some in E. apply E. apply segment_byte_Some; [done|lia].
Qed.

(** A bundle read: the covered case and the other one. *)
Lemma read_into_covered b address output :
  Forall wf_segment (segments b) -> sorted (segments b) -> zlen output <= isize_max -> Gpa.raw address + zlen output <= 2 ^ 64 ->
  (forall i : nat, Z.of_nat i < zlen output ->
     is_Some (first_byte (segments b) (Gpa.raw address + Z.of_nat i))) ->
  exists output', read_into b address output = (Ok tt, output') /\
    zlen output' = zlen output /\
    forall i : nat, Z.of_nat i < zlen output ->
      output' !! i = first_byte (segments b) (Gpa.raw address + Z.of_nat i).
Proof.
  intros Hwf Hs Hmax Hend Hcov. unfold read_into.
  destruct (Z.eqb_spec (zlen output) 0) as [E|Hne].
  { exists output. split; [done|]. split; [done|]. lia. }
  pose proof (zlen_nonneg output).
  assert (Ha : 0 <= Gpa.raw address).
  { destruct (Hcov 0%nat) as [x Hx]; [lia|]. rewrite Z.add_0_r in Hx.
    by apply (first_byte_nonneg (segments b)). }
  replace (saturating_add 128 (Gpa.raw address) (zlen output)) with (Gpa.raw address + zlen output)
    by (unfold saturating_add; lia).
  replace (saturating_add 128 u64_max 1) with (2 ^ 64) by (vm_compute; done).
  destruct (Z.ltb_spec (2 ^ 64) (Gpa.raw address + zlen output)); [lia|].
  destruct (coverage_spec (segments b) (Gpa.raw address + zlen output) (Gpa.raw address)
    Hwf Hs ltac:(lia)) as (H1 & H2 & H3).
  set (c := coverage _ _ _) in *.
  destruct (Z.eqb_spec c (Gpa.raw address + zlen output)) as [Ec|Hc]; cbn [negb].
  2:{ exfalso. specialize (H3 ltac:(lia)). destruct (Hcov (Z.to_nat (c - Gpa.raw address))) as [x Hx];
        [lia|]. replace (Gpa.raw address + _) with c in Hx by lia. congruence. }
  destruct (copy_segments_spec (VmiError.ReadFailed (Gpa.raw address) (zlen output)) (segments b)
    output 0 (Gpa.raw address) Hwf Hs ltac:(lia) Hmax Ha ltac:(lia)) as (output' & -> & Hlen & Hlk).
  { intros a Ha'. specialize (Hcov (Z.to_nat (a - Gpa.raw address)) ltac:(lia)).
    by replace (Gpa.raw address + _) with a in Hcov by lia. }
  rewrite Hlen, Z.sub_0_r, !Z.eqb_refl. exists output'. split; [done|]. split; [done|].
  intros i Hi. rewrite Hlk by done. rewrite (proj2 (Z.leb_le 0 _)) by lia. f_equal. lia.
Qed.

Lemma read_into_uncovered b address output :
  Forall wf_segment (segments b) -> sorted (segments b) ->
  ~ (Gpa.raw address + zlen output <= 2 ^ 64 /\ forall i : nat, Z.of_nat i < zlen output ->
       is_Some (first_byte (segments b) (Gpa.raw address + Z.of_nat i))) ->
  zlen output <> 0 ->
  read_into b address output
    = (Err (VmiError.ReadFailed (Gpa.raw address) (zlen output)), output).
Proof.
  intros Hwf Hs Hno Hne. unfold read_into.
  rewrite (proj2 (Z.eqb_neq _ _) Hne). pose proof (zlen_nonneg output).
  replace (saturating_add 128 u64_max 1) with (2 ^ 64) by (vm_compute; done).
  destruct (Z.ltb_spec (2 ^ 64) (saturating_add 128 (Gpa.raw address) (zlen output))) as [|Hle]; [done|].
  assert (E : saturating_add 128 (Gpa.raw address) (zlen output) = Gpa.raw address + zlen output)
    by (unfold saturating_add in *; lia).
  rewrite E in *.
  destruct (coverage_spec (segments b) (Gpa.raw address + zlen output) (Gpa.raw address)
    Hwf Hs ltac:(lia)) as (H1 & H2 & H3).
  destruct (Z.eqb_spec (coverage (segments b) (Gpa.raw address + zlen output) (Gpa.raw address))
    (Gpa.raw address + zlen output)) as [Ec|]; cbn [negb]; [|done].
  exfalso. apply Hno. split; [done|]. intros i Hi. apply H2. rewrite Ec. lia.
Qed.

Lemma is_Some_byte_at segments a :
  is_Some (byte_at segments a) <-> a < 2 ^ 64 /\ is_Some (first_byte segments a).
Proof.
  unfold byte_at. destruct (Z.ltb_spec a (2 ^ 64)); split; try tauto; [intros [? [=]]|lia].
Qed.

(** A bundle sorted by address is a byte memory. *)
#[export] Instance bundle_byte_memory b :
  Forall wf_segment (segments b) -> sorted (segments b) ->
  ByteMemory (read_into b) (byte_at (segments b)).
Proof.
  intros Hwf Hs.
  assert (Hcov : forall address buffer, zlen buffer <= isize_max ->
    (forall i : nat, Z.of_nat i < zlen buffer ->
       is_Some (byte_at (segments b) (Gpa.raw address + Z.of_nat i))) ->
    exists buffer', read_into b address buffer = (Ok tt, buffer') /\
      length buffer' = length buffer /\
      forall i, (i < length buffer)%nat ->
        byte_at (segments b) (Gpa.raw address + Z.of_nat i) = buffer' !! i).
  { intros address buffer Hmax Hall.
    destruct (Z.eq_dec (zlen buffer) 0) as [E|Hne].
    { exists buffer. unfold read_into. rewrite E. cbn. split; [done|]. split; [done|].
      unfold zlen in E. lia. }
    assert (Hend : Gpa.raw address + zlen buffer <= 2 ^ 64).
    { pose proof (zlen_nonneg buffer). destruct (Hall (Z.to_nat (zlen buffer - 1))) as [x Hx]; [lia|].
      destruct (proj1 (is_Some_byte_at (segments b) _) (mk_is_Some _ _ Hx)). lia. }
    destruct (read_into_covered b address buffer Hwf Hs Hmax Hend) as (buffer' & -> & Hlen & Hlk).
    { intros i Hi. by apply is_Some_byte_at, Hall. }
    exists buffer'. split; [done|]. unfold zlen in *. split; [lia|]. intros i Hi.
    rewrite Hlk by lia. unfold byte_at.
    destruct (Z.ltb_spec (Gpa.raw address + Z.of_nat i) (2 ^ 64)); [done|lia]. }
  split.
  - intros address buffer buffer' Hmax Hread.
    destruct (decide (zlen buffer = 0)) as [E|Hne].
    { unfold read_into in Hread. rewrite E in Hread. injection Hread as <-.
      split; [done|]. unfold zlen in E. lia. }
    destruct (decide (Gpa.raw address + zlen buffer <= 2 ^ 64 /\
      Forall (fun i : nat => is_Some (first_byte (segments b) (Gpa.raw address + Z.of_nat i)))
        (seq 0 (length buffer)))) as [[Hend Hall]|Hno].
    + destruct (Hcov address buffer Hmax) as (buffer1 & Hr & ? & ?).
      { intros i Hi. apply is_Some_byte_at. split; [lia|]. rewrite Forall_forall in Hall.
        apply Hall, elem_of_seq. unfold zlen in Hi. lia. }
      rewrite Hr in Hread. by injection Hread as <-.
    + rewrite read_into_uncovered in Hread; [done..| |done].
      intros [Hend Hall]. apply Hno. split; [done|]. apply Forall_forall.
      intros i Hi%elem_of_seq. apply Hall. unfold zlen. lia.
  - intros address buffer bytes Hl Hmax Hb.
    destruct (Hcov address buffer Hmax) as (buffer' & -> & Hlen & Hlk).
    { intros i Hi. rewrite Hb by (unfold zlen in Hi; lia). apply lookup_lt_is_Some.
      unfold zlen in Hi. lia. }
    f_equal. apply list_eq_same_length with (length bytes); [lia|lia|].
    intros i x y Hi Hx Hy. rewrite <- Hlk, Hb in Hx by lia. congruence.
Qed.
(** A read of bytes some of which are missing. *)
Lemma read_into_refused b address output :
  Forall wf_segment (segments b) -> sorted (segments b) ->
  ~ (forall i, (i < length output)%nat -> is_Some (byte_at (segments b) (Gpa.raw address + Z.of_nat i))) ->
  read_into b address output = (Err (VmiError.ReadFailed (Gpa.raw address) (zlen output)), output).
Proof.
  intros Hwf Hs Hno. apply read_into_uncovered; [done..| |].
  - intros [Hend Hall]. apply Hno. intros i Hi. apply is_Some_byte_at.
    unfold zlen in *. split; [lia|]. apply Hall. lia.
  - intros E. apply Hno. intros i Hi. unfold zlen in E. lia.
Qed.
End bundle_lemmas.

(** * Properties *)

(** C13: a snapshot read is all or nothing.  On a bundle whose segments are in
    order of address, a read succeeds exactly when every byte asked for lies
    below 2^64 in some segment, across any number of adjacent segments, and
    then fills the buffer with those bytes; otherwise it reports the address
    and length and leaves the buffer untouched. *)
Theorem snapshot_read_all_or_nothing (b : SnapshotBundle.t) (address : Gpa.t)
    (output : list byte)
    (Hwf : Forall BundleSpec.wf_segment (SnapshotBundle.segments b))
    (Hsorted : BundleSpec.sorted (SnapshotBundle.segments b))
    (Hlen : zlen output <= isize_max) :
  let byte_at := BundleSpec.byte_at (SnapshotBundle.segments b) in
  let available := forall i, (i < length output)%nat ->
    is_Some (byte_at (Gpa.raw address + Z.of_nat i)) in
  (available -> exists output', SnapshotBundle.read_into b address output = (Ok tt, output') /\
     length output' = length output /\
     forall i, (i < length output)%nat ->
       byte_at (Gpa.raw address + Z.of_nat i) = output' !! i) /\
  (~ available -> SnapshotBundle.read_into b address output
     = (Err (VmiError.ReadFailed (Gpa.raw address) (zlen output)), output)).
Proof.
  intros byte_at available. pose proof (bundle_byte_memory b Hwf Hsorted) as Hmem. split.
  - intros Hall. destruct (list_of_family _ _ Hall) as (bytes & Hb & Hfam).
    exists bytes. split; [|done]. apply byte_memory_read; [done|done|]. rewrite Hb. exact Hfam.
  - by apply read_into_refused.
Qed.

Definition example_bundle : SnapshotBundle.t :=
  SnapshotBundle.mk (ArtifactProvenance.mk "lime" "example")
    [SnapshotSegment.new (Gpa.new 0x1000) [x61; x62];
     SnapshotSegment.new (Gpa.new 0x1002) [x63; x64]].

(** A read across two adjacent segments. *)
Lemma snapshot_read_all_or_nothing_witness :
  exists output', SnapshotBundle.read_into example_bundle (Gpa.new 0x1001) [x00; x00]
    = (Ok tt, output') /\ length output' = 2%nat.
Proof.
  destruct (snapshot_read_all_or_nothing example_bundle (Gpa.new 0x1001) [x00; x00]) as [Hok _].
  - repeat constructor; vm_compute; discriminate.
  - repeat constructor; vm_compute; discriminate.
  - vm_compute. discriminate.
  - destruct Hok as (output' & Hr & Hl & _).
    + intros [|[|i]] Hi; [vm_compute; eauto|vm_compute; eauto|cbn in Hi; lia].
    + exists output'. exact (conj Hr Hl).
Defined.
