(* ===== verification/ArtifactFormats.v ===== *)
(** * Snapshot file formats ([crates/vmi-artifact])

    The decoders of raw, ELF, LiME and Windows crash dump images, each from
    the bytes of the file to a bundle of segments. *)

From S2P Require Import Prelude.
From S2P Require Import Types.
From S2P Require Import Artifact.

(** ** Fields *)

Definition read_array (n : Z) (data : list byte) (offset : Z) : Result (list byte) :=
  let? end_ := ok_or (checked_add 64 offset n) (Backend "artifact field offset overflow") in
  ok_or (get_range data offset end_) (Backend "truncated artifact field").

Definition read_u16 (data : list byte) (offset : Z) : Result Z :=
  let? bs := read_array 2 data offset in Ok (le_val bs).
Definition read_u32 (data : list byte) (offset : Z) : Result Z :=
  let? bs := read_array 4 data offset in Ok (le_val bs).
Definition read_u64 (data : list byte) (offset : Z) : Result Z :=
  let? bs := read_array 8 data offset in Ok (le_val bs).

Definition add_offset (base delta : Z) : Result Z :=
  ok_or (checked_add 64 base delta) (Backend "artifact field offset overflow").

(** [data.get(a..b) == Some(tag)]. *)
Definition has_tag (data : list byte) (a b : Z) (tag : string) : bool :=
  bool_decide (get_range data a b = Some (bytes_of_string tag)).

(** ** Windows crash dump metadata *)

Module KdmpMetadata.
Record t : Type := mk {
  major_version : Z;
  minor_version : Z;
  directory_table_base : Z;
  pfn_database : Z;
  loaded_module_list : Z;
  active_process_head : Z;
  machine_type : Z;
  processor_count : Z;
  bugcheck_code : Z;
  bugcheck_parameters : list Z;
  debugger_data_block : Z;
}.

Definition parse (data : list byte) : Result t :=
  if (zlen data <? 0x2000) || negb (starts_with data (bytes_of_string "PAGE"))
     || negb (has_tag data 4 8 "DU64")
  then Err (Backend "artifact is not a legacy AMD64 PAGE/DU64 crash dump")
  else
    let? machine_type := read_u32 data 0x30 in
    if negb (machine_type =? 0x8664) then
      Err (Backend ("unsupported KDMP machine type " +:+ hex machine_type))
    else
      let? major_version := read_u32 data 0x08 in
      let? minor_version := read_u32 data 0x0c in
      let? directory_table_base := read_u64 data 0x10 in
      let? pfn_database := read_u64 data 0x18 in
      let? loaded_module_list := read_u64 data 0x20 in
      let? active_process_head := read_u64 data 0x28 in
      let? processor_count := read_u32 data 0x34 in
      let? bugcheck_code := read_u32 data 0x38 in
      let? p0 := read_u64 data 0x40 in
      let? p1 := read_u64 data 0x48 in
      let? p2 := read_u64 data 0x50 in
      let? p3 := read_u64 data 0x58 in
      let? debugger_data_block := read_u64 data 0x80 in
      Ok (mk major_version minor_version directory_table_base pfn_database loaded_module_list
            active_process_head machine_type processor_count bugcheck_code [p0; p1; p2; p3]
            debugger_data_block).
End KdmpMetadata.

Section formats.
Context `{Allocator}.

Definition reserve_segment (values : list SnapshotSegment.t) (format : string) : Result unit :=
  map_err (fun error => Backend ("failed to grow " +:+ format +:+ " segment table: " +:+ error))
    (try_reserve (format +:+ " segment table") (zlen values + 1)).

(** The check every decoder ends with: sort by address, then refuse
    overlapping neighbours. *)
Definition sort_checked (message : string) (segments : list SnapshotSegment.t)
    : Result (list SnapshotSegment.t) :=
  let segments := sort_by_key SnapshotSegment.start_raw segments in
  if existsb (fun '(l, r) =>
       ranges_overlap (SnapshotSegment.range l) (SnapshotSegment.range r))
     (windows2 segments)
  then Err (Backend message) else Ok segments.

(** ** Raw images *)

Definition from_raw (source : string) (base : Gpa.t) (data : list byte) : SnapshotBundle.t :=
  SnapshotBundle.mk (ArtifactProvenance.mk "raw" source) [SnapshotSegment.new base data].

Definition try_from_raw (source : string) (base : Gpa.t) (data : list byte)
    : Result SnapshotBundle.t :=
  let? length := ok_or (try_width 64 (zlen data))
    (Backend "raw artifact length does not fit the physical address model") in
  let end_ := saturating_add 128 (Gpa.raw base) length in
  if saturating_add 128 u64_max 1 <? end_ then
    Err (Backend ("raw artifact at " +:+ gpa_display base
           +:+ " extends beyond the physical address space"))
  else Ok (from_raw source base data).

(** ** ELF core files *)

Definition elf_magic : list byte := [x7f; x45; x4c; x46].

(** One program header; the state is the memory decoded so far. *)
Definition elf_entry (data : list byte) (format : string)
    (program_offset entry_size max_memory_size index : Z)
    (st : Z * list SnapshotSegment.t) : Result (flow (Z * list SnapshotSegment.t)) :=
  let '(total_memory_size, segments) := st in
  let? product := ok_or (checked_mul 64 index entry_size) (Backend "ELF program table overflow") in
  let? offset := ok_or (checked_add 64 program_offset product)
    (Backend "ELF program table overflow") in
  let? offset := ok_or (try_width 64 offset) (Backend "ELF program header offset is too large") in
  let? kind := read_u32 data offset in
  if negb (kind =? 1) then Ok (Continue st)
  else
    let? o8 := add_offset offset 8 in
    let? file_offset := read_u64 data o8 in
    let? o24 := add_offset offset 24 in
    let? physical := read_u64 data o24 in
    let? o32 := add_offset offset 32 in
    let? file_size := read_u64 data o32 in
    let? o40 := add_offset offset 40 in
    let? memory_size := read_u64 data o40 in
    if memory_size <? file_size then
      Err (Backend "ELF segment file size exceeds memory size")
    else
      let? total_memory_size := ok_or (checked_add 64 total_memory_size memory_size)
        (Backend "ELF decoded memory size overflow") in
      if max_memory_size <? total_memory_size then
        Err (Backend ("ELF decoded memory exceeds " +:+ dec max_memory_size +:+ " bytes"))
      else
        let? file_start := ok_or (try_width 64 file_offset)
          (Backend "ELF segment offset is too large") in
        let? file_len := ok_or (try_width 64 file_size)
          (Backend "ELF segment file size is too large") in
        let? memory_len := ok_or (try_width 64 memory_size)
          (Backend "ELF segment memory size is too large") in
        let? file_end := ok_or (checked_add 64 file_start file_len)
          (Backend "ELF segment range overflow") in
        let? source_bytes := ok_or (get_range data file_start file_end)
          (Backend "ELF segment extends beyond artifact") in
        let? _ := map_err (fun error => Backend ("failed to allocate ELF segment: " +:+ error))
          (try_reserve "ELF segment" memory_len) in
        let? bytes := ok_or
          (put_range (replicate (Z.to_nat memory_len) x00) 0 file_len source_bytes)
          (Backend "ELF segment buffer is too small") in
        let? _ := reserve_segment segments format in
        Ok (Continue (total_memory_size,
                      segments ++ [SnapshotSegment.new (Gpa.new physical) bytes])).

Definition from_elf_with_limits (source : string) (data : list byte) (format : string)
    (max_memory_size : Z) : Result SnapshotBundle.t :=
  if max_memory_size =? 0 then
    Err (Backend "maximum ELF decoded memory size must be non-zero")
  else if (zlen data <? 64) || negb (starts_with data elf_magic)
          || negb (bool_decide (data !! 4%nat = Some x02))
          || negb (bool_decide (data !! 5%nat = Some x01))
  then Err (Backend "artifact is not little-endian ELF64")
  else
    let? program_offset := read_u64 data 32 in
    let? entry_size := read_u16 data 54 in
    let? entry_count := read_u16 data 56 in
    if entry_size <? 56 then
      Err (Backend ("ELF program header size " +:+ dec entry_size +:+ " is too small"))
    else
      let? ' (_, segments) := for_range entry_count
        (elf_entry data format program_offset entry_size max_memory_size) (0, []) in
      if zlen segments =? 0 then Err (Backend "ELF artifact contains no PT_LOAD segments")
      else
        let? segments := sort_checked "ELF PT_LOAD physical ranges overlap" segments in
        Ok (SnapshotBundle.mk (ArtifactProvenance.mk format source) segments).

Definition from_elf_vmcore (source : string) (data : list byte) : Result SnapshotBundle.t :=
  from_elf_with_limits source data "elf-vmcore" DEFAULT_MAX_ARTIFACT_SIZE.
Definition from_xen_core (source : string) (data : list byte) : Result SnapshotBundle.t :=
  from_elf_with_limits source data "xen-core" DEFAULT_MAX_ARTIFACT_SIZE.

(** ** LiME *)

Definition LIME_HEADER_SIZE : Z := 32.
Definition LIME_MAGIC : Z := 0x4c694d45.

(** One range header with its data; the state is the cursor and what was
    decoded before it. *)
Definition lime_range (data : list byte) (cursor : Z) (segments : list SnapshotSegment.t)
    : Result (Z * list SnapshotSegment.t) :=
  let? header_end := ok_or (checked_add 64 cursor LIME_HEADER_SIZE)
    (Backend "LiME header offset overflow") in
  if zlen data <? header_end then Err (Backend "truncated LiME range header")
  else
    let? magic := read_u32 data cursor in
    if negb (magic =? LIME_MAGIC) then
      Err (Backend ("invalid LiME magic at offset " +:+ dec cursor))
    else
      let? o4 := add_offset cursor 4 in
      let? version := read_u32 data o4 in
      if negb (version =? 1) then
        Err (Backend ("unsupported LiME version " +:+ dec version))
      else
        let? o8 := add_offset cursor 8 in
        let? start := read_u64 data o8 in
        let? o16 := add_offset cursor 16 in
        let? end_ := read_u64 data o16 in
        let? length := ok_or
          (match checked_sub end_ start with
           | Some value => checked_add 64 value 1
           | None => None
           end)
          (Backend ("invalid LiME range " +:+ hex start +:+ "..=" +:+ hex end_)) in
        let? length := ok_or (try_width 64 length) (Backend "LiME range is too large") in
        let? data_end := ok_or (checked_add 64 header_end length)
          (Backend "LiME range offset overflow") in
        let? bytes := ok_or (get_range data header_end data_end)
          (Backend "LiME range extends beyond artifact") in
        let? _ := reserve_segment segments "LiME" in
        Ok (data_end, segments ++ [SnapshotSegment.new (Gpa.new start) bytes]).

Definition lime_step (data : list byte) (st : Z * list SnapshotSegment.t)
    : (Z * list SnapshotSegment.t) + Result (list SnapshotSegment.t) :=
  let '(cursor, segments) := st in
  if negb (cursor <? zlen data) then inr (Ok segments)
  else
    match lime_range data cursor segments with
    | Err e => inr (Err e)
    | Ok st' => inl st'
    end.

(** Every round moves the cursor past a header, so [len + 1] rounds are enough. *)
Definition from_lime (source : string) (data : list byte) : Result SnapshotBundle.t :=
  let? segments := run_loop (Z.to_pos (zlen data + 1)) (lime_step data)
    (fun _ => Err (Backend "model fuel exhausted")) (0, []) in
  if zlen segments =? 0 then Err (Backend "LiME artifact contains no ranges")
  else
    let? segments := sort_checked "LiME physical ranges overlap" segments in
    Ok (SnapshotBundle.mk (ArtifactProvenance.mk "lime" source) segments).

(** ** Windows crash dumps *)

Definition KDMP_HEADER_SIZE : Z := 0x2000.
Definition KDMP_DESCRIPTOR_OFFSET : Z := 0x88.
Definition KDMP_RUNS_OFFSET : Z := 0x98.
Definition KDMP_RUN_SIZE : Z := 16.
Definition KDMP_PAGE_SIZE : Z := 4096.

(** One physical run of a legacy dump: the state is the payload offset, the
    pages counted and the segments. *)
Definition kdmp_run (data : list byte) (index : Z) (st : Z * Z * list SnapshotSegment.t)
    : Result (flow (Z * Z * list SnapshotSegment.t)) :=
  let '(payload_offset, actual_pages, segments) := st in
  let? run_offset := ok_or
    (match checked_mul 64 index KDMP_RUN_SIZE with
     | Some offset => checked_add 64 KDMP_RUNS_OFFSET offset
     | None => None
     end) (Backend "KDMP run-table offset overflow") in
  let? base_page := read_u64 data run_offset in
  let? o8 := add_offset run_offset 8 in
  let? page_count := read_u64 data o8 in
  if page_count =? 0 then
    Err (Backend ("KDMP physical run " +:+ dec index +:+ " is empty"))
  else
    let? actual_pages := ok_or (checked_add 64 actual_pages page_count)
      (Backend "KDMP page count overflow") in
    let? gpa := ok_or (checked_mul 64 base_page KDMP_PAGE_SIZE)
      (Backend "KDMP physical address overflow") in
    let? byte_length := ok_or (checked_mul 64 page_count KDMP_PAGE_SIZE)
      (Backend "KDMP run length overflow") in
    let? length := ok_or (try_width 64 byte_length) (Backend "KDMP run is too large") in
    let? payload_end := ok_or (checked_add 64 payload_offset length)
      (Backend "KDMP payload offset overflow") in
    let? bytes := ok_or (get_range data payload_offset payload_end)
      (Backend ("KDMP physical run " +:+ dec index +:+ " exceeds artifact")) in
    let? _ := reserve_segment segments "legacy KDMP" in
    Ok (Continue (payload_end, actual_pages,
                  segments ++ [SnapshotSegment.new (Gpa.new gpa) bytes])).

Definition bitmap_page (data bitmap : list byte) (pfn : Z)
    (st : Z * Z * list SnapshotSegment.t) : Result (flow (Z * Z * list SnapshotSegment.t)) :=
  let '(payload, found, segments) := st in
  let? bitmap_index := ok_or (try_width 64 (pfn / 8)) (Backend "bitmap KDMP PFN is too large") in
  let? bitmap_byte := ok_or (bitmap !! Z.to_nat bitmap_index)
    (Backend "bitmap KDMP PFN exceeds its bitmap") in
  if Z.land (byte_val bitmap_byte) (Z.shiftl 1 (pfn mod 8)) =? 0 then Ok (Continue st)
  else
    let? end_ := ok_or (checked_add 64 payload KDMP_PAGE_SIZE)
      (Backend "bitmap KDMP payload overflow") in
    let? bytes := ok_or (get_range data payload end_)
      (Backend "bitmap KDMP page exceeds artifact") in
    let? _ := reserve_segment segments "bitmap KDMP" in
    let? gpa := ok_or (checked_mul 64 pfn KDMP_PAGE_SIZE)
      (Backend "bitmap KDMP physical address overflow") in
    let? found := ok_or (checked_add 64 found 1) (Backend "bitmap KDMP page count overflow") in
    Ok (Continue (end_, found, segments ++ [SnapshotSegment.new (Gpa.new gpa) bytes])).

Definition from_bitmap_kdmp (source : string) (data : list byte) : Result SnapshotBundle.t :=
  let HEADER := KDMP_HEADER_SIZE in
  if negb (has_tag data (HEADER + 4) (HEADER + 8) "DUMP") then
    Err (Backend "invalid bitmap KDMP marker")
  else
    let? raw_first_page := read_u64 data (HEADER + 0x20) in
    let? first_page := ok_or (try_width 64 raw_first_page)
      (Backend "bitmap KDMP first-page offset is too large") in
    let? present := read_u64 data (HEADER + 0x28) in
    let? pages := read_u64 data (HEADER + 0x30) in
    if (pages =? 0) || (pages <? present) then Err (Backend "invalid bitmap KDMP page counts")
    else
      let? bitmap_len := ok_or (try_width 64 (div_ceil pages 8))
        (Backend "bitmap KDMP bitmap is too large") in
      let? bitmap_start := ok_or (checked_add 64 HEADER 0x38)
        (Backend "bitmap KDMP table offset overflow") in
      let? bitmap_end := ok_or (checked_add 64 bitmap_start bitmap_len)
        (Backend "bitmap KDMP table range overflow") in
      let? bitmap := ok_or (get_range data bitmap_start bitmap_end)
        (Backend "truncated bitmap KDMP bitmap") in
      if first_page <? bitmap_end then Err (Backend "bitmap KDMP payload overlaps its bitmap")
      else
        let? ' (_, found, segments) :=
          for_range pages (bitmap_page data bitmap) (first_page, 0, []) in
        if negb (found =? present) then
          Err (Backend ("bitmap KDMP declares " +:+ dec present
                 +:+ " present pages but bitmap contains " +:+ dec found))
        else
          Ok (SnapshotBundle.mk (ArtifactProvenance.mk "windows-kdmp-bitmap" source) segments).

Definition RDMP_RANGES : Z := 0x2030.

Definition rdmp_range (data : list byte) (index : Z) (st : Z * list SnapshotSegment.t)
    : Result (flow (Z * list SnapshotSegment.t)) :=
  let '(payload, segments) := st in
  let? product := ok_or (checked_mul 64 index 16) (Backend "RDMP KDMP range-table overflow") in
  let? offset := ok_or (checked_add 64 RDMP_RANGES product)
    (Backend "RDMP KDMP range-table overflow") in
  let? base_page := read_u64 data offset in
  let? o8 := add_offset offset 8 in
  let? page_count := read_u64 data o8 in
  if base_page =? 0 then Ok (Break st)
  else if page_count =? 0 then
    Err (Backend ("RDMP KDMP physical range " +:+ dec index +:+ " is empty"))
  else
    let? gpa := ok_or (checked_mul 64 base_page KDMP_PAGE_SIZE)
      (Backend "RDMP KDMP physical address overflow") in
    let? byte_length := ok_or (checked_mul 64 page_count KDMP_PAGE_SIZE)
      (Backend "RDMP KDMP range length overflow") in
    let? length := ok_or (try_width 64 byte_length) (Backend "RDMP KDMP range is too large") in
    let? end_ := ok_or (checked_add 64 payload length) (Backend "RDMP KDMP payload overflow") in
    let? bytes := ok_or (get_range data payload end_)
      (Backend ("RDMP KDMP physical range " +:+ dec index +:+ " exceeds artifact")) in
    let? _ := reserve_segment segments "RDMP KDMP" in
    Ok (Continue (end_, segments ++ [SnapshotSegment.new (Gpa.new gpa) bytes])).

Definition from_rdmp_kdmp (source : string) (data : list byte) : Result SnapshotBundle.t :=
  let HEADER := KDMP_HEADER_SIZE in
  if negb (has_tag data (HEADER + 8) (HEADER + 12) "DUMP") then
    Err (Backend "invalid RDMP KDMP marker")
  else
    let? metadata_size := read_u64 data (HEADER + 0x10) in
    let? first_page := read_u64 data (HEADER + 0x18) in
    let? valid :=
      (if (metadata_size <? 0x20) || negb (metadata_size mod 16 =? 0) then Ok false
       else
         let? expected := ok_or (checked_add 64 metadata_size 0x2020)
           (Backend "RDMP KDMP metadata offset overflow") in
         Ok (first_page =? expected)) in
    if negb valid then Err (Backend "invalid RDMP KDMP metadata layout")
    else
      let? range_count := ok_or (try_width 64 (metadata_size / 16))
        (Backend "RDMP KDMP range table is too large") in
      let? payload := ok_or (try_width 64 first_page)
        (Backend "RDMP KDMP payload offset is too large") in
      if zlen data <? payload then Err (Backend "RDMP KDMP payload exceeds artifact")
      else
        let? ' (_, segments) := for_range range_count (rdmp_range data) (payload, []) in
        if zlen segments =? 0 then Err (Backend "RDMP KDMP contains no physical ranges")
        else
          let? segments := sort_checked "RDMP KDMP physical ranges overlap" segments in
          Ok (SnapshotBundle.mk (ArtifactProvenance.mk "windows-kdmp-rdmp" source) segments).

Definition from_kdmp (source : string) (data : list byte) : Result SnapshotBundle.t :=
  let HEADER_SIZE := KDMP_HEADER_SIZE in
  if (zlen data <? HEADER_SIZE) || negb (starts_with data (bytes_of_string "PAGE"))
     || negb (has_tag data 4 8 "DU64")
  then Err (Backend "artifact is not a legacy AMD64 PAGE/DU64 crash dump")
  else if has_tag data HEADER_SIZE (HEADER_SIZE + 4) "SDMP"
          || has_tag data HEADER_SIZE (HEADER_SIZE + 4) "FDMP"
  then from_bitmap_kdmp source data
  else
    let? marker := read_u32 data HEADER_SIZE in
    if (marker =? 0x40) && has_tag data (HEADER_SIZE + 4) (HEADER_SIZE + 8) "RDMP"
    then from_rdmp_kdmp source data
    else
      let? machine := read_u32 data 0x30 in
      if negb (machine =? 0x8664) then
        Err (Backend ("unsupported KDMP machine type " +:+ hex machine))
      else
        let? raw_run_count := read_u32 data KDMP_DESCRIPTOR_OFFSET in
        let? run_count := ok_or (try_width 64 raw_run_count)
          (Backend "KDMP run count does not fit this host") in
        let? declared_pages := read_u64 data (KDMP_DESCRIPTOR_OFFSET + 8) in
        let maximum_runs := (HEADER_SIZE - KDMP_RUNS_OFFSET) / KDMP_RUN_SIZE in
        if (run_count =? 0) || (maximum_runs <? run_count) then
          Err (Backend ("invalid KDMP physical run count " +:+ dec run_count))
        else
          let? _ := map_err (fun error =>
              Backend ("failed to allocate KDMP run table: " +:+ error))
            (try_reserve "KDMP run table" run_count) in
          let? ' (_, actual_pages, segments) :=
            for_range run_count (kdmp_run data) (HEADER_SIZE, 0, []) in
          if negb (actual_pages =? declared_pages) then
            Err (Backend ("KDMP declares " +:+ dec declared_pages
                   +:+ " pages but runs contain " +:+ dec actual_pages))
          else
            let? segments := sort_checked "KDMP physical memory runs overlap" segments in
            Ok (SnapshotBundle.mk (ArtifactProvenance.mk "windows-kdmp" source) segments).
End formats.
