(* ===== verification/ArtifactFacts.v ===== *)
(** * What the snapshot decoders guarantee ([crates/vmi-artifact])

    Decoded bundles are sorted, and disjoint where the decoder refuses
    empty ranges; page and memory totals are accounted for; LiME images
    round trip. *)

From S2P Require Import Prelude.
From S2P Require Import Types.
From S2P Require Import DriverApi.
From S2P Require Import Artifact.
From S2P Require Import ArtifactFormats.

(** ** Fields *)

Lemma read_array_range n data offset bs :
  read_array n data offset = Ok bs -> 0 <= offset /\ zlen bs = n /\ offset + n <= zlen data.
Proof.
  unfold read_array. intros Hr. inv_ok. inv_checked. pose proof Hr as Hg.
  apply zlen_get_range in Hr. apply get_range_Some in Hg as (? & ? & _). lia.
Qed.

Lemma read_u64_range data offset v : read_u64 data offset = Ok v -> in_u64 v.
Proof.
  unfold read_u64. intros Hr. inv_ok. subst v. apply read_array_range in Hm as (_ & Hl & _).
  pose proof (le_val_range v0) as Hv. rewrite Hl in Hv. exact Hv.
Qed.

Lemma read_u32_range data offset v : read_u32 data offset = Ok v -> in_u32 v.
Proof.
  unfold read_u32. intros Hr. inv_ok. subst v. apply read_array_range in Hm as (_ & Hl & _).
  pose proof (le_val_range v0) as Hv. rewrite Hl in Hv. exact Hv.
Qed.

Lemma read_u16_range data offset v : read_u16 data offset = Ok v -> in_u16 v.
Proof.
  unfold read_u16. intros Hr. inv_ok. subst v. apply read_array_range in Hm as (_ & Hl & _).
  pose proof (le_val_range v0) as Hv. rewrite Hl in Hv. exact Hv.
Qed.

(** A field in the middle of the data. *)
Lemma read_array_mid pre m post offset :
  offset = zlen pre -> zlen pre + zlen m < 2 ^ 64 ->
  read_array (zlen m) (pre ++ m ++ post) offset = Ok m.
Proof.
  intros -> Hfit. unfold read_array. rewrite checked_add_fits by lia. cbn [ok_or mbind result_bind].
  by rewrite get_range_mid.
Qed.

(** ** Segments *)

Section segments.
Import SnapshotSegment BundleSpec.

Lemma new_wf a bs : in_u64 a -> zlen bs <= isize_max -> wf_segment (new (Gpa.new a) bs).
Proof.
  intros Ha Hl. unfold wf_segment, new, start_raw. cbn.
  rewrite try_width_fits by (unfold isize_max in Hl; lia). done.
Qed.

Definition nonempty (s : t) : Prop := 0 < zlen (data s).

(** In order, and no byte shared. *)
Definition disjoint (segments : list t) : Prop :=
  StronglySorted (fun x y => end_raw x <= start_raw y) segments.

Lemma disjoint_sorted segments :
  Forall wf_segment segments -> disjoint segments -> sorted segments.
Proof.
  intros Hwf Hd. induction Hd as [|s l Hd IH Hall]; [constructor|].
  apply Forall_cons in Hwf as [Hs Hwf]. constructor; [by apply IH|].
  eapply Forall_impl; [exact Hall|]. cbn. intros x Hx. rewrite end_raw_eq in Hx by done.
  pose proof (zlen_nonneg (data s)). lia.
Qed.

Lemma not_overlap_nonempty x y :
  wf_segment x -> wf_segment y -> nonempty y -> start_raw x <= start_raw y ->
  ranges_overlap (range x) (range y) = false -> end_raw x <= start_raw y.
Proof.
  intros Hx Hy Hn Hle Ho. unfold ranges_overlap in Ho.
  fold (start_raw x) (start_raw y) (end_raw x) (end_raw y) in Ho.
  pose proof (end_raw_eq y Hy) as E. unfold nonempty in Hn.
  apply andb_false_iff in Ho as [Ho|Ho]; apply Z.ltb_ge in Ho; lia.
Qed.

Lemma windows2_disjoint l :
  Forall wf_segment l -> Forall nonempty l -> sorted l ->
  existsb (fun '(x, y) => ranges_overlap (range x) (range y)) (windows2 l) = false ->
  disjoint l.
Proof.
  intros Hwf Hne Hs Ho.
  assert (Hsorted : Sorted (fun x y => end_raw x <= start_raw y) l).
  { induction l as [|x [|y l] IH]; [constructor|repeat constructor|].
    rewrite windows2_cons2 in Ho. cbn [existsb] in Ho. apply orb_false_iff in Ho as [Ho1 Ho2].
    apply Forall_cons in Hwf as [Hx Hwf]. apply Forall_cons in Hne as [_ Hne].
    apply StronglySorted_inv in Hs as [Hs Hall].
    constructor; [by apply IH|]. constructor.
    apply Forall_cons in Hall as [Hxy _]. apply Forall_cons in Hwf as [Hy _].
    apply Forall_cons in Hne as [Hny _]. by apply not_overlap_nonempty. }
  clear Ho. induction Hsorted as [|x l Hso IH Hhd]; [constructor|].
  apply Forall_cons in Hwf as [Hx Hwf]. apply Forall_cons in Hne as [_ Hne].
  apply StronglySorted_inv in Hs as [Hs Hall].
  constructor; [by apply IH|]. destruct Hhd as [|y l Hxy]; [constructor|].
  apply StronglySorted_inv in Hs as [_ Hall'].
  constructor; [done|]. eapply Forall_impl; [exact Hall'|]. cbn. lia.
Qed.
End segments.

Section facts.
Context `{Allocator}.
Import SnapshotSegment BundleSpec.

Lemma sort_checked_Ok message segs segs' :
  sort_checked message segs = Ok segs' ->
  segs' ≡ₚ segs /\ sorted segs' /\
  existsb (fun '(x, y) => ranges_overlap (range x) (range y)) (windows2 segs') = false.
Proof.
  unfold sort_checked. destruct (existsb _ _) eqn:E; [done|]. intros [= <-].
  split; [apply sort_by_key_Permutation|]. split; [apply sort_by_key_sorted|exact E].
Qed.

Lemma sort_checked_disjoint message segs segs' :
  sort_checked message segs = Ok segs' ->
  Forall wf_segment segs -> Forall nonempty segs ->
  segs' ≡ₚ segs /\ Forall wf_segment segs' /\ disjoint segs'.
Proof.
  intros Hs Hwf Hne. apply sort_checked_Ok in Hs as (Hp & Hs & Ho). split; [done|].
  assert (Forall wf_segment segs') by (by rewrite Hp). split; [done|].
  apply windows2_disjoint; [done| |done|done]. by rewrite Hp.
Qed.

(** Sorting keeps a list that is already in order; refusing nothing there. *)
Lemma sort_checked_disjoint_id message segs :
  Forall wf_segment segs -> disjoint segs -> sort_checked message segs = Ok segs.
Proof.
  intros Hwf Hd. unfold sort_checked. rewrite sort_by_key_id by (by apply disjoint_sorted).
  assert (existsb (fun '(x, y) => ranges_overlap (range x) (range y)) (windows2 segs) = false) as ->; [|done].
  induction Hd as [|x l Hd IH Hall]; [done|]. apply Forall_cons in Hwf as [Hx Hwf].
  destruct l as [|y l]; [done|]. rewrite windows2_cons2. cbn [existsb].
  apply orb_false_iff. split; [|by apply IH].
  apply Forall_cons in Hall as [Hxy _]. unfold ranges_overlap.
  fold (start_raw x) (start_raw y) (end_raw x) (end_raw y).
  apply andb_false_iff. right. apply Z.ltb_ge. exact Hxy.
Qed.

(** ** LiME *)

Lemma lime_range_Ok data cursor segs cursor' segs' :
  zlen data <= isize_max -> 0 <= cursor -> lime_range data cursor segs = Ok (cursor', segs') ->
  cursor < cursor' /\ exists s, segs' = segs ++ [s] /\ wf_segment s /\ nonempty s.
Proof.
  intros Hmax Hc. unfold lime_range, add_offset. intros Hr. inv_ok. inv_checked.
  destruct (zlen data <? _); [done|]. inv_ok. destruct (negb _); [done|]. inv_ok.
  destruct (negb _); [done|]. inv_ok. inv_checked.
  destruct (checked_sub v5 v3) as [d|] eqn:Hd; [|done]. inv_checked.
  pose proof Hm10 as Hb. apply zlen_get_range in Hb. pose proof Hm10 as Hg.
  apply get_range_Some in Hg as (? & ? & _).
  apply read_u64_range in Hm4. unfold LIME_HEADER_SIZE in *. simplify_eq.
  split; [lia|]. eexists. split; [done|]. split.
  - apply new_wf; [done|lia].
  - unfold nonempty, new. cbn. lia.
Qed.

Definition decoded (segs : list t) : Prop := Forall wf_segment segs /\ Forall nonempty segs.

Lemma decoded_snoc segs s : decoded segs -> wf_segment s -> nonempty s -> decoded (segs ++ [s]).
Proof. intros [H1 H2] Hs Hn. split; apply Forall_app; split; auto. Qed.

Lemma sort_checked_decoded message segs segs' :
  sort_checked message segs = Ok segs' -> decoded segs ->
  segs' ≡ₚ segs /\ decoded segs' /\ disjoint segs'.
Proof.
  intros Hs [Hwf Hne]. destruct (sort_checked_disjoint message segs segs' Hs Hwf Hne) as (Hp & Hw & Hd).
  split; [done|]. split; [|done]. split; [done|]. by rewrite Hp.
Qed.

(** The LiME loop ends by itself before its iterations run out. *)
Lemma lime_loop_total data :
  zlen data <= isize_max ->
  exists r, loop_pos (Z.to_pos (zlen data + 1)) (lime_step data) (0, []) = inr r /\
    match r with Ok segs => decoded segs | Err _ => True end.
Proof.
  intros Hmax.
  apply (loop_pos_total (fun st => 0 <= st.1 /\ decoded st.2)
    (fun r => match r with Ok segs => decoded segs | Err _ => True end)
    (fun st => Z.max 0 (zlen data - st.1))).
  - split; [done|]. split; constructor.
  - cbn. pose proof (zlen_nonneg data). lia.
  - lia.
  - intros [cursor segs0] [Hc Hd]. cbn in Hc, Hd. unfold lime_step.
    destruct (Z.ltb_spec cursor (zlen data)); cbn [negb]; [|done].
    destruct (lime_range data cursor segs0) as [[cursor' segs']|e] eqn:Hrange; [|done].
    destruct (lime_range_Ok _ _ _ _ _ Hmax Hc Hrange) as (Hlt & s & -> & Hs & Hn).
    cbn. split; [split; [lia|by apply decoded_snoc]|lia].
Qed.

Lemma from_lime_decoded source data b :
  zlen data <= isize_max -> from_lime source data = Ok b ->
  decoded (SnapshotBundle.segments b) /\ disjoint (SnapshotBundle.segments b).
Proof.
  intros Hmax. unfold from_lime, run_loop.
  destruct (lime_loop_total data Hmax) as (r & -> & Hr). intros Hb. inv_ok. subst r.
  destruct (zlen v =? 0); [done|]. inv_ok. subst b.
  by destruct (sort_checked_decoded _ _ _ Hm Hr) as (_ & ? & ?).
Qed.

(** ** Windows crash dumps *)

Definition total_bytes (segs : list t) : Z := foldr Z.add 0 ((fun s => zlen (data s)) <$> segs).

#[local] Arguments total_bytes : simpl never.

Lemma total_bytes_snoc segs s : total_bytes (segs ++ [s]) = total_bytes segs + zlen (data s).
Proof.
  unfold total_bytes. rewrite fmap_app. induction (_ <$> segs) as [|x l IH]; cbn; [lia|]. cbn in IH. lia.
Qed.

#[local] Instance total_bytes_Permutation : Proper (Permutation ==> eq) total_bytes.
Proof.
  intros l l' Hp. unfold total_bytes. induction Hp; cbn in *; lia.
Qed.

(** Whole pages at page boundaries. *)
Definition paged (s : t) : Prop := start_raw s mod 4096 = 0 /\ zlen (data s) mod 4096 = 0.

Lemma page_segment data gpa_pages count offset bs :
  zlen data <= isize_max -> 0 <= gpa_pages -> 1 <= count ->
  gpa_pages * 4096 < 2 ^ 64 ->
  get_range data offset (offset + count * 4096) = Some bs ->
  let s := new (Gpa.new (gpa_pages * 4096)) bs in
  wf_segment s /\ nonempty s /\ paged s /\ zlen (SnapshotSegment.data s) = count * 4096.
Proof.
  intros Hmax Hg Hc Hfit Hr s. pose proof Hr as Hr'. apply zlen_get_range in Hr.
  apply get_range_Some in Hr' as (? & ? & _). split; [|split; [|split]].
  - apply new_wf; [unfold in_width; lia|lia].
  - unfold nonempty, s, new. cbn. lia.
  - unfold paged, s, new, start_raw. cbn. rewrite Hr.
    replace (offset + count * 4096 - offset) with (count * 4096) by lia.
    by rewrite !Z.mod_mul.
  - unfold s, new. cbn. lia.
Qed.

Definition kdmp_inv (st : Z * Z * list t) : Prop :=
  let '(payload, pages, segs) := st in
  0 <= payload /\ decoded segs /\ Forall paged segs /\ total_bytes segs = pages * 4096.

Lemma kdmp_inv_snoc payload pages segs end_ count s :
  kdmp_inv (payload, pages, segs) -> 0 <= end_ -> wf_segment s -> nonempty s -> paged s ->
  zlen (data s) = count * 4096 -> kdmp_inv (end_, pages + count, segs ++ [s]).
Proof.
  intros (Hp & Hd & Hpg & Hsum) He Hs Hn Hps Hl. split; [done|].
  split; [by apply decoded_snoc|]. split; [apply Forall_app; auto|].
  rewrite total_bytes_snoc. lia.
Qed.

Lemma kdmp_run_inv data index st :
  zlen data <= isize_max -> kdmp_inv st ->
  match kdmp_run data index st with
  | Ok (Continue st') => kdmp_inv st'
  | Ok (Break _) => False
  | Err _ => True
  end.
Proof.
  intros Hmax. destruct st as [[payload pages] segs]. intros Hinv.
  destruct (kdmp_run data index (payload, pages, segs)) as [[st'|st']|e] eqn:Hr; [| |done].
  all: unfold kdmp_run, KDMP_PAGE_SIZE in Hr; inv_ok; destruct (Z.eqb_spec v2 0); [done|];
    inv_ok; inv_checked; try done.
  simplify_eq. apply read_u64_range in Hm0, Hm2. unfold in_width in *.
  destruct Hinv as (Hp & Hd & Hpg & Hsum).
  destruct (page_segment data v0 v2 payload v8) as (? & ? & ? & ?); try (done || lia).
  eapply kdmp_inv_snoc; [done|lia|done..].
Qed.

Lemma disjoint_snoc segs s :
  disjoint segs -> Forall (fun x => end_raw x <= start_raw s) segs -> disjoint (segs ++ [s]).
Proof.
  induction 1 as [|x l Hd IH Hall]; intros Hs; cbn; [repeat constructor|].
  apply Forall_cons in Hs as [Hx Hs]. constructor; [by apply IH|]. apply Forall_app. auto.
Qed.

(** Pages of a bitmap come in increasing order, so they are disjoint. *)
Definition bitmap_inv (pfn : Z) (st : Z * Z * list t) : Prop :=
  kdmp_inv st /\ disjoint st.2 /\ Forall (fun x => end_raw x <= pfn * 4096) st.2.

Lemma bitmap_page_inv data bitmap pfn st :
  zlen data <= isize_max -> 0 <= pfn -> bitmap_inv pfn st ->
  match bitmap_page data bitmap pfn st with
  | Ok (Continue st') => bitmap_inv (pfn + 1) st'
  | Ok (Break _) => False
  | Err _ => True
  end.
Proof.
  intros Hmax Hpfn. destruct st as [[payload found] segs]. intros (Hinv & Hd & Hb). cbn in Hd, Hb.
  assert (Hb' : Forall (fun x => end_raw x <= (pfn + 1) * 4096) segs).
  { eapply Forall_impl; [exact Hb|]. cbn. lia. }
  destruct (bitmap_page data bitmap pfn (payload, found, segs)) as [[st'|st']|e] eqn:Hr; [| |done].
  all: unfold bitmap_page, KDMP_PAGE_SIZE in Hr; inv_ok; inv_checked;
    destruct (Z.land _ _ =? 0); inv_ok; inv_checked; simplify_eq; try done.
  destruct (page_segment data pfn 1 payload v1) as (? & ? & ? & Hl);
    [done|done|lia|lia|by rewrite Z.mul_1_l|].
  pose proof Hinv as (Hp & _).
  split; [eapply kdmp_inv_snoc; [done|lia|done..]|]. cbn. split.
  - apply disjoint_snoc; [done|]. eapply Forall_impl; [exact Hb|].
    unfold start_raw. cbn. lia.
  - apply Forall_app. split; [done|]. apply Forall_singleton. rewrite end_raw_eq by done.
    rewrite Hl. unfold start_raw. cbn. lia.
Qed.

Lemma rdmp_range_inv data index st :
  zlen data <= isize_max ->
  (0 <= st.1 /\ decoded st.2 /\ Forall paged st.2) ->
  match rdmp_range data index st with
  | Ok (Continue st') | Ok (Break st') => 0 <= st'.1 /\ decoded st'.2 /\ Forall paged st'.2
  | Err _ => True
  end.
Proof.
  intros Hmax. destruct st as [payload segs]. intros (Hp & Hd & Hpg). cbn [fst snd] in Hp, Hd, Hpg.
  destruct (rdmp_range data index (payload, segs)) as [[st'|st']|e] eqn:Hr; [| |done].
  all: unfold rdmp_range, KDMP_PAGE_SIZE in Hr; inv_ok; inv_checked;
    destruct (Z.eqb_spec v1 0); inv_ok; simplify_eq; try done;
    destruct (Z.eqb_spec v3 0); inv_ok; inv_checked; simplify_eq; try done.
  apply read_u64_range in Hm1, Hm3. unfold in_width in *.
  destruct (page_segment data v1 v3 payload v6) as (? & ? & ? & _); try (done || lia).
  cbn. split; [lia|]. split; [by apply decoded_snoc|]. apply Forall_app. auto.
Qed.

Lemma from_bitmap_kdmp_Ok source data b :
  zlen data <= isize_max -> from_bitmap_kdmp source data = Ok b ->
  let segs := SnapshotBundle.segments b in
  decoded segs /\ disjoint segs /\ Forall paged segs /\
  ArtifactProvenance.format (SnapshotBundle.provenance b) = "windows-kdmp-bitmap"%string /\
  exists present, read_u64 data (KDMP_HEADER_SIZE + 0x28) = Ok present /\
    total_bytes segs = present * 4096.
Proof.
  intros Hmax Hb. unfold from_bitmap_kdmp in Hb. destruct (negb _); [done|]. inv_ok.
  destruct (_ || _); [done|]. inv_ok. destruct (_ <? _); [done|].
  apply bind_Ok in Hb as ([[payload found] segs] & Hloop & Hb).
  destruct (Z.eqb_spec found v1) as [->|]; cbn [negb] in Hb; [|done]. injection Hb as <-.
  apply read_u64_range in Hm as Hfp, Hm2 as Hpages. inv_checked. unfold in_width in *.
  pose proof (for_range_inv bitmap_inv (fun _ => False) (fun _ => True) v2
    (bitmap_page data v6) (v, 0, []) ltac:(lia)) as Hfor.
  rewrite Hloop in Hfor. destruct Hfor as [(Hinv & Hd & _)|[]].
  - split; [|split; constructor]. split; [lia|]. split; [split; constructor|]. split; [constructor|done].
  - intros i a Hi Ha. pose proof (bitmap_page_inv data v6 i a Hmax ltac:(lia) Ha) as Hstep.
    destruct (bitmap_page data v6 i a) as [[?|?]|]; done.
  - destruct Hinv as (_ & Hdec & Hpg & Hsum). cbn in *. split; [done|]. split; [done|].
    split; [done|]. split; [done|]. exists v1. done.
Qed.

Lemma from_rdmp_kdmp_Ok source data b :
  zlen data <= isize_max -> from_rdmp_kdmp source data = Ok b ->
  let segs := SnapshotBundle.segments b in
  decoded segs /\ disjoint segs /\ Forall paged segs /\
  ArtifactProvenance.format (SnapshotBundle.provenance b) = "windows-kdmp-rdmp"%string.
Proof.
  intros Hmax Hb. unfold from_rdmp_kdmp in Hb. destruct (negb _); [done|]. inv_ok.
  destruct v1; cbn [negb] in Hb; [|done]. inv_ok. destruct (zlen data <? _); [done|].
  apply bind_Ok in Hb as ([payload segs] & Hloop & Hb). destruct (zlen segs =? 0); [done|].
  inv_ok. subst b.
  apply read_u64_range in Hm, Hm0. inv_checked. unfold in_width in *.
  pose proof (for_range_inv (fun _ st => 0 <= st.1 /\ decoded st.2 /\ Forall paged st.2)
    (fun st => 0 <= st.1 /\ decoded st.2 /\ Forall paged st.2) (fun _ => True) (v / 16)
    (rdmp_range data) (v0, []) ltac:(apply Z.div_pos; lia)) as Hfor.
  rewrite Hloop in Hfor.
  assert (Hsegs : decoded segs /\ Forall paged segs).
  { destruct Hfor as [(_ & ? & ?)|(_ & ? & ?)]; [| |done|done].
    - cbn. split; [lia|]. split; [split; constructor|constructor].
    - intros i a Hi Ha. pose proof (rdmp_range_inv data i a Hmax Ha) as Hstep.
      destruct (rdmp_range data i a) as [[?|?]|]; done. }
  destruct Hsegs as [Hdec Hpg].
  destruct (sort_checked_decoded _ _ _ Hm4 Hdec) as (Hp & Hdec' & Hdis). cbn.
  split; [done|]. split; [done|]. split; [by rewrite Hp|done].
Qed.

(** Every Windows crash dump decodes to disjoint whole pages; the page
    counts the image declares are met. *)
Lemma from_kdmp_Ok source data b :
  zlen data <= isize_max -> from_kdmp source data = Ok b ->
  let segs := SnapshotBundle.segments b in
  decoded segs /\ disjoint segs /\ Forall paged segs /\
  (ArtifactProvenance.format (SnapshotBundle.provenance b) = "windows-kdmp"%string ->
     exists declared, read_u64 data (KDMP_DESCRIPTOR_OFFSET + 8) = Ok declared /\
       total_bytes segs = declared * 4096) /\
  (ArtifactProvenance.format (SnapshotBundle.provenance b) = "windows-kdmp-bitmap"%string ->
     exists present, read_u64 data (KDMP_HEADER_SIZE + 0x28) = Ok present /\
       total_bytes segs = present * 4096).
Proof.
  intros Hmax Hb. unfold from_kdmp in Hb. destruct (_ || _); [done|].
  destruct (_ || _).
  { pose proof (from_bitmap_kdmp_Ok source data b Hmax Hb) as (? & ? & ? & Hf & ?).
    cbn. rewrite Hf. done. }
  inv_ok. destruct (_ && _).
  { pose proof (from_rdmp_kdmp_Ok source data b Hmax Hb) as (? & ? & ? & Hf).
    cbn. rewrite Hf. done. }
  inv_ok. destruct (negb _); [done|]. inv_ok. destruct (_ || _); [done|]. inv_ok.
  destruct v5 as [[payload pages] segs]. rename Hm5 into Hloop.
  destruct (Z.eqb_spec pages v3) as [->|]; cbn [negb] in Hb; [|done]. inv_ok. subst b.
  apply read_u32_range in Hm1. inv_checked. unfold in_width in *.
  pose proof (for_range_inv (fun _ => kdmp_inv) (fun _ => False) (fun _ => True) v1
    (kdmp_run data) (KDMP_HEADER_SIZE, 0, []) ltac:(lia)) as Hfor.
  rewrite Hloop in Hfor. destruct Hfor as [(_ & Hdec & Hpg & Hsum)|[]].
  - split; [done|]. split; [split; constructor|]. split; [constructor|done].
  - intros i a Hi Ha. pose proof (kdmp_run_inv data i a Hmax Ha) as Hstep.
    destruct (kdmp_run data i a) as [[?|?]|]; done.
  - destruct (sort_checked_decoded _ _ _ Hm5 Hdec) as (Hp & Hdec' & Hdis). cbn.
    split; [done|]. split; [done|]. split; [by rewrite Hp|].
    split; [|done]. intros _. exists v3. split; [done|].
    rewrite <- Hsum. exact (total_bytes_Permutation _ _ Hp).
Qed.

(** ** ELF *)

Definition elf_inv (max : Z) (st : Z * list t) : Prop :=
  Forall wf_segment st.2 /\ total_bytes st.2 = st.1 /\ (st.2 <> [] -> st.1 <= max).

Lemma try_reserve_limit what n u : try_reserve what n = Ok u -> n <= isize_max.
Proof.
  unfold try_reserve. destruct (alloc_ok what n) eqn:E; [|done]. intros _.
  destruct (Z.le_gt_cases n isize_max) as [?|Hgt]; [done|]. by rewrite alloc_limit in E.
Qed.

Lemma elf_entry_inv data format program_offset entry_size max index st :
  elf_inv max st ->
  match elf_entry data format program_offset entry_size max index st with
  | Ok (Continue st') => elf_inv max st'
  | Ok (Break _) => False
  | Err _ => True
  end.
Proof.
  destruct st as [total segs]. intros Hinv.
  destruct (elf_entry _ _ _ _ _ _ _) as [[st'|st']|e] eqn:Hr; [| |done].
  all: unfold elf_entry in Hr; inv_ok; destruct (negb _); inv_ok; simplify_eq; try done;
    destruct (Z.ltb_spec v10 v8); [done|]; inv_ok; destruct (Z.ltb_spec max v11); [done|];
    inv_ok; inv_checked; simplify_eq; try done.
  destruct Hinv as (Hwf & Hsum & Hle).
  apply put_range_lookup in Hm18 as [Hlen _]; [|by apply zlen_get_range in Hm16; lia].
  apply try_reserve_limit in Hm17. apply read_u64_range in Hm6, Hm10.
  unfold in_width in *.
  replace (zlen (replicate _ _)) with v10 in Hlen by (unfold zlen; rewrite length_replicate; lia).
  split; [|split].
  - apply Forall_app. split; [done|]. apply Forall_singleton, new_wf; [done|lia].
  - cbn [snd fst]. rewrite total_bytes_snoc. unfold new. cbn [SnapshotSegment.data]. cbn [fst snd] in Hsum. lia.
  - cbn. lia.
Qed.

Lemma from_elf_Ok source data format max b :
  from_elf_with_limits source data format max = Ok b ->
  let segs := SnapshotBundle.segments b in
  Forall wf_segment segs /\ sorted segs /\ segs <> [] /\ total_bytes segs <= max.
Proof.
  unfold from_elf_with_limits. intros Hb. destruct (max =? 0); [done|]. destruct (_ || _); [done|].
  inv_ok. destruct (_ <? 56); [done|]. apply bind_Ok in Hb as ([total segs] & Hloop & Hb).
  destruct (Z.eqb_spec (zlen segs) 0) as [|Hne]; [done|]. inv_ok. subst b.
  apply read_u16_range in Hm1. unfold in_width in Hm1.
  pose proof (for_range_inv (fun _ => elf_inv max) (fun _ => False) (fun _ => True) v1
    (elf_entry data format v v0 max) (0, []) ltac:(lia)) as Hfor.
  rewrite Hloop in Hfor. destruct Hfor as [(Hwf & Hsum & Hle)|[]].
  - split; [constructor|]. done.
  - intros i a Hi Ha. pose proof (elf_entry_inv data format v v0 max i a Ha) as Hstep.
    destruct (elf_entry data format v v0 max i a) as [[?|?]|]; done.
  - cbn in *. apply sort_checked_Ok in Hm2 as (Hp & Hs & _). split; [by rewrite Hp|].
    split; [done|]. assert (segs <> []) by (intros ->; done). split.
    + intros ->. by apply Permutation_nil in Hp as ->.
    + rewrite (total_bytes_Permutation _ _ Hp), Hsum. auto.
Qed.

(** ** LiME images *)

(** The image of a list of ranges. *)
Definition lime_header (s : t) : list byte :=
  le_bytes 4 LIME_MAGIC ++ le_bytes 4 1 ++ le_bytes 8 (start_raw s)
  ++ le_bytes 8 (start_raw s + zlen (data s) - 1) ++ replicate 8 x00.

Definition encode_lime (segs : list t) : list byte :=
  concat ((fun s => lime_header s ++ data s) <$> segs).

Lemma zlen_lime_header s : zlen (lime_header s) = 32.
Proof. unfold lime_header. rewrite !zlen_app. unfold zlen. by rewrite !length_le_bytes, length_replicate. Qed.

Lemma zlen_encode_snoc segs s :
  zlen (encode_lime (segs ++ [s])) = zlen (encode_lime segs) + 32 + zlen (data s).
Proof.
  unfold encode_lime. rewrite fmap_app, concat_app, zlen_app.
  change (concat ((fun s => lime_header s ++ data s) <$> [s])) with ((lime_header s ++ data s) ++ []).
  rewrite app_nil_r, zlen_app, zlen_lime_header. lia.
Qed.

(** A range as the format can carry it: not empty, within 64 bits. *)
Definition lime_representable (s : t) : Prop :=
  wf_segment s /\ nonempty s /\ start_raw s + zlen (data s) <= 2 ^ 64 /\
  s = new (Gpa.new (start_raw s)) (data s).

Definition lime_allocates (segs : list t) : Prop :=
  forall n, 0 <= n <= zlen segs -> alloc_ok "LiME segment table" n = true.

Lemma read_field_mid n v pre mid post :
  0 <= v < 2 ^ (8 * Z.of_nat n) -> zlen pre + Z.of_nat n < 2 ^ 64 ->
  mid = le_bytes n v ->
  (let? bs := read_array (Z.of_nat n) (pre ++ mid ++ post) (zlen pre) in Ok (le_val bs)) = Ok v.
Proof.
  intros Hv Hl ->. pose proof (read_array_mid pre (le_bytes n v) post (zlen pre) eq_refl) as Hr.
  unfold zlen in Hr at 2 3. rewrite length_le_bytes in Hr. rewrite Hr by done.
  cbn. by rewrite le_val_bytes, Z.mod_small.
Qed.

Lemma lime_range_mid pre s post segs :
  lime_representable s -> zlen (pre ++ (lime_header s ++ data s) ++ post) <= isize_max ->
  alloc_ok "LiME segment table" (zlen segs + 1) = true ->
  lime_range (pre ++ (lime_header s ++ data s) ++ post) (zlen pre) segs
    = Ok (zlen pre + 32 + zlen (data s), segs ++ [s]).
Proof.
  intros ((Hst & Hl & Hn) & Hne & Hend & Hnew) Hmax Ha. unfold nonempty, in_width in *.
  set (whole := pre ++ (lime_header s ++ data s) ++ post).
  pose proof (zlen_nonneg pre). pose proof (zlen_nonneg post).
  assert (Hwhole : zlen whole = zlen pre + 32 + zlen (data s) + zlen post).
  { unfold whole. rewrite !zlen_app, zlen_lime_header. lia. }
  fold whole in Hmax. unfold isize_max in *.
  unfold lime_range, LIME_HEADER_SIZE, add_offset.
  rewrite (checked_add_fits 64 (zlen pre) 32) by lia. cbn [ok_or mbind result_bind].
  destruct (Z.ltb_spec (zlen whole) (zlen pre + 32)); [lia|].
  assert (E4 : forall v, zlen (le_bytes 4 v) = 4) by (intros; unfold zlen; by rewrite length_le_bytes).
  assert (E8 : forall v, zlen (le_bytes 8 v) = 8) by (intros; unfold zlen; by rewrite length_le_bytes).
  assert (Hfield : forall nz n v pre' post' off, nz = Z.of_nat n -> whole = pre' ++ le_bytes n v ++ post' ->
    off = zlen pre' -> 0 <= v < 2 ^ (8 * Z.of_nat n) -> off + Z.of_nat n < 2 ^ 64 ->
    (let? bs := read_array nz whole off in Ok (le_val bs)) = Ok v).
  { intros nz n v pre' post' off -> -> -> Hv Hfit. by apply read_field_mid. }
  assert (Ew : whole = pre ++ le_bytes 4 LIME_MAGIC ++ le_bytes 4 1 ++ le_bytes 8 (start_raw s)
    ++ le_bytes 8 (start_raw s + zlen (data s) - 1) ++ replicate 8 x00 ++ data s ++ post).
  { unfold whole, lime_header. by rewrite <- !app_assoc. }
  unfold read_u32, read_u64.
  rewrite (Hfield 4 4%nat LIME_MAGIC pre _ (zlen pre) eq_refl Ew eq_refl) by (unfold LIME_MAGIC; lia).
  cbn [mbind result_bind]. rewrite Z.eqb_refl. cbn [negb].
  rewrite (checked_add_fits 64 (zlen pre) 4) by lia. cbn [ok_or mbind result_bind].
  rewrite (Hfield 4 4%nat 1 (pre ++ le_bytes 4 LIME_MAGIC)
    (le_bytes 8 (start_raw s) ++ le_bytes 8 (start_raw s + zlen (data s) - 1)
       ++ replicate 8 x00 ++ data s ++ post) (zlen pre + 4));
    [|done|by rewrite Ew, <- !app_assoc|by rewrite zlen_app, E4|lia|lia].
  cbn [mbind result_bind]. rewrite Z.eqb_refl. cbn [negb].
  rewrite (checked_add_fits 64 (zlen pre) 8) by lia. cbn [ok_or mbind result_bind].
  rewrite (Hfield 8 8%nat (start_raw s) (pre ++ le_bytes 4 LIME_MAGIC ++ le_bytes 4 1)
    (le_bytes 8 (start_raw s + zlen (data s) - 1) ++ replicate 8 x00 ++ data s ++ post)
    (zlen pre + 8)); [|done|by rewrite Ew, <- !app_assoc|by rewrite !zlen_app, !E4|lia|lia].
  cbn [mbind result_bind].
  rewrite (checked_add_fits 64 (zlen pre) 16) by lia. cbn [ok_or mbind result_bind].
  rewrite (Hfield 8 8%nat (start_raw s + zlen (data s) - 1)
    (pre ++ le_bytes 4 LIME_MAGIC ++ le_bytes 4 1 ++ le_bytes 8 (start_raw s))
    (replicate 8 x00 ++ data s ++ post) (zlen pre + 16));
    [|done|by rewrite Ew, <- !app_assoc|by rewrite !zlen_app, !E4, E8|lia|lia].
  cbn [mbind result_bind].
  rewrite (checked_sub_fits (start_raw s + zlen (data s) - 1) (start_raw s)) by lia.
  replace (start_raw s + zlen (data s) - 1 - start_raw s) with (zlen (data s) - 1) by lia.
  rewrite (checked_add_fits 64 (zlen (data s) - 1) 1) by lia. cbn [ok_or mbind result_bind].
  rewrite try_width_fits by lia. cbn [ok_or mbind result_bind].
  rewrite (checked_add_fits 64 (zlen pre + 32)) by lia. cbn [ok_or mbind result_bind].
  assert (Hget : get_range whole (zlen pre + 32) (zlen pre + 32 + (zlen (data s) - 1 + 1)) = Some (data s)).
  { unfold whole. rewrite <- app_assoc, app_assoc. apply get_range_mid; [|lia].
    by rewrite zlen_app, zlen_lime_header. }
  rewrite Hget. cbn [ok_or mbind result_bind]. unfold reserve_segment, try_reserve.
  change ("LiME" +:+ " segment table")%string with "LiME segment table"%string.
  rewrite Ha. cbn [map_err mbind result_bind]. rewrite <- Hnew. do 2 f_equal. lia.
Qed.

Lemma encode_lime_split done_ s rest :
  encode_lime (done_ ++ s :: rest)
  = encode_lime done_ ++ (lime_header s ++ data s) ++ encode_lime rest.
Proof. unfold encode_lime. by rewrite fmap_app, concat_app, fmap_cons. Qed.

(** The loop over an encoded image collects its ranges. *)
Lemma lime_loop_encoded segs :
  Forall lime_representable segs -> zlen (encode_lime segs) <= isize_max -> lime_allocates segs ->
  loop_pos (Z.to_pos (zlen (encode_lime segs) + 1)) (lime_step (encode_lime segs)) (0, [])
    = inr (Ok segs).
Proof.
  intros Hrep Hmax Halloc.
  destruct (loop_pos_total
    (fun st => exists rest, segs = st.2 ++ rest /\ st.1 = zlen (encode_lime st.2))
    (fun r => r = Ok segs) (fun st => zlen (encode_lime segs) - st.1)
    (lime_step (encode_lime segs)) (Z.to_pos (zlen (encode_lime segs) + 1)) (0, []))
    as (r & Hr & ->); [| | | |done].
  - by exists segs.
  - cbn [fst]. pose proof (zlen_nonneg (encode_lime segs)). lia.
  - intros [cursor got] (rest & -> & ->). cbn [fst snd] in *.
    unfold encode_lime. rewrite fmap_app, concat_app, zlen_app.
    pose proof (zlen_nonneg (concat ((fun s => lime_header s ++ data s) <$> rest))). lia.
  - intros [cursor got] (rest & E & Hc). cbn [fst snd] in *. unfold lime_step.
    destruct rest as [|s rest].
    + rewrite app_nil_r in E. subst got. rewrite Hc, Z.ltb_irrefl. done.
    + rewrite E, encode_lime_split in *. rewrite !zlen_app, zlen_lime_header in Hmax.
      apply Forall_app in Hrep as [_ [Hs _]%Forall_cons].
      pose proof (zlen_nonneg (encode_lime rest)). pose proof (zlen_nonneg (data s)).
      destruct (Z.ltb_spec cursor (zlen (encode_lime got ++ (lime_header s ++ data s) ++ encode_lime rest)))
        as [_|Hge]; cbn [negb]; [|rewrite !zlen_app, zlen_lime_header in Hge; lia].
      subst cursor. rewrite lime_range_mid; [|done|rewrite !zlen_app, zlen_lime_header; lia|].
      * split; [|cbn [fst]; lia]. exists rest. cbn [fst snd]. split; [by rewrite <- app_assoc|].
        by rewrite zlen_encode_snoc.
      * apply Halloc. rewrite zlen_app, zlen_cons.
        pose proof (zlen_nonneg got). pose proof (zlen_nonneg rest). lia.
Qed.

Lemma sorted_permutation_eq (l l' : list t) :
  disjoint l -> Forall wf_segment l -> Forall nonempty l -> sorted l' -> l ≡ₚ l' -> l' = l.
Proof.
  revert l'. induction l as [|x l IH]; intros l' Hd Hwf Hne Hs Hp.
  { by apply Permutation_nil_l in Hp. }
  apply StronglySorted_inv in Hd as [Hd Hall]. apply Forall_cons in Hwf as [Hx Hwf].
  apply Forall_cons in Hne as [Hnx Hne]. destruct l' as [|y l']; [by apply Permutation_nil_r in Hp|].
  apply StronglySorted_inv in Hs as [Hs Hall'].
  assert (Hxy : y = x).
  { assert (Hy : y ∈ x :: l) by (rewrite Hp; constructor).
    apply elem_of_cons in Hy as [->|Hy]; [done|]. exfalso.
    rewrite Forall_forall in Hall. specialize (Hall y Hy). cbn in Hall.
    rewrite end_raw_eq in Hall by done. unfold nonempty in Hnx.
    assert (Hx' : x ∈ y :: l') by (rewrite <- Hp; constructor).
    apply elem_of_cons in Hx' as [->|Hx']; [lia|]. rewrite Forall_forall in Hall'.
    specialize (Hall' x Hx'). cbn in Hall'. lia. }
  subst y. f_equal. apply IH; [done..|]. by apply Permutation_cons_inv in Hp.
Qed.
End facts.

(** * Properties *)

(** C14: decoding gives back what was encoded.  The LiME image of any
    non-empty list of ranges, in any order, that do not overlap and lie
    below 2^64 decodes to exactly those ranges with their bytes, in order of
    address, when the segment table can be allocated; the decoding loop ends
    by itself on every image. *)
Theorem lime_roundtrip `{Allocator} (source : string) (segs sorted_segs : list SnapshotSegment.t)
    (Hne : segs <> []) (Hrep : Forall lime_representable segs)
    (Hperm : sorted_segs ≡ₚ segs) (Hdisjoint : disjoint sorted_segs)
    (Hmax : zlen (encode_lime segs) <= isize_max) (Halloc : lime_allocates segs) :
  from_lime source (encode_lime segs)
    = Ok (SnapshotBundle.mk (ArtifactProvenance.mk "lime" source) sorted_segs).
Proof.
  unfold from_lime, run_loop. rewrite lime_loop_encoded by done. cbn [mbind result_bind].
  destruct (Z.eqb_spec (zlen segs) 0) as [E|_]; [by apply zlen_0 in E|].
  assert (Hwf : Forall BundleSpec.wf_segment sorted_segs /\ Forall nonempty sorted_segs).
  { rewrite Hperm. split; eapply Forall_impl; [exact Hrep| |exact Hrep|]; by intros x (? & ? & _). }
  destruct Hwf as [Hwf Hn].
  assert (Hs : sort_by_key SnapshotSegment.start_raw segs = sorted_segs).
  { apply sorted_permutation_eq; [done..|apply sort_by_key_sorted|].
    by rewrite sort_by_key_Permutation. }
  pose proof (sort_checked_disjoint_id "LiME physical ranges overlap" sorted_segs Hwf Hdisjoint) as Hc.
  unfold sort_checked in *. rewrite Hs.
  rewrite sort_by_key_id in Hc by (by apply disjoint_sorted). rewrite Hc. done.
Qed.

Definition example_ranges : list SnapshotSegment.t :=
  [SnapshotSegment.new (Gpa.new 0x2000) [x61; x62; x63];
   SnapshotSegment.new (Gpa.new 0x1000) [x64]].

Lemma lime_roundtrip_witness :
  @from_lime ample_allocator "image" (encode_lime example_ranges)
    = Ok (SnapshotBundle.mk (ArtifactProvenance.mk "lime" "image") (reverse example_ranges)).
Proof.
  apply (@lime_roundtrip ample_allocator).
  - discriminate.
  - repeat constructor; vm_compute; (discriminate || reflexivity).
  - apply reverse_Permutation.
  - repeat constructor; vm_compute; discriminate.
  - vm_compute. discriminate.
  - intros n Hn. unfold alloc_ok, ample_allocator. apply Z.leb_le.
    change (zlen example_ranges) with 2 in Hn. unfold isize_max. lia.
Defined.

(** C15: whatever the bytes of an image, what LiME and Windows crash dump
    decoding accepts is a well-formed bundle: non-empty segments in order of
    address, no two of which share a byte, and for crash dumps whole pages at
    page boundaries, as many as the legacy or the bitmap header declares. *)
Theorem decoded_images_disjoint `{Allocator} (source : string) (data : list byte)
    (b : SnapshotBundle.t) (Hmax : zlen data <= isize_max)
    (Hdec : from_lime source data = Ok b \/ from_kdmp source data = Ok b) :
  let segs := SnapshotBundle.segments b in
  let format := ArtifactProvenance.format (SnapshotBundle.provenance b) in
  Forall BundleSpec.wf_segment segs /\ Forall nonempty segs /\ disjoint segs /\
  (from_kdmp source data = Ok b ->
     Forall paged segs /\
     (format = "windows-kdmp"%string -> exists declared,
        read_u64 data (KDMP_DESCRIPTOR_OFFSET + 8) = Ok declared /\
        total_bytes segs = declared * 4096) /\
     (format = "windows-kdmp-bitmap"%string -> exists present,
        read_u64 data (KDMP_HEADER_SIZE + 0x28) = Ok present /\
        total_bytes segs = present * 4096)).
Proof.
  intros segs format.
  assert (Hsegs : decoded segs /\ disjoint segs).
  { destruct Hdec as [Hb|Hb].
    - by apply from_lime_decoded in Hb.
    - by apply from_kdmp_Ok in Hb as (? & ? & _). }
  destruct Hsegs as [[Hwf Hne] Hd]. split; [done|]. split; [done|]. split; [done|].
  intros Hb. by apply from_kdmp_Ok in Hb as (_ & _ & ? & ? & ?).
Qed.

Lemma decoded_images_disjoint_witness :
  disjoint (SnapshotBundle.segments
    (SnapshotBundle.mk (ArtifactProvenance.mk "lime" "image") (reverse example_ranges))).
Proof.
  destruct (@decoded_images_disjoint ample_allocator "image" (encode_lime example_ranges)
    (SnapshotBundle.mk (ArtifactProvenance.mk "lime" "image") (reverse example_ranges)))
    as (_ & _ & Hd & _); [vm_compute; discriminate|left; vm_compute; reflexivity|exact Hd].
Defined.

(** What ELF decoding accepts is in order of address, has at least one
    segment, and holds no more decoded memory than the caller's limit. *)
Theorem elf_image_limits `{Allocator} (source format : string) (data : list byte)
    (max_memory_size : Z) (b : SnapshotBundle.t)
    (Hb : from_elf_with_limits source data format max_memory_size = Ok b) :
  let segs := SnapshotBundle.segments b in
  Forall BundleSpec.wf_segment segs /\ BundleSpec.sorted segs /\ segs <> [] /\
  total_bytes segs <= max_memory_size.
Proof. exact (from_elf_Ok source data format max_memory_size b Hb). Qed.

(** An ELF core with program headers given as (address, bytes, memory size). *)
Definition elf_program_header (file_offset physical file_size memory_size : Z) : list byte :=
  le_bytes 4 1 ++ le_bytes 4 0 ++ le_bytes 8 file_offset ++ le_bytes 8 0
  ++ le_bytes 8 physical ++ le_bytes 8 file_size ++ le_bytes 8 memory_size ++ le_bytes 8 0.

(** Three loads: two bytes at 0x1000, nothing at 0x1000, two bytes at 0x1001. *)
Definition overlapping_elf : list byte :=
  elf_magic ++ [x02; x01] ++ replicate 26 x00 ++ le_bytes 8 64 ++ replicate 14 x00
  ++ le_bytes 2 56 ++ le_bytes 2 3 ++ replicate 6 x00
  ++ elf_program_header 232 0x1000 2 2
  ++ elf_program_header 232 0x1000 0 0
  ++ elf_program_header 234 0x1001 2 2
  ++ [x61; x62; x63; x64].

Definition overlapping_segments : list SnapshotSegment.t :=
  [SnapshotSegment.new (Gpa.new 0x1000) [x61; x62];
   SnapshotSegment.new (Gpa.new 0x1000) [];
   SnapshotSegment.new (Gpa.new 0x1001) [x63; x64]].

Lemma elf_image_limits_witness : total_bytes overlapping_segments <= 4.
Proof.
  destruct (@elf_image_limits ample_allocator "core" "elf-vmcore" overlapping_elf 4
    (SnapshotBundle.mk (ArtifactProvenance.mk "elf-vmcore" "core") overlapping_segments)
    ltac:(vm_compute; reflexivity)) as (_ & _ & _ & Hle).
  exact Hle.
Defined.

(** The overlap check of ELF decoding is not complete: it compares
    neighbours only, and an empty load between two overlapping ones hides
    them.  This image is accepted although its first and last segment both
    claim the byte at 0x1001, with different contents. *)
Theorem elf_overlap_accepted :
  @from_elf_vmcore ample_allocator "core" overlapping_elf
    = Ok (SnapshotBundle.mk (ArtifactProvenance.mk "elf-vmcore" "core") overlapping_segments) /\
  exists first last, overlapping_segments !! 0%nat = Some first /\
    overlapping_segments !! 2%nat = Some last /\
    ranges_overlap (SnapshotSegment.range first) (SnapshotSegment.range last) = true /\
    BundleSpec.segment_byte first 0x1001 <> BundleSpec.segment_byte last 0x1001.
Proof.
  split; [vm_compute; reflexivity|]. eexists _, _. split; [reflexivity|]. split; [reflexivity|].
  split; [reflexivity|vm_compute; discriminate].
Qed.

(** An RDMP crash dump: its header, a full table of one range, one page. *)
Definition rdmp_image (page : list byte) : list byte :=
  bytes_of_string "PAGEDU64" ++ replicate (Z.to_nat (0x2000 - 8)) x00
  ++ le_bytes 4 0x40 ++ bytes_of_string "RDMPDUMP" ++ replicate 4 x00
  ++ le_bytes 8 0x20 ++ le_bytes 8 0x2040 ++ replicate 16 x00
  ++ le_bytes 8 1 ++ le_bytes 8 1 ++ page.

(** The RDMP range table is read one slot too far.  The table starts at
    0x2030 and the payload at [metadata_size + 0x2020], so it has
    [metadata_size / 16 - 1] slots, but the loop runs over
    [metadata_size / 16]: the last slot it reads is the start of the payload.
    The same full table with one range decodes when its page starts with
    zeroes and is refused when the page starts with other bytes. *)
Theorem rdmp_table_overruns_payload :
  (forall metadata_size, metadata_size mod 16 = 0 ->
     RDMP_RANGES + (metadata_size / 16 - 1) * 16 = metadata_size + 0x2020) /\
  is_ok (@from_kdmp ample_allocator "dump" (rdmp_image (replicate 4096 x00))) = true /\
  @from_kdmp ample_allocator "dump" (rdmp_image (replicate 4096 x61))
    = Err (Backend "RDMP KDMP physical address overflow").
Proof.
  split; [|split; vm_compute; reflexivity].
  intros metadata_size Hm. unfold RDMP_RANGES. pose proof (Z.div_mod metadata_size 16). lia.
Qed.
