(* ===== verification/ArtifactFiles.v ===== *)
(** * Snapshot files ([crates/vmi-artifact])

    Bounded reading of files and compressed streams, the file entry points
    of every format, and snapshot manifests.  The file system, the
    decompressors and the JSON parser are interfaces. *)

From S2P Require Import Prelude.
From S2P Require Import Types.
From S2P Require Import Text.
From S2P Require Import Host.
From S2P Require Import Artifact.
From S2P Require Import ArtifactFormats.

Section files.
Context `{Allocator, FileSystem}.

(** ** Bounded reads *)

Definition PREFIX_CHUNK : Z := 8192.
Definition READ_CHUNK : Z := 64 * 1024.

Definition prefix_step (path : string) (maximum : Z) (st : list byte * stream)
    : (list byte * stream) + Result (list byte) :=
  let '(prefix, s) := st in
  if negb (zlen prefix <? maximum) then inr (Ok prefix)
  else
    let requested := Z.min (saturating_sub maximum (zlen prefix)) PREFIX_CHUNK in
    match read_retry s requested with
    | (Err error, _) => inr (Err (Backend ("failed to read " +:+ path +:+ ": " +:+ error)))
    | (Ok captured, s') =>
        if zlen captured =? 0 then inr (Ok prefix)
        else
          match try_reserve "artifact prefix buffer" (zlen prefix + zlen captured) with
          | Err error =>
              inr (Err (Backend ("failed to grow artifact prefix buffer: " +:+ error)))
          | Ok _ => inl (prefix ++ captured, s')
          end
    end.

Definition read_file_prefix (path : string) (maximum : Z) : Result (list byte) :=
  let? file := map_err (fun error => Backend ("failed to open " +:+ path +:+ ": " +:+ error))
    (open path) in
  let? _ := map_err (fun error =>
      Backend ("failed to allocate artifact prefix buffer: " +:+ error))
    (try_reserve "artifact prefix buffer" maximum) in
  run_loop (Z.to_pos (maximum + 1)) (prefix_step path maximum)
    (fun _ => Err (Backend "model fuel exhausted")) ([], contents file).

(** The two capture loops differ in their messages only. *)
Record Messages : Type := MkMessages {
  m_failed : string -> string;
  m_grow : string -> string;
  m_exceeds : string;
}.

Definition capture_step (what : string) (m : Messages) (maximum : Z) (st : list byte * stream)
    : (list byte * stream) + Result (list byte) :=
  let '(data, s) := st in
  let capture_limit := saturating_add 64 maximum 1 in
  let remaining := saturating_sub capture_limit (zlen data) in
  if remaining =? 0 then
    match read_retry s 1 with
    | (Err error, _) => inr (Err (Backend (m_failed m error)))
    | (Ok sentinel, _) =>
        if negb (zlen sentinel =? 0) then inr (Err (Backend (m_exceeds m))) else inr (Ok data)
    end
  else
    let requested := Z.min remaining READ_CHUNK in
    match read_retry s requested with
    | (Err error, _) => inr (Err (Backend (m_failed m error)))
    | (Ok captured, s') =>
        if zlen captured =? 0 then inr (Ok data)
        else
          match try_reserve what (zlen data + zlen captured) with
          | Err error => inr (Err (Backend (m_grow m error)))
          | Ok _ =>
              let data' := data ++ captured in
              if maximum <? zlen data' then inr (Err (Backend (m_exceeds m)))
              else inl (data', s')
          end
    end.

(** Every round captures at least one byte, and at most [maximum] are kept. *)
Definition capture (what : string) (m : Messages) (maximum : Z) (s : stream)
    : Result (list byte) :=
  run_loop (Z.to_pos (maximum + 2)) (capture_step what m maximum)
    (fun _ => Err (Backend "model fuel exhausted")) ([], s).

Definition read_file_limited (path : string) (maximum : Z) (description : string)
    : Result (list byte) :=
  if maximum =? 0 then
    Err (Backend ("maximum " +:+ description +:+ " size must be non-zero"))
  else
    let? file := map_err (fun error => Backend ("failed to open " +:+ path +:+ ": " +:+ error))
      (open path) in
    let? size := map_err (fun error => Backend ("failed to inspect " +:+ path +:+ ": " +:+ error))
      (metadata_len file) in
    if maximum <? size then
      Err (Backend (description +:+ " size " +:+ dec size +:+ " exceeds " +:+ dec maximum +:+ " bytes"))
    else
      let? capacity := ok_or (try_width 64 size)
        (Backend (description +:+ " is too large for this host")) in
      let? _ := map_err (fun error =>
          Backend ("failed to allocate " +:+ description +:+ " buffer: " +:+ error))
        (try_reserve description capacity) in
      capture description
        (MkMessages (fun error => "failed to read " +:+ path +:+ ": " +:+ error)
           (fun error => "failed to grow " +:+ description +:+ " buffer: " +:+ error)
           (description +:+ " grew beyond " +:+ dec maximum +:+ " bytes while being read"))
        maximum (contents file).

Definition decode_compressed_kdmp (decoder : stream) (encoding : string) (max_decoded_size : Z)
    : Result (list byte) :=
  let? decoded := capture "decoded KDMP"
    (MkMessages
       (fun error => "failed to decode " +:+ encoding +:+ "-compressed KDMP: " +:+ error)
       (fun error => "failed to grow decoded " +:+ encoding +:+ " KDMP buffer: " +:+ error)
       ("decoded " +:+ encoding +:+ " KDMP exceeds configured limit of "
          +:+ dec max_decoded_size +:+ " bytes"))
    max_decoded_size decoder in
  if negb (starts_with decoded (bytes_of_string "PAGEDU64")) then
    Err (Backend (encoding +:+ " payload is not an AMD64 KDMP"))
  else Ok decoded.

(** ** File entry points *)

Definition kdmp_metadata_from_file (path : string) : Result KdmpMetadata.t :=
  let? data := read_file_prefix path 0x2000 in
  KdmpMetadata.parse data.

Definition raw_file_with_limit (path : string) (base : Gpa.t) (max_file_size : Z)
    : Result SnapshotBundle.t :=
  let? data := read_file_limited path max_file_size "raw artifact" in
  try_from_raw path base data.
Definition raw_file (path : string) (base : Gpa.t) : Result SnapshotBundle.t :=
  raw_file_with_limit path base DEFAULT_MAX_ARTIFACT_SIZE.

Definition elf_vmcore_file_with_limits (path : string) (max_file_size max_memory_size : Z)
    : Result SnapshotBundle.t :=
  let? data := read_file_limited path max_file_size "ELF artifact" in
  from_elf_with_limits path data "elf-vmcore" max_memory_size.
Definition elf_vmcore_file (path : string) : Result SnapshotBundle.t :=
  elf_vmcore_file_with_limits path DEFAULT_MAX_ARTIFACT_SIZE DEFAULT_MAX_ARTIFACT_SIZE.

Definition xen_core_file_with_limits (path : string) (max_file_size max_memory_size : Z)
    : Result SnapshotBundle.t :=
  let? data := read_file_limited path max_file_size "Xen core artifact" in
  from_elf_with_limits path data "xen-core" max_memory_size.
Definition xen_core_file (path : string) : Result SnapshotBundle.t :=
  xen_core_file_with_limits path DEFAULT_MAX_ARTIFACT_SIZE DEFAULT_MAX_ARTIFACT_SIZE.

Definition lime_file_with_limit (path : string) (max_file_size : Z) : Result SnapshotBundle.t :=
  let? data := read_file_limited path max_file_size "LiME artifact" in
  from_lime path data.
Definition lime_file (path : string) : Result SnapshotBundle.t :=
  lime_file_with_limit path DEFAULT_MAX_ARTIFACT_SIZE.

Definition gzip_magic : list byte := [x1f; x8b].
Definition xz_magic : list byte := [xfd; x37; x7a; x58; x5a; x00].
Definition zstd_magic : list byte := [x28; xb5; x2f; xfd].

Definition kdmp_file_with_limit `{Decompressors} (path : string) (max_decoded_size : Z)
    : Result SnapshotBundle.t :=
  if max_decoded_size =? 0 then Err (Backend "maximum decoded KDMP size must be non-zero")
  else
    let? data := read_file_limited path max_decoded_size "encoded KDMP artifact" in
    let? decoded :=
      (if starts_with data gzip_magic then
         decode_compressed_kdmp (gzip_reader data) "gzip" max_decoded_size
       else if starts_with data (bytes_of_string "BZh") then
         decode_compressed_kdmp (bzip2_reader data) "bzip2" max_decoded_size
       else if starts_with data xz_magic then
         decode_compressed_kdmp (xz_reader data) "xz" max_decoded_size
       else if starts_with data zstd_magic then
         let? decoder := map_err (fun error =>
             Backend ("failed to initialize zstd KDMP decoder: " +:+ error)) (zstd_reader data) in
         decode_compressed_kdmp decoder "zstd" max_decoded_size
       else if bool_decide (head data = Some x78) then
         decode_compressed_kdmp (zlib_reader data) "zlib" max_decoded_size
       else Ok data) in
    from_kdmp path decoded.
Definition kdmp_file `{Decompressors} (path : string) : Result SnapshotBundle.t :=
  kdmp_file_with_limit path DEFAULT_MAX_DECODED_KDMP_SIZE.

Definition converted_core_file `{Decompressors} (path : string) : Result SnapshotBundle.t :=
  let? prefix := read_file_prefix path 8 in
  if starts_with prefix elf_magic then elf_vmcore_file path
  else if starts_with prefix (bytes_of_string "PAGEDU64") || starts_with prefix gzip_magic
          || starts_with prefix (bytes_of_string "BZh") || starts_with prefix xz_magic
          || starts_with prefix zstd_magic || bool_decide (head prefix = Some x78)
  then kdmp_file path
  else Err (Backend "converted core is neither ELF nor Windows KDMP").

(** ** Manifests *)

Section manifest.
Context `{SerdeJson}.

Definition manifest_u64 (value : option Value) (field : string) (index : Z) : Result Z :=
  let? value := ok_or value (Backend ("snapshot manifest segment " +:+ dec index +:+ " "
    +:+ field +:+ " is missing")) in
  match as_u64 value with
  | Some number => Ok number
  | None =>
      let? text := ok_or (as_str value) (Backend ("snapshot manifest segment " +:+ dec index
        +:+ " " +:+ field +:+ " must be unsigned")) in
      map_err (fun error => Backend ("invalid snapshot manifest segment " +:+ dec index +:+ " "
          +:+ field +:+ ": " +:+ ParseInt.display error))
        (match strip_prefix "0x" text with
         | Some hex => ParseInt.from_str_radix 64 16 hex
         | None => ParseInt.from_str_radix 64 10 text
         end)
  end.

Definition manifest_segment (base : Path) (max_total_bytes index : Z) (entry : Value)
    (st : Z * list SnapshotSegment.t) : Result (Z * list SnapshotSegment.t) :=
  let '(total_bytes, segments) := st in
  let what := "snapshot manifest segment " +:+ dec index in
  let? entry := ok_or (as_object entry) (Backend (what +:+ " must be an object")) in
  let? file := ok_or (match map_get entry "file" with Some v => as_str v | None => None end)
    (Backend (what +:+ " file is missing")) in
  let candidate := parse_path file in
  if is_absolute candidate then Err (Backend (what +:+ " file must be relative"))
  else
    let? file_path := map_err (fun error =>
        Backend ("failed to resolve manifest file " +:+ file +:+ ": " +:+ error))
      (canonicalize (join base candidate)) in
    if negb (path_starts_with file_path base) then
      Err (Backend (what +:+ " escapes the manifest directory"))
    else
      let? gpa := manifest_u64 (map_get entry "gpa") "gpa" index in
      let? file_offset := manifest_u64 (map_get entry "file_offset") "file_offset" index in
      let? length := manifest_u64 (map_get entry "length") "length" index in
      if length =? 0 then Err (Backend (what +:+ " length is zero"))
      else
        let? len := ok_or (try_width 64 length) (Backend (what +:+ " length is too large")) in
        let? end_ := ok_or (checked_add 64 file_offset length)
          (Backend (what +:+ " file range overflow")) in
        let? total_bytes := ok_or (checked_add 64 total_bytes length)
          (Backend "snapshot manifest total byte count overflow") in
        if max_total_bytes <? total_bytes then
          Err (Backend ("snapshot manifest data exceeds configured limit of "
                 +:+ dec max_total_bytes +:+ " bytes"))
        else
          let shown := path_display file_path in
          let? source := map_err (fun error =>
              Backend ("failed to open manifest file " +:+ shown +:+ ": " +:+ error))
            (open shown) in
          let? size := map_err (fun error =>
              Backend ("failed to inspect manifest file " +:+ shown +:+ ": " +:+ error))
            (metadata_len source) in
          if size <? end_ then Err (Backend (what +:+ " exceeds " +:+ shown))
          else
            let? rest := map_err (fun error =>
                Backend ("failed to seek manifest file " +:+ shown +:+ ": " +:+ error))
              (seek source file_offset) in
            let? _ := map_err (fun error =>
                Backend ("failed to allocate " +:+ what +:+ ": " +:+ error))
              (try_reserve "snapshot manifest segment" len) in
            let? slice := map_err (fun error =>
                Backend ("failed to read manifest segment " +:+ dec index +:+ " from "
                  +:+ shown +:+ ": " +:+ error))
              (read_exact rest (Z.to_nat len)) in
            let? _ := ok_or (checked_add 64 gpa length) (Backend (what +:+ " GPA range overflow")) in
            let? _ := reserve_segment segments "snapshot manifest" in
            Ok (total_bytes, segments ++ [SnapshotSegment.new (Gpa.new gpa) slice]).

Fixpoint manifest_segments (base : Path) (max_total_bytes index : Z) (entries : list Value)
    (st : Z * list SnapshotSegment.t) : Result (Z * list SnapshotSegment.t) :=
  match entries with
  | [] => Ok st
  | entry :: rest =>
      let? st' := manifest_segment base max_total_bytes index entry st in
      manifest_segments base max_total_bytes (index + 1) rest st'
  end.

Definition manifest_file_with_limits (path : string) (max_segments max_total_bytes : Z)
    : Result SnapshotBundle.t :=
  if (max_segments =? 0) || (max_total_bytes =? 0) then
    Err (Backend "manifest segment and byte limits must be non-zero")
  else
    let? contents := read_file_limited path DEFAULT_MAX_MANIFEST_SIZE "snapshot manifest" in
    let? _ := map_err (fun error =>
        Backend ("snapshot manifest " +:+ path +:+ " is not UTF-8: " +:+ Utf8.display error))
      (Utf8.from_utf8 contents) in
    let? root := map_err (fun error => Backend ("invalid snapshot manifest JSON: " +:+ error))
      (from_str (string_of_bytes contents)) in
    let? root := ok_or (as_object root) (Backend "snapshot manifest root must be an object") in
    if negb (bool_decide
         (match map_get root "version" with Some v => as_u64 v | None => None end = Some 1)) then
      Err (Backend "unsupported snapshot manifest version")
    else
      let? format := ok_or (match map_get root "format" with Some v => as_str v | None => None end)
        (Backend "snapshot manifest format must be a string") in
      let? entries := ok_or (match map_get root "segments" with Some v => as_array v | None => None end)
        (Backend "snapshot manifest segments must be an array") in
      if zlen entries =? 0 then Err (Backend "snapshot manifest contains no segments")
      else if max_segments <? zlen entries then
        Err (Backend ("snapshot manifest contains " +:+ dec (zlen entries)
               +:+ " segments, exceeding limit " +:+ dec max_segments))
      else
        let? base := map_err (fun error =>
            Backend ("failed to resolve manifest directory for " +:+ path +:+ ": " +:+ error))
          (canonicalize (default (MkPath false ["."%string]) (parent (parse_path path)))) in
        let? _ := map_err (fun error =>
            Backend ("failed to allocate snapshot manifest segment table: " +:+ error))
          (try_reserve "snapshot manifest segment table" (zlen entries)) in
        let? ' (_, segments) := manifest_segments base max_total_bytes 0 entries (0, []) in
        let? segments := sort_checked "snapshot manifest physical ranges overlap" segments in
        Ok (SnapshotBundle.mk (ArtifactProvenance.mk format path) segments).

Definition manifest_file (path : string) : Result SnapshotBundle.t :=
  manifest_file_with_limits path DEFAULT_MAX_MANIFEST_SEGMENTS DEFAULT_MAX_MANIFEST_BYTES.
End manifest.
End files.
