(* ===== verification/ArtifactFilesFacts.v ===== *)
(** * What reading snapshot files guarantees ([crates/vmi-artifact])

    Bounded captures return the whole stream or nothing, and manifests read
    only files below their own directory, within their limits. *)

From S2P Require Import Prelude.
From S2P Require Import Types.
From S2P Require Import Text.
From S2P Require Import Host.
From S2P Require Import Artifact.
From S2P Require Import ArtifactFormats.
From S2P Require Import ArtifactFacts.
From S2P Require Import ArtifactFiles.

Section capture.
Context `{Allocator} (what : string) (m : Messages) (maximum : Z) (s0 : stream).
Context (Hmax : in_u64 maximum) (Halloc : forall n, n <= maximum + 1 -> alloc_ok what n = true).

Definition capture_inv (st : list byte * stream) : Prop :=
  zlen st.1 <= maximum /\ stream_bytes s0 = app st.1 <$> stream_bytes st.2.

Definition capture_post (r : Result (list byte)) : Prop :=
  match r with
  | Ok data => zlen data <= maximum /\ stream_bytes s0 = Some data
  | Err _ => ~ exists data, stream_bytes s0 = Some data /\ zlen data <= maximum
  end.

Lemma capture_step_inv st : capture_inv st ->
  match capture_step what m maximum st with
  | inl st' => capture_inv st' /\ maximum - zlen st'.1 < maximum - zlen st.1
  | inr r => capture_post r
  end.
Proof.
  destruct st as [data s]. intros [Hlen Hs]. cbn [fst snd] in *.
  unfold capture_step, saturating_sub, saturating_add. unfold in_width in Hmax.
  pose proof (zlen_nonneg data). set (remaining := Z.max _ 0).
  assert (Hrem : 0 <= remaining <= maximum + 1 - zlen data /\
    (remaining = 0 -> maximum <= zlen data)) by (unfold remaining; lia).
  clearbody remaining. destruct Hrem as [Hrem Hzero].
  assert (Htoo : forall captured s', zlen captured <> 0 -> maximum < zlen data + zlen captured ->
    stream_bytes s = app captured <$> stream_bytes s' ->
    ~ exists d, stream_bytes s0 = Some d /\ zlen d <= maximum).
  { intros captured s' _ Hbig Hr (d & Hd & Hle). rewrite Hs, Hr in Hd.
    destruct (stream_bytes s') as [more|]; [|done]. cbn in Hd. injection Hd as <-.
    rewrite !zlen_app in Hle. pose proof (zlen_nonneg more). lia. }
  assert (Hfail : stream_bytes s = None -> ~ exists d, stream_bytes s0 = Some d /\ zlen d <= maximum).
  { intros E (d & Hd & _). by rewrite Hs, E in Hd. }
  assert (Hend : stream_bytes s = Some [] -> capture_post (Ok data)).
  { intros E. rewrite E in Hs. cbn in Hs. rewrite app_nil_r in Hs. done. }
  destruct (Z.eqb_spec remaining 0) as [E|Hne].
  - pose proof (read_retry_spec s 1 ltac:(lia)) as Hr.
    destruct (read_retry s 1) as [[captured|e] s']; [|by apply Hfail].
    destruct Hr as [_ Hr]. destruct (Z.eqb_spec (zlen captured) 0) as [Ec|Ec]; cbn [negb];
      [by apply Hend|].
    apply (Htoo captured s'); [done| |done]. pose proof (zlen_nonneg captured). lia.
  - pose proof (read_retry_spec s (Z.min remaining READ_CHUNK) ltac:(unfold READ_CHUNK; lia)) as Hr.
    destruct (read_retry s _) as [[captured|e] s']; [|by apply Hfail].
    destruct Hr as [Hc Hr]. destruct (Z.eqb_spec (zlen captured) 0) as [Ec|Ec]; [by apply Hend|].
    pose proof (zlen_nonneg captured). unfold try_reserve. rewrite Halloc by lia.
    rewrite zlen_app. destruct (Z.ltb_spec maximum (zlen data + zlen captured)).
    + by apply (Htoo captured s').
    + split; [split|]; cbn [fst snd]; rewrite ?zlen_app; [lia| |lia].
      rewrite Hs, Hr. destruct (stream_bytes s'); [|done]. cbn. by rewrite <- app_assoc.
Qed.

Lemma capture_total : capture_post (capture what m maximum s0).
Proof.
  unfold capture. unfold in_width in Hmax.
  apply (run_loop_total capture_inv capture_post (fun st => maximum - zlen st.1)).
  - split; cbn [fst snd]; [rewrite zlen_nil; lia|]. by destruct (stream_bytes s0).
  - cbn [fst]. rewrite zlen_nil. lia.
  - intros st [Hle _]. lia.
  - apply capture_step_inv.
Qed.
End capture.

(** C17: a file is read whole, within its limit, or not at all.  When the
    buffer can be allocated, a bounded read of a file that opens and whose
    size is within the limit succeeds exactly when its bytes, up to the end
    reads find, come without an error and are no more than the limit, even
    if the file grows meanwhile; it returns exactly those bytes, and the
    capture loop always ends. *)
Theorem read_file_limited_whole `{Allocator, FileSystem} (path description : string)
    (maximum size : Z) (file : File)
    (Hmax : in_u64 maximum) (Hpos : maximum <> 0)
    (Hopen : open path = Ok file) (Hsize : metadata_len file = Ok size)
    (Hfits : 0 <= size <= maximum)
    (Halloc : forall n, n <= maximum + 1 -> alloc_ok description n = true) :
  (forall data, read_file_limited path maximum description = Ok data ->
     zlen data <= maximum /\ stream_bytes (contents file) = Some data) /\
  (is_ok (read_file_limited path maximum description) = true <->
     exists data, stream_bytes (contents file) = Some data /\ zlen data <= maximum).
Proof.
  unfold read_file_limited. rewrite (proj2 (Z.eqb_neq _ _) Hpos), Hopen.
  cbn [map_err mbind result_bind]. rewrite Hsize. cbn [map_err mbind result_bind].
  destruct (Z.ltb_spec maximum size); [lia|]. unfold in_width in Hmax.
  rewrite try_width_fits by lia. cbn [ok_or mbind result_bind]. unfold try_reserve at 1 2.
  rewrite Halloc by lia. cbn [map_err mbind result_bind].
  set (m := MkMessages _ _ _).
  pose proof (capture_total description m maximum (contents file) Hmax Halloc) as Hpost.
  destruct (capture _ _ _ _) as [data|e]; cbn in *.
  - split; [by intros ? [= <-]|]. split; [|done]. intros _. exists data. tauto.
  - split; [done|]. split; [done|]. intros Hex. by destruct Hpost.
Qed.

Lemma read_file_limited_whole_witness :
  is_ok (@read_file_limited ample_allocator (example_files [x61; x62]) "a.raw" 2 "raw artifact") = true.
Proof.
  apply (@read_file_limited_whole ample_allocator (example_files [x61; x62]) "a.raw" "raw artifact" 2 2
    (MkFile (Ok 2) [Interrupted; Chunk [x61; x62]]
      (fun offset => Ok [Chunk (drop (Z.to_nat offset) [x61; x62])]))).
  - width_const.
  - discriminate.
  - reflexivity.
  - reflexivity.
  - lia.
  - intros n Hn. unfold alloc_ok, ample_allocator. apply Z.leb_le. unfold isize_max. lia.
  - exists [x61; x62]. split; [reflexivity|vm_compute; discriminate].
Defined.

(** ** Manifests *)

Lemma digits_range w radix bs acc v :
  0 <= acc < 2 ^ w -> 0 <= radix -> ParseInt.digits w radix bs acc = Ok v -> 0 <= v < 2 ^ w.
Proof.
  intros Hacc Hr. revert acc Hacc. induction bs as [|b bs IH]; intros acc Hacc; cbn.
  - by intros [= <-].
  - destruct (ParseInt.digit radix b) as [d|] eqn:Hd; [|done].
    destruct (checked_mul w acc radix) as [p|] eqn:Hp; [|done].
    destruct (checked_add w p d) as [acc'|] eqn:Ha; [|done]. inv_checked. apply IH.
    assert (0 <= d).
    { unfold ParseInt.digit in Hd.
      destruct (Z.leb_spec 48 (byte_val b)), (Z.leb_spec (byte_val b) 57),
        (Z.leb_spec 97 (byte_val b)), (Z.leb_spec (byte_val b) 122),
        (Z.leb_spec 65 (byte_val b)), (Z.leb_spec (byte_val b) 90); cbn in Hd;
        try done; destruct (_ <? radix); simplify_eq; lia. }
    split; [nia|done].
Qed.

Lemma from_str_radix_range radix text v :
  0 <= radix -> ParseInt.from_str_radix 64 radix text = Ok v -> in_u64 v.
Proof.
  intros Hr. unfold ParseInt.from_str_radix, in_width.
  assert (H0 : 0 <= 0 < 2 ^ 64) by lia.
  destruct (bytes_of_string text) as [|b rest]; [done|].
  repeat case_bool_decide; cbn [andb]; try (apply digits_range; done); [|done].
  destruct rest; [done|]. by apply digits_range.
Qed.

Lemma read_exact_length s n bs : read_exact s n = Ok bs -> length bs = n.
Proof.
  revert n bs. induction s as [|[|error|bytes] rest IH]; intros [|n] bs; cbn [read_exact];
    try (by intros [= <-]); try done; [apply IH|].
  destruct bytes as [|b bytes]; [done|]. cbn [length].
  destruct (Nat.leb_spec (S n) (S (length bytes))).
  - intros [= <-]. cbn. f_equal. rewrite length_take. lia.
  - destruct (read_exact rest _) as [more|] eqn:E; [|done]. apply IH in E. intros [= <-].
    cbn. rewrite length_app. lia.
Qed.

Section manifest_facts.
Context `{Allocator, FileSystem, SerdeJson}.
Import SnapshotSegment BundleSpec.

Lemma manifest_u64_range value field index v :
  manifest_u64 value field index = Ok v -> in_u64 v.
Proof.
  unfold manifest_u64. intros Hv. inv_ok. destruct (as_u64 v0) as [n|] eqn:E.
  - inv_ok. subst n. by apply as_u64_range in E.
  - inv_ok. destruct (strip_prefix _ _); by apply from_str_radix_range in Hv.
Qed.

(** A number of an entry: a JSON integer, or text in hexadecimal after [0x]
    and in decimal otherwise. *)
Definition number_at (fields : list (string * Value)) (name : string) (n : Z) : Prop :=
  exists value, map_get fields name = Some value /\
    (as_u64 value = Some n \/
     as_u64 value = None /\ exists text, as_str value = Some text /\
       match strip_prefix "0x" text with
       | Some digits => ParseInt.from_str_radix 64 16 digits = Ok n
       | None => ParseInt.from_str_radix 64 10 text = Ok n
       end).

(** The segment is what the entry names: the bytes of its range of the file
    that its relative path resolves to, and that file lies below the base
    directory.  The file opened is the resolved one. *)
Definition segment_read (base : Path) (entry : Value) (s : t) : Prop :=
  exists fields value name p f size offset rest,
    as_object entry = Some fields /\ map_get fields "file" = Some value /\ as_str value = Some name /\
    is_absolute (parse_path name) = false /\
    canonicalize (join base (parse_path name)) = Ok p /\ path_starts_with p base = true /\
    number_at fields "gpa" (start_raw s) /\ number_at fields "file_offset" offset /\
    number_at fields "length" (zlen (data s)) /\
    open (path_display p) = Ok f /\ metadata_len f = Ok size /\ offset + zlen (data s) <= size /\
    seek f offset = Ok rest /\ read_exact rest (length (data s)) = Ok (data s).

(** The entries of a manifest file. *)
Definition manifest_entries (path : string) (entries : list Value) : Prop :=
  exists contents root fields value,
    read_file_limited path DEFAULT_MAX_MANIFEST_SIZE "snapshot manifest" = Ok contents /\
    from_str (string_of_bytes contents) = Ok root /\ as_object root = Some fields /\
    map_get fields "segments" = Some value /\ as_array value = Some entries.

Definition manifest_inv (base : Path) (max : Z) (entries : list Value) (st : Z * list t) : Prop :=
  decoded st.2 /\ total_bytes st.2 = st.1 /\ 0 <= st.1 <= max /\ Forall2 (segment_read base) entries st.2.

Lemma manifest_u64_number fields name index v :
  manifest_u64 (map_get fields name) name index = Ok v -> number_at fields name v.
Proof.
  unfold manifest_u64, number_at. intros Hv. apply bind_Ok in Hv as (value & Hget & Hv).
  apply ok_or_Ok in Hget. exists value. split; [done|]. destruct (as_u64 value) as [n|]; [left; by injection Hv as ->|].
  right. split; [done|]. apply bind_Ok in Hv as (text & Htext & Hv). apply ok_or_Ok in Htext. exists text.
  split; [done|]. destruct (strip_prefix "0x" text); by destruct (ParseInt.from_str_radix _ _ _) as [?|?]; [injection Hv as ->|].
Qed.

Lemma field_text (fields : list (string * Value)) (name text : string) (e : VmiError.t) :
  ok_or (match map_get fields name with Some v => as_str v | None => None end) e = Ok text ->
  exists value, map_get fields name = Some value /\ as_str value = Some text.
Proof. intros H'%ok_or_Ok. destruct (map_get fields name) as [v|]; [by exists v|done]. Qed.

Lemma manifest_segment_inv base max index entries entry st st' :
  manifest_inv base max entries st -> manifest_segment base max index entry st = Ok st' ->
  manifest_inv base max (entries ++ [entry]) st'.
Proof.
  destruct st as [total segs]. intros (Hd & Hsum & Hle & Hb) Hr. cbn [fst snd] in *.
  unfold manifest_segment in Hr. apply bind_Ok in Hr as (fields & Hfields%ok_or_Ok & Hr).
  apply bind_Ok in Hr as (file & Hfile & Hr). apply field_text in Hfile as (value & Hvalue & Htext).
  destruct (is_absolute _) eqn:Habs; [done|]. inv_ok.
  destruct (path_starts_with v base) eqn:Hbase; cbn [negb] in Hr; [|done].
  apply bind_Ok in Hr as (gpa & Hgpa & Hr). apply bind_Ok in Hr as (offset & Hoffset & Hr).
  apply bind_Ok in Hr as (len & Hlen & Hr).
  destruct (Z.eqb_spec len 0) as [|Hne]; [done|]. inv_ok.
  destruct (Z.ltb_spec max v2) as [|Hmax]; [done|]. inv_ok.
  destruct (Z.ltb_spec v4 v1) as [|Hfits]; [done|]. inv_ok. inv_checked. subst st'.
  pose proof (manifest_u64_range _ _ _ _ Hgpa) as Hg. pose proof (manifest_u64_range _ _ _ _ Hlen) as Hl.
  apply manifest_u64_number in Hgpa, Hoffset, Hlen. unfold in_width in *.
  match goal with Ht : try_reserve _ _ = Ok _, Hx : read_exact _ _ = Ok _ |- _ =>
    apply try_reserve_limit in Ht; pose proof (read_exact_length _ _ _ Hx) as Hlength end.
  assert (Hz : zlen v7 = len) by (unfold zlen; lia).
  split; [|split; [|split]]; cbn [fst snd].
  - apply decoded_snoc; [done|apply new_wf; [done|lia]|]. unfold nonempty, new. cbn. lia.
  - rewrite total_bytes_snoc. unfold new. cbn [data]. lia.
  - lia.
  - apply Forall2_app; [done|]. constructor; [|constructor].
    exists fields, value, file, v, v3, v4, offset, v5. unfold new, start_raw. cbn [data range MemoryRange.start Gpa.raw].
    rewrite Hz, Hlength. by repeat (split; [done || lia|]).
Qed.

Lemma manifest_segments_inv base max index done_ entries st st' :
  manifest_inv base max done_ st -> manifest_segments base max index entries st = Ok st' ->
  manifest_inv base max (done_ ++ entries) st'.
Proof.
  revert done_ index st. induction entries as [|entry rest IH]; intros done_ index st Hinv; cbn.
  - intros [= <-]. by rewrite app_nil_r.
  - intros Hr. inv_ok. pose proof (manifest_segment_inv _ _ _ _ _ _ _ Hinv Hm) as Hinv'.
    specialize (IH _ _ _ Hinv' Hr). by rewrite <- app_assoc in IH.
Qed.
End manifest_facts.

(** What an accepted manifest has: its entries, the directory they are
    resolved in, and the segment of each, sorted. *)
Definition manifest_holds `{Allocator, FileSystem, SerdeJson} (path : string)
    (segs : list SnapshotSegment.t) : Prop :=
  exists entries base order,
    manifest_entries path entries /\
    canonicalize (default (MkPath false ["."%string]) (parent (parse_path path))) = Ok base /\
    Forall2 (segment_read base) entries order /\ segs ≡ₚ order.

Lemma manifest_file_Ok `{Allocator, FileSystem, SerdeJson} (path : string)
    (max_segments max_total_bytes : Z) (b : SnapshotBundle.t)
    (Hpos : 0 <= max_total_bytes)
    (Hb : manifest_file_with_limits path max_segments max_total_bytes = Ok b) :
  let segs := SnapshotBundle.segments b in
  1 <= zlen segs <= max_segments /\ total_bytes segs <= max_total_bytes /\
  Forall BundleSpec.wf_segment segs /\ disjoint segs /\ manifest_holds path segs.
Proof.
  unfold manifest_file_with_limits in Hb. destruct (_ || _); [done|].
  apply bind_Ok in Hb as (contents & Hcontents & Hb). apply bind_Ok in Hb as (u & _ & Hb).
  apply bind_Ok in Hb as (root & Hroot & Hb). apply bind_Ok in Hb as (fields & Hfields%ok_or_Ok & Hb).
  destruct (negb _); [done|]. apply bind_Ok in Hb as (format & _ & Hb).
  apply bind_Ok in Hb as (entries & Hentries%ok_or_Ok & Hb).
  destruct (Z.eqb_spec (zlen entries) 0) as [|Hne]; [done|].
  destruct (Z.ltb_spec max_segments (zlen entries)); [done|].
  apply bind_Ok in Hb as (base & Hbase & Hb). apply bind_Ok in Hb as (u' & _ & Hb).
  apply bind_Ok in Hb as ([total order] & Hsegs & Hb). apply bind_Ok in Hb as (sorted & Hsort & Hb).
  injection Hb as <-. cbn [SnapshotBundle.segments]. pose proof (zlen_nonneg entries).
  apply (manifest_segments_inv _ _ _ []) in Hsegs as (Hd & Hsum & Hle & Hread).
  2:{ split; [split; constructor|]. split; [done|]. split; [cbn; lia|constructor]. }
  cbn [fst snd app] in *. destruct (sort_checked_decoded _ _ _ Hsort Hd) as (Hp & [Hwf _] & Hdis).
  assert (Hl : zlen sorted = zlen entries).
  { unfold zlen. rewrite Hp. apply Forall2_length in Hread. lia. }
  split; [lia|]. split; [rewrite (total_bytes_Permutation _ _ Hp); lia|]. split; [done|]. split; [done|].
  exists entries, base, order. split; [|split; [by destruct (canonicalize _); inv_ok; subst|by split]].
  destruct (map_get fields "segments") as [value|] eqn:Hvalue; [|done].
  exists contents, root, fields, value. split; [done|].
  split; [by destruct (from_str _); inv_ok; subst|done].
Qed.

(** C16: a manifest is what its entries name, and cannot reach outside its
    directory or its limits.  An accepted manifest has one segment for each
    entry of its file, between one and the allowed number, holding no more
    bytes than allowed, which are well formed and do not overlap.  Each
    entry's path is relative; resolved against the resolved directory of the
    manifest it lies below that directory; and the segment's bytes are those
    of the entry's range of the file at the resolved path, at the entry's
    guest address. *)
Theorem manifest_confined_and_bounded `{Allocator, FileSystem, SerdeJson} (path : string)
    (max_segments max_total_bytes : Z) (b : SnapshotBundle.t)
    (Hpos : 0 <= max_total_bytes)
    (Hb : manifest_file_with_limits path max_segments max_total_bytes = Ok b) :
  let segs := SnapshotBundle.segments b in
  1 <= zlen segs <= max_segments /\ total_bytes segs <= max_total_bytes /\
  Forall BundleSpec.wf_segment segs /\ disjoint segs /\ manifest_holds path segs.
Proof. exact (manifest_file_Ok path max_segments max_total_bytes b Hpos Hb). Qed.

(** A JSON value of each kind used, decoded from one fixed text. *)
#[warnings="-register-all"]
Inductive example_value : Type :=
| ENumber (n : N)
| EText (s : string)
| EArray (vs : list example_value)
| EObject (fields : list (string * example_value)).

Definition example_manifest : example_value :=
  EObject [("version"%string, ENumber 1); ("format"%string, EText "raw");
    ("segments"%string, EArray [EObject [("file"%string, EText "memory.bin");
      ("gpa"%string, EText "0x1000"); ("file_offset"%string, ENumber 1); ("length"%string, ENumber 2)]])].

#[refine] Definition example_json : SerdeJson := {|
  Value := example_value;
  from_str := fun text => if String.eqb text "[1]" then Ok example_manifest else Err "EOF"%string;
  as_object := fun v => match v with
    | EObject fields => if bool_decide (NoDup (fields.*1)) then Some fields else None | _ => None end;
  as_array := fun v => match v with EArray vs => Some vs | _ => None end;
  as_u64 := fun v => match v with
    | ENumber n => if (n <? 2 ^ 64)%N then Some (Z.of_N n) else None | _ => None end;
  as_str := fun v => match v with EText s => Some s | _ => None end;
|}.
Proof.
  - intros [| | |fields] fs; try done. case_bool_decide; [|done]. by intros [= <-].
  - intros [n| | |] m; try done. destruct (N.ltb_spec n (2 ^ 64)%N); [|done]. intros [= <-].
    unfold in_width. lia.
Defined.

Lemma manifest_confined_and_bounded_witness :
  exists b, @manifest_file ample_allocator (example_files [x5b; x31; x5d]) example_json "d/m.json" = Ok b /\
    1 <= zlen (SnapshotBundle.segments b) <= 65536.
Proof.
  eexists. split; [vm_compute; reflexivity|].
  eapply (@manifest_confined_and_bounded ample_allocator (example_files [x5b; x31; x5d]) example_json
    "d/m.json" 65536 DEFAULT_MAX_MANIFEST_BYTES); [discriminate|].
  vm_compute. reflexivity.
Defined.

(** A manifest named without a directory cannot be loaded.  [Path::parent]
    of a bare file name is the empty path, not nothing, so the intended
    fallback to the current directory is not taken; where the operating
    system cannot resolve the empty path, the load fails whatever the
    manifest says. *)
Theorem manifest_bare_name_fails `{Allocator, FileSystem, SerdeJson} (path name error : string)
    (max_segments max_total_bytes : Z)
    (Hbare : parse_path path = MkPath false [name])
    (Hempty : canonicalize (MkPath false []) = Err error) :
  is_ok (manifest_file_with_limits path max_segments max_total_bytes) = false.
Proof.
  destruct (manifest_file_with_limits _ _ _) as [b|e] eqn:Hb; [exfalso|done].
  unfold manifest_file_with_limits in Hb. destruct (_ || _); [done|]. inv_ok.
  destruct (negb _); [done|]. inv_ok. destruct (_ =? 0); [done|]. destruct (_ <? _); [done|].
  rewrite Hbare in Hb. cbn [parent default components removelast has_root id from_option] in Hb.
  rewrite Hempty in Hb. done.
Qed.

Lemma manifest_bare_name_fails_witness :
  is_ok (@manifest_file_with_limits ample_allocator (example_files [x5b; x31; x5d]) example_json
           "m.json" 65536 65536) = false.
Proof.
  eapply (@manifest_bare_name_fails ample_allocator (example_files [x5b; x31; x5d]) example_json
    "m.json" "m.json"); reflexivity.
Defined.
