(* ===== verification/Guest.v ===== *)
(** * Reading guest structures

    What the two operating-system introspectors share: the interface of
    their reads and its law, loops in the monad of a session, the walk of a
    circular list with its cycle detector, lossy decoding of guest text, and
    the judgement [reads] their correctness is proved in. *)

From S2P Require Import Prelude.
From S2P Require Import Types.
From S2P Require Import DriverApi.
From S2P Require Import Text.

(** ** The interface *)

(** [session.read_virtual(translator, root, ..)] with the session, the
    translator and the root fixed, as an introspector holds them. *)
Class Guest (St : Type) : Type :=
  read_virtual : Gva.t -> Z -> stateful St VmiError.t (list byte).

(** The bytes of a range that lies below [2 ^ 64]. *)
Definition bytes_at (byte_at : Z -> option byte) (a n : Z) : option (list byte) :=
  if a + n <=? 2 ^ 64 then bytes_from byte_at a (Z.to_nat n) else None.

(** Reads are of one memory image: they return its bytes, and refuse a range
    that is not all there only; they keep the invariant [I]. *)
Class GuestMemory {St} `{Allocator, Guest St} (byte_at : Z -> option byte) (I : St -> Prop) : Prop :=
  guest_read : forall a n st, in_u64 a -> 0 <= n -> I st ->
    let '(r, st') := read_virtual (Gva.new a) n st in
    I st' /\
    (forall bs, r = Ok bs -> bytes_at byte_at a n = Some bs /\ n <= isize_max) /\
    (alloc_ok "virtual read buffer" n = true ->
     forall bs, bytes_at byte_at a n = Some bs -> r = Ok bs).

(** ** Loops that read *)

Section loops.
Context {St : Type}.

Definition loop_m_step {A R} (step : A -> stateful St VmiError.t (A + R)) (ast : A * St)
    : (A * St) + (Result R * St) :=
  match step (fst ast) (snd ast) with
  | (Ok (inl a), st) => inl (a, st)
  | (Ok (inr r), st) => inr (Ok r, st)
  | (Err e, st) => inr (Err e, st)
  end.

Definition loop_m {A R} (p : positive) (step : A -> stateful St VmiError.t (A + R)) (a : A)
    : stateful St VmiError.t R :=
  fun st => run_loop p (loop_m_step step)
              (fun ast => (Err (Backend "model fuel exhausted"), snd ast)) (a, st).

(** A number is inserted into a [HashSet<u64>] once at most, so a loop that
    inserts one each round ends in [2 ^ 64 + 1] rounds. *)
Definition u64_rounds : positive := Z.to_pos (2 ^ 64 + 1).

(** [for index in start..count]. *)
Fixpoint for_m {A} (count : nat) (index : Z) (body : Z -> A -> stateful St VmiError.t A) (a : A)
    : stateful St VmiError.t A :=
  match count with
  | O => mret a
  | S count' => let? a := body index a in for_m count' (index + 1) body a
  end.
End loops.

(** ** Shared steps *)

Section steps.
Context {St : Type} `{Allocator, !Guest St}.
Abbreviation M := (stateful St VmiError.t).

(** [reserve_one] and [reserve_seen] of a collection of [n] elements. *)
Definition reserve_one (n : Z) (description : string) : M unit :=
  lift (map_err (fun error => Backend ("failed to grow " +:+ description +:+ ": " +:+ error))
    (try_reserve description (n + 1))).
Definition reserve_seen (n : Z) (description : string) : M unit := reserve_one n description.

(** A little-endian integer of [n] bytes. *)
Definition read_le (n : nat) (short : string) (address : Z) : M Z :=
  let? bytes := read_virtual (Gva.new address) (Z.of_nat n) in
  lift (if Nat.eqb (length bytes) n then Ok (le_val bytes) else Err (Backend short)).

(** [bytes.iter().position(|byte| *byte == 0)], the tail truncated. *)
Fixpoint until_nul (bytes : list byte) : list byte :=
  match bytes with
  | [] => []
  | b :: rest => if bool_decide (b = x00) then [] else b :: until_nul rest
  end.

(** *** Lossy text *)

Definition decode_step (bytes : list byte) (description : string) (st : Z * list byte)
    : (Z * list byte) + Result (list byte) :=
  let '(offset, output) := st in
  if negb (offset <? zlen bytes) then inr (Ok output)
  else
    let step :=
      let? remaining := ok_or (get_range bytes offset (zlen bytes))
        (Backend (description +:+ " decoder offset is out of bounds")) in
      match Utf8.from_utf8 remaining with
      | Ok _ => Ok (inr (output ++ remaining))
      | Err error =>
          let? valid := ok_or (get_range remaining 0 (Utf8.valid_up_to error))
            (Backend (description +:+ " valid prefix is out of bounds")) in
          let? _ := map_err (fun error =>
              Backend (description +:+ " valid prefix failed: " +:+ Utf8.display error))
            (Utf8.from_utf8 valid) in
          let output := output ++ valid ++ Utf8.replacement in
          match Utf8.error_len error with
          | None => Ok (inr output)
          | Some error_length =>
              let? offset := ok_or
                (match checked_add 64 offset (Utf8.valid_up_to error) with
                 | Some value => checked_add 64 value error_length
                 | None => None
                 end) (Backend (description +:+ " decoder progress overflow")) in
              Ok (inl (offset, output))
          end
      end in
    match step with
    | Ok (inl st) => inl st
    | Ok (inr output) => inr (Ok output)
    | Err e => inr (Err e)
    end.

(** Every round passes at least one byte. *)
Definition decode_guest_bytes (bytes : list byte) (description : string) : Result string :=
  match Utf8.from_utf8 bytes with
  | Ok _ => Ok (string_of_bytes bytes)
  | Err _ =>
      let? capacity := ok_or (checked_mul 64 (zlen bytes) 3)
        (Backend (description +:+ " decoded length overflow")) in
      let? _ := map_err (fun error =>
          Backend ("failed to allocate decoded " +:+ description +:+ ": " +:+ error))
        (try_reserve description capacity) in
      let? output := run_loop (Z.to_pos (zlen bytes + 1)) (decode_step bytes description)
        (fun _ => Err (Backend "model fuel exhausted")) (0, []) in
      Ok (string_of_bytes output)
  end.

(** *** Circular lists *)

(** The names a walk uses in its errors, and the parts it is made of: an
    entry found from a node, its contents, and the next node. *)
Record ListWalk (E T : Type) : Type := MkListWalk {
  w_seen : string;
  w_output : string;
  w_looped : Z -> VmiError.t;
  w_exceeded : VmiError.t;
  w_entry : Z -> M E;
  w_read : E -> M T;
  w_next : Z -> M Z;
}.
Arguments MkListWalk {E T}.
Arguments w_seen {E T} l.
Arguments w_output {E T} l.
Arguments w_looped {E T} l.
Arguments w_exceeded {E T} l.
Arguments w_entry {E T} l.
Arguments w_read {E T} l.
Arguments w_next {E T} l.

(** One round of [while node != head]. *)
Definition walk_list_step {E T} (w : ListWalk E T) (head limit : Z) (ls : Z * gset Z * list T)
    : M ((Z * gset Z * list T) + list T) :=
  let '(node, seen, output) := ls in
  if node =? head then mret (inr output)
  else
    let? _ := reserve_seen (Z.of_nat (size seen)) (w_seen w) in
    if bool_decide (node ∈ seen) then fail (w_looped w node)
    else
      let? entry := w_entry w node in
      let? _ := reserve_one (zlen output) (w_output w) in
      let? item := w_read w entry in
      let output := output ++ [item] in
      let? next := w_next w node in
      if negb (next =? head) && (limit <=? zlen output) then fail (w_exceeded w)
      else mret (inl (next, {[node]} ∪ seen, output)).

Definition walk_list {E T} (w : ListWalk E T) (head limit node : Z) : M (list T) :=
  loop_m u64_rounds (walk_list_step w head limit) (node, ∅, []).
End steps.
Arguments MkListWalk {St E T}.
Arguments w_seen {St E T} l.
Arguments w_output {St E T} l.
Arguments w_looped {St E T} l.
Arguments w_exceeded {St E T} l.
Arguments w_entry {St E T} l.
Arguments w_read {St E T} l.
Arguments w_next {St E T} l.
