(* ===== verification/GuestFacts.v ===== *)
(** * Reads as relations on the memory image

    [reads m P]: the computation [m] reads the guest only; when it succeeds
    its value satisfies [P], and when memory can be allocated it succeeds
    with every value that satisfies [P].  The rules compose such
    specifications along the monad and through loops. *)

From S2P Require Import Prelude.
From S2P Require Import Types.
From S2P Require Import DriverApi.
From S2P Require Import Text.
From S2P Require Import TextFacts.
From S2P Require Import Guest.

Section reads.
Context {St : Type} `{Allocator, !Guest St} {byte_at : Z -> option byte} {I : St -> Prop}.
Context `{!GuestMemory byte_at I}.

Definition reads {A} (m : stateful St VmiError.t A) (P : A -> Prop) : Prop :=
  forall st, I st -> let '(r, st') := m st in
    I st' /\ (forall a, r = Ok a -> P a) /\ (ample -> forall a, P a -> r = Ok a).

Lemma reads_ret {A} (a : A) : reads (mret a) (eq a).
Proof. intros st Hst. split; [done|]. split; [by intros ? [= <-]|by intros _ ? <-]. Qed.

Lemma reads_fail {A} e : reads (fail (A := A) e) (fun _ => False).
Proof. intros st Hst. by split. Qed.

Lemma reads_bind {A B} (m : stateful St VmiError.t A) (k : A -> stateful St VmiError.t B) P Q :
  reads m P -> (forall a, P a -> reads (k a) (Q a)) ->
  reads (let? a := m in k a) (fun b => exists a, P a /\ Q a b).
Proof.
  intros Hm Hk st Hst. cbn. unfold mbind, stateful_bind. specialize (Hm st Hst).
  destruct (m st) as [[a|e] st1]; destruct Hm as (Hst1 & Hok & Hall).
  - specialize (Hk a (Hok a eq_refl) st1 Hst1). destruct (k a st1) as [r st2].
    destruct Hk as (Hst2 & Hok2 & Hall2). split; [done|]. split; [eauto|].
    intros Ha b (a' & Ha' & Hb). specialize (Hall Ha a' Ha'). injection Hall as <-. auto.
  - split; [done|]. split; [done|]. intros Ha b (a' & Ha' & _). by specialize (Hall Ha a' Ha').
Qed.

Lemma reads_bind_pair {A B C} (m : stateful St VmiError.t (A * B))
    (k : A -> B -> stateful St VmiError.t C) P Q :
  reads m P -> (forall a b, P (a, b) -> reads (k a b) (Q a b)) ->
  reads (let? ' (a, b) := m in k a b) (fun c => exists a b, P (a, b) /\ Q a b c).
Proof.
  intros Hm Hk. pose proof (reads_bind m (fun ab => let '(a, b) := ab in k a b) P
    (fun ab c => Q (fst ab) (snd ab) c) Hm) as Hb.
  intros st Hst. specialize (Hb ltac:(intros [a b]; apply Hk) st Hst).
  cbn in *. destruct (mbind _ m st) as [r st']. destruct Hb as (? & Hok & Hall).
  split; [done|]. split.
  - intros c Hc. destruct (Hok c Hc) as ([a b] & ? & ?). by exists a, b.
  - intros Hample c (a & b & ? & ?). apply Hall; [done|]. by exists (a, b).
Qed.

(** The specification may be replaced by an equivalent one. *)
Lemma reads_iff {A} (m : stateful St VmiError.t A) P Q :
  reads m P -> (forall a, P a <-> Q a) -> reads m Q.
Proof.
  intros Hm Hpq st Hst. specialize (Hm st Hst). destruct (m st) as [r st'].
  destruct Hm as (? & Hok & Hall). split; [done|]. split; [intros a Ha; by apply Hpq, Hok|].
  intros Hample a Ha. by apply Hall, Hpq.
Qed.

Lemma reads_lift {A} (r : Result A) : reads (lift r) (fun a => r = Ok a).
Proof. intros st Hst. by split. Qed.

Lemma reads_bind_value {A B} (a : A) (k : A -> stateful St VmiError.t B) P :
  reads (k a) P -> reads (let? x := lift (Ok a) in k x) P.
Proof. exact id. Qed.

Lemma reads_option {A} (o : option A) e : reads (lift (ok_or o e)) (fun a => o = Some a).
Proof. eapply reads_iff; [apply reads_lift|]. intros a. by rewrite ok_or_Ok. Qed.

Lemma reads_if {A} (b : bool) (m1 m2 : stateful St VmiError.t A) P1 P2 :
  (b = true -> reads m1 P1) -> (b = false -> reads m2 P2) ->
  reads (if b then m1 else m2) (fun a => if b then P1 a else P2 a).
Proof. destruct b; auto. Qed.

Lemma reads_reserve_one n what : reads (reserve_one n what) (fun _ => n + 1 <= isize_max).
Proof.
  intros st Hst. unfold reserve_one, lift, try_reserve.
  destruct (alloc_ok what (n + 1)) eqn:E; cbn; (split; [done|]); split.
  - intros [] _. destruct (Z.le_gt_cases (n + 1) isize_max); [done|]. by rewrite alloc_limit in E.
  - by intros _ [] _.
  - done.
  - intros Hample u Hn. by rewrite Hample in E.
Qed.

Lemma reads_virtual a n : in_u64 a -> 0 <= n ->
  reads (read_virtual (Gva.new a) n) (fun bs => bytes_at byte_at a n = Some bs /\ n <= isize_max).
Proof.
  intros Ha Hn st Hst. pose proof (guest_read a n st Ha Hn Hst) as Hr.
  destruct (read_virtual _ _ _) as [r st']. destruct Hr as (? & ? & Hall).
  split; [done|]. split; [done|]. intros Hample bs [Hbs Hmax]. apply Hall; [by apply Hample|done].
Qed.

(** ** Integers *)

(** The little-endian integer of [n] bytes at an address of the image. *)
Definition le_at (n : nat) (a : Z) : option Z := le_val <$> bytes_at byte_at a (Z.of_nat n).

Lemma bytes_at_length a n bs : bytes_at byte_at a n = Some bs -> length bs = Z.to_nat n.
Proof. unfold bytes_at. destruct (_ <=? _); [|done]. intros Hb. by apply bytes_from_Some in Hb as [? _]. Qed.

Lemma le_at_range n a v : le_at n a = Some v -> in_width (8 * Z.of_nat n) v.
Proof.
  unfold le_at. destruct (bytes_at _ _ _) as [bs|] eqn:E; [|done]. intros [= <-].
  apply bytes_at_length in E. pose proof (le_val_range bs) as Hr. unfold zlen in Hr.
  rewrite E in Hr. unfold in_width. by rewrite Nat2Z.id in Hr.
Qed.

Lemma reads_le n short a : in_u64 a -> Z.of_nat n <= isize_max ->
  reads (read_le n short a) (fun v => le_at n a = Some v).
Proof.
  intros Ha Hn. eapply reads_iff; [eapply reads_bind; [by apply reads_virtual; [|lia]|]|].
  - intros bs _. apply reads_lift.
  - intros v. cbn. unfold le_at. split.
    + intros (bs & [Hbs _] & Hv). rewrite Hbs. destruct (Nat.eqb _ _); [|done]. by injection Hv as <-.
    + destruct (bytes_at _ _ _) as [bs|] eqn:E; [|done]. intros [= <-].
      exists bs. split; [done|]. apply bytes_at_length in E. rewrite Nat2Z.id in E.
      by rewrite E, Nat.eqb_refl.
Qed.

(** ** Loops *)

(** A loop whose rounds decrease a measure ends, and is specified by the
    relation its rounds unfold to. *)
Lemma reads_loop {A R} (p : positive) (step : A -> stateful St VmiError.t (A + R))
    (Inv : A -> Prop) (measure : A -> Z) (S : A -> A + R -> Prop) (Q : A -> R -> Prop) a :
  (forall a, Inv a -> 0 <= measure a) ->
  (forall a, Inv a -> reads (step a) (S a)) ->
  (forall a a', Inv a -> S a (inl a') -> Inv a' /\ measure a' < measure a) ->
  (forall a r, Inv a -> Q a r <-> S a (inr r) \/ exists a', S a (inl a') /\ Q a' r) ->
  Inv a -> measure a < Zpos p -> reads (loop_m p step a) (Q a).
Proof.
  intros Hpos Hstep Hdec Hq Ha Hp.
  assert (Hgen : forall n a st, Inv a -> I st -> measure a < Z.of_nat n ->
    exists r st', loop_nat n (loop_m_step step) (a, st) = inr (r, st') /\ I st' /\
      (forall b, r = Ok b -> Q a b) /\ (ample -> forall b, Q a b -> r = Ok b)).
  { clear Ha Hp a. induction n as [|n IH]; intros a st Ha Hst Hn;
      [specialize (Hpos a Ha); lia|]. cbn [loop_nat]. unfold loop_m_step at 1. cbn [fst snd].
    pose proof (Hstep a Ha st Hst) as Hr. destruct (step a st) as [[[a'|r]|e] st'];
      destruct Hr as (Hst' & Hok & Hall).
    - specialize (Hok _ eq_refl). destruct (Hdec a a' Ha Hok) as [Ha' Hlt].
      destruct (IH a' st' Ha' Hst' ltac:(lia)) as (r & st2 & -> & Hst2 & Hok2 & Hall2).
      exists r, st2. split; [done|]. split; [done|]. split.
      + intros b ->. apply Hq; [done|]. right. eauto.
      + intros Hample b Hb. apply Hq in Hb as [Hb|(a2 & Ha2 & Hb)]; [| |done].
        * by specialize (Hall Hample _ Hb).
        * specialize (Hall Hample _ Ha2). injection Hall as ->. auto.
    - exists (Ok r), st'. split; [done|]. split; [done|]. split.
      + intros b [= <-]. apply Hq; [done|]. left. by apply Hok.
      + intros Hample b Hb. apply Hq in Hb as [Hb|(a2 & Ha2 & Hb)]; [| |done].
        * specialize (Hall Hample _ Hb). by injection Hall as ->.
        * by specialize (Hall Hample _ Ha2).
    - exists (Err e), st'. split; [done|]. split; [done|]. split; [done|].
      intros Hample b Hb. apply Hq in Hb as [Hb|(a2 & Ha2 & _)]; [| |done].
      + by specialize (Hall Hample _ Hb).
      + by specialize (Hall Hample _ Ha2). }
  intros st Hst. unfold loop_m, run_loop. rewrite loop_pos_nat.
  destruct (Hgen (Pos.to_nat p) a st Ha Hst ltac:(lia)) as (r & st' & -> & ? & ? & ?). done.
Qed.

(** Such a loop ends on every image, described or not: it has a run without
    fuel, whose result is the one with fuel. *)
Lemma reads_loop_ends {A R} (p : positive) (step : A -> stateful St VmiError.t (A + R))
    (Inv : A -> Prop) (measure : A -> Z) (S : A -> A + R -> Prop) a st :
  (forall a, Inv a -> 0 <= measure a) ->
  (forall a, Inv a -> reads (step a) (S a)) ->
  (forall a a', Inv a -> S a (inl a') -> Inv a' /\ measure a' < measure a) ->
  Inv a -> measure a < Zpos p -> I st ->
  exists r st', loop_runs (loop_m_step step) (a, st) (r, st') /\ loop_m p step a st = (r, st') /\ I st'.
Proof.
  intros Hpos Hstep Hdec Ha Hp Hst.
  destruct (loop_pos_total (fun ast => Inv ast.1 /\ I ast.2) (fun r => I (snd r)) (fun ast => measure ast.1)
    (loop_m_step step) p (a, st)) as ([r st'] & Hrun & Hst').
  - done.
  - exact Hp.
  - intros [b stb] [Hb _]. by apply Hpos.
  - intros [b stb] [Hb Hstb]. cbn [fst snd] in *. unfold loop_m_step. cbn [fst snd].
    specialize (Hstep b Hb stb Hstb).
    destruct (step b stb) as [[[b'|r]|e] stb']; destruct Hstep as (Hstb' & Hok & _); [|done..].
    destruct (Hdec b b' Hb (Hok _ eq_refl)). done.
  - exists r, st'. split; [by eapply loop_pos_runs|]. split; [|done]. unfold loop_m, run_loop. by rewrite Hrun.
Qed.

(** A counted loop is the sequence of its bodies. *)
Fixpoint for_rel {A} (B : Z -> A -> A -> Prop) (n : nat) (i : Z) (a r : A) : Prop :=
  match n with
  | O => a = r
  | S n' => exists a', B i a a' /\ for_rel B n' (i + 1) a' r
  end.

Lemma reads_for {A} (body : Z -> A -> stateful St VmiError.t A) (B : Z -> A -> A -> Prop)
    (Inv : Z -> A -> Prop) n i a :
  (forall j a, i <= j < i + Z.of_nat n -> Inv j a -> reads (body j a) (B j a)) ->
  (forall j a a', Inv j a -> B j a a' -> Inv (j + 1) a') ->
  Inv i a -> reads (for_m n i body a) (for_rel B n i a).
Proof.
  revert i a. induction n as [|n IH]; intros i a Hbody Hinv Ha; cbn [for_m for_rel]; [apply reads_ret|].
  eapply reads_bind; [apply Hbody; [lia|done]|]. intros a' Ha'.
  apply IH; [|done|by eapply Hinv]. intros j b Hj. apply Hbody. lia.
Qed.

(** ** Circular lists *)

Section walk.
Context {E T : Type} (w : ListWalk (St:=St) E T) (head limit : Z).
Context (entry : Z -> E -> Prop) (item : E -> T -> Prop) (next : Z -> Z -> Prop).
Context (Hentry : forall node, in_u64 node -> reads (w_entry w node) (entry node)).
Context (Hitem : forall node e, in_u64 node -> entry node e -> reads (w_read w e) (item e)).
Context (Hnext : forall node e, in_u64 node -> entry node e -> reads (w_next w node) (next node)).
Context (Hnext_range : forall node n, next node n -> in_u64 n).

(** The nodes of the list from a node on up to the head, and their items. *)
Inductive circle : Z -> list Z -> list T -> Prop :=
| circle_head : circle head [] []
| circle_node node e x n nodes xs :
    node <> head -> entry node e -> item e x -> next node n -> circle n nodes xs ->
    circle node (node :: nodes) (x :: xs).

Definition walk_inv (ls : Z * gset Z * list T) : Prop :=
  let '(node, seen, output) := ls in
  in_u64 node /\ (forall x, x ∈ seen -> in_u64 x) /\ Z.of_nat (size seen) = zlen output /\
  (node = head \/ zlen output < limit).

Definition walk_round (ls : Z * gset Z * list T) (r : (Z * gset Z * list T) + list T) : Prop :=
  let '(node, seen, output) := ls in
  if node =? head then (inr output = r)
  else
    (zlen output + 1 <= isize_max) /\ (node ∉ seen) /\
    exists e x n, entry node e /\ item e x /\ next node n /\ (n = head \/ zlen output + 1 < limit) /\
      r = inl (n, {[node]} ∪ seen, output ++ [x]).

Definition walk_rest (ls : Z * gset Z * list T) (out : list T) : Prop :=
  let '(node, seen, output) := ls in
  exists nodes xs, circle node nodes xs /\ NoDup nodes /\ (forall x, x ∈ nodes -> x ∉ seen) /\
    out = output ++ xs /\ (xs <> [] -> zlen out <= limit /\ zlen out <= isize_max).

Lemma reads_walk_step ls : walk_inv ls -> reads (walk_list_step w head limit ls) (walk_round ls).
Proof.
  destruct ls as [[node seen] output]. intros (Hnode & Hseen & Hsize & Hlim).
  unfold walk_list_step, walk_round. destruct (Z.eqb_spec node head) as [|Hne]; [apply reads_ret|].
  eapply reads_iff.
  { eapply reads_bind; [apply reads_reserve_one|intros ? _]. cbv beta.
    apply reads_if; intros _; [apply reads_fail|].
    eapply reads_bind; [by apply Hentry|intros e He].
    eapply reads_bind; [apply reads_reserve_one|intros ? _].
    eapply reads_bind; [by eapply Hitem|intros x Hx]. cbv zeta.
    eapply reads_bind; [by eapply Hnext|intros n Hn].
    apply reads_if; intros _; [apply reads_fail|apply reads_ret]. }
  intros r. cbv beta. rewrite Hsize. case_bool_decide as Hin.
  { split; [naive_solver|]. intros (_ & ? & _). done. }
  split.
  - intros (_ & Hmax & e & He & _ & _ & x & Hx & n & Hn & Hif).
    split; [done|]. split; [done|]. exists e, x, n. do 3 (split; [done|]).
    rewrite zlen_app in Hif. change (zlen [x]) with 1 in Hif.
    destruct (Z.eqb_spec n head); cbn [negb andb] in Hif; [by auto|].
    destruct (Z.leb_spec limit (zlen output + 1)); [done|]. auto.
  - intros (Hmax & _ & e & x & n & He & Hx & Hn & Hor & ->).
    exists tt. split; [done|]. exists e. split; [done|]. exists tt. split; [done|].
    exists x. split; [done|]. exists n. split; [done|].
    rewrite zlen_app. change (zlen [x]) with 1.
    destruct (Z.eqb_spec n head); cbn [negb andb]; [done|].
    destruct (Z.leb_spec limit (zlen output + 1)); [lia|done].
Qed.

Lemma walk_round_decreases ls ls' : walk_inv ls -> walk_round ls (inl ls') ->
  walk_inv ls' /\ 2 ^ 64 - Z.of_nat (size ls'.1.2) < 2 ^ 64 - Z.of_nat (size ls.1.2).
Proof.
  destruct ls as [[node seen] output]. intros (Hnode & Hseen & Hsize & Hlim).
  unfold walk_round. destruct (node =? head); [done|].
  intros (_ & Hin & e & x & n & _ & _ & Hn & Hor & [= ->]). cbn [fst snd].
  rewrite size_union, size_singleton by set_solver. split; [|lia].
  split; [by eapply Hnext_range|]. split; [set_solver|].
  rewrite size_union, size_singleton, zlen_app by set_solver. change (zlen [x]) with 1. lia.
Qed.

Lemma walk_rest_unfold ls out : walk_inv ls ->
  walk_rest ls out <-> walk_round ls (inr out) \/ exists ls', walk_round ls (inl ls') /\ walk_rest ls' out.
Proof.
  destruct ls as [[node seen] output]. intros (Hnode & Hseen & Hsize & Hlim).
  unfold walk_round, walk_rest. destruct (Z.eqb_spec node head) as [->|Hne].
  - split.
    + intros (nodes & xs & Hc & _ & _ & -> & _). left. inversion Hc; [by rewrite app_nil_r|done].
    + intros [[= <-]|(? & [=] & _)]. exists [], []. split; [constructor|]. split; [constructor|].
      split; [set_solver|]. by rewrite app_nil_r.
  - split.
    + intros (nodes & xs & Hc & Hnd & Hdis & -> & Hbound). right.
      inversion Hc as [|? e x n nodes' xs' _ He Hx Hn Hc']; subst; [done|].
      apply NoDup_cons in Hnd as [Hnin Hnd]. destruct (Hbound ltac:(done)) as [Hl Hm].
      rewrite zlen_app, zlen_cons in Hl, Hm. pose proof (zlen_nonneg xs').
      exists (n, {[node]} ∪ seen, output ++ [x]). split.
      * split; [lia|]. split; [apply Hdis; left|]. exists e, x, n. do 3 (split; [done|]).
        split; [|done]. inversion Hc'; subst; [by left|right]. rewrite zlen_cons in Hl.
        pose proof (zlen_nonneg xs). lia.
      * exists nodes', xs'. split; [done|]. split; [done|]. split; [set_solver|].
        rewrite <- app_assoc. split; [done|]. intros _. rewrite zlen_app. cbn [app]. rewrite zlen_cons. lia.
    + intros [(_ & _ & ? & ? & ? & _ & _ & _ & _ & [=])|([[n seen'] output'] & Hr & Hrest)].
      destruct Hr as (Hmax & Hin & e & x & n' & He & Hx & Hn & Hor & [= -> -> ->]).
      destruct Hrest as (nodes & xs & Hc & Hnd & Hdis & -> & Hbound).
      exists (node :: nodes), (x :: xs). split; [by econstructor|].
      split; [apply NoDup_cons; split; [|done]; intros Hx'; apply (Hdis _ Hx'); set_solver|].
      split; [set_solver|]. rewrite <- app_assoc in *. split; [done|]. intros _.
      destruct xs as [|x' xs]; [|by apply Hbound].
      inversion Hc; subst. cbn [app]. rewrite zlen_app. change (zlen [x]) with 1. lia.
Qed.

Lemma walk_inv_start node : in_u64 node -> 1 <= limit -> walk_inv (node, ∅, []).
Proof. intros Hnode Hlimit. split; [done|]. split; [set_solver|]. split; [done|]. right. rewrite zlen_nil. lia. Qed.

Lemma walk_inv_measure ls : walk_inv ls -> 0 <= 2 ^ 64 - Z.of_nat (size ls.1.2).
Proof.
  destruct ls as [[n seen] output]. intros (_ & Hseen & _). cbn [fst snd].
  pose proof (size_in_range seen (2 ^ 64) ltac:(lia) Hseen). lia.
Qed.

(** A walk ends on every image. *)
Lemma walk_list_ends node st : in_u64 node -> 1 <= limit -> I st ->
  exists r st', loop_runs (loop_m_step (walk_list_step w head limit)) ((node, ∅, []), st) (r, st') /\
    walk_list w head limit node st = (r, st').
Proof.
  intros Hnode Hlimit Hst.
  destruct (reads_loop_ends u64_rounds (walk_list_step w head limit) walk_inv
    (fun ls => 2 ^ 64 - Z.of_nat (size ls.1.2)) walk_round (node, ∅, []) st)
    as (r & st' & Hrun & Hw & _); [apply walk_inv_measure|apply reads_walk_step|apply walk_round_decreases
    |by apply walk_inv_start| |done|by exists r, st'].
  cbn [fst snd]. change (size (∅ : gset Z)) with 0%nat. unfold u64_rounds. lia.
Qed.

(** A walk gives the items of a list that closes at the head without
    visiting a node twice, within the limit. *)
Lemma reads_walk_list node : in_u64 node -> 1 <= limit ->
  reads (walk_list w head limit node)
    (fun xs => exists nodes, circle node nodes xs /\ NoDup nodes /\ zlen xs <= limit /\ zlen xs <= isize_max).
Proof.
  intros Hnode Hlimit. eapply reads_iff.
  { unfold walk_list. apply (reads_loop _ _ walk_inv (fun ls => 2 ^ 64 - Z.of_nat (size ls.1.2))
      walk_round walk_rest).
    - apply walk_inv_measure.
    - apply reads_walk_step.
    - apply walk_round_decreases.
    - intros. by apply walk_rest_unfold.
    - by apply walk_inv_start.
    - cbn [fst snd]. change (size (∅ : gset Z)) with 0%nat. unfold u64_rounds. lia. }
  intros xs. unfold walk_rest. split.
  - intros (nodes & xs' & Hc & Hnd & _ & -> & Hb). exists nodes. split; [done|]. split; [done|].
    destruct xs' as [|x xs']; [|by apply Hb]. cbn [app]. rewrite zlen_nil. unfold isize_max. lia.
  - intros (nodes & Hc & Hnd & Hl & Hm). exists nodes, xs. split; [done|]. split; [done|].
    split; [set_solver|]. done.
Qed.
End walk.
End reads.

(** ** Lossy text *)

Section decode.
Context `{Allocator}.

Definition decode_inv (bytes : list byte) (st : Z * list byte) : Prop :=
  0 <= fst st <= zlen bytes /\ snd st ++ lossy (drop (Z.to_nat (fst st)) bytes) = lossy bytes.

Lemma decode_step_inv bytes description st :
  zlen bytes <= isize_max -> decode_inv bytes st ->
  match decode_step bytes description st with
  | inl st' => decode_inv bytes st' /\ zlen bytes - fst st' < zlen bytes - fst st
  | inr r => r = Ok (lossy bytes)
  end.
Proof.
  intros Hmax. destruct st as [offset output]. intros [Ho Heq]. cbn [fst snd] in *. unfold decode_step.
  destruct (Z.ltb_spec offset (zlen bytes)) as [Hlt|Hge]; cbn [negb].
  2:{ rewrite drop_ge in Heq by (unfold zlen in *; lia). f_equal. cbn in Heq. by rewrite app_nil_r in Heq. }
  assert (Hget : get_range bytes offset (zlen bytes) = Some (drop (Z.to_nat offset) bytes)).
  { unfold get_range. replace (_ && _ && _) with true.
    - f_equal. rewrite take_ge; [done|]. rewrite length_drop. unfold zlen. lia.
    - symmetry. rewrite !andb_true_iff, !Z.leb_le. lia. }
  rewrite Hget. cbn [ok_or mbind result_bind]. set (rest := drop (Z.to_nat offset) bytes) in *.
  assert (Hrest : length rest = (length bytes - Z.to_nat offset)%nat) by apply length_drop.
  destruct (Utf8.from_utf8 rest) as [u|e] eqn:Hutf.
  { apply from_utf8_go_valid in Hutf; [|done]. by rewrite lossy_valid in Heq; [f_equal|]. }
  apply from_utf8_go_error in Hutf as (k & Hk & Hkl & Hv & Hlossy); [|done]. cbn in Hk.
  unfold zlen in *.
  assert (Hprefix : get_range rest 0 (Utf8.valid_up_to e) = Some (take k rest)).
  { unfold get_range, zlen. rewrite Hk. replace (_ && _ && _) with true.
    - change (drop (Z.to_nat 0) rest) with rest. do 2 f_equal. lia.
    - symmetry. rewrite !andb_true_iff, !Z.leb_le. lia. }
  rewrite Hprefix. cbn [ok_or mbind result_bind].
  apply from_utf8_valid in Hv. rewrite Hv. cbn [map_err mbind result_bind].
  destruct (Utf8.error_len e) as [len|].
  - destruct Hlossy as (j & -> & Hj & Hjl & Hlossy).
    rewrite Hk, checked_add_fits by (unfold isize_max in *; lia).
    rewrite checked_add_fits by (unfold isize_max in *; lia). cbn [ok_or mbind result_bind].
    cbn [fst snd]. split; [|lia]. split; [cbn [fst]; unfold zlen; lia|]. cbn [fst snd].
    rewrite Hlossy in Heq. rewrite <- Heq, <- !app_assoc. do 3 f_equal.
    unfold rest. rewrite drop_drop. f_equal. f_equal. lia.
  - f_equal. by rewrite Hlossy in Heq.
Qed.

Lemma decode_guest_bytes_Ok bytes description s :
  zlen bytes <= isize_max -> decode_guest_bytes bytes description = Ok s ->
  s = string_of_bytes (lossy bytes).
Proof.
  intros Hmax. unfold decode_guest_bytes. destruct (Utf8.from_utf8 bytes) as [[]|] eqn:Hutf.
  { apply from_utf8_valid in Hutf. intros [= <-]. by rewrite lossy_valid. }
  intros Hs. inv_ok. subst s.
  assert (Hrun : Ok v1 = Ok (lossy bytes) :> Result _); [|congruence]. rewrite <- Hm1.
  apply (run_loop_total (decode_inv bytes) (fun r => r = Ok (lossy bytes)) (fun st => zlen bytes - fst st)).
  - split; [cbn; unfold zlen; lia|done].
  - cbn. unfold zlen. lia.
  - intros st [? _]. lia.
  - intros st Hst. by apply decode_step_inv.
Qed.

Lemma decode_guest_bytes_ample bytes description :
  ample -> 3 * zlen bytes <= isize_max ->
  decode_guest_bytes bytes description = Ok (string_of_bytes (lossy bytes)).
Proof.
  intros Hample Hmax. pose proof (zlen_nonneg bytes) as Hpos.
  destruct (decode_guest_bytes bytes description) as [s|e] eqn:E.
  { by apply decode_guest_bytes_Ok in E as ->; [|lia]. }
  exfalso. unfold decode_guest_bytes in E.
  destruct (Utf8.from_utf8 bytes); [done|].
  rewrite checked_mul_fits in E by (unfold isize_max in *; lia). cbn [ok_or mbind result_bind] in E.
  unfold try_reserve in E. rewrite Hample in E by lia. cbn [map_err mbind result_bind] in E.
  assert (Hrun : run_loop (Z.to_pos (zlen bytes + 1)) (decode_step bytes description)
     (fun _ => Err (Backend "model fuel exhausted")) (0, []) = Ok (lossy bytes)).
  { apply (run_loop_total (decode_inv bytes) (fun r => r = Ok (lossy bytes)) (fun st => zlen bytes - fst st)).
    - split; [cbn; unfold zlen; lia|done].
    - cbn. lia.
    - intros st [? _]. lia.
    - intros st Hst. apply decode_step_inv; [lia|done]. }
  by rewrite Hrun in E.
Qed.
End decode.

(** The text of guest bytes. *)
Definition text (bytes : list byte) : string := string_of_bytes (lossy bytes).

Lemma length_until_nul bytes : (length (until_nul bytes) <= length bytes)%nat.
Proof. induction bytes; cbn; [lia|]. case_bool_decide; cbn; lia. Qed.

Section steps.
Context {St : Type} `{Allocator, !Guest St} {byte_at : Z -> option byte} {I : St -> Prop}.
Context `{!GuestMemory byte_at I}.

Abbreviation int n a := (le_at (byte_at := byte_at) n a).
Abbreviation run m P := (reads (I := I) m P).

Lemma reads_checked_add a b e :
  run (lift (ok_or (checked_add 64 a b) e)) (fun v => v = a + b /\ v < 2 ^ 64).
Proof.
  eapply reads_iff; [apply reads_option|]. intros v. unfold checked_add.
  destruct (Z.ltb_spec (a + b) (2 ^ 64)); split; [intros [= <-]|intros [-> ?]|done|]; auto. lia.
Qed.

Lemma reads_checked_sub a b e :
  run (lift (ok_or (checked_sub a b) e)) (fun v => v = a - b /\ b <= a).
Proof.
  eapply reads_iff; [apply reads_option|]. intros v. unfold checked_sub.
  destruct (Z.leb_spec b a); split; [intros [= <-]|intros [-> ?]|done|]; auto. lia.
Qed.

Lemma reads_decode bytes what : 3 * zlen bytes <= isize_max ->
  run (lift (decode_guest_bytes bytes what)) (fun s => s = text bytes).
Proof.
  intros Hmax st Hst. cbn. split; [done|]. split.
  - intros s Hs. apply decode_guest_bytes_Ok in Hs; [done|]. pose proof (zlen_nonneg bytes). lia.
  - intros Hample s ->. by apply decode_guest_bytes_ample.
Qed.

(** A read of bytes as the text before the first NUL. *)
Lemma bytes_at_bounds a n bs :
  bytes_at byte_at a n = Some bs -> 0 < n -> a + n <= 2 ^ 64 /\ zlen bs = n.
Proof.
  intros Hb Hn. pose proof (bytes_at_length _ _ _ Hb) as Hl. unfold bytes_at in Hb.
  destruct (Z.leb_spec (a + n) (2 ^ 64)); [|done]. split; [done|]. unfold zlen. lia.
Qed.

Lemma int_bounds n a v : int n a = Some v -> (0 < n)%nat -> a + Z.of_nat n <= 2 ^ 64.
Proof.
  unfold le_at. destruct (bytes_at _ _ _) as [bs|] eqn:E; [|done]. intros _ Hn.
  apply bytes_at_bounds in E as [? _]; lia.
Qed.

End steps.

(** A flat guest: its addresses are those of the memory image. *)
Definition flat_guest (byte_at : Z -> option byte) : Guest unit := fun address length st =>
  match bytes_at byte_at (Gva.raw address) length with
  | Some bytes => (if length <=? isize_max then Ok bytes else Err (Backend "too long"), st)
  | None => (Err (VmiError.ReadFailed (Gva.raw address) length), st)
  end.

Lemma flat_guest_memory byte_at :
  @GuestMemory unit ample_allocator (flat_guest byte_at) byte_at (fun _ => True).
Proof.
  intros a n st Ha Hn _. unfold read_virtual, flat_guest. cbn [Gva.raw].
  destruct (bytes_at byte_at a n) as [bs|]; [|by split].
  destruct (Z.leb_spec n isize_max); (split; [done|]); (split; [intros ? [= <-]; done|]).
  - intros _ ? [= <-]. done.
  - intros Ha'. apply Z.leb_le in Ha'. lia.
Qed.

(** C23: guest text is decoded the way [String::from_utf8_lossy] does.  Any
    bytes a guest stores decode, when memory is available, to text that is
    valid UTF-8, leaves valid parts as they are, replaces each maximal
    invalid part by one U+FFFD and never outgrows the three bytes per byte
    reserved for it; the decoding loop always ends. *)
Theorem guest_text_is_lossy_utf8 `{Allocator} (bytes : list byte) (description : string)
    (Hample : ample) (Hmax : 3 * zlen bytes <= isize_max) :
  decode_guest_bytes bytes description = Ok (string_of_bytes (lossy bytes)) /\
  Utf8.from_utf8 (lossy bytes) = Ok tt /\
  (Utf8.from_utf8 bytes = Ok tt -> lossy bytes = bytes) /\
  zlen (lossy bytes) <= 3 * zlen bytes.
Proof.
  split; [by apply decode_guest_bytes_ample|]. split; [apply from_utf8_valid, valid_lossy|].
  split; [intros ?%from_utf8_valid; by apply lossy_valid|].
  pose proof (length_lossy bytes). unfold zlen. lia.
Qed.

Lemma guest_text_is_lossy_utf8_witness :
  @decode_guest_bytes ample_allocator [x61; xc3; x28; xe2; x82] "name"
  = Ok (string_of_bytes ([x61] ++ Utf8.replacement ++ [x28] ++ Utf8.replacement)).
Proof.
  apply (@guest_text_is_lossy_utf8 ample_allocator [x61; xc3; x28; xe2; x82] "name" ample_ample).
  vm_compute. discriminate.
Defined.
