(* ===== verification/SessionGuest.v ===== *)
(** * A session is a guest memory ([crates/vmi-core])

    The virtual reads of a session, through one translator and one root,
    satisfy the interface the introspectors are proved against. *)

From S2P Require Import Prelude.
From S2P Require Import Types.
From S2P Require Import DriverApi.
From S2P Require Import Arch.
From S2P Require Import Session.
From S2P Require Import Guest.

(** The session, translator and root an introspector keeps. *)
Definition session_guest `{Allocator} {S : Type} (session : Session S) (tr : AddressTranslator)
    (root : TranslationRoot.t) : Guest (VmiSession.state S) :=
  fun address length => VmiSession.read_virtual session tr root address length.

Lemma bytes_at_lookup byte_at a n bs : 0 <= n ->
  bytes_at byte_at a n = Some bs <->
  zlen bs = n /\ a + n <= 2 ^ 64 /\ forall i : nat, Z.of_nat i < n -> byte_at (a + Z.of_nat i) = bs !! i.
Proof.
  intros Hn. unfold bytes_at, zlen. destruct (Z.leb_spec (a + n) (2 ^ 64)).
  - rewrite bytes_from_Some. split; intros [Hl Hb]; (split; [lia|]).
    + split; [done|]. intros i Hi. apply Hb. lia.
    + intros i Hi. apply Hb. lia.
  - split; [done|]. lia.
Qed.

Lemma session_guest_memory `{Allocator} {S : Type} (session : Session S) (m : MemoryAccess S)
    (tr : AddressTranslator) `{!PageLinear tr} (memory_now : Reader) (byte_at : Z -> option byte)
    `{!ByteMemory memory_now byte_at} (root : TranslationRoot.t) :
  memory session = Ok m ->
  @GuestMemory (VmiSession.state S) _ (session_guest session tr root)
    (virtual_byte tr memory_now byte_at root)
    (fun st => ready m tr st /\ read_into m (VmiSession.backend st) = memory_now).
Proof.
  intros Hmem a n st Ha Hn [Hready Hnow]. unfold read_virtual, session_guest.
  destruct (alloc_ok "virtual read buffer" n) eqn:Halloc.
  - pose proof (read_virtual_post session m tr Hmem memory_now byte_at root a n st Ha Hn Halloc
      Hready Hnow) as (Hready' & Hnow' & Hpost).
    destruct (VmiSession.read_virtual _ _ _ _ _ _) as [[bs|e] st'];
      cbn [fst snd] in *; (split; [done|]).
    + destruct Hpost as (Hlen & Hend & Hb).
      assert (Hbs : n = 0 \/ 0 < n) by lia.
      assert (Hat : bytes_at (virtual_byte tr memory_now byte_at root) a n = Some bs).
      { apply bytes_at_lookup; [done|]. split; [done|]. split; [|done].
        unfold in_width in Ha. destruct Hbs; [lia|auto]. }
      split; [|intros _ bs' Hbs'; congruence]. intros bs' [= <-]. split; [done|].
      destruct (Z.le_gt_cases n isize_max) as [?|Hgt]; [done|]. by rewrite alloc_limit in Halloc.
    + split; [done|]. intros _ bs (Hlen & Hend & Hb)%bytes_at_lookup; [|done].
      destruct Hpost. split; [done|]. intros i Hi. rewrite Hb by done. apply lookup_lt_is_Some.
      unfold zlen in Hlen. lia.
  - unfold VmiSession.read_virtual, try_reserve. rewrite Halloc. cbn. split; [done|]. done.
Qed.
