(* ===== verification/Snapshot.v ===== *)
(** * Offline providers ([crates/vmi-driver-dump], [crates/vmi-driver-snapshot])

    The connectors that serve a decoded memory image: a raw dump and the
    snapshots of several hypervisors.  The state of their sessions is the
    bundle itself, which no operation changes. *)

From S2P Require Import Prelude.
From S2P Require Import Types.
From S2P Require Import DriverApi.
From S2P Require Import Host.
From S2P Require Import Artifact.
From S2P Require Import ArtifactFormats.
From S2P Require Import ArtifactFacts.
From S2P Require Import ArtifactFiles.
From S2P Require Import ArtifactFilesFacts.

(** The memory facet of both sessions. *)
Definition bundle_memory : MemoryAccess SnapshotBundle.t :=
  {| read_into := SnapshotBundle.read_into |}.

Definition offline_session `{Allocator} (p : ProviderDescriptor.t) (t : TargetDescriptor.t)
    : Session SnapshotBundle.t :=
  let base := default_session p t (ProviderDescriptor.capabilities p) in {|
  provider := p;
  target := t;
  capabilities := ProviderDescriptor.capabilities p;
  memory := Ok bundle_memory;
  memory_write := memory_write base;
  cpu := cpu base;
  control := control base;
  events := events base;
  views := views base;
  acquisition := acquisition base;
  lifecycle := lifecycle base;
|}.

Definition owned_text `{Allocator} (value what : string) : Result string :=
  let? _ := map_err (fun error => Backend ("failed to allocate " +:+ what +:+ ": " +:+ error))
    (try_reserve what (Z.of_nat (String.length value))) in
  Ok value.

Module DumpConnector.
Record t : Type := mk {
  descriptor : ProviderDescriptor.t;
  target : TargetDescriptor.t;
  bundle : SnapshotBundle.t;
}.

Section dump.
Context `{Allocator, Bitflags}.

Definition new (bundle : SnapshotBundle.t) (architecture : GuestArchitecture.t) : t :=
  let capabilities := CapabilitySet.from_caps [Capability.MemoryRead] in
  let target_name := ArtifactProvenance.source (SnapshotBundle.provenance bundle) in
  mk (ProviderDescriptor.new "raw-dump" "Raw Memory Dump" ProviderMaturity.Preview capabilities)
    (TargetDescriptor.new target_name (Some target_name) architecture
       ConsistencyMode.ImmutableSnapshot)
    bundle.

Definition try_owned_provider_id (provider_id : string) : Result string :=
  owned_text provider_id "dump provider ID".

Definition connect (c : t) (request : AttachRequest.t)
    : Result (Session SnapshotBundle.t * SnapshotBundle.t) :=
  let missing := CapabilitySet.difference_of (AttachRequest.required_capabilities request)
    (ProviderDescriptor.capabilities (descriptor c)) in
  if negb (CapabilitySet.is_empty missing) then
    let? provider := try_owned_provider_id (ProviderDescriptor.id (descriptor c)) in
    Err (VmiError.AttachRejected provider missing)
  else
    let? _ :=
      match AttachRequest.selector request with
      | TargetSelector.Named expected =>
          if bool_decide (expected <> TargetDescriptor.id (target c)) then
            Err (Backend ("dump target " +:+ expected +:+ " not found"))
          else Ok tt
      | TargetSelector.Any => Ok tt
      end in
    Ok (offline_session (descriptor c) (target c), bundle c).

Definition connector (c : t) : Connector SnapshotBundle.t :=
  {| DriverApi.descriptor := descriptor c; DriverApi.connect := connect c |}.
End dump.
End DumpConnector.

Module SnapshotConnector.
Record t : Type := mk {
  descriptor : ProviderDescriptor.t;
  target : TargetDescriptor.t;
  bundle : SnapshotBundle.t;
}.

Section snapshot.
Context `{Allocator, Bitflags}.

Definition try_owned_text (value description : string) : Result string :=
  owned_text value description.

Definition try_snapshot_target_name (source format_name : string) : Result string :=
  let? capacity := ok_or
    (match checked_add 64 (Z.of_nat (String.length source)) (Z.of_nat (String.length format_name)) with
     | Some length => checked_add 64 length 3
     | None => None
     end) (Backend "snapshot target name length overflow") in
  let? _ := map_err (fun error =>
      Backend ("failed to allocate snapshot target name: " +:+ error))
    (try_reserve "snapshot target name" capacity) in
  Ok (source +:+ " (" +:+ format_name +:+ ")").

Definition new (provider_id display_name : string) (architecture : GuestArchitecture.t)
    (bundle : SnapshotBundle.t) : Result t :=
  if bool_decide (provider_id = "") || bool_decide (display_name = "") then
    Err (Backend "snapshot provider ID and display name must not be empty")
  else
    let capabilities := CapabilitySet.from_caps [Capability.MemoryRead] in
    let provenance := SnapshotBundle.provenance bundle in
    let? source := try_owned_text (ArtifactProvenance.source provenance) "snapshot target ID" in
    let? target_name := try_snapshot_target_name (ArtifactProvenance.source provenance)
      (ArtifactProvenance.format provenance) in
    Ok (mk (ProviderDescriptor.new provider_id display_name ProviderMaturity.Preview capabilities)
          (TargetDescriptor.new source (Some target_name) architecture
             ConsistencyMode.ImmutableSnapshot)
          bundle).

Definition connect (c : t) (request : AttachRequest.t)
    : Result (Session SnapshotBundle.t * SnapshotBundle.t) :=
  let missing := CapabilitySet.difference_of (AttachRequest.required_capabilities request)
    (ProviderDescriptor.capabilities (descriptor c)) in
  if negb (CapabilitySet.is_empty missing) then
    let? provider := try_owned_text (ProviderDescriptor.id (descriptor c)) "snapshot provider ID" in
    Err (VmiError.AttachRejected provider missing)
  else
    let? _ :=
      match AttachRequest.selector request with
      | TargetSelector.Named expected =>
          if bool_decide (expected <> TargetDescriptor.id (target c)) &&
             bool_decide (TargetDescriptor.display_name (target c) <> Some expected) then
            Err (Backend ("snapshot target " +:+ expected +:+ " not found"))
          else Ok tt
      | TargetSelector.Any => Ok tt
      end in
    Ok (offline_session (descriptor c) (target c), bundle c).

Definition connector (c : t) : Connector SnapshotBundle.t :=
  {| DriverApi.descriptor := descriptor c; DriverApi.connect := connect c |}.

(** ** The openers *)

Context `{FileSystem, Decompressors, SerdeJson}.

Definition open_virtualbox_core (architecture : GuestArchitecture.t) (path : string) : Result t :=
  let? bundle := elf_vmcore_file path in
  new "virtualbox-core" "VirtualBox VM Core" architecture bundle.

Definition open_vmware_vmem (architecture : GuestArchitecture.t) (path : string)
    (physical_base : Gpa.t) : Result t :=
  let? bundle := raw_file path physical_base in
  new "vmware" "VMware VMEM Snapshot" architecture bundle.

Definition open_vmware_converted_core (architecture : GuestArchitecture.t) (path : string)
    : Result t :=
  let? bundle := converted_core_file path in
  new "vmware-core" "VMware Converted Core" architecture bundle.

Definition open_manifest (provider_id display_name : string) (architecture : GuestArchitecture.t)
    (path : string) : Result t :=
  let? bundle := manifest_file path in
  new provider_id display_name architecture bundle.

Definition open_hyperv_manifest (architecture : GuestArchitecture.t) (path : string) : Result t :=
  open_manifest "hyperv" "Hyper-V Saved State" architecture path.

Definition open_hyperv_converted_core (architecture : GuestArchitecture.t) (path : string)
    : Result t :=
  let? bundle := converted_core_file path in
  new "hyperv-core" "Hyper-V Converted Core" architecture bundle.

Definition open_bhyve_manifest (path : string) : Result t :=
  open_manifest "bhyve" "bhyve Saved State" GuestArchitecture.Amd64 path.

Definition open_bhyve_converted_core (path : string) : Result t :=
  let? bundle := converted_core_file path in
  new "bhyve-core" "bhyve Converted Core" GuestArchitecture.Amd64 bundle.

Definition open_firecracker_manifest (path : string) : Result t :=
  open_manifest "firecracker" "Firecracker Snapshot" GuestArchitecture.Amd64 path.

Definition open_cloud_hypervisor_manifest (architecture : GuestArchitecture.t) (path : string)
    : Result t :=
  open_manifest "cloud-hypervisor" "Cloud Hypervisor Snapshot" architecture path.

Definition open_xen_core (architecture : GuestArchitecture.t) (path : string) : Result t :=
  let? bundle := xen_core_file path in
  new "xen-core" "Xen Core Dump" architecture bundle.

Definition open_kdmp (path : string) : Result t :=
  let? bundle := kdmp_file path in
  new "windows-kdmp" "Windows Kernel/Complete Dump" GuestArchitecture.Amd64 bundle.
End snapshot.
End SnapshotConnector.

(** * What every loader guarantees *)

Section loaders.
Context `{Allocator, FileSystem, Decompressors, SerdeJson}.
Import BundleSpec.

(** A bundle reads can rely on. *)
Definition loaded (b : SnapshotBundle.t) : Prop :=
  Forall wf_segment (SnapshotBundle.segments b) /\ sorted (SnapshotBundle.segments b).

Lemma capture_length what m maximum s d :
  0 <= maximum -> capture what m maximum s = Ok d -> zlen d <= maximum.
Proof.
  intros Hmax. unfold capture, run_loop.
  pose proof (loop_pos_inv (fun st : list byte * stream => zlen st.1 <= maximum)
    (fun r : Result (list byte) => forall d, r = Ok d -> zlen d <= maximum)
    (capture_step what m maximum) (Z.to_pos (maximum + 2)) ([], s)) as Hinv.
  destruct (loop_pos _ _ _) as [st|r]; [done|]. intros ->.
  apply Hinv; [exact Hmax| |done].
  intros [data rest] Hd. cbn [fst] in Hd. unfold capture_step. destruct (_ =? 0).
  - destruct (read_retry _ _) as [[sentinel|] ?]; [|done].
    destruct (negb _); [done|]. by intros ? [= <-].
  - destruct (read_retry _ _) as [[captured|] ?]; [|done].
    destruct (_ =? 0); [by intros ? [= <-]|]. destruct (try_reserve _ _); [|done].
    destruct (Z.ltb_spec maximum (zlen (data ++ captured))); [done|]. done.
Qed.

Lemma read_file_limited_length path maximum description d :
  0 <= maximum -> read_file_limited path maximum description = Ok d -> zlen d <= maximum.
Proof.
  intros Hmax. unfold read_file_limited. destruct (_ =? 0); [done|]. intros Hr. inv_ok.
  destruct (_ <? _); [done|]. inv_ok. by apply capture_length in Hr.
Qed.

Lemma raw_file_loaded path base b :
  in_u64 (Gpa.raw base) -> raw_file path base = Ok b -> loaded b.
Proof.
  intros Hbase Hb. unfold raw_file, raw_file_with_limit, try_from_raw in Hb. inv_ok.
  apply read_file_limited_length in Hm; [|done]. destruct (_ <? _); [done|].
  inv_ok. subst b. unfold from_raw, loaded. cbn [SnapshotBundle.segments]. split.
  - apply Forall_singleton. destruct base as [a]. apply new_wf; [done|].
    unfold DEFAULT_MAX_ARTIFACT_SIZE, isize_max in *. lia.
  - unfold sorted. repeat constructor.
Qed.

Lemma elf_file_loaded path b : elf_vmcore_file path = Ok b \/ xen_core_file path = Ok b -> loaded b.
Proof. intros [Hb|Hb]; unfold elf_vmcore_file, elf_vmcore_file_with_limits, xen_core_file,
  xen_core_file_with_limits in Hb; inv_ok; apply from_elf_Ok in Hb as (? & ? & _); done. Qed.

Lemma decode_compressed_length decoder encoding d :
  decode_compressed_kdmp decoder encoding DEFAULT_MAX_DECODED_KDMP_SIZE = Ok d -> zlen d <= isize_max.
Proof.
  unfold decode_compressed_kdmp. intros Hd. inv_ok. destruct (negb _); [done|]. inv_ok. subst.
  apply capture_length in Hm; [|done]. unfold DEFAULT_MAX_DECODED_KDMP_SIZE, isize_max in *. lia.
Qed.

Lemma kdmp_file_loaded path b : kdmp_file path = Ok b -> loaded b.
Proof.
  unfold kdmp_file, kdmp_file_with_limit. intros Hb. destruct (_ =? 0); [done|]. inv_ok.
  apply read_file_limited_length in Hm; [|done].
  assert (zlen v0 <= isize_max).
  { repeat (destruct (starts_with _ _) in Hm0); try (by apply decode_compressed_length in Hm0).
    - inv_ok. by apply decode_compressed_length in Hm0.
    - destruct (bool_decide _); [by apply decode_compressed_length in Hm0|]. inv_ok. subst v0.
      unfold DEFAULT_MAX_DECODED_KDMP_SIZE, isize_max in *. lia. }
  apply from_kdmp_Ok in Hb as ([? _] & ? & _); [|done]. split; [done|]. by apply disjoint_sorted.
Qed.

Lemma lime_file_loaded path b : lime_file path = Ok b -> loaded b.
Proof.
  unfold lime_file, lime_file_with_limit. intros Hb. inv_ok.
  apply read_file_limited_length in Hm; [|done].
  apply from_lime_decoded in Hb as [[? _] ?]; [|unfold DEFAULT_MAX_ARTIFACT_SIZE, isize_max in *; lia].
  split; [done|]. by apply disjoint_sorted.
Qed.

Lemma converted_core_loaded path b : converted_core_file path = Ok b -> loaded b.
Proof.
  unfold converted_core_file. intros Hb. inv_ok. destruct (starts_with v elf_magic).
  - by apply elf_file_loaded with path; left.
  - destruct (_ || _); [by apply kdmp_file_loaded in Hb|done].
Qed.

Lemma manifest_loaded path b : manifest_file path = Ok b -> loaded b.
Proof.
  intros Hb. apply manifest_file_Ok in Hb as (_ & _ & Hwf & Hd & _); [|done].
  split; [done|]. by apply disjoint_sorted.
Qed.
End loaders.

(** * Attaching *)

(** What a session of an offline provider offers: reads of its bundle, and
    a refusal for every other facet. *)
Definition read_only_session {S} (s : Session S) (m : MemoryAccess S) : Prop :=
  memory s = Ok m /\ is_ok (memory_write s) = false /\ is_ok (cpu s) = false /\
  is_ok (control s) = false /\ is_ok (events s) = false /\ is_ok (views s) = false /\
  is_ok (acquisition s) = false /\ is_ok (lifecycle s) = false.

Lemma default_facet_Err `{Allocator} {A} p c : is_ok (@default_facet _ A p c) = false.
Proof. unfold default_facet. by destruct (missing_capability p c). Qed.

Lemma offline_session_read_only `{Allocator} p t : read_only_session (offline_session p t) bundle_memory.
Proof. unfold read_only_session. repeat split; apply default_facet_Err. Qed.

(** The capabilities asked for are among those offered. *)
Definition only_reads (caps : list Capability.t) : Prop := Forall (eq Capability.MemoryRead) caps.

Lemma only_reads_offered `{Bitflags} caps :
  CapabilitySet.is_empty (CapabilitySet.difference_of (CapabilitySet.from_caps caps)
    (CapabilitySet.from_caps [Capability.MemoryRead])) = true <-> only_reads caps.
Proof.
  rewrite nothing_missing_iff. apply Forall_iff. intros c.
  rewrite from_caps_contains, list_elem_of_singleton. naive_solver.
Qed.

Definition selects (selector : TargetSelector.t) (names : list string) : Prop :=
  match selector with
  | TargetSelector.Any => True
  | TargetSelector.Named name => name ∈ names
  end.

Section attach.
Context `{Allocator, Bitflags}.

Lemma dump_connect b architecture selector caps :
  let c := DumpConnector.new b architecture in
  let r := DumpConnector.connect c (AttachRequest.mk selector (CapabilitySet.from_caps caps)) in
  (r = Ok (offline_session (DumpConnector.descriptor c) (DumpConnector.target c), b) /\
   only_reads caps /\ selects selector [ArtifactProvenance.source (SnapshotBundle.provenance b)]) \/
  (is_ok r = false /\
   ~ (only_reads caps /\ selects selector [ArtifactProvenance.source (SnapshotBundle.provenance b)])).
Proof.
  intros c r. unfold r, DumpConnector.connect.
  cbn [AttachRequest.required_capabilities AttachRequest.selector].
  pose proof (only_reads_offered caps) as Hcaps. fold (@CapabilitySet.from_caps _) in Hcaps.
  change (ProviderDescriptor.capabilities (DumpConnector.descriptor c))
    with (CapabilitySet.from_caps [Capability.MemoryRead]).
  destruct (CapabilitySet.is_empty _); cbn [negb].
  - assert (only_reads caps) by tauto. destruct selector as [|name]; cbn; [by left|].
    case_bool_decide as Hn; [right|left].
    + split; [done|]. intros [_ Hin]. apply Hn. by apply list_elem_of_singleton in Hin.
    + split; [done|]. split; [done|]. apply list_elem_of_singleton.
      destruct (decide (name = ArtifactProvenance.source (SnapshotBundle.provenance b))); tauto.
  - right. split; [by destruct (DumpConnector.try_owned_provider_id _)|].
    intros [Hr _]. by apply Hcaps in Hr.
Qed.

Lemma snapshot_new_fields id name architecture b c :
  SnapshotConnector.new id name architecture b = Ok c ->
  SnapshotConnector.bundle c = b /\
  SnapshotConnector.descriptor c = ProviderDescriptor.new id name ProviderMaturity.Preview
    (CapabilitySet.from_caps [Capability.MemoryRead]) /\
  let provenance := SnapshotBundle.provenance b in
  let source := ArtifactProvenance.source provenance in
  SnapshotConnector.target c = TargetDescriptor.new source
    (Some (source +:+ " (" +:+ ArtifactProvenance.format provenance +:+ ")")) architecture
    ConsistencyMode.ImmutableSnapshot.
Proof.
  unfold SnapshotConnector.new, SnapshotConnector.try_owned_text, owned_text,
    SnapshotConnector.try_snapshot_target_name.
  intros Hc. destruct (_ || _); [done|]. inv_ok. by subst.
Qed.

(** The names a snapshot answers to: its source, and its source with its format. *)
Definition snapshot_names (b : SnapshotBundle.t) : list string :=
  let provenance := SnapshotBundle.provenance b in
  let source := ArtifactProvenance.source provenance in
  [source; source +:+ " (" +:+ ArtifactProvenance.format provenance +:+ ")"].

Lemma snapshot_connect id name architecture b c selector caps :
  SnapshotConnector.new id name architecture b = Ok c ->
  let r := SnapshotConnector.connect c (AttachRequest.mk selector (CapabilitySet.from_caps caps)) in
  (r = Ok (offline_session (SnapshotConnector.descriptor c) (SnapshotConnector.target c), b) /\
   only_reads caps /\ selects selector (snapshot_names b)) \/
  (is_ok r = false /\ ~ (only_reads caps /\ selects selector (snapshot_names b))).
Proof.
  intros (Hb & Hdesc & Htarget)%snapshot_new_fields r. unfold r, SnapshotConnector.connect.
  cbn [AttachRequest.required_capabilities AttachRequest.selector].
  pose proof (only_reads_offered caps) as Hcaps.
  rewrite Hb, Hdesc, Htarget. cbn [ProviderDescriptor.new ProviderDescriptor.capabilities
    TargetDescriptor.id TargetDescriptor.display_name].
  destruct (CapabilitySet.is_empty _); cbn [negb].
  - assert (only_reads caps) by tauto. destruct selector as [|n]; [by left|].
    unfold selects, snapshot_names. rewrite elem_of_cons, list_elem_of_singleton.
    do 2 case_bool_decide; cbn; [right|left..]; intuition congruence.
  - right. split; [by destruct (SnapshotConnector.try_owned_text _ _)|].
    intros [Hr _]. by apply Hcaps in Hr.
Qed.
End attach.

(** * Properties *)

(** Offline providers are attached to exactly when nothing beyond reading
    memory is asked for and the target is unnamed or named by one of the
    provider's names (a dump by its source, a snapshot also by its source
    with its format); the session then starts on the provider's image, offers
    exactly reads of it and refuses every other facet. *)
Theorem offline_attach_policy `{Allocator, Bitflags} (b : SnapshotBundle.t)
    (architecture : GuestArchitecture.t) (selector : TargetSelector.t) (caps : list Capability.t)
    (id name : string) (c : SnapshotConnector.t)
    (Hnew : SnapshotConnector.new id name architecture b = Ok c) :
  let request := AttachRequest.mk selector (CapabilitySet.from_caps caps) in
  let source := ArtifactProvenance.source (SnapshotBundle.provenance b) in
  let attached r names :=
    (is_ok r = true <-> only_reads caps /\ selects selector names) /\
    forall s start, r = Ok (s, start) -> start = b /\ read_only_session s bundle_memory in
  attached (connect (DumpConnector.connector (DumpConnector.new b architecture)) request) [source] /\
  attached (connect (SnapshotConnector.connector c) request) (snapshot_names b).
Proof.
  intros request source attached.
  assert (Hout : forall r p t names,
    (r = Ok (offline_session p t, b) /\ only_reads caps /\ selects selector names) \/
    (is_ok r = false /\ ~ (only_reads caps /\ selects selector names)) -> attached r names).
  { intros r p t names [(-> & ? & ?)|[Hr Hno]]; split.
    - done.
    - intros s start [= <- <-]. split; [done|apply offline_session_read_only].
    - rewrite Hr. split; [done|by intros ?%Hno].
    - by intros s start ->. }
  split; eapply Hout; [apply dump_connect|exact (snapshot_connect _ _ _ _ _ _ _ Hnew)].
Qed.

Lemma offline_attach_policy_witness :
  exists c, @SnapshotConnector.new ample_allocator bitflags_u64 "vmware" "VMware VMEM Snapshot"
    GuestArchitecture.Amd64 example_bundle = Ok c /\
  is_ok (connect (@SnapshotConnector.connector ample_allocator bitflags_u64 c)
    (AttachRequest.mk (TargetSelector.Named "example (lime)")
       (@CapabilitySet.from_caps bitflags_u64 [Capability.MemoryRead]))) = true.
Proof.
  eexists. split; [reflexivity|].
  apply (@offline_attach_policy ample_allocator bitflags_u64 example_bundle GuestArchitecture.Amd64
    (TargetSelector.Named "example (lime)") [Capability.MemoryRead]
    "vmware" "VMware VMEM Snapshot" _ eq_refl).
  split; [by constructor|]. right. left.
Defined.

Section opened.
Context `{Allocator, Bitflags, FileSystem, Decompressors, SerdeJson}.
Import SnapshotConnector.

(** The connector came from one of the openers. *)
Definition opened (c : t) : Prop :=
  exists architecture path,
    open_virtualbox_core architecture path = Ok c \/
    (exists base, in_u64 (Gpa.raw base) /\ open_vmware_vmem architecture path base = Ok c) \/
    open_vmware_converted_core architecture path = Ok c \/
    (exists id name, open_manifest id name architecture path = Ok c) \/
    open_hyperv_manifest architecture path = Ok c \/
    open_hyperv_converted_core architecture path = Ok c \/
    open_bhyve_manifest path = Ok c \/
    open_bhyve_converted_core path = Ok c \/
    open_firecracker_manifest path = Ok c \/
    open_cloud_hypervisor_manifest architecture path = Ok c \/
    open_xen_core architecture path = Ok c \/
    open_kdmp path = Ok c.

Lemma opened_loaded c : opened c -> loaded (bundle c).
Proof.
  assert (Hnew : forall id name architecture (load : Result SnapshotBundle.t),
    (forall b, load = Ok b -> loaded b) ->
    (let? b := load in new id name architecture b) = Ok c -> loaded (bundle c)).
  { intros id name architecture [b|] Hload Hc; [|done].
    apply snapshot_new_fields in Hc as (-> & _). by apply Hload. }
  intros (architecture & path & Hc).
  destruct Hc as [Hc|[(base & Hbase & Hc)|[Hc|[(id & name & Hc)|Hc]]]].
  - eapply Hnew; [|exact Hc]. intros b Hb. apply elf_file_loaded with path. by left.
  - eapply Hnew; [|exact Hc]. intros b. by apply raw_file_loaded.
  - eapply Hnew; [|exact Hc]. intros b. apply converted_core_loaded.
  - eapply Hnew; [|exact Hc]. intros b. apply manifest_loaded.
  - destruct Hc as [Hc|[Hc|[Hc|[Hc|[Hc|[Hc|[Hc|Hc]]]]]]]; (eapply Hnew; [|exact Hc]); intros b;
      [apply manifest_loaded|apply converted_core_loaded|apply manifest_loaded
      |apply converted_core_loaded|apply manifest_loaded..| |apply kdmp_file_loaded].
    intros Hb. apply elf_file_loaded with path. by right.
Qed.
End opened.

(** Every snapshot opened from a file serves a memory.  Whatever the
    opener, the format and the bytes of the files, a session attached to an
    opened snapshot reads from a fixed partial map of addresses to bytes: a
    read succeeds exactly when all its bytes are there and returns them. *)
Theorem opened_snapshots_serve_bytes `{Allocator, Bitflags, FileSystem, Decompressors, SerdeJson}
    (c : SnapshotConnector.t) (request : AttachRequest.t)
    (s : Session SnapshotBundle.t) (start : SnapshotBundle.t)
    (Hopen : opened c)
    (Hattach : connect (SnapshotConnector.connector c) request = Ok (s, start)) :
  exists m, memory s = Ok m /\
    ByteMemory (read_into m start) (BundleSpec.byte_at (SnapshotBundle.segments (SnapshotConnector.bundle c))).
Proof.
  apply opened_loaded in Hopen as [Hwf Hsorted].
  cbn [SnapshotConnector.connector connect] in Hattach. unfold SnapshotConnector.connect in Hattach.
  destruct (negb _); [inv_ok; done|]. apply bind_Ok in Hattach as (u & _ & [= <- <-]).
  exists bundle_memory. split; [done|]. by apply bundle_byte_memory.
Qed.

Definition no_decompressors : Decompressors := {|
  gzip_reader := fun _ => []; bzip2_reader := fun _ => []; xz_reader := fun _ => [];
  zstd_reader := fun _ => Err "unsupported"%string; zlib_reader := fun _ => [] |}.

Definition example_snapshot : SnapshotConnector.t :=
  SnapshotConnector.mk
    (ProviderDescriptor.new "hyperv" "Hyper-V Saved State" ProviderMaturity.Preview 1)
    (TargetDescriptor.new "d/m.json" (Some "d/m.json (raw)"%string) GuestArchitecture.Amd64
       ConsistencyMode.ImmutableSnapshot)
    (SnapshotBundle.mk (ArtifactProvenance.mk "raw" "d/m.json")
       [SnapshotSegment.new (Gpa.new 0x1000) [x31; x5d]]).

Lemma opened_snapshots_serve_bytes_witness :
  exists m : MemoryAccess SnapshotBundle.t,
    ByteMemory (read_into m (SnapshotConnector.bundle example_snapshot))
      (BundleSpec.byte_at (SnapshotBundle.segments (SnapshotConnector.bundle example_snapshot))).
Proof.
  destruct (@opened_snapshots_serve_bytes ample_allocator bitflags_u64
    (example_files [x5b; x31; x5d]) no_decompressors example_json
    example_snapshot (AttachRequest.any 1)
    (@offline_session ample_allocator (SnapshotConnector.descriptor example_snapshot)
       (SnapshotConnector.target example_snapshot))
    (SnapshotConnector.bundle example_snapshot)) as (m & _ & Hm).
  - exists GuestArchitecture.Amd64, "d/m.json"%string. do 4 right. left. vm_compute. reflexivity.
  - reflexivity.
  - by exists m.
Defined.
