(* ===== verification/ImageFacts.v ===== *)
(** * What an image file holds ([crates/vmi-artifact])

    The memory an ELF core, a Windows crash dump, a raw image or a manifest
    describes, field by field of the file, and the theorem that the decoders
    give exactly that: every segment at the address and with the bytes that
    the file's tables say. *)

From S2P Require Import Prelude.
From S2P Require Import Types.
From S2P Require Import DriverApi.
From S2P Require Import Host.
From S2P Require Import Artifact.
From S2P Require Import ArtifactFormats.
From S2P Require Import ArtifactFacts.
From S2P Require Import ArtifactFiles.
From S2P Require Import ArtifactFilesFacts.
From S2P Require Import Snapshot.

(** ** The formats *)

Module ImageSpec.

(** Bytes of the file, and little-endian fields. *)
Definition slice (data : list byte) (offset n : Z) : list byte :=
  take (Z.to_nat n) (drop (Z.to_nat offset) data).
Definition field (n : Z) (data : list byte) (offset : Z) : Z := le_val (slice data offset n).
Definition tag (data : list byte) (offset : Z) (text : string) : bool :=
  bool_decide (slice data offset 4 = bytes_of_string text).

(** Memory as addresses with the bytes from there on. *)
Definition image : Type := list (Z * list byte).
Definition segments_of (i : image) : list SnapshotSegment.t :=
  (fun '(address, bytes) => SnapshotSegment.new (Gpa.new address) bytes) <$> i.

(** *** ELF: the loads of the program header table

    [e_phoff] at 32, [e_phentsize] at 54, [e_phnum] at 56; [p_type] at 0,
    [p_offset] at 8, [p_paddr] at 24, [p_filesz] at 32, [p_memsz] at 40. *)
Definition elf_load (data : list byte) (i : Z) : option (Z * list byte) :=
  let header := field 8 data 32 + i * field 2 data 54 in
  let file_size := field 8 data (header + 32) in
  if field 4 data header =? 1 then
    Some (field 8 data (header + 24),
          slice data (field 8 data (header + 8)) file_size
            ++ replicate (Z.to_nat (field 8 data (header + 40) - file_size)) x00)
  else None.

Definition elf_image (data : list byte) : image := omap (elf_load data) (seqZ 0 (field 2 data 56)).

(** *** Windows crash dumps: runs of pages, stored one after the other *)
Fixpoint pages_from (data : list byte) (payload : Z) (runs : list (Z * Z)) : image :=
  match runs with
  | [] => []
  | (page, count) :: rest =>
      (page * 4096, slice data payload (count * 4096)) :: pages_from data (payload + count * 4096) rest
  end.

(** A table of runs: first page and number of pages, each a word. *)
Definition run_at (data : list byte) (table i : Z) : Z * Z :=
  (field 8 data (table + 16 * i), field 8 data (table + 16 * i + 8)).
Definition runs (data : list byte) (table count : Z) : list (Z * Z) := run_at data table <$> seqZ 0 count.

Definition legacy_image (data : list byte) : image :=
  pages_from data 0x2000 (runs data 0x98 (field 4 data 0x88)).

(** The pages whose bit is set. *)
Definition page_present (data : list byte) (pfn : Z) : bool :=
  Z.testbit (field 1 data (0x2038 + pfn / 8)) (pfn mod 8).
Definition bitmap_image (data : list byte) : image :=
  pages_from data (field 8 data 0x2020)
    ((fun pfn => (pfn, 1)) <$> filter (fun pfn => page_present data pfn = true) (seqZ 0 (field 8 data 0x2030))).

(** The runs up to the first at page 0. *)
Fixpoint until_zero (l : list (Z * Z)) : list (Z * Z) :=
  match l with
  | [] => []
  | (page, count) :: rest => if page =? 0 then [] else (page, count) :: until_zero rest
  end.
Definition rdmp_image (data : list byte) : image :=
  pages_from data (field 8 data 0x2018) (until_zero (runs data 0x2030 (field 8 data 0x2010 / 16))).

Definition kdmp_image (data : list byte) : image :=
  if tag data 0x2000 "SDMP" || tag data 0x2000 "FDMP" then bitmap_image data
  else if (field 4 data 0x2000 =? 0x40) && tag data 0x2004 "RDMP" then rdmp_image data
  else legacy_image data.
End ImageSpec.

Import ImageSpec.

(** ** Fields *)

Lemma read_array_slice n data offset bs : read_array n data offset = Ok bs -> bs = slice data offset n.
Proof.
  unfold read_array, slice. intros Hr. inv_ok. inv_checked. apply get_range_Some in Hr as (? & ? & ->).
  do 2 f_equal. lia.
Qed.

Lemma read_u64_field data offset v : read_u64 data offset = Ok v -> v = field 8 data offset.
Proof. unfold read_u64. intros Hr. inv_ok. subst v. by apply read_array_slice in Hm as ->. Qed.
Lemma read_u32_field data offset v : read_u32 data offset = Ok v -> v = field 4 data offset.
Proof. unfold read_u32. intros Hr. inv_ok. subst v. by apply read_array_slice in Hm as ->. Qed.
Lemma read_u16_field data offset v : read_u16 data offset = Ok v -> v = field 2 data offset.
Proof. unfold read_u16. intros Hr. inv_ok. subst v. by apply read_array_slice in Hm as ->. Qed.

Lemma get_range_slice data a n bs : get_range data a (a + n) = Some bs -> bs = slice data a n.
Proof. intros (? & ? & ->)%get_range_Some. unfold slice. do 2 f_equal. lia. Qed.

Lemma has_tag_tag data a text : 0 <= a -> length (bytes_of_string text) = 4%nat ->
  has_tag data a (a + 4) text = tag data a text.
Proof.
  intros Ha Hl. unfold has_tag, tag. apply bool_decide_ext. split.
  - by intros Hg%get_range_slice.
  - intros Hs. apply get_range_Some. rewrite <- Hs. split; [lia|]. split.
    + apply (f_equal length) in Hs. rewrite Hl in Hs. unfold slice in Hs. rewrite length_take, length_drop in Hs.
      unfold zlen. lia.
    + unfold slice. do 2 f_equal. lia.
Qed.

Lemma field_nonneg n data offset : 0 <= field n data offset.
Proof. unfold field. apply le_val_range. Qed.

Lemma seqZ_snoc n : 0 <= n -> seqZ 0 (n + 1) = seqZ 0 n ++ [n].
Proof. intros Hn. rewrite seqZ_app by lia. by rewrite Z.add_0_l. Qed.

Lemma segments_of_snoc i a bs : segments_of (i ++ [(a, bs)]) = segments_of i ++ [SnapshotSegment.new (Gpa.new a) bs].
Proof. unfold segments_of. by rewrite fmap_app. Qed.

(** Every field read so far, by its place in the file. *)
Ltac fields := repeat match goal with
  | H : read_u64 _ _ = Ok _ |- _ => apply read_u64_field in H
  | H : read_u32 _ _ = Ok _ |- _ => apply read_u32_field in H
  | H : read_u16 _ _ = Ok _ |- _ => apply read_u16_field in H
  end.

(** The segments are sorted, which changes their order only. *)
Ltac sorted_out :=
  match goal with Hs : sort_checked _ _ = Ok _ |- _ =>
    let Hp := fresh "Hp" in apply sort_checked_Ok in Hs as (Hp & _); rewrite Hp; clear Hp end.

Section decoders.
Context `{Allocator}.
Import SnapshotSegment.

(** ** ELF *)

Lemma elf_entry_load data format max i total segs st :
  elf_entry data format (field 8 data 32) (field 2 data 54) max i (total, segs) = Ok st ->
  exists total', st = Continue (total', segs ++ segments_of (option_list (elf_load data i))).
Proof.
  unfold elf_entry, add_offset, elf_load. intros Hr. inv_ok. inv_checked. fields. subst.
  destruct (Z.eqb_spec (field 4 data (field 8 data 32 + i * field 2 data 54)) 1); cbn [negb] in Hr.
  2:{ injection Hr as <-. exists total. cbn. by rewrite app_nil_r. }
  inv_ok. inv_checked. fields. subst. destruct (Z.ltb_spec (field 8 data (field 8 data 32 + i * field 2 data 54 + 40))
    (field 8 data (field 8 data 32 + i * field 2 data 54 + 32))) as [|Hle]; [done|].
  inv_ok. destruct (_ <? _); [done|]. inv_ok. inv_checked. subst. eexists.
  match goal with Hg : get_range _ _ _ = Some _, Hp : put_range _ _ _ _ = Some _ |- _ =>
    apply get_range_slice in Hg; apply put_range_Some in Hp as (_ & _ & ->); subst end.
  rewrite take_0, drop_replicate, <- Z2Nat.inj_sub by apply field_nonneg. reflexivity.
Qed.

Lemma from_elf_image source data format max b :
  from_elf_with_limits source data format max = Ok b ->
  SnapshotBundle.segments b ≡ₚ segments_of (elf_image data).
Proof.
  unfold from_elf_with_limits. intros Hb. destruct (max =? 0); [done|]. destruct (_ || _); [done|].
  inv_ok. fields. subst. destruct (_ <? 56); [done|]. apply bind_Ok in Hb as ([total segs] & Hloop & Hb).
  destruct (zlen segs =? 0); [done|]. inv_ok. subst b. cbn [SnapshotBundle.segments]. sorted_out.
  pose proof (for_range_inv (fun i st => st.2 = segments_of (omap (elf_load data) (seqZ 0 i))) (fun _ => False)
    (fun _ => True) (field 2 data 56) (elf_entry data format (field 8 data 32) (field 2 data 54) max) (0, [])
    (field_nonneg _ _ _)) as Hfor.
  rewrite Hloop in Hfor. destruct Hfor as [Hsegs|[]]; [done| |cbn in Hsegs; by rewrite Hsegs].
  intros i [total' segs'] Hi Ha. cbn in Ha. subst segs'.
  destruct (elf_entry _ _ _ _ _ _ _) as [st|e] eqn:Hr; [|done].
  apply elf_entry_load in Hr as (total2 & ->). cbn [snd]. rewrite seqZ_snoc by lia.
  rewrite omap_app. unfold segments_of. rewrite fmap_app. reflexivity.
Qed.

(** ** Windows crash dumps *)

(** Where the pages of some runs end. *)
Definition payload_after (payload : Z) (rs : list (Z * Z)) : Z :=
  payload + foldr (fun r n => snd r * 4096 + n) 0 rs.

Lemma payload_after_cons payload r rs :
  payload_after payload (r :: rs) = payload_after (payload + snd r * 4096) rs.
Proof. unfold payload_after. cbn [foldr]. lia. Qed.

Lemma pages_from_snoc data payload rs page count :
  pages_from data payload (rs ++ [(page, count)]) =
  pages_from data payload rs ++ [(page * 4096, slice data (payload_after payload rs) (count * 4096))] /\
  payload_after payload (rs ++ [(page, count)]) = payload_after payload rs + count * 4096.
Proof.
  revert payload. induction rs as [|[p c] rs IH]; intros payload; cbn [app pages_from].
  - unfold payload_after. cbn [foldr snd]. by rewrite !Z.add_0_r.
  - rewrite !payload_after_cons. cbn [snd]. destruct (IH (payload + c * 4096)) as [-> ->]. done.
Qed.

(** The pages of the runs so far, and where the next ones are. *)
Definition pages_of (data : list byte) (start : Z) (rs : list (Z * Z)) (payload : Z) (segs : list t) : Prop :=
  payload = payload_after start rs /\ segs = segments_of (pages_from data start rs).

Lemma pages_of_snoc data start rs payload segs page count bs :
  pages_of data start rs payload segs -> bs = slice data payload (count * 4096) ->
  pages_of data start (rs ++ [(page, count)]) (payload + count * 4096)
    (segs ++ [new (Gpa.new (page * 4096)) bs]).
Proof.
  intros [-> ->] ->. destruct (pages_from_snoc data start rs page count) as [Hp Ha].
  split; [by rewrite Ha|]. by rewrite Hp, segments_of_snoc.
Qed.

Lemma runs_snoc data table i : 0 <= i -> runs data table (i + 1) = runs data table i ++ [run_at data table i].
Proof. intros Hi. unfold runs. by rewrite seqZ_snoc, fmap_app. Qed.

Lemma kdmp_run_pages data i payload pages segs :
  0 <= i -> pages_of data 0x2000 (runs data 0x98 i) payload segs ->
  match kdmp_run data i (payload, pages, segs) with
  | Ok (Continue (payload', _, segs')) => pages_of data 0x2000 (runs data 0x98 (i + 1)) payload' segs'
  | Ok (Break _) => False
  | Err _ => True
  end.
Proof.
  intros Hi Hinv. destruct (kdmp_run data i (payload, pages, segs)) as [[[[payload' pages'] segs']|st]|e] eqn:Hr; [| |done].
  all: unfold kdmp_run, add_offset, KDMP_PAGE_SIZE, KDMP_RUN_SIZE, KDMP_RUNS_OFFSET in Hr; inv_ok.
  all: destruct (checked_mul 64 i 16) as [o|] eqn:Ho; [|done]; inv_checked.
  all: destruct (_ =? 0) in Hr; [done|]; inv_ok; inv_checked; simplify_eq.
  fields. subst. rewrite runs_snoc by done. unfold run_at.
  replace (152 + i * 16) with (0x98 + 16 * i) in * by lia. apply pages_of_snoc; [done|].
  by eapply get_range_slice.
Qed.

(** What the three run tables have in common: a loop that appends the pages
    of one run a round has the pages of the table at the end. *)
Lemma runs_loop {A} (body : Z -> A -> Result (flow A)) (holds : list (Z * Z) -> A -> Prop)
    (rs : Z -> list (Z * Z)) (stop : A -> Prop) count init st :
  0 <= count -> holds (rs 0) init ->
  (forall i a, 0 <= i < count -> holds (rs i) a ->
     match body i a with
     | Ok (Continue a') => holds (rs (i + 1)) a'
     | Ok (Break a') => stop a'
     | Err _ => True
     end) ->
  for_range count body init = Ok st -> holds (rs count) st \/ stop st.
Proof.
  intros Hcount Hinit Hbody Hloop.
  pose proof (for_range_inv (fun i => holds (rs i)) stop (fun _ => True) count body init Hcount Hinit Hbody) as Hfor.
  by rewrite Hloop in Hfor.
Qed.

Lemma pages_of_nil data start : pages_of data start [] start [].
Proof. split; [|done]. unfold payload_after. cbn. lia. Qed.

(** *** Bitmap dumps *)

Lemma land_bit x k : 0 <= k -> (Z.land x (Z.shiftl 1 k) =? 0) = negb (Z.testbit x k).
Proof.
  intros Hk. destruct (Z.testbit x k) eqn:Hb; cbn.
  - apply Z.eqb_neq. intros Hz. apply (f_equal (fun y => Z.testbit y k)) in Hz.
    rewrite Z.land_spec, Z.shiftl_spec, Z.sub_diag, Hb, Z.bits_0 in Hz by done. done.
  - apply Z.eqb_eq. apply Z.bits_inj_iff'. intros n Hn. rewrite Z.land_spec, Z.shiftl_spec, Z.bits_0 by done.
    destruct (Z.eq_dec n k) as [->|Hne]; [by rewrite Hb|]. rewrite andb_comm.
    destruct (Z.lt_total n k) as [?|[?|?]]; [by rewrite Z.testbit_neg_r by lia|done|].
    change 1 with (2 ^ 0). rewrite Z.pow2_bits_false by lia. done.
Qed.

(** The pages found among the first. *)
Definition present_runs (data : list byte) (i : Z) : list (Z * Z) :=
  (fun pfn => (pfn, 1)) <$> filter (fun pfn => page_present data pfn = true) (seqZ 0 i).

Lemma present_runs_snoc data i : 0 <= i ->
  present_runs data (i + 1) = present_runs data i ++ if page_present data i then [(i, 1)] else [].
Proof.
  intros Hi. unfold present_runs. rewrite seqZ_snoc, filter_app, fmap_app by done. f_equal.
  rewrite filter_cons, filter_nil. by destruct (page_present data i).
Qed.

Lemma bitmap_byte_field data bitmap len pfn b :
  get_range data 0x2038 (0x2038 + len) = Some bitmap -> 0 <= pfn ->
  bitmap !! Z.to_nat (pfn / 8) = Some b -> byte_val b = field 1 data (0x2038 + pfn / 8).
Proof.
  intros Hg%get_range_slice Hp Hb. subst bitmap. unfold slice in Hb.
  pose proof (Z.div_pos pfn 8 Hp ltac:(lia)).
  apply lookup_take_Some in Hb as [Hb _]. rewrite lookup_drop in Hb. unfold field, slice.
  replace (Z.to_nat (0x2038 + pfn / 8)) with (Z.to_nat 0x2038 + Z.to_nat (pfn / 8))%nat by lia.
  rewrite (drop_S data b) by done. change (Z.to_nat 1) with 1%nat. cbn [take le_val]. by rewrite Z.mul_0_r, Z.add_0_r.
Qed.

Lemma bitmap_page_pages data bitmap len start i payload found segs :
  get_range data 0x2038 (0x2038 + len) = Some bitmap ->
  0 <= i -> pages_of data start (present_runs data i) payload segs ->
  match bitmap_page data bitmap i (payload, found, segs) with
  | Ok (Continue (payload', _, segs')) => pages_of data start (present_runs data (i + 1)) payload' segs'
  | Ok (Break _) => False
  | Err _ => True
  end.
Proof.
  intros Hbitmap Hi Hinv.
  destruct (bitmap_page data bitmap i (payload, found, segs)) as [fl|e] eqn:Hr; [|done].
  unfold bitmap_page, KDMP_PAGE_SIZE in Hr. inv_ok. inv_checked. subst.
  match goal with Hb : bitmap !! _ = Some _ |- _ => eapply bitmap_byte_field in Hb as Hbyte; [|done..] end.
  rewrite land_bit in Hr by (apply Z.mod_pos_bound; lia). rewrite Hbyte in Hr.
  fold (page_present data i) in Hr. rewrite present_runs_snoc by done.
  destruct (page_present data i); cbn [negb] in Hr.
  2:{ injection Hr as <-. by rewrite app_nil_r. }
  inv_ok. inv_checked. simplify_eq. apply (pages_of_snoc _ _ _ _ _ _ 1); [done|].
  by eapply get_range_slice.
Qed.

Lemma from_bitmap_image source data b :
  from_bitmap_kdmp source data = Ok b -> SnapshotBundle.segments b = segments_of (bitmap_image data).
Proof.
  unfold from_bitmap_kdmp, KDMP_HEADER_SIZE. intros Hb. destruct (negb _); [done|]. inv_ok.
  destruct (_ || _); [done|]. inv_ok. destruct (_ <? _); [done|].
  apply bind_Ok in Hb as ([[payload found] segs] & Hloop & Hb).
  destruct (negb _); [done|]. injection Hb as <-. inv_checked. fields. subst.
  apply (runs_loop _ (fun rs st => pages_of data (field 8 data 0x2020) rs st.1.1 st.2)
    (present_runs data) (fun _ => False)) in Hloop as [[_ Hsegs]|[]];
    [exact Hsegs|apply field_nonneg|apply pages_of_nil|].
  intros i [[payload' found'] segs'] Hi Ha.
  pose proof (bitmap_page_pages data _ _ _ _ _ found' _ Hm6 (proj1 Hi) Ha) as Hstep.
  by destruct (bitmap_page _ _ _ _) as [[[[]?]|]|].
Qed.

(** *** Range dumps *)

Lemma until_zero_app l m : Forall (fun r => r.1 <> 0) l -> until_zero (l ++ m) = l ++ until_zero m.
Proof.
  induction 1 as [|[page count] l Hne Hl IH]; cbn in *; [done|].
  destruct (Z.eqb_spec page 0); [done|]. by rewrite IH.
Qed.

Lemma runs_app data table i n : 0 <= i <= n -> exists rest,
  runs data table n = runs data table i ++ rest /\
  (i < n -> exists rest', rest = run_at data table i :: rest').
Proof.
  intros Hi. exists (run_at data table <$> seqZ i (n - i)). split.
  - unfold runs. rewrite <- fmap_app. f_equal. replace n with (i + (n - i)) at 1 by lia.
    rewrite seqZ_app by lia. by rewrite Z.add_0_l.
  - intros Hlt. rewrite seqZ_cons by lia. eexists. reflexivity.
Qed.

Lemma rdmp_range_pages data count start i payload segs :
  0 <= i < count -> 
  Forall (fun r => r.1 <> 0) (runs data 0x2030 i) /\ pages_of data start (runs data 0x2030 i) payload segs ->
  match rdmp_range data i (payload, segs) with
  | Ok (Continue (payload', segs')) =>
      Forall (fun r => r.1 <> 0) (runs data 0x2030 (i + 1)) /\
      pages_of data start (runs data 0x2030 (i + 1)) payload' segs'
  | Ok (Break (_, segs')) => segs' = segments_of (pages_from data start (until_zero (runs data 0x2030 count)))
  | Err _ => True
  end.
Proof.
  intros Hi [Hne Hinv].
  destruct (rdmp_range data i (payload, segs)) as [fl|e] eqn:Hr; [|done].
  unfold rdmp_range, add_offset, KDMP_PAGE_SIZE, RDMP_RANGES in Hr. inv_ok. inv_checked. fields. subst.
  replace (8240 + i * 16) with (0x2030 + 16 * i) in Hr by lia.
  change (field 8 data (0x2030 + 16 * i)) with (run_at data 0x2030 i).1 in Hr.
  change (field 8 data (0x2030 + 16 * i + 8)) with (run_at data 0x2030 i).2 in Hr.
  destruct (Z.eqb_spec (run_at data 0x2030 i).1 0) as [Hz|Hnz].
  - injection Hr as <-. destruct Hinv as [_ ->]. do 2 f_equal.
    destruct (runs_app data 0x2030 i count) as (rest & -> & Hrest); [lia|].
    destruct Hrest as [rest' ->]; [lia|]. rewrite until_zero_app by done.
    destruct (run_at data 0x2030 i) as [page n]. cbn in Hz |- *. rewrite Hz. cbn. by rewrite app_nil_r.
  - destruct (_ =? 0) in Hr; [done|]. inv_ok. inv_checked. simplify_eq. rewrite runs_snoc by lia. split.
    + apply Forall_app. split; [done|]. by constructor.
    + rewrite (surjective_pairing (run_at data 0x2030 i)). apply pages_of_snoc; [done|].
      by eapply get_range_slice.
Qed.

Lemma from_rdmp_image source data b :
  from_rdmp_kdmp source data = Ok b -> SnapshotBundle.segments b ≡ₚ segments_of (rdmp_image data).
Proof.
  unfold from_rdmp_kdmp, KDMP_HEADER_SIZE. intros Hb. destruct (negb _); [done|]. inv_ok.
  destruct v1; cbn [negb] in Hb; [|done]. inv_ok. destruct (zlen data <? _); [done|].
  apply bind_Ok in Hb as ([payload segs] & Hloop & Hb). destruct (zlen segs =? 0); [done|].
  inv_ok. subst b. cbn [SnapshotBundle.segments]. sorted_out. inv_checked. fields. subst.
  pose proof (Z.div_pos (field 8 data 0x2010) 16 (field_nonneg _ _ _) ltac:(lia)) as Hcount.
  apply (runs_loop _ (fun rs st => Forall (fun r => r.1 <> 0) rs /\
      pages_of data (field 8 data 0x2018) rs st.1 st.2) (runs data 0x2030)
    (fun st => st.2 = segments_of (rdmp_image data))) in Hloop.
  - destruct Hloop as [(Hne & _ & Hsegs)|Hsegs]; cbn in Hsegs; subst segs; [|done]. unfold rdmp_image.
    pose proof (until_zero_app _ [] Hne) as Hu. rewrite !app_nil_r in Hu. change 8208 with (8192 + 16). by rewrite Hu.
  - done.
  - split; [constructor|apply pages_of_nil].
  - intros i [payload' segs'] Hi Ha.
    pose proof (rdmp_range_pages data _ _ _ _ _ Hi Ha) as Hstep.
    by destruct (rdmp_range _ _ _) as [[[]|[]]|].
Qed.

(** *** The three layouts *)

Lemma from_kdmp_image source data b :
  from_kdmp source data = Ok b -> SnapshotBundle.segments b ≡ₚ segments_of (kdmp_image data).
Proof.
  unfold from_kdmp, KDMP_HEADER_SIZE. intros Hb. destruct (_ || _); [done|].
  rewrite !has_tag_tag in Hb by done. unfold kdmp_image.
  destruct (_ || _); [by apply from_bitmap_image in Hb as ->|].
  inv_ok. fields. subst. change (0x2000 + 4) with 0x2004 in Hb.
  destruct (_ && _); [by apply from_rdmp_image in Hb|].
  inv_ok. destruct (negb _); [done|]. inv_ok. destruct (_ || _); [done|]. inv_ok.
  destruct v4 as [[payload pages] segs]. destruct (negb _); [done|]. inv_ok. subst b.
  cbn [SnapshotBundle.segments]. sorted_out. inv_checked. fields. subst.
  apply (runs_loop _ (fun rs st => pages_of data 0x2000 rs st.1.1 st.2)
    (runs data 0x98) (fun _ => False)) in Hm4 as [[_ Hsegs]|[]]; [|apply field_nonneg|apply pages_of_nil|].
  - cbn in Hsegs. by rewrite Hsegs.
  - intros i [[payload' pages'] segs'] Hi Ha.
    pose proof (kdmp_run_pages data i _ pages' _ (proj1 Hi) Ha) as Hstep.
    by destruct (kdmp_run _ _ _) as [[[[]?]|]|].
Qed.
End decoders.

(** ** Files *)

(** What a user hands an opener: a file of one of the formats. *)
Inductive Source : Type :=
| ElfCore
| KernelDump
| RawAt (base : Gpa.t)
| ConvertedCore
| Manifest.

Module FileSpec.
Section files.
Context `{FileSystem, Decompressors}.

(** The bytes of the file at a path. *)
Definition holds_file (path : string) (data : list byte) : Prop :=
  exists file, open path = Ok file /\ stream_bytes (contents file) = Some data.

(** A dump as it is stored: plain, or compressed in a way its first bytes tell. *)
Inductive unpacked (raw : list byte) : list byte -> Prop :=
| unpacked_gzip data : starts_with raw [x1f; x8b] = true ->
    stream_bytes (gzip_reader raw) = Some data -> unpacked raw data
| unpacked_bzip2 data : starts_with raw (bytes_of_string "BZh") = true ->
    stream_bytes (bzip2_reader raw) = Some data -> unpacked raw data
| unpacked_xz data : starts_with raw [xfd; x37; x7a; x58; x5a; x00] = true ->
    stream_bytes (xz_reader raw) = Some data -> unpacked raw data
| unpacked_zstd s data : starts_with raw [x28; xb5; x2f; xfd] = true ->
    zstd_reader raw = Ok s -> stream_bytes s = Some data -> unpacked raw data
| unpacked_zlib data : head raw = Some x78 ->
    stream_bytes (zlib_reader raw) = Some data -> unpacked raw data
| unpacked_plain : starts_with raw (bytes_of_string "PAGE") = true -> unpacked raw raw.

Definition elf_file_image (path : string) (image : list SnapshotSegment.t) : Prop :=
  exists data, holds_file path data /\ starts_with data [x7f; x45; x4c; x46] = true /\
    image = segments_of (elf_image data).

Definition dump_file_image (path : string) (image : list SnapshotSegment.t) : Prop :=
  exists raw data, holds_file path raw /\ unpacked raw data /\
    starts_with data (bytes_of_string "PAGE") = true /\ image = segments_of (kdmp_image data).

(** The memory a file of a format describes; the first bytes of a converted
    core tell which of two formats it has. *)
Definition source_image `{Allocator, SerdeJson} (source : Source) (path : string)
    (image : list SnapshotSegment.t) : Prop :=
  match source with
  | ElfCore => elf_file_image path image
  | KernelDump => dump_file_image path image
  | RawAt base => exists data, holds_file path data /\ image = [SnapshotSegment.new base data]
  | ConvertedCore => elf_file_image path image \/ dump_file_image path image
  | Manifest => manifest_holds path image
  end.
End files.

(** A segment of the image has this byte at this address. *)
Definition image_byte (image : list SnapshotSegment.t) (a : Z) (x : byte) : Prop :=
  exists s, s ∈ image /\ BundleSpec.segment_byte s a = Some x.

(** A memory that is the image, up to the end of the address space. *)
Definition serves (image : list SnapshotSegment.t) (byte_at : Z -> option byte) : Prop :=
  (forall a x, byte_at a = Some x -> image_byte image a x) /\
  (forall a x, a < 2 ^ 64 -> image_byte image a x -> is_Some (byte_at a)).
End FileSpec.

Import FileSpec.

(** ** The loaders give it *)

Lemma serves_bundle segs image : segs ≡ₚ image -> serves image (BundleSpec.byte_at segs).
Proof.
  intros Hp. unfold serves, image_byte, BundleSpec.byte_at.
  assert (Hin : forall s, s ∈ image <-> s ∈ segs) by (intros s; by rewrite Hp).
  split.
  - intros a x. destruct (_ <? _); [|done]. setoid_rewrite Hin. clear Hp Hin.
    induction segs as [|s segs IH]; cbn; [done|].
    destruct (BundleSpec.segment_byte s a) eqn:Hs.
    + intros [= ->]. exists s. split; [left|done].
    + intros (t & Ht & Hx)%IH. exists t. split; [by right|done].
  - intros a x Ha (s & Hs%Hin & Hx). rewrite (proj2 (Z.ltb_lt _ _) Ha). clear Hp Hin.
    induction Hs as [segs|s t segs Hs IH]; cbn; [by rewrite Hx|].
    destruct (BundleSpec.segment_byte t a); [done|]. by apply IH.
Qed.

Section loaders.
Context `{Allocator, FileSystem, Decompressors, SerdeJson}.
Context (Hample : ample).

Lemma capture_holds what m maximum s data :
  0 <= maximum < isize_max -> capture what m maximum s = Ok data -> stream_bytes s = Some data.
Proof.
  intros Hmax Hc. assert (Hpost : capture_post maximum s (capture what m maximum s)).
  { apply capture_total; [unfold in_width, isize_max in *; lia|]. intros n Hn. apply Hample. lia. }
  rewrite Hc in Hpost. apply Hpost.
Qed.

Lemma read_file_limited_holds path maximum description data :
  0 <= maximum < isize_max -> read_file_limited path maximum description = Ok data -> holds_file path data.
Proof.
  intros Hmax. unfold read_file_limited. destruct (_ =? 0); [done|]. intros Hr.
  apply bind_Ok in Hr as (file & Hopen & Hr). apply map_err_Ok in Hopen. inv_ok.
  destruct (_ <? _); [done|]. inv_ok. apply capture_holds in Hr; [|done]. by exists file.
Qed.

Lemma from_elf_magic source data format max b :
  from_elf_with_limits source data format max = Ok b -> starts_with data elf_magic = true.
Proof.
  unfold from_elf_with_limits. destruct (_ =? 0); [done|]. destruct (starts_with data elf_magic); [done|].
  cbn [negb]. by rewrite orb_true_r.
Qed.

Lemma from_kdmp_magic source data b :
  from_kdmp source data = Ok b -> starts_with data (bytes_of_string "PAGE") = true.
Proof.
  unfold from_kdmp. destruct (starts_with data _); [done|]. cbn [negb]. by rewrite orb_true_r.
Qed.

Definition described (b : SnapshotBundle.t) (spec : list SnapshotSegment.t -> Prop) : Prop :=
  exists image, spec image /\ SnapshotBundle.segments b ≡ₚ image.

Lemma elf_file_described path b :
  elf_vmcore_file path = Ok b \/ xen_core_file path = Ok b -> described b (elf_file_image path).
Proof.
  intros [Hb|Hb]; unfold elf_vmcore_file, elf_vmcore_file_with_limits, xen_core_file,
    xen_core_file_with_limits in Hb; apply bind_Ok in Hb as (data & Hdata & Hb);
    apply read_file_limited_holds in Hdata; [|done| |done];
    (exists (segments_of (elf_image data)); split; [|by eapply from_elf_image]; exists data;
     split; [done|]; split; [by eapply from_elf_magic|done]).
Qed.

Lemma decode_compressed_holds decoder encoding data :
  decode_compressed_kdmp decoder encoding DEFAULT_MAX_DECODED_KDMP_SIZE = Ok data ->
  stream_bytes decoder = Some data.
Proof.
  unfold decode_compressed_kdmp. intros Hd. inv_ok. destruct (negb _); [done|]. inv_ok. subst.
  by apply capture_holds in Hm.
Qed.

Lemma kdmp_file_described path b : kdmp_file path = Ok b -> described b (dump_file_image path).
Proof.
  unfold kdmp_file, kdmp_file_with_limit. destruct (_ =? 0); [done|]. intros Hb.
  apply bind_Ok in Hb as (raw & Hraw & Hb). apply bind_Ok in Hb as (data & Hdata & Hb).
  apply read_file_limited_holds in Hraw; [|done]. pose proof (from_kdmp_magic _ _ _ Hb) as Hmagic.
  exists (segments_of (kdmp_image data)). split; [|by eapply from_kdmp_image].
  exists raw, data. split; [done|]. split; [|done].
  destruct (starts_with raw gzip_magic) eqn:?; [apply decode_compressed_holds in Hdata; by constructor|].
  destruct (starts_with raw (bytes_of_string "BZh")) eqn:?;
    [apply decode_compressed_holds in Hdata; by apply unpacked_bzip2|].
  destruct (starts_with raw xz_magic) eqn:?; [apply decode_compressed_holds in Hdata; by apply unpacked_xz|].
  destruct (starts_with raw zstd_magic) eqn:?.
  { apply bind_Ok in Hdata as (s & Hs%map_err_Ok & Hdata). apply decode_compressed_holds in Hdata.
    by eapply unpacked_zstd. }
  case_bool_decide; [apply decode_compressed_holds in Hdata; by apply unpacked_zlib|].
  injection Hdata as ->. by apply unpacked_plain.
Qed.

(** ** The openers *)

Lemma raw_file_described path base b :
  raw_file path base = Ok b -> described b (source_image (RawAt base) path).
Proof.
  unfold raw_file, raw_file_with_limit, try_from_raw. intros Hb. apply bind_Ok in Hb as (data & Hdata & Hb).
  apply read_file_limited_holds in Hdata; [|done]. inv_ok. destruct (_ <? _); [done|]. inv_ok. subst b.
  exists [SnapshotSegment.new base data]. split; [by exists data|done].
Qed.

Lemma converted_core_described path b :
  converted_core_file path = Ok b -> described b (source_image ConvertedCore path).
Proof.
  unfold converted_core_file. intros Hb. apply bind_Ok in Hb as (prefix & _ & Hb).
  destruct (starts_with prefix elf_magic).
  - destruct (elf_file_described path b (or_introl Hb)) as (image & ? & ?). exists image. split; [by left|done].
  - destruct (_ || _); [|done]. destruct (kdmp_file_described path b Hb) as (image & ? & ?).
    exists image. split; [by right|done].
Qed.

Lemma manifest_described path b : manifest_file path = Ok b -> described b (source_image Manifest path).
Proof.
  intros Hb. apply manifest_file_Ok in Hb as (_ & _ & _ & _ & Hholds); [|done]. by exists (SnapshotBundle.segments b).
Qed.

Context `{Bitflags}.
Import SnapshotConnector.

(** The connector is the one an opener makes of a file of this format. *)
Inductive opens (c : t) (path : string) : Source -> Prop :=
| opens_virtualbox_core architecture :
    open_virtualbox_core architecture path = Ok c -> opens c path ElfCore
| opens_xen_core architecture : open_xen_core architecture path = Ok c -> opens c path ElfCore
| opens_kdmp : open_kdmp path = Ok c -> opens c path KernelDump
| opens_vmware_vmem architecture base :
    in_u64 (Gpa.raw base) -> open_vmware_vmem architecture path base = Ok c -> opens c path (RawAt base)
| opens_vmware_converted_core architecture :
    open_vmware_converted_core architecture path = Ok c -> opens c path ConvertedCore
| opens_hyperv_converted_core architecture :
    open_hyperv_converted_core architecture path = Ok c -> opens c path ConvertedCore
| opens_bhyve_converted_core : open_bhyve_converted_core path = Ok c -> opens c path ConvertedCore
| opens_manifest id name architecture :
    open_manifest id name architecture path = Ok c -> opens c path Manifest
| opens_bhyve_manifest : open_bhyve_manifest path = Ok c -> opens c path Manifest
| opens_hyperv_manifest architecture : open_hyperv_manifest architecture path = Ok c -> opens c path Manifest
| opens_firecracker_manifest : open_firecracker_manifest path = Ok c -> opens c path Manifest
| opens_cloud_hypervisor_manifest architecture :
    open_cloud_hypervisor_manifest architecture path = Ok c -> opens c path Manifest.

(** The file was loaded by the loader of its format. *)
Definition loads (path : string) (source : Source) (b : SnapshotBundle.t) : Prop :=
  match source with
  | ElfCore => elf_vmcore_file path = Ok b \/ xen_core_file path = Ok b
  | KernelDump => kdmp_file path = Ok b
  | RawAt base => in_u64 (Gpa.raw base) /\ raw_file path base = Ok b
  | ConvertedCore => converted_core_file path = Ok b
  | Manifest => manifest_file path = Ok b
  end.

Lemma opens_loads c path source : opens c path source -> loads path source (bundle c).
Proof.
  intros Ho; destruct Ho; match goal with Hc : _ = Ok c |- _ => 
    unfold open_virtualbox_core, open_xen_core, open_kdmp, open_vmware_vmem, open_vmware_converted_core,
      open_hyperv_converted_core, open_bhyve_converted_core, open_bhyve_manifest, open_hyperv_manifest,
      open_firecracker_manifest, open_cloud_hypervisor_manifest, open_manifest in Hc;
    let b := fresh "b" in apply bind_Ok in Hc as (b & Hb & Hc); apply snapshot_new_fields in Hc as (-> & _) end;
    cbn [loads]; [left|right| |split; [done|]|..]; exact Hb.
Qed.

(** What the file of an opened connector describes is its bundle. *)
Lemma opens_described c path source : opens c path source ->
  loaded (bundle c) /\ described (bundle c) (source_image source path).
Proof.
  intros Hl%opens_loads. destruct source; cbn [loads] in Hl.
  - split; [by eapply elf_file_loaded|by apply elf_file_described].
  - split; [by eapply kdmp_file_loaded|by apply kdmp_file_described].
  - destruct Hl. split; [by eapply raw_file_loaded|by apply raw_file_described].
  - split; [by eapply converted_core_loaded|by apply converted_core_described].
  - split; [by eapply manifest_loaded|by apply manifest_described].
Qed.
End loaders.
