(* ===== verification/Profile.v ===== *)
(** * Symbol and layout profiles ([crates/vmi-profile])

    Symbol tables from System.map files, JSON profiles and PDB files, and
    the structure offsets that go with them.  A table is indexed by name and
    by address; the PDB parser is an interface. *)

From S2P Require Import Prelude.
From S2P Require Import Types.
From S2P Require Import Text.
From S2P Require Import Host.

Definition MAX_TEXT_PROFILE_SIZE : Z := 64 * 1024 * 1024.
Definition MAX_PDB_SIZE : Z := 8 * 1024 * 1024 * 1024.
Definition MAX_PROFILE_ENTRIES : Z := 1000000.

(** A [char] by its UTF-8 text. *)
Module Symbol.
Record t : Type := mk { name : string; address : Z; kind : option string }.
End Symbol.

#[global] Instance Symbol_eq_dec : EqDecision Symbol.t.
Proof. solve_decision. Defined.

(** ** The PDB parser *)

Record PublicSymbol : Type := MkPublicSymbol {
  ps_name : string;
  ps_rva : option Z;
  ps_function : bool;
}.

Record ClassType : Type := MkClassType {
  ct_name : string;
  ct_forward_reference : bool;
  ct_fields : option Z;
}.

Inductive FieldEntry : Type := Member (name : string) (offset : Z) | OtherField.
Record FieldList : Type := MkFieldList {
  fl_fields : list FieldEntry;
  fl_continuation : option Z;
}.

(** What the code asks of the [pdb] crate: iterators as the sequence of
    items or errors they yield, a record that does not parse to the kind
    looked for as [None].  Type indices and RVAs are [u32]. *)
Class Pdb := {
  PdbImage : Type;
  pdb_open : File -> result string PdbImage;
  global_symbols : PdbImage -> result string (list (result string (option PublicSymbol)));
  address_map : PdbImage -> result string unit;
  type_information : PdbImage -> result string (list (result string (option ClassType)));
  find_fields : PdbImage -> Z -> result string (result string (option FieldList));
  rva_range : forall image items p rva, global_symbols image = Ok items ->
    Ok (Some p) ∈ items -> ps_rva p = Some rva -> in_u32 rva;
  continuation_range : forall image index fields next, find_fields image index = Ok (Ok (Some fields)) ->
    fl_continuation fields = Some next -> in_u32 next;
  fields_range : forall image items c index, type_information image = Ok items ->
    Ok (Some c) ∈ items -> ct_fields c = Some index -> in_u32 index;
}.

Definition pdb_error (error : string) : VmiError.t := Backend ("PDB parsing failed: " +:+ error).

Section profile.
Context `{Allocator}.

Definition try_clone_profile_string (value purpose : string) : Result string :=
  let? _ := map_err (fun error =>
      Backend ("failed to allocate profile " +:+ purpose +:+ ": " +:+ error))
    (try_reserve purpose (Z.of_nat (String.length value))) in
  Ok value.

Definition malformed (line : Z) : VmiError.t := Backend ("malformed System.map line " +:+ dec line).

(** ** Reading the files *)

Definition text_profile_step (path : string) (st : list byte * stream)
    : (list byte * stream) + Result (list byte) :=
  let '(contents, s) := st in
  let capture_limit := MAX_TEXT_PROFILE_SIZE + 1 in
  let remaining := saturating_sub capture_limit (zlen contents) in
  let requested := Z.min remaining (64 * 1024) in
  if requested =? 0 then inr (Ok contents)
  else
    match read_retry s requested with
    | (Err error, _) => inr (Err (Backend ("failed to read " +:+ path +:+ ": " +:+ error)))
    | (Ok captured, s') =>
        if zlen captured =? 0 then inr (Ok contents)
        else
          match try_reserve "text profile buffer" (zlen contents + zlen captured) with
          | Err error => inr (Err (Backend ("failed to grow text profile buffer: " +:+ error)))
          | Ok _ =>
              let contents' := contents ++ captured in
              if MAX_TEXT_PROFILE_SIZE <? zlen contents' then
                inr (Err (Backend ("text profile exceeds " +:+ dec MAX_TEXT_PROFILE_SIZE +:+ " bytes")))
              else inl (contents', s')
          end
    end.

(** Every round captures at least one byte. *)
Definition read_text_profile `{FileSystem} (path : string) : Result string :=
  let? file := map_err (fun error => Backend ("failed to open " +:+ path +:+ ": " +:+ error))
    (open path) in
  let? size := map_err (fun error => Backend ("failed to inspect " +:+ path +:+ ": " +:+ error))
    (metadata_len file) in
  if MAX_TEXT_PROFILE_SIZE <? size then
    Err (Backend ("text profile exceeds " +:+ dec MAX_TEXT_PROFILE_SIZE +:+ " bytes"))
  else
    let? capacity := ok_or (try_width 64 size) (Backend "text profile is too large for this host") in
    let? _ := map_err (fun error =>
        Backend ("failed to allocate text profile buffer: " +:+ error))
      (try_reserve "text profile buffer" capacity) in
    let? contents := run_loop (Z.to_pos (MAX_TEXT_PROFILE_SIZE + 2)) (text_profile_step path)
      (fun _ => Err (Backend "model fuel exhausted")) ([], contents file) in
    let? _ := map_err (fun error =>
        Backend ("text profile " +:+ path +:+ " is not UTF-8: " +:+ Utf8.display error))
      (Utf8.from_utf8 contents) in
    Ok (string_of_bytes contents).

Definition open_pdb_file `{FileSystem} (path : string) : Result File :=
  let? file := map_err (fun error => Backend ("failed to open PDB " +:+ path +:+ ": " +:+ error))
    (open path) in
  let? size := map_err (fun error => Backend ("failed to inspect PDB " +:+ path +:+ ": " +:+ error))
    (metadata_len file) in
  if MAX_PDB_SIZE <? size then Err (Backend ("PDB exceeds " +:+ dec MAX_PDB_SIZE +:+ " bytes"))
  else Ok file.
End profile.

(** ** Symbol tables *)

Module SymbolTable.
(** The [HashMap] by name and the [BTreeMap] of aliases by address. *)
Record t : Type := mk {
  by_name : gmap string Symbol.t;
  by_address : gmap Z (list string);
}.

Definition default : t := mk ∅ ∅.

Definition len (table : t) : Z := Z.of_nat (size (by_name table)).
Definition is_empty (table : t) : bool := len table =? 0.
Definition symbol (table : t) (name : string) : option Symbol.t := by_name table !! name.

Definition symbols_at (table : t) (address : Z) : list Symbol.t :=
  omap (fun name => by_name table !! name) (List.concat (option_list (by_address table !! address))).

(** [range(..=address).next_back()]: the entry with the greatest key up to
    the address. *)
Definition range_last {A} (m : gmap Z A) (address : Z) : option (Z * A) :=
  foldr (fun entry best =>
           if fst entry <=? address then
             match best with
             | Some (key, _) => if key <? fst entry then Some entry else best
             | None => Some entry
             end
           else best) None (map_to_list m).

Definition nearest_symbol (table : t) (address : Z) : option (Symbol.t * Z) :=
  match range_last (by_address table) address with
  | Some (base, names) =>
      match head names with
      | Some name =>
          match by_name table !! name, checked_sub address base with
          | Some symbol, Some offset => Some (symbol, offset)
          | _, _ => None
          end
      | None => None
      end
  | None => None
  end.

Section operations.
Context `{Allocator}.

Definition insert (table : t) (symbol : Symbol.t) : Result t :=
  let name := Symbol.name symbol in
  let address := Symbol.address symbol in
  match by_name table !! name with
  | Some _ => Err (Backend ("duplicate symbol " +:+ name))
  | None =>
      let? _ := map_err (fun error =>
          Backend ("failed to grow profile symbol table: " +:+ error))
        (try_reserve "profile symbol table" (len table + 1)) in
      let? name_key := try_clone_profile_string name "symbol name-index key" in
      let? alias_name := try_clone_profile_string name "symbol address-index key" in
      let? aliases :=
        match by_address table !! address with
        | Some names =>
            let? _ := map_err (fun error =>
                Backend ("failed to grow profile address aliases: " +:+ error))
              (try_reserve "profile address aliases" (zlen names + 1)) in
            Ok (names ++ [alias_name])
        | None =>
            let? _ := map_err (fun error =>
                Backend ("failed to allocate profile address aliases: " +:+ error))
              (try_reserve "profile address aliases" 1) in
            Ok [alias_name]
        end in
      Ok (mk (<[name_key := symbol]> (by_name table)) (<[address := aliases]> (by_address table)))
  end.

(** One line of a System.map: blank lines and comments are skipped. *)
Definition system_map_line (table : t) (index : Z) (line : string) : Result t :=
  let? line_number := ok_or (checked_add 64 index 1) (Backend "System.map line number overflow") in
  let line := trim line in
  if bool_decide (line = "") || starts_with (bytes_of_string line) [x23] then Ok table
  else if len table =? MAX_PROFILE_ENTRIES then
    Err (Backend ("System.map exceeds " +:+ dec MAX_PROFILE_ENTRIES +:+ " symbols"))
  else
    match split_whitespace line with
    | address_text :: kind_text :: name :: more =>
        if negb (bool_decide (more = [])) || negb (bool_decide (length (chars kind_text) = 1%nat)) then
          Err (malformed line_number)
        else
          let? address := map_err (fun error =>
              Backend ("invalid System.map address on line " +:+ dec line_number +:+ ": "
                +:+ ParseInt.display error))
            (ParseInt.from_str_radix 64 16 (trim_start_matches "0x" address_text)) in
          let? owned := try_clone_profile_string name "System.map symbol name" in
          map_err (fun _ => Backend ("duplicate System.map symbol " +:+ name +:+ " on line "
                     +:+ dec line_number))
            (insert table (Symbol.mk owned address (string_of_bytes <$> head (chars kind_text))))
    | _ => Err (malformed line_number)
    end.

Fixpoint system_map_lines (table : t) (index : Z) (text : list string) : Result t :=
  match text with
  | [] => Ok table
  | line :: rest =>
      let? table := system_map_line table index line in
      system_map_lines table (index + 1) rest
  end.

Definition from_system_map (contents : string) : Result t :=
  let? table := system_map_lines default 0 (lines contents) in
  if bool_decide (by_name table = ∅) then Err (Backend "System.map contains no symbols")
  else Ok table.

Definition from_system_map_file `{FileSystem} (path : string) : Result t :=
  let? contents := read_text_profile path in
  from_system_map contents.

(** ** PDB public symbols *)

Definition pdb_symbol (image_base : Z) (output : t) (item : result string (option PublicSymbol))
    : Result t :=
  let? symbol := map_err pdb_error item in
  match symbol with
  | None => Ok output
  | Some public =>
      match ps_rva public with
      | None => Ok output
      | Some rva =>
          let? name := try_clone_profile_string (ps_name public) "PDB symbol name" in
          if bool_decide (name = "") then Ok output
          else if len output =? MAX_PROFILE_ENTRIES then
            Err (Backend ("PDB exceeds " +:+ dec MAX_PROFILE_ENTRIES +:+ " public symbols"))
          else
            let? address := ok_or (checked_add 64 image_base rva)
              (Backend ("PDB symbol " +:+ name +:+ " address overflows image base")) in
            match SymbolTable.symbol output name with
            | Some existing =>
                if Symbol.address existing =? address then Ok output
                else Err (Backend ("PDB contains conflicting public symbol " +:+ name))
            | None =>
                insert output (Symbol.mk name address
                  (Some (if ps_function public then "T" else "D")%string))
            end
      end
  end.

Fixpoint pdb_symbols (image_base : Z) (output : t)
    (items : list (result string (option PublicSymbol))) : Result t :=
  match items with
  | [] => Ok output
  | item :: rest =>
      let? output := pdb_symbol image_base output item in
      pdb_symbols image_base output rest
  end.

Definition from_pdb_file `{FileSystem, Pdb} (path : string) (image_base : Z) : Result t :=
  let? file := open_pdb_file path in
  let? pdb := map_err pdb_error (pdb_open file) in
  let? symbols := map_err pdb_error (global_symbols pdb) in
  let? _ := map_err pdb_error (address_map pdb) in
  let? output := pdb_symbols image_base default symbols in
  if is_empty output then Err (Backend "PDB contains no addressable public symbols")
  else Ok output.
End operations.
End SymbolTable.

(** ** Profiles *)

Module Profile.
Record t : Type := mk {
  symbols : SymbolTable.t;
  offsets : gmap string Z;
}.

Definition offset (p : t) (name : string) : option Z := offsets p !! name.
Definition require_offset (p : t) (name : string) : Result Z :=
  ok_or (offset p name) (Backend ("profile offset " +:+ name +:+ " not found")).
Definition offsets_len (p : t) : Z := Z.of_nat (size (offsets p)).

Definition is_synthetic_pdb_type (name : string) : bool := contains name "closure_env$".

Section operations.
Context `{Allocator}.

Definition try_join_field_name (class_name member_name : string) : Result string :=
  let? capacity := ok_or
    (match checked_add 64 (Z.of_nat (String.length class_name)) 1 with
     | Some length => checked_add 64 length (Z.of_nat (String.length member_name))
     | None => None
     end) (Backend "PDB field name length overflow") in
  let? _ := map_err (fun error => Backend ("failed to allocate PDB field name: " +:+ error))
    (try_reserve "PDB field name" capacity) in
  Ok (class_name +:+ "." +:+ member_name).

Definition insert_profile_offset (offsets : gmap string Z) (key : string) (offset : Z)
    (source : string) : Result (gmap string Z) :=
  match offsets !! key with
  | Some previous =>
      if previous =? offset then Ok offsets
      else Err (Backend (source +:+ " contains conflicting field offset " +:+ key))
  | None =>
      if Z.of_nat (size offsets) =? MAX_PROFILE_ENTRIES then
        Err (Backend (source +:+ " exceeds " +:+ dec MAX_PROFILE_ENTRIES +:+ " field offsets"))
      else
        let? _ := map_err (fun error =>
            Backend ("failed to grow " +:+ source +:+ " field-offset table: " +:+ error))
          (try_reserve "field-offset table" (Z.of_nat (size offsets) + 1)) in
        Ok (<[key := offset]> offsets)
  end.

(** *** PDB layouts *)

Section pdb.
Context `{Pdb}.

Fixpoint insert_members (class_name : string) (fields : list FieldEntry) (offsets : gmap string Z)
    : Result (gmap string Z) :=
  match fields with
  | [] => Ok offsets
  | Member member_name offset :: rest =>
      let? key := try_join_field_name class_name member_name in
      let? offsets := insert_profile_offset offsets key offset "PDB" in
      insert_members class_name rest offsets
  | OtherField :: rest => insert_members class_name rest offsets
  end.

(** One field list of a class, and the one it continues in. *)
Definition field_list_step (image : PdbImage) (class_name : string)
    (st : gset Z * Z * gmap string Z) : (gset Z * Z * gmap string Z) + Result (gmap string Z) :=
  let '(visited, field_index, offsets) := st in
  let step :=
    let? _ := map_err (fun error =>
        Backend ("failed to grow PDB field-list cycle detector: " +:+ error))
      (try_reserve "PDB field-list cycle detector" (Z.of_nat (size visited) + 1)) in
    if bool_decide (field_index ∈ visited) then
      Err (Backend ("PDB field list for " +:+ class_name +:+ " contains a cycle"))
    else
      let? field_item := map_err pdb_error (find_fields image field_index) in
      let? parsed := map_err pdb_error field_item in
      let? fields := ok_or parsed
        (Backend ("PDB type " +:+ class_name +:+ " references a non-field-list record")) in
      let? offsets := insert_members class_name (fl_fields fields) offsets in
      Ok (fl_continuation fields, offsets) in
  match step with
  | Err e => inr (Err e)
  | Ok (None, offsets) => inr (Ok offsets)
  | Ok (Some continuation, offsets) => inl ({[field_index]} ∪ visited, continuation, offsets)
  end.

(** Type indices are [u32], and none is visited twice. *)
Definition class_fields (image : PdbImage) (class_name : string) (field_index : Z)
    (offsets : gmap string Z) : Result (gmap string Z) :=
  run_loop (Z.to_pos (2 ^ 32 + 1)) (field_list_step image class_name)
    (fun _ => Err (Backend "model fuel exhausted")) (∅, field_index, offsets).

Definition class_item (image : PdbImage) (offsets : gmap string Z)
    (item : result string (option ClassType)) : Result (gmap string Z) :=
  let? class := map_err pdb_error item in
  match class with
  | None => Ok offsets
  | Some class =>
      if ct_forward_reference class then Ok offsets
      else
        match ct_fields class with
        | None => Ok offsets
        | Some field_index =>
            let? class_name := try_clone_profile_string (ct_name class) "PDB class name" in
            if is_synthetic_pdb_type class_name then Ok offsets
            else class_fields image class_name field_index offsets
        end
  end.

Fixpoint class_items (image : PdbImage) (offsets : gmap string Z)
    (items : list (result string (option ClassType))) : Result (gmap string Z) :=
  match items with
  | [] => Ok offsets
  | item :: rest =>
      let? offsets := class_item image offsets item in
      class_items image offsets rest
  end.

(** The first pass over the types only feeds the finder. *)
Fixpoint finder_pass (items : list (result string (option ClassType))) : Result unit :=
  match items with
  | [] => Ok tt
  | item :: rest => let? _ := map_err pdb_error item in finder_pass rest
  end.

Definition from_pdb_file `{FileSystem} (path : string) (image_base : Z) : Result t :=
  let? symbols := SymbolTable.from_pdb_file path image_base in
  let? file := open_pdb_file path in
  let? pdb := map_err pdb_error (pdb_open file) in
  let? types := map_err pdb_error (type_information pdb) in
  let? _ := finder_pass types in
  let? offsets := class_items pdb ∅ types in
  Ok (mk symbols offsets).
End pdb.

(** *** JSON profiles *)

Section json.
Context `{SerdeJson}.

Definition profile_number (value : Value) (field : string) : Result Z :=
  match as_u64 value with
  | Some number => Ok number
  | None =>
      let? text := ok_or (as_str value)
        (Backend ("profile value " +:+ field +:+ " must be an unsigned number or string")) in
      map_err (fun error =>
          Backend ("invalid profile value " +:+ field +:+ ": " +:+ ParseInt.display error))
        (match strip_prefix "0x" text with
         | Some hex => ParseInt.from_str_radix 64 16 hex
         | None => ParseInt.from_str_radix 64 10 text
         end)
  end.

Fixpoint json_symbols (fields : list (string * Value)) (table : SymbolTable.t)
    : Result SymbolTable.t :=
  match fields with
  | [] => Ok table
  | (name, value) :: rest =>
      let? owned := try_clone_profile_string name "JSON symbol name" in
      let? address := profile_number value name in
      let? table := SymbolTable.insert table (Symbol.mk owned address None) in
      json_symbols rest table
  end.

Fixpoint json_offsets (fields : list (string * Value)) (offsets : gmap string Z)
    : Result (gmap string Z) :=
  match fields with
  | [] => Ok offsets
  | (name, value) :: rest =>
      let? owned := try_clone_profile_string name "JSON offset name" in
      let? number := profile_number value name in
      json_offsets rest (<[owned := number]> offsets)
  end.

Definition from_json (contents : string) : Result t :=
  let? root := map_err (fun error => Backend ("invalid profile JSON: " +:+ error))
    (from_str contents) in
  let? root := ok_or (as_object root) (Backend "profile root must be an object") in
  let? symbol_values := ok_or
    (match map_get root "symbols" with Some v => as_object v | None => None end)
    (Backend "profile symbols must be an object") in
  let? offset_values := ok_or
    (match map_get root "offsets" with Some v => as_object v | None => None end)
    (Backend "profile offsets must be an object") in
  if (MAX_PROFILE_ENTRIES <? zlen symbol_values) || (MAX_PROFILE_ENTRIES <? zlen offset_values) then
    Err (Backend ("profile symbols or offsets exceed " +:+ dec MAX_PROFILE_ENTRIES +:+ " entries"))
  else
    let? symbols := json_symbols symbol_values SymbolTable.default in
    if SymbolTable.is_empty symbols then Err (Backend "profile contains no symbols")
    else
      let? _ := map_err (fun error =>
          Backend ("failed to allocate profile offset table: " +:+ error))
        (try_reserve "profile offset table" (zlen offset_values)) in
      let? offsets := json_offsets offset_values ∅ in
      Ok (mk symbols offsets).

Definition from_json_file `{FileSystem} (path : string) : Result t :=
  let? contents := read_text_profile path in
  from_json contents.
End json.
End operations.
End Profile.
