(* ===== verification/ProfileFacts.v ===== *)
(** * What profiles guarantee ([crates/vmi-profile])

    A symbol table is its list of accepted symbols under both indexes,
    System.map text round-trips, and field lists of a PDB cannot loop. *)

From S2P Require Import Prelude.
From S2P Require Import Types.
From S2P Require Import Text.
From S2P Require Import Host.
From S2P Require Import Profile.

(** ** Symbol tables *)

Section table.
Import SymbolTable.

Definition named_at (a : Z) (l : list Symbol.t) : list Symbol.t :=
  filter (fun s => Symbol.address s = a) l.

(** The table indexes the list: by name, and by address in list order. *)
Record indexes (table : t) (l : list Symbol.t) : Prop := {
  idx_nodup : NoDup (Symbol.name <$> l);
  idx_name : by_name table = list_to_map ((fun s => (Symbol.name s, s)) <$> l);
  idx_address : forall a, by_address table !! a =
    if bool_decide (named_at a l = []) then None else Some (Symbol.name <$> named_at a l);
}.

Lemma indexes_default : indexes default [].
Proof. split; [constructor|done|]. intros a. apply lookup_empty. Qed.

Lemma idx_names l : ((fun s => (Symbol.name s, s)) <$> l).*1 = Symbol.name <$> l.
Proof. induction l; cbn; by f_equal. Qed.

Lemma symbol_indexes table l n s :
  indexes table l -> symbol table n = Some s <-> s ∈ l /\ Symbol.name s = n.
Proof.
  intros [Hnd Hname _]. unfold symbol. rewrite Hname.
  rewrite <- elem_of_list_to_map by (by rewrite idx_names).
  rewrite list_elem_of_fmap. naive_solver.
Qed.

Lemma symbol_fresh table l n :
  indexes table l -> by_name table !! n = None <-> n ∉ Symbol.name <$> l.
Proof.
  intros Hi. rewrite eq_None_not_Some, list_elem_of_fmap. unfold is_Some.
  setoid_rewrite (symbol_indexes _ _ n _ Hi). naive_solver.
Qed.

Lemma len_indexes table l : indexes table l -> len table = zlen l.
Proof.
  intros [Hnd Hname _]. unfold len, zlen. rewrite Hname, map_size_list_to_map by (by rewrite idx_names).
  by rewrite length_fmap.
Qed.

Lemma symbols_at_indexes table l a : indexes table l -> symbols_at table a = named_at a l.
Proof.
  intros Hi. unfold symbols_at. rewrite (idx_address _ _ Hi).
  assert (Hall : Forall (fun s => by_name table !! Symbol.name s = Some s) (named_at a l)).
  { apply Forall_forall. intros s [_ Hs]%list_elem_of_filter. by apply (symbol_indexes _ _ _ _ Hi). }
  case_bool_decide as E; [by rewrite E|]. cbn. rewrite app_nil_r.
  induction Hall as [|s rest Hs _ IH]; [done|]. cbn. rewrite Hs. f_equal.
  destruct rest; [done|]. by apply IH.
Qed.

Lemma insert_indexes `{Allocator} table l s table' :
  indexes table l -> insert table s = Ok table' ->
  indexes table' (l ++ [s]) /\ Symbol.name s ∉ Symbol.name <$> l.
Proof.
  intros Hi. unfold insert, try_clone_profile_string.
  destruct (by_name table !! _) eqn:Hfresh; [done|]. apply (symbol_fresh _ _ _ Hi) in Hfresh.
  intros Hr. inv_ok. subst. split; [|done]. destruct Hi as [Hnd Hname Haddr]. split.
  - rewrite fmap_app. apply NoDup_app. split; [done|]. split; [|apply NoDup_singleton].
    intros n Hn Hs. apply list_elem_of_singleton in Hs as ->. done.
  - cbn [by_name]. rewrite fmap_app. csimpl. rewrite list_to_map_snoc, Hname; [done|]. by rewrite idx_names.
  - cbn [by_address]. intros a. unfold named_at in *. rewrite filter_app.
    destruct (decide (Symbol.address s = a)) as [<-|Hne].
    + rewrite lookup_insert_eq, filter_cons_True, filter_nil by done. rewrite Haddr in Hm2.
      destruct (decide (filter (fun s' => Symbol.address s' = Symbol.address s) l = [])) as [E|E].
      * rewrite bool_decide_eq_true_2 in Hm2 by done. inv_ok. subst. by rewrite E.
      * rewrite bool_decide_eq_false_2 in Hm2 by done. inv_ok. subst.
        rewrite bool_decide_eq_false_2 by (by intros [_ ?]%app_eq_nil). by rewrite fmap_app.
    + rewrite lookup_insert_ne, filter_cons_False, filter_nil, app_nil_r by done. apply Haddr.
Qed.

(** The greatest key up to the address. *)
Lemma range_last_spec {A} (m : gmap Z A) address :
  match range_last m address with
  | Some (key, v) => m !! key = Some v /\ key <= address /\
      forall k, is_Some (m !! k) -> k <= address -> k <= key
  | None => forall k, is_Some (m !! k) -> address < k
  end.
Proof.
  unfold range_last. assert (H : forall es : list (Z * A),
    match foldr (fun entry best => if fst entry <=? address then
             match best with
             | Some (key, _) => if key <? fst entry then Some entry else best
             | None => Some entry
             end else best) None es with
    | Some (key, v) => (key, v) ∈ es /\ key <= address /\
        forall e, e ∈ es -> fst e <= address -> fst e <= key
    | None => forall e, e ∈ es -> address < fst e
    end).
  { induction es as [|[k v] es IH]; cbn [foldr fst]; [by intros e ?%not_elem_of_nil|].
    destruct (Z.leb_spec k address) as [Hk|Hk].
    - destruct (foldr _ _ _) as [[key w]|].
      + destruct IH as (Hin & Hle & Hmax). destruct (Z.ltb_spec key k).
        * split; [by left|]. split; [done|]. intros e [->|He]%elem_of_cons Hea; [done|].
          specialize (Hmax e He Hea). lia.
        * split; [by right|]. split; [done|]. intros e [->|He]%elem_of_cons Hea; [done|]. auto.
      + split; [by left|]. split; [done|]. intros e [->|He]%elem_of_cons Hea; [done|].
        specialize (IH e He). lia.
    - destruct (foldr _ _ _) as [[key w]|].
      + destruct IH as (Hin & Hle & Hmax). split; [by right|]. split; [done|].
        intros e [->|He]%elem_of_cons Hea; [cbn in *; lia|]. auto.
      + intros e [->|He]%elem_of_cons; [done|]. auto. }
  specialize (H (map_to_list m)). destruct (foldr _ _ _) as [[key v]|].
  - destruct H as (Hin & Hle & Hmax). split; [by apply elem_of_map_to_list|]. split; [done|].
    intros k [w Hw] Hk. apply (Hmax (k, w)); [by apply elem_of_map_to_list|done].
  - intros k [w Hw]. apply (H (k, w)). by apply elem_of_map_to_list.
Qed.

Lemma nearest_indexes table l a :
  indexes table l ->
  match nearest_symbol table a with
  | Some (s, offset) => 0 <= offset /\ head (named_at (a - offset) l) = Some s /\
      Forall (fun s' => Symbol.address s' <= a -> Symbol.address s' <= a - offset) l
  | None => Forall (fun s => a < Symbol.address s) l
  end.
Proof.
  intros Hi. unfold nearest_symbol. pose proof (range_last_spec (by_address table) a) as Hr.
  assert (Hsome : forall s, s ∈ l -> is_Some (by_address table !! Symbol.address s)).
  { intros s Hs. rewrite (idx_address _ _ Hi). case_bool_decide as E; [|done].
    assert (Hin : s ∈ named_at (Symbol.address s) l) by (by apply list_elem_of_filter).
    rewrite E in Hin. by apply not_elem_of_nil in Hin. }
  destruct (range_last _ _) as [[base names]|].
  - destruct Hr as (Hbase & Hle & Hmax). rewrite (idx_address _ _ Hi) in Hbase.
    case_bool_decide as E; [done|]. injection Hbase as <-.
    destruct (named_at base l) as [|s rest] eqn:Hl; [done|]. cbn [fmap list_fmap head].
    assert (Hs : s ∈ l /\ Symbol.address s = base).
    { assert (Hin : s ∈ named_at base l) by (rewrite Hl; left).
      by apply list_elem_of_filter in Hin as [? ?]. }
    replace (by_name table !! Symbol.name s) with (Some s)
      by (symmetry; apply (symbol_indexes _ _ _ _ Hi); tauto).
    unfold checked_sub. replace (base <=? a) with true by (symmetry; by apply Z.leb_le).
    split; [lia|]. replace (a - (a - base)) with base by lia. rewrite Hl. split; [done|].
    apply Forall_forall. intros s' Hs' Ha. apply Hmax; [by apply Hsome|done].
  - apply Forall_forall. intros s Hs. by apply Hr, Hsome.
Qed.

(** A run of insertions, refused ones without effect. *)
Definition insert_all `{Allocator} (syms : list Symbol.t) : list Symbol.t * t :=
  foldl (fun st s => match insert (snd st) s with
                     | Ok table => (fst st ++ [s], table)
                     | Err _ => st
                     end) ([], default) syms.

Lemma insert_all_indexes `{Allocator} syms :
  let '(accepted, table) := insert_all syms in
  indexes table accepted /\ accepted `sublist_of` syms.
Proof.
  unfold insert_all. induction syms as [|s syms IH] using rev_ind; cbn [foldl].
  { split; [apply indexes_default|constructor]. }
  rewrite foldl_app. destruct (foldl _ _ syms) as [accepted table]. destruct IH as [Hi Hsub].
  cbn [foldl fst snd]. destruct (insert table s) as [table'|] eqn:E.
  - split; [by apply (insert_indexes _ _ _ _ Hi E)|]. by apply sublist_app.
  - split; [done|]. by apply sublist_inserts_r.
Qed.
End table.

(** C24: a symbol table is the list of the symbols it accepted, under both its
    indexes, for every run of insertions: names are unique; a name finds
    exactly its symbol; an address lists its symbols in the order they came;
    and the nearest symbol of an address is the first of those at the
    greatest address up to it, with the distance, or none when every symbol
    lies above. *)
Theorem symbol_table_refines_list `{Allocator} (syms : list Symbol.t) :
  let '(accepted, table) := insert_all syms in
  accepted `sublist_of` syms /\ NoDup (Symbol.name <$> accepted) /\
  SymbolTable.len table = zlen accepted /\
  (forall n s, SymbolTable.symbol table n = Some s <-> s ∈ accepted /\ Symbol.name s = n) /\
  (forall s, s ∈ accepted -> is_ok (SymbolTable.insert table s) = false) /\
  (forall a, SymbolTable.symbols_at table a = filter (fun s => Symbol.address s = a) accepted) /\
  (forall a, match SymbolTable.nearest_symbol table a with
     | Some (s, offset) => 0 <= offset /\
         head (filter (fun s' => Symbol.address s' = a - offset) accepted) = Some s /\
         Forall (fun s' => Symbol.address s' <= a -> Symbol.address s' <= a - offset) accepted
     | None => Forall (fun s => a < Symbol.address s) accepted
     end).
Proof.
  pose proof (insert_all_indexes syms) as Hi. destruct (insert_all syms) as [accepted table].
  destruct Hi as [Hi Hsub]. split; [done|]. split; [exact (idx_nodup _ _ Hi)|].
  split; [by apply len_indexes|]. split; [intros n s; by apply symbol_indexes|].
  split; [|split; [intros a; by apply symbols_at_indexes|intros a; by apply nearest_indexes]].
  intros s Hs. destruct (SymbolTable.insert table s) as [table'|] eqn:E; [|done].
  apply (insert_indexes _ _ _ _ Hi) in E as [_ Hn]. destruct Hn. by apply list_elem_of_fmap_2.
Qed.

(** ** PDB layouts *)

Section pdb.
Context `{Allocator, Pdb}.
Import Profile.

(** The members of a field list and of the lists it continues in. *)
Inductive field_chain (image : PdbImage) : Z -> list FieldEntry -> Prop :=
| chain_end index fields :
    find_fields image index = Ok (Ok (Some fields)) -> fl_continuation fields = None ->
    field_chain image index (fl_fields fields)
| chain_more index fields next more :
    find_fields image index = Ok (Ok (Some fields)) -> fl_continuation fields = Some next ->
    field_chain image next more -> field_chain image index (fl_fields fields ++ more).

Lemma field_chain_fun image index fs1 fs2 :
  field_chain image index fs1 -> field_chain image index fs2 -> fs1 = fs2.
Proof.
  intros H1. revert fs2. induction H1 as [index fields Hf Hc|index fields next more Hf Hc _ IH];
    intros fs2 H2; inversion H2 as [i fs Hf2 Hc2|i fs next' more' Hf2 Hc2 Hmore]; subst i fs2;
    rewrite Hf in Hf2; injection Hf2 as <-; rewrite Hc in Hc2; simplify_eq; [done|].
  f_equal. by apply IH.
Qed.

(** The offsets a set of members adds to a map. *)
Definition adds_members (name : string) (fields : list FieldEntry) (m m' : gmap string Z) : Prop :=
  forall key v, m' !! key = Some v <-> m !! key = Some v \/
    exists member, Member member v ∈ fields /\ key = name +:+ "." +:+ member.

Lemma insert_profile_offset_spec m key v source m' :
  insert_profile_offset m key v source = Ok m' ->
  forall k w, m' !! k = Some w <-> m !! k = Some w \/ (k = key /\ w = v).
Proof.
  unfold insert_profile_offset. destruct (m !! key) as [prev|] eqn:E.
  - destruct (Z.eqb_spec prev v) as [->|]; [|done]. intros [= <-] k w. naive_solver.
  - destruct (_ =? _); [done|]. intros Hi k w. inv_ok. subst m'.
    rewrite lookup_insert_Some. naive_solver.
Qed.

Lemma insert_members_spec name fields m m' :
  insert_members name fields m = Ok m' -> adds_members name fields m m'.
Proof.
  revert m. induction fields as [|[member offset|] fields IH]; intros m; cbn [insert_members].
  - intros [= <-] key v. split; [by left|]. intros [?|(? & []%not_elem_of_nil & _)]. done.
  - intros Hm. inv_ok. unfold try_join_field_name in Hm0. inv_ok. subst.
    pose proof (insert_profile_offset_spec _ _ _ _ _ Hm1) as Hins. specialize (IH _ Hm).
    intros key v. rewrite (IH key v), Hins. setoid_rewrite elem_of_cons. naive_solver.
  - intros Hm key v. rewrite (IH _ Hm key v). setoid_rewrite elem_of_cons. naive_solver.
Qed.

Lemma adds_members_app name fs1 fs2 m0 m1 m2 :
  adds_members name fs1 m0 m1 -> adds_members name fs2 m1 m2 -> adds_members name (fs1 ++ fs2) m0 m2.
Proof.
  intros H1 H2 key v. rewrite (H2 key v), (H1 key v). setoid_rewrite elem_of_app. naive_solver.
Qed.

Section field_lists.
Context (image : PdbImage) (name : string) (index : Z) (m : gmap string Z).

Definition field_list_inv (st : gset Z * Z * gmap string Z) : Prop :=
  let '(visited, i, cur) := st in
  (forall x, x ∈ visited -> in_u32 x) /\ in_u32 i /\
  exists before, adds_members name before m cur /\
    forall fields, field_chain image i fields -> field_chain image index (before ++ fields).

Definition field_list_post (r : Result (gmap string Z)) : Prop :=
  forall m', r = Ok m' -> exists fields, field_chain image index fields /\ adds_members name fields m m'.

Lemma field_list_step_inv st : field_list_inv st ->
  match field_list_step image name st with
  | inl st' => field_list_inv st' /\ 2 ^ 32 - Z.of_nat (size st'.1.1) < 2 ^ 32 - Z.of_nat (size st.1.1)
  | inr r => field_list_post r
  end.
Proof.
  destruct st as [[visited i] cur]. intros (Hv & Hi & before & Hb & Hchain).
  unfold field_list_step. destruct (mbind _ _) as [[[next|] cur']|e] eqn:E; [| |done].
  - inv_ok. destruct (decide (i ∈ visited)) as [Hin|Hin];
      [rewrite bool_decide_eq_true_2 in E by done; done|].
    rewrite bool_decide_eq_false_2 in E by done. inv_ok. subst.
    apply insert_members_spec in Hm3. split.
    + split; [|split; [by eapply continuation_range|]].
      { intros x [->%elem_of_singleton|Hx]%elem_of_union; [done|by apply Hv]. }
      exists (before ++ fl_fields v2). split; [by eapply adds_members_app|].
      intros fields Hf. rewrite <- app_assoc. by apply Hchain, chain_more with next.
    + cbn [fst]. rewrite size_union, size_singleton by set_solver. lia.
  - inv_ok. destruct (decide (i ∈ visited)) as [Hin|Hin];
      [rewrite bool_decide_eq_true_2 in E by done; done|].
    rewrite bool_decide_eq_false_2 in E by done. inv_ok. subst.
    apply insert_members_spec in Hm3. intros m' [= <-]. exists (before ++ fl_fields v2).
    split; [by apply Hchain, chain_end|by eapply adds_members_app].
Qed.

(** Reading a class ends: no index is visited twice, and there are [2 ^ 32]. *)
Lemma class_fields_total : in_u32 index ->
  exists r, loop_pos (Z.to_pos (2 ^ 32 + 1)) (field_list_step image name) (∅, index, m) = inr r /\
    field_list_post r.
Proof.
  intros Hindex.
  apply (loop_pos_total field_list_inv field_list_post
    (fun st => 2 ^ 32 - Z.of_nat (size st.1.1))); [| | |apply field_list_step_inv].
  - split; [set_solver|]. split; [done|]. exists []. split; [|done].
    intros key v. split; [by left|]. by intros [?|(? & []%not_elem_of_nil & _)].
  - cbn [fst]. change (size (∅ : gset Z)) with 0%nat. lia.
  - intros [[visited i] cur] (Hv & _). cbn [fst].
    pose proof (size_in_range visited (2 ^ 32) ltac:(lia) Hv). lia.
Qed.
End field_lists.

(** A class definition of the file has the member at the offset. *)
Definition has_member (image : PdbImage) (types : list (result string (option ClassType)))
    (key : string) (v : Z) : Prop :=
  exists c index fields member,
    Ok (Some c) ∈ types /\ ct_forward_reference c = false /\ ct_fields c = Some index /\
    is_synthetic_pdb_type (ct_name c) = false /\ field_chain image index fields /\
    Member member v ∈ fields /\ key = ct_name c +:+ "." +:+ member.

(** A class that is skipped has no member. *)
#[local] Ltac no_member Hskip :=
  apply Hskip; [intros ? ? (? & ? & ? & ? & ?); destruct_and!; simplify_eq; congruence|congruence].

Lemma class_item_spec image all m item m' :
  type_information image = Ok all -> item ∈ all -> class_item image m item = Ok m' ->
  forall key v, m' !! key = Some v <-> m !! key = Some v \/ has_member image [item] key v.
Proof.
  intros Hall Hitem. unfold class_item. intros Hr. apply bind_Ok in Hr as (class & Hc & Hr).
  apply map_err_Ok in Hc as ->.
  assert (Hskip : (forall key v, ~ has_member image [Ok class] key v) -> m = m' ->
    forall key v, m' !! key = Some v <-> m !! key = Some v \/ has_member image [Ok class] key v).
  { intros Hno <- key v. specialize (Hno key v). tauto. }
  unfold has_member in Hskip |- *. setoid_rewrite list_elem_of_singleton in Hskip.
  setoid_rewrite list_elem_of_singleton.
  destruct class as [c|]; [|no_member Hskip].
  destruct (ct_forward_reference c) eqn:Hfwd; [no_member Hskip|].
  destruct (ct_fields c) as [index|] eqn:Hfields; [|no_member Hskip].
  unfold try_clone_profile_string in Hr. inv_ok. subst v.
  destruct (is_synthetic_pdb_type _) eqn:Hsyn; [no_member Hskip|].
  unfold class_fields, run_loop in Hr.
  destruct (class_fields_total image (ct_name c) index m) as (r & Hloop & Hpost).
  { by eapply fields_range. }
  rewrite Hloop in Hr. destruct (Hpost _ Hr) as (fields & Hchain & Hadds).
  intros key v. rewrite (Hadds key v). split; intros [?|Hx]; [by left| |by left|]; right.
  - destruct Hx as (member & Hin & ->). by exists c, index, fields, member.
  - destruct Hx as (c' & index' & fields' & member & [= ->] & _ & Hf & _ & Hchain' & Hin & ->).
    exists member. split; [|done]. simplify_eq. by rewrite (field_chain_fun _ _ _ _ Hchain Hchain').
Qed.

Lemma class_items_spec image all m items m' :
  type_information image = Ok all -> items ⊆ all -> class_items image m items = Ok m' ->
  forall key v, m' !! key = Some v <-> m !! key = Some v \/ has_member image items key v.
Proof.
  intros Hall. revert m. induction items as [|item items IH]; intros m Hsub; cbn [class_items].
  - intros [= <-] key v. unfold has_member. split; [by left|].
    by intros [?|(? & ? & ? & ? & []%not_elem_of_nil & _)].
  - intros Hr key v. apply bind_Ok in Hr as (m1 & H1 & Hr).
    rewrite (IH m1 (fun x Hx => Hsub x (list_elem_of_further _ _ _ Hx)) Hr key v).
    rewrite (class_item_spec image all m item m1 Hall (Hsub item (list_elem_of_here _ _)) H1 key v).
    unfold has_member. setoid_rewrite list_elem_of_singleton. setoid_rewrite elem_of_cons.
    naive_solver.
Qed.
End pdb.

(** C26: a PDB profile has exactly the offsets of its classes.  Whatever the
    image, refused or accepted, following a class's field lists ends by
    itself within [2 ^ 32] steps, and gives members only if the lists come to
    an end; and an accepted profile gives an offset for a name exactly when a
    class definition that is not synthetic has that member at that offset in
    its chain of field lists. *)
Theorem pdb_offsets_exact `{Allocator, FileSystem, Pdb} (path : string) (image_base : Z) :
  (forall image name index m, in_u32 index -> exists r,
     loop_pos (Z.to_pos (2 ^ 32 + 1)) (Profile.field_list_step image name) (∅, index, m) = inr r /\
     loop_runs (Profile.field_list_step image name) (∅, index, m) r /\
     Profile.class_fields image name index m = r /\
     (is_ok r = true -> exists fields, field_chain image index fields)) /\
  (forall p, Profile.from_pdb_file path image_base = Ok p ->
     exists file image types,
       open path = Ok file /\ pdb_open file = Ok image /\ type_information image = Ok types /\
       forall key v, Profile.offset p key = Some v <-> has_member image types key v).
Proof.
  split.
  - intros image name index m Hindex. destruct (class_fields_total image name index m Hindex) as (r & Hr & Hpost).
    exists r. split; [done|]. split; [by eapply loop_pos_runs|].
    split; [unfold Profile.class_fields, run_loop; by rewrite Hr|].
    destruct r as [m'|e]; [|done]. intros _. destruct (Hpost m' eq_refl) as (fields & Hchain & _). by exists fields.
  - intros p Hp. unfold Profile.from_pdb_file in Hp. apply bind_Ok in Hp as (symbols & _ & Hp).
    apply bind_Ok in Hp as (file & Hfile & Hp). unfold open_pdb_file in Hfile. inv_ok.
    destruct (_ <? _); [done|]. inv_ok. subst. exists file, v, v0.
    do 3 (split; [done|]). intros key w. unfold Profile.offset. cbn [Profile.offsets].
    rewrite (class_items_spec v v0 _ v0 _ Hm0 ltac:(done) Hm2 key w).
    rewrite lookup_empty. naive_solver.
Qed.

(** Two field lists of one class, the second continuing the first. *)
#[refine] Definition example_pdb : Pdb := {|
  PdbImage := unit;
  pdb_open := fun _ => Ok tt;
  global_symbols := fun _ => Ok [Ok None; Ok (Some (MkPublicSymbol "PsInitialSystemProcess" (Some 0x20) false))];
  address_map := fun _ => Ok tt;
  type_information := fun _ => Ok [Ok (Some (MkClassType "_EPROCESS" true None));
    Ok (Some (MkClassType "_EPROCESS" false (Some 0x1000)))];
  find_fields := fun _ i =>
    if i =? 0x1000 then Ok (Ok (Some (MkFieldList [Member "Pcb" 0; OtherField] (Some 0x1001))))
    else if i =? 0x1001 then Ok (Ok (Some (MkFieldList [Member "UniqueProcessId" 0x440] None)))
    else Err "type not found"%string;
|}.
Proof.
  - intros _ items p rva [= <-]. rewrite !elem_of_cons. intros [[=]|[[= ->]|[]%not_elem_of_nil]] [= <-].
    width_const.
  - intros _ index fields next. destruct (_ =? _).
    + intros [= <-] [= <-]. width_const.
    + destruct (_ =? _); [|done]. by intros [= <-].
  - intros _ items c index [= <-]. rewrite !elem_of_cons.
    intros [[= ->]|[[= ->]|[]%not_elem_of_nil]] [= <-]. width_const.
Defined.

(** Two types whose field lists continue each other. *)
#[refine] Definition cyclic_pdb : Pdb := {|
  PdbImage := unit;
  pdb_open := fun _ => Ok tt;
  global_symbols := fun _ => Ok [];
  address_map := fun _ => Ok tt;
  type_information := fun _ => Ok [Ok (Some (MkClassType "_LOOP" false (Some 0x1000)))];
  find_fields := fun _ i => Ok (Ok (Some (MkFieldList [] (Some (if i =? 0x1000 then 0x1001 else 0x1000)))));
|}.
Proof.
  - by intros _ items p rva [= <-] ?%not_elem_of_nil.
  - intros _ index fields next [= <-]. cbn. intros [= <-]. destruct (_ =? _); width_const.
  - intros _ items c index [= <-]. rewrite elem_of_cons. intros [[= ->]|[]%not_elem_of_nil] [= <-]. width_const.
Defined.

Lemma pdb_offsets_exact_witness :
  (exists p, @Profile.from_pdb_file ample_allocator example_pdb (example_files []) "nt.pdb" 0x1000 = Ok p /\
    Profile.offset p "_EPROCESS.UniqueProcessId" = Some 0x440) /\
  exists r, loop_runs (@Profile.field_list_step ample_allocator cyclic_pdb tt "_LOOP") (∅, 0x1000, ∅) r /\
    @Profile.class_fields ample_allocator cyclic_pdb tt "_LOOP" 0x1000 ∅ = r.
Proof.
  split.
  - eexists. split; [vm_compute; reflexivity|].
    destruct (proj2 (@pdb_offsets_exact ample_allocator (example_files []) example_pdb "nt.pdb" 0x1000)
      _ ltac:(vm_compute; reflexivity)) as (f & image & types & [= <-] & [= <-] & [= <-] & Hoff).
    apply Hoff. eexists (MkClassType "_EPROCESS" false (Some 0x1000)), 0x1000, _, _.
    split; [right; left|]. do 3 (split; [reflexivity|]).
    split; [eapply chain_more; [reflexivity|reflexivity|]; eapply chain_end; reflexivity|].
    split; [right; right; left|reflexivity].
  - destruct (proj1 (@pdb_offsets_exact ample_allocator (example_files []) cyclic_pdb "nt.pdb" 0x1000)
      tt "_LOOP"%string 0x1000 ∅ ltac:(width_const)) as (r & _ & Hruns & Hclass & _).
    by exists r.
Defined.
