(* ===== verification/SystemMap.v ===== *)
(** * System.map text round-trips ([crates/vmi-profile])

    The text [nm] prints for a list of symbols is parsed back to a table that
    indexes exactly that list. *)

From S2P Require Import Prelude.
From S2P Require Import Types.
From S2P Require Import Text.
From S2P Require Import TextFacts.
From S2P Require Import AsciiFacts.
From S2P Require Import Profile.
From S2P Require Import ProfileFacts.

Import SymbolTable.

(** ** Lines *)

Definition printed_name (s : Symbol.t) : list byte := bytes_of_string (Symbol.name s).
Definition printed_kind (s : Symbol.t) : list byte := bytes_of_string (from_option id " "%string (Symbol.kind s)).

Definition printed (s : Symbol.t) : list byte :=
  hex_bytes 16 (Symbol.address s) ++ x20 :: printed_kind s ++ x20 :: printed_name s.

(** A symbol as [nm] prints one: a one-letter kind, a visible ASCII name. *)
Definition printable (s : Symbol.t) : Prop :=
  in_u64 (Symbol.address s) /\ Forall graphic (printed_name s) /\ Symbol.name s <> ""%string /\
  exists k, graphic k /\ Symbol.kind s = Some (string_of_bytes [k]).

Definition render (syms : list Symbol.t) : string :=
  string_of_bytes (concat ((fun s => printed s ++ [x0a]) <$> syms)).

Lemma printable_name_nonempty s : printable s -> printed_name s <> [].
Proof.
  intros (_ & _ & Hne & _) E. apply Hne. rewrite <- (string_of_bytes_of_string (Symbol.name s)).
  unfold printed_name in E. by rewrite E.
Qed.

Lemma printed_ascii s : printable s -> Forall (fun b => graphic b \/ b = x20) (printed s).
Proof.
  intros (_ & Hn & _ & k & Hk & Hkind). unfold printed, printed_kind. rewrite Hkind.
  cbn [from_option id]. rewrite bytes_of_string_of_bytes.
  assert (Hg : forall l, Forall graphic l -> Forall (fun b => graphic b \/ b = x20) l)
    by (intros l Hl; eapply Forall_impl; [exact Hl|by left]).
  apply Forall_app. split; [apply Hg; eapply Forall_impl; [apply hex_bytes_all|by intros b [? _]]|].
  apply Forall_cons. split; [by right|]. apply Forall_cons. split; [by left|].
  apply Forall_cons. split; [by right|]. by apply Hg.
Qed.

Lemma lines_render syms : Forall printable syms -> lines (render syms) = string_of_bytes <$> (printed <$> syms).
Proof.
  intros Hall. unfold lines, render. f_equal. rewrite bytes_of_string_of_bytes.
  induction Hall as [|s syms Hs _ IH]; [done|]. cbn [fmap list_fmap concat].
  rewrite <- app_assoc. cbn [app]. pose proof (printed_ascii s Hs) as Ha.
  rewrite lines_go_line.
  2: { intros Hin. rewrite Forall_forall in Ha. specialize (Ha _ Hin). destruct Ha as [Hg|?]; [|done].
       unfold graphic in Hg. change (byte_val x0a) with 10 in Hg. lia. }
  rewrite IH. f_equal. cbn [app]. unfold strip_cr. rewrite bool_decide_eq_false_2; [done|].
  intros Hl. apply last_Some_elem_of in Hl. rewrite Forall_forall in Ha.
  specialize (Ha _ Hl) as [Hg|?]; [|done]. unfold graphic in Hg.
  change (byte_val x0d) with 13 in Hg. lia.
Qed.

Lemma trim_printed s : printable s -> trim (string_of_bytes (printed s)) = string_of_bytes (printed s).
Proof.
  intros Hs. pose proof (printed_ascii s Hs) as Ha. pose proof (printable_name_nonempty s Hs) as Hne.
  destruct Hs as (_ & Hname & _). unfold printed in *.
  pose proof (length_hex_bytes 16 (Symbol.address s)) as Hlen.
  pose proof (hex_bytes_all 16 (Symbol.address s)) as Hhex.
  destruct (hex_bytes 16 (Symbol.address s)) as [|b1 bs]; [done|].
  apply Forall_cons in Hhex as [[Hb1 _] _].
  destruct (exists_last Hne) as (init & b2 & E).
  rewrite E in Hname, Ha |- *.
  apply Forall_app in Hname as [_ Hb2]. apply Forall_cons in Hb2 as [Hb2 _].
  assert (Hsplit : (b1 :: bs) ++ x20 :: printed_kind s ++ x20 :: init ++ [b2]
    = b1 :: (bs ++ x20 :: printed_kind s ++ x20 :: init) ++ [b2]).
  { cbn [app]. f_equal. rewrite <- !app_assoc. cbn [app]. by rewrite <- app_assoc. }
  rewrite Hsplit in Ha |- *. apply trim_graphic; [done|done|].
  apply Forall_cons in Ha as [_ Ha]. apply Forall_app in Ha as [Ha _].
  eapply Forall_impl; [exact Ha|]. intros b [Hb| ->]; [by apply graphic_ascii|]. by vm_compute.
Qed.

Lemma printed_front s : exists b rest, printed s = b :: rest /\ b <> x23.
Proof.
  unfold printed. pose proof (length_hex_bytes 16 (Symbol.address s)) as Hlen.
  pose proof (hex_bytes_all 16 (Symbol.address s)) as Hhex.
  destruct (hex_bytes 16 (Symbol.address s)) as [|b bs]; [done|].
  apply Forall_cons in Hhex as [(_ & _ & _ & _ & Hb & _) _]. by eexists b, _.
Qed.

Section parse.
Context `{Allocator} (Hample : forall what n, n <= isize_max -> alloc_ok what n = true).

Lemma try_reserve_ample what n : n <= isize_max -> try_reserve what n = Ok tt.
Proof. intros Hn. unfold try_reserve. by rewrite Hample. Qed.

Lemma insert_succeeds table l s :
  indexes table l -> Symbol.name s ∉ Symbol.name <$> l -> zlen l < isize_max ->
  zlen (printed_name s) <= isize_max -> exists table', insert table s = Ok table'.
Proof.
  intros Hi Hfresh Hl Hn. unfold insert, try_clone_profile_string.
  apply (symbol_fresh _ _ _ Hi) in Hfresh. rewrite Hfresh. rewrite (len_indexes _ _ Hi).
  assert (Hlen : Z.of_nat (String.length (Symbol.name s)) <= isize_max).
  { revert Hn. unfold printed_name, zlen. by rewrite length_bytes_of_string. }
  rewrite !try_reserve_ample by (done || lia || (unfold isize_max; lia)). cbn [map_err mbind result_bind].
  destruct (by_address table !! Symbol.address s) as [names|] eqn:E.
  - rewrite try_reserve_ample; [by eexists|]. rewrite (idx_address _ _ Hi) in E.
    case_bool_decide; [done|]. injection E as <-. unfold zlen in *. rewrite length_fmap.
    pose proof (length_filter (fun s' => Symbol.address s' = Symbol.address s) l). unfold named_at. lia.
  - by eexists.
Qed.

Lemma system_map_line_printed table l index s :
  indexes table l -> printable s -> Symbol.name s ∉ Symbol.name <$> l ->
  zlen l < MAX_PROFILE_ENTRIES -> index + 1 < 2 ^ 64 -> zlen (printed_name s) <= isize_max ->
  exists table', system_map_line table index (string_of_bytes (printed s)) = Ok table' /\
    indexes table' (l ++ [s]).
Proof.
  intros Hi Hs Hfresh Hl Hindex Hn. destruct (insert_succeeds table l s) as [table' Hins];
    [done|done|unfold MAX_PROFILE_ENTRIES, isize_max in *; lia|done|].
  exists table'. split; [|by apply (insert_indexes _ _ _ _ Hi Hins)].
  unfold system_map_line, checked_add. rewrite (proj2 (Z.ltb_lt _ _) Hindex).
  cbn [ok_or mbind result_bind]. rewrite trim_printed by done.
  destruct (printed_front s) as (b & rest & Hfront & Hb).
  rewrite bytes_of_string_of_bytes, Hfront. cbn [string_of_bytes String.string_of_list_byte].
  rewrite bool_decide_eq_false_2 by done. unfold starts_with.
  rewrite bool_decide_eq_false_2 by (cbn; congruence). cbn [orb].
  rewrite (len_indexes _ _ Hi), (proj2 (Z.eqb_neq _ _)) by lia.
  change (String.String (Ascii.ascii_of_byte b) _) with (string_of_bytes (b :: rest)).
  rewrite <- Hfront. pose proof (printable_name_nonempty s Hs) as Hne.
  destruct Hs as (Ha & Hname & _ & k & Hk & Hkind). unfold printed, printed_kind.
  rewrite Hkind. cbn [from_option id]. rewrite bytes_of_string_of_bytes, split_three;
    [|by eapply Forall_impl; [apply hex_bytes_all|by intros ? [? _]]|by apply Forall_singleton|done
     |by destruct (hex_bytes 16 (Symbol.address s)) eqn:E; [by pose proof (length_hex_bytes 16 (Symbol.address s)) as Hl16; rewrite E in Hl16|]|done|done].
  rewrite chars_ascii by (apply Forall_singleton; by apply graphic_ascii).
  rewrite parse_hex by done. unfold printed_name, try_clone_profile_string.
  rewrite string_of_bytes_of_string, try_reserve_ample.
  2: { revert Hn. unfold printed_name, zlen. by rewrite length_bytes_of_string. }
  assert (Hsym : Symbol.mk (Symbol.name s) (Symbol.address s)
    (string_of_bytes <$> head ((fun b => [b]) <$> [k])) = s)
    by (destruct s; cbn in Hkind |- *; by rewrite Hkind).
  cbn [map_err mbind result_bind]. rewrite Hsym, Hins. done.
Qed.
End parse.

Lemma zlen_printed_name syms s : s ∈ syms -> zlen (printed_name s) <= zlen (bytes_of_string (render syms)).
Proof.
  unfold render. rewrite bytes_of_string_of_bytes. intros Hin. unfold zlen.
  induction Hin as [s syms|s s' syms _ IH]; cbn [fmap list_fmap concat]; rewrite length_app; [|lia].
  unfold printed. rewrite !length_app. cbn [length]. rewrite !length_app. cbn [length]. lia.
Qed.

Lemma system_map_lines_printed `{Allocator} syms done_ table bound :
  (forall what n, n <= isize_max -> alloc_ok what n = true) ->
  indexes table done_ -> Forall printable syms -> NoDup (Symbol.name <$> done_ ++ syms) ->
  zlen (done_ ++ syms) <= MAX_PROFILE_ENTRIES -> bound <= isize_max ->
  Forall (fun s => zlen (printed_name s) <= bound) syms ->
  exists table', system_map_lines table (zlen done_) (string_of_bytes <$> (printed <$> syms)) = Ok table' /\
    indexes table' (done_ ++ syms).
Proof.
  intros Hample. revert done_ table. induction syms as [|s syms IH]; intros done_ table Hi Hp Hnd Hmax Hb Hn.
  - exists table. by rewrite app_nil_r.
  - apply Forall_cons in Hp as [Hs Hp]. apply Forall_cons in Hn as [Hns Hn].
    cbn [fmap list_fmap system_map_lines]. rewrite zlen_app, zlen_cons in Hmax. pose proof (zlen_nonneg syms).
    destruct (system_map_line_printed Hample table done_ (zlen done_) s) as (table1 & -> & Hi1);
      [done|done| |unfold MAX_PROFILE_ENTRIES in *; lia..|].
    { rewrite fmap_app in Hnd. apply NoDup_app in Hnd as (_ & Hd & _). intros Hin.
      apply (Hd _ Hin). cbn. left. }
    cbn [mbind result_bind]. replace (zlen done_ + 1) with (zlen (done_ ++ [s])) by (by rewrite zlen_app).
    destruct (IH (done_ ++ [s]) table1) as (table' & Hr & Hi'); rewrite <- ?app_assoc;
      [done|done|done|cbn [app]; rewrite zlen_app, zlen_cons; lia|done|done|].
    exists table'. rewrite <- app_assoc in Hi'. done.
Qed.

(** C25: System.map text round-trips.  For every non-empty list of at most a
    million symbols with distinct visible ASCII names, one-letter kinds and
    64-bit addresses, the text with one line per symbol is parsed to a table
    that indexes exactly that list, when memory is available: by name, and
    by address in the order of the lines. *)
Theorem system_map_roundtrip `{Allocator} (syms : list Symbol.t)
    (Hample : forall what n, n <= isize_max -> alloc_ok what n = true)
    (Hne : syms <> []) (Hp : Forall printable syms) (Hnd : NoDup (Symbol.name <$> syms))
    (Hmax : zlen syms <= MAX_PROFILE_ENTRIES)
    (Htext : zlen (bytes_of_string (render syms)) <= isize_max) :
  exists table, from_system_map (render syms) = Ok table /\ len table = zlen syms /\
    (forall n s, symbol table n = Some s <-> s ∈ syms /\ Symbol.name s = n) /\
    (forall a, symbols_at table a = filter (fun s => Symbol.address s = a) syms).
Proof.
  destruct (system_map_lines_printed syms [] SymbolTable.default _ Hample indexes_default Hp Hnd Hmax Htext)
    as (table & Hr & Hi).
  { apply Forall_forall. intros s. apply zlen_printed_name. }
  exists table. unfold from_system_map. rewrite lines_render by done.
  change (zlen (@nil Symbol.t)) with 0 in Hr. rewrite Hr. cbn [mbind result_bind].
  pose proof (len_indexes _ _ Hi) as Hlen. cbn [app] in *. rewrite bool_decide_eq_false_2.
  - split; [done|]. split; [done|]. split; [intros n s; by apply symbol_indexes|].
    intros a. by apply symbols_at_indexes.
  - intros E. unfold len in Hlen. rewrite E, map_size_empty in Hlen. destruct syms; [done|].
    rewrite zlen_cons in Hlen. pose proof (zlen_nonneg syms). lia.
Qed.

Definition example_symbols : list Symbol.t :=
  [Symbol.mk "start_kernel" 0xffffffff81000000 (Some "T"%string);
   Symbol.mk "_text" 0xffffffff81000000 (Some "T"%string);
   Symbol.mk "init_task" 0xffffffff82413940 (Some "D"%string)].

Lemma system_map_roundtrip_witness :
  is_ok (@from_system_map ample_allocator (render example_symbols)) = true.
Proof.
  destruct (@system_map_roundtrip ample_allocator example_symbols) as (table & -> & _).
  - intros what n Hn. apply Z.leb_le. exact Hn.
  - discriminate.
  - assert (Hb : forall bs, forallb (fun b => bool_decide (graphic b)) bs = true -> Forall graphic bs).
    { intros bs Hbs. apply Forall_forall. intros b Hin. apply (bool_decide_unpack _).
      apply Is_true_true. eapply forallb_forall in Hbs; [exact Hbs|]. by apply list_elem_of_In. }
    assert (Hs : forall n a k, in_u64 a -> graphic k -> n <> ""%string ->
      forallb (fun b => bool_decide (graphic b)) (bytes_of_string n) = true ->
      printable (Symbol.mk n a (Some (string_of_bytes [k])))).
    { intros n a k Ha Hk Hn Hg. split; [done|]. split; [by apply Hb|]. split; [done|]. by exists k. }
    apply Forall_cons; split; [apply (Hs _ _ x54)|apply Forall_cons; split; [apply (Hs _ _ x54)|
      apply Forall_cons; split; [apply (Hs _ _ x44)|apply Forall_nil; exact I]]];
      try reflexivity; try discriminate; try width_const; vm_compute; split; discriminate.
  - apply (bool_decide_unpack _). vm_compute. exact I.
  - vm_compute. discriminate.
  - vm_compute. discriminate.
  - reflexivity.
Defined.
