(* ===== verification/Linux.v ===== *)
(** * Linux introspection ([crates/vmi-os-linux])

    Processes, modules, open files, paths and sockets of a Linux guest, read
    through a session.  Structure layouts come from the caller; nothing in
    guest memory is trusted to end, so every traversal has a cycle detector. *)

From S2P Require Import Prelude.
From S2P Require Import Types.
From S2P Require Import Text.
From S2P Require Import Profile.
From S2P Require Import Guest.

Module LinuxTaskOffsets.
Record t : Type := mk { tasks : Z; pid : Z; comm : Z; comm_length : Z }.
End LinuxTaskOffsets.

Module LinuxProcess.
Record t : Type := mk { task : Gva.t; pid : Z; command : string }.
End LinuxProcess.

Module LinuxModuleOffsets.
Record t : Type := mk { list_ : Z; name : Z; name_length : Z; core_base : Z; core_size : Z }.
End LinuxModuleOffsets.

Module LinuxModule.
Record t : Type := mk { module : Gva.t; name : string; core_base : Gva.t; core_size : Z }.
End LinuxModule.

Module LinuxFileOffsets.
Record t : Type := mk {
  task_files : Z; files_fdt : Z; fdtable_max_fds : Z; fdtable_fd : Z; file_path : Z;
  path_dentry : Z; dentry_name : Z; qstr_length : Z; qstr_name : Z; maximum_name_bytes : Z }.
End LinuxFileOffsets.

Module LinuxOpenFile.
Record t : Type := mk { descriptor : Z; file : Gva.t; dentry : Gva.t; name : string }.
End LinuxOpenFile.

Module LinuxDentryOffsets.
Record t : Type := mk {
  parent : Z; name : Z; qstr_length : Z; qstr_name : Z; maximum_name_bytes : Z }.
End LinuxDentryOffsets.

Module LinuxMountOffsets.
Record t : Type := mk { parent : Z; mountpoint : Z; root : Z }.
End LinuxMountOffsets.

Module LinuxSocketOffsets.
Record t : Type := mk {
  file_private_data : Z; socket_sk : Z; sock_family : Z; sock_protocol : Z; sock_state : Z;
  ipv4_source : Z; ipv4_destination : Z; ipv6_source : Z; ipv6_destination : Z;
  source_port : Z; destination_port : Z }.
End LinuxSocketOffsets.

(** [std::net::IpAddr], by its octets. *)
Inductive IpAddr : Type := V4 (octets : list byte) | V6 (octets : list byte).

Module LinuxSocket.
Record t : Type := mk {
  file : Gva.t; socket : Gva.t; sock : Gva.t; family : Z; protocol : Z; state : Z;
  source : IpAddr; source_port : Z; destination : IpAddr; destination_port : Z }.
End LinuxSocket.

Module LinuxSocketListOffsets.
Record t : Type := mk { node_next : Z; node_sock : Z }.
End LinuxSocketListOffsets.

Module LinuxSocketHashOffsets.
Record t : Type := mk { bucket_first : Z; bucket_stride : Z; node_next : Z; node_sock : Z }.
End LinuxSocketHashOffsets.

Module LinuxIntrospector.
(** The profile and the task layout; the session, translator and root are
    the [Guest]. *)
Record t : Type := new { profile : SymbolTable.t; offsets : LinuxTaskOffsets.t }.

Section ops.
Context {St : Type} `{Allocator, !Guest St}.
Abbreviation M := (stateful St VmiError.t).

Definition add (base offset : Z) (field : string) : M Z :=
  lift (ok_or (checked_add 64 base offset) (Backend ("Linux " +:+ field +:+ " address overflow"))).

Definition read_u64 (address : Z) : M Z := read_le 8 "short pointer read" address.
Definition read_u32 (address : Z) : M Z := read_le 4 "short PID read" address.
Definition read_array (n : nat) (address : Z) : M (list byte) :=
  let? bytes := read_virtual (Gva.new address) (Z.of_nat n) in
  lift (if Nat.eqb (length bytes) n then Ok bytes
        else Err (Backend ("short Linux " +:+ dec (Z.of_nat n) +:+ "-byte read"))).
Definition read_u16 (address : Z) : M Z :=
  let? bytes := read_array 2 address in mret (le_val bytes).
Definition read_u8 (address : Z) : M Z :=
  let? bytes := read_array 1 address in mret (le_val bytes).

(** ** Processes *)

Definition read_process (self : t) (task : Z) : M LinuxProcess.t :=
  let offsets := offsets self in
  let? pid_address := lift (ok_or (checked_add 64 task (LinuxTaskOffsets.pid offsets))
    (Backend "PID address overflow")) in
  let? pid := read_u32 pid_address in
  let? comm_address := lift (ok_or (checked_add 64 task (LinuxTaskOffsets.comm offsets))
    (Backend "comm address overflow")) in
  let? bytes := read_virtual (Gva.new comm_address) (LinuxTaskOffsets.comm_length offsets) in
  let? command := lift (decode_guest_bytes (until_nul bytes) "Linux command name") in
  mret (LinuxProcess.mk (Gva.new task) pid command).

Definition processes_step (self : t) (head limit : Z) (ls : Z * gset Z * list LinuxProcess.t)
    : M ((Z * gset Z * list LinuxProcess.t) + list LinuxProcess.t) :=
  let '(current_task, seen, output) := ls in
  let tasks := LinuxTaskOffsets.tasks (offsets self) in
  let? _ := reserve_seen (Z.of_nat (size seen)) "Linux task cycle detector" in
  if bool_decide (current_task ∈ seen) then
    fail (Backend ("Linux task list looped at unexpected task " +:+ hex current_task))
  else
    let? _ := reserve_one (zlen output) "Linux process list" in
    let? process := read_process self current_task in
    let output := output ++ [process] in
    let? list_node := lift (ok_or (checked_add 64 current_task tasks)
      (Backend "task list address overflow")) in
    let? next_node := read_u64 list_node in
    if next_node =? head then mret (inr output)
    else if limit <=? zlen output then
      fail (Backend ("Linux task list exceeded limit " +:+ dec limit))
    else
      let? current_task' := lift (ok_or (checked_sub next_node tasks)
        (Backend ("invalid Linux task list pointer " +:+ hex next_node))) in
      mret (inl (current_task', {[current_task]} ∪ seen, output)).

Definition processes (self : t) (limit : Z) : M (list LinuxProcess.t) :=
  let comm_length := LinuxTaskOffsets.comm_length (offsets self) in
  if (limit =? 0) || (comm_length =? 0) || (4096 <? comm_length) then
    fail (Backend "invalid Linux traversal limit or comm length")
  else
    let? symbol := lift (ok_or (SymbolTable.symbol (profile self) "init_task")
      (Backend "profile does not contain init_task")) in
    let init := Symbol.address symbol in
    let? head := lift (ok_or (checked_add 64 init (LinuxTaskOffsets.tasks (offsets self)))
      (Backend "init_task list address overflow")) in
    loop_m u64_rounds (processes_step self head limit) (init, ∅, []).

(** ** Modules *)

Definition read_module (module : Z) (offsets : LinuxModuleOffsets.t) : M LinuxModule.t :=
  let? name_address := add module (LinuxModuleOffsets.name offsets) "module name" in
  let? bytes := read_virtual (Gva.new name_address) (LinuxModuleOffsets.name_length offsets) in
  let? name := lift (decode_guest_bytes (until_nul bytes) "Linux module name") in
  let? base_address := add module (LinuxModuleOffsets.core_base offsets) "module core base" in
  let? core_base := read_u64 base_address in
  let? size_address := add module (LinuxModuleOffsets.core_size offsets) "module core size" in
  let? core_size := read_u64 size_address in
  mret (LinuxModule.mk (Gva.new module) name (Gva.new core_base) core_size).

Definition module_walk (offsets : LinuxModuleOffsets.t) (limit : Z) : ListWalk Z LinuxModule.t :=
  MkListWalk "Linux module cycle detector" "Linux module list"
    (fun node => Backend ("Linux module list looped at unexpected node " +:+ hex node))
    (Backend ("Linux module list exceeded limit " +:+ dec limit))
    (fun node => lift (ok_or (checked_sub node (LinuxModuleOffsets.list_ offsets))
       (Backend ("invalid Linux module list pointer " +:+ hex node))))
    (fun module => read_module module offsets)
    read_u64.

Definition modules (self : t) (offsets : LinuxModuleOffsets.t) (limit : Z) : M (list LinuxModule.t) :=
  let name_length := LinuxModuleOffsets.name_length offsets in
  if (limit =? 0) || (name_length =? 0) || (4096 <? name_length) then
    fail (Backend "invalid Linux module traversal limit or name length")
  else
    let? symbol := lift (ok_or (SymbolTable.symbol (profile self) "modules")
      (Backend "profile does not contain modules")) in
    let head := Symbol.address symbol in
    let? node := read_u64 head in
    walk_list (module_walk offsets limit) head limit node.

(** ** Directory entries *)

(** The [qstr] of a dentry: what [open_files] and [dentry_path] write out
    and [read_dentry_name] gathers. *)
Definition read_qstr (dentry name_offset length_offset pointer_offset maximum : Z) : M (Z * Z) :=
  let? qstr := add dentry name_offset "dentry name" in
  let? length_address := add qstr length_offset "qstr length" in
  let? length := read_u32 length_address in
  if maximum <? length then
    fail (Backend ("Linux dentry name length " +:+ dec length +:+ " exceeds limit " +:+ dec maximum))
  else
    let? pointer_address := add qstr pointer_offset "qstr name" in
    let? pointer := read_u64 pointer_address in
    if negb (length =? 0) && (pointer =? 0) then
      fail (Backend "non-empty Linux dentry name has null pointer")
    else mret (length, pointer).

Definition read_dentry_name (dentry : Z) (offsets : LinuxDentryOffsets.t) : M string :=
  let? ' (length, pointer) := read_qstr dentry (LinuxDentryOffsets.name offsets)
    (LinuxDentryOffsets.qstr_length offsets) (LinuxDentryOffsets.qstr_name offsets)
    (LinuxDentryOffsets.maximum_name_bytes offsets) in
  if length =? 0 then mret ""%string
  else
    let? bytes := read_virtual (Gva.new pointer) length in
    lift (decode_guest_bytes bytes "Linux dentry name").

(** *** Open files *)

Definition open_file (offsets : LinuxFileOffsets.t) (fd_array descriptor : Z)
    (output : list LinuxOpenFile.t) : M (list LinuxOpenFile.t) :=
  let? descriptor_u32 := lift (ok_or (try_width 32 descriptor)
    (Backend "Linux file descriptor exceeds u32")) in
  let? slot_offset := lift (ok_or (checked_mul 64 descriptor_u32 8)
    (Backend "Linux file descriptor slot overflow")) in
  let? slot := lift (ok_or (checked_add 64 fd_array slot_offset)
    (Backend "Linux fd array overflow")) in
  let? file := read_u64 slot in
  if file =? 0 then mret output
  else
    let? path := add file (LinuxFileOffsets.file_path offsets) "file path" in
    let? dentry_address := add path (LinuxFileOffsets.path_dentry offsets) "path dentry" in
    let? dentry := read_u64 dentry_address in
    if dentry =? 0 then
      fail (Backend ("Linux file descriptor " +:+ dec descriptor +:+ " has null dentry"))
    else
      let? ' (name_length, name_pointer) := read_qstr dentry (LinuxFileOffsets.dentry_name offsets)
        (LinuxFileOffsets.qstr_length offsets) (LinuxFileOffsets.qstr_name offsets)
        (LinuxFileOffsets.maximum_name_bytes offsets) in
      let? bytes := (if name_length =? 0 then mret []
                     else read_virtual (Gva.new name_pointer) name_length) : M (list byte) in
      let? _ := reserve_one (zlen output) "Linux open-file list" in
      let? name := lift (decode_guest_bytes bytes "Linux open-file name") in
      mret (output ++ [LinuxOpenFile.mk descriptor_u32 (Gva.new file) (Gva.new dentry) name]).

Definition open_files (task : Gva.t) (offsets : LinuxFileOffsets.t) (descriptor_limit : Z)
    : M (list LinuxOpenFile.t) :=
  let maximum := LinuxFileOffsets.maximum_name_bytes offsets in
  if (descriptor_limit =? 0) || (maximum =? 0) || (65536 <? maximum) then
    fail (Backend "invalid Linux file descriptor or name limit")
  else
    let? files_address := add (Gva.raw task) (LinuxFileOffsets.task_files offsets) "task files" in
    let? files := read_u64 files_address in
    if files =? 0 then mret []
    else
      let? fdt_address := add files (LinuxFileOffsets.files_fdt offsets) "files fdt" in
      let? fdt := read_u64 fdt_address in
      if fdt =? 0 then fail (Backend "Linux files_struct has null fdt")
      else
        let? max_address := add fdt (LinuxFileOffsets.fdtable_max_fds offsets) "fdtable max_fds" in
        let? max_fds := read_u32 max_address in
        if descriptor_limit <? max_fds then
          fail (Backend ("Linux fdtable size " +:+ dec max_fds +:+ " exceeds limit "
                  +:+ dec descriptor_limit))
        else
          let? array_address := add fdt (LinuxFileOffsets.fdtable_fd offsets) "fdtable fd" in
          let? fd_array := read_u64 array_address in
          if negb (max_fds =? 0) && (fd_array =? 0) then
            fail (Backend "non-empty Linux fdtable has null fd array")
          else for_m (Z.to_nat max_fds) 0 (open_file offsets fd_array) [].

(** *** Paths *)

Fixpoint joined_length (description : string) (components : list string) (length : Z) : Result Z :=
  match components with
  | [] => Ok length
  | component :: rest =>
      let? length := ok_or (checked_add 64 length (Z.of_nat (String.length component)))
        (Backend (description +:+ " length overflow")) in
      joined_length description rest length
  end.

Fixpoint push_components (index : Z) (components : list string) (path : string) : string :=
  match components with
  | [] => path
  | component :: rest =>
      push_components (index + 1) rest
        ((if index =? 0 then path else path +:+ "/") +:+ component)
  end.

Definition join_absolute_path (components : list string) (description : string) : Result string :=
  let separators := saturating_sub (zlen components) 1 in
  let? first := ok_or (checked_add 64 1 separators) (Backend (description +:+ " length overflow")) in
  let? capacity := joined_length description components first in
  let? _ := map_err (fun error => Backend ("failed to allocate " +:+ description +:+ ": " +:+ error))
    (try_reserve description capacity) in
  Ok (push_components 0 components "/").

Definition dentry_step (offsets : LinuxDentryOffsets.t) (component_limit : Z)
    (ls : Z * gset Z * list string) : M ((Z * gset Z * list string) + list string) :=
  let '(current, seen, components) := ls in
  let? _ := reserve_seen (Z.of_nat (size seen)) "Linux dentry cycle detector" in
  if bool_decide (current ∈ seen) then
    fail (Backend ("Linux dentry ancestry looped at " +:+ hex current))
  else
    let? ' (length, pointer) := read_qstr current (LinuxDentryOffsets.name offsets)
      (LinuxDentryOffsets.qstr_length offsets) (LinuxDentryOffsets.qstr_name offsets)
      (LinuxDentryOffsets.maximum_name_bytes offsets) in
    let? components :=
      (if negb (length =? 0) then
         let? bytes := read_virtual (Gva.new pointer) length in
         let? name := lift (decode_guest_bytes bytes "Linux dentry name") in
         if bool_decide (name <> "/"%string) then
           let? _ := reserve_one (zlen components) "Linux dentry path" in
           mret (components ++ [name])
         else mret components
       else mret components) : M (list string) in
    let? parent_address := add current (LinuxDentryOffsets.parent offsets) "dentry parent" in
    let? parent := read_u64 parent_address in
    if parent =? 0 then fail (Backend ("Linux dentry " +:+ hex current +:+ " has null parent"))
    else if parent =? current then mret (inr components)
    else if component_limit <=? zlen components then
      fail (Backend ("Linux dentry path exceeded component limit " +:+ dec component_limit))
    else mret (inl (parent, {[current]} ∪ seen, components)).

Definition dentry_path (dentry : Gva.t) (offsets : LinuxDentryOffsets.t) (component_limit : Z)
    : M string :=
  let maximum := LinuxDentryOffsets.maximum_name_bytes offsets in
  if (Gva.raw dentry =? 0) || (component_limit =? 0) || (maximum =? 0) || (65536 <? maximum) then
    fail (Backend "invalid Linux dentry path arguments")
  else
    let? components := loop_m u64_rounds (dentry_step offsets component_limit)
      (Gva.raw dentry, ∅, []) in
    lift (join_absolute_path (reverse components) "Linux dentry path").

Definition mount_step (dentry_offsets : LinuxDentryOffsets.t) (mount_offsets : LinuxMountOffsets.t)
    (component_limit : Z) (ls : Z * Z * gset (Z * Z) * list string)
    : M ((Z * Z * gset (Z * Z) * list string) + list string) :=
  let '(current_dentry, current_mount, seen, components) := ls in
  let? _ := reserve_seen (Z.of_nat (size seen)) "Linux mount cycle detector" in
  if bool_decide ((current_dentry, current_mount) ∈ seen) then
    fail (Backend ("Linux mounted path looped at dentry " +:+ hex current_dentry
            +:+ ", mount " +:+ hex current_mount))
  else
    let seen := {[(current_dentry, current_mount)]} ∪ seen in
    let? root_address := add current_mount (LinuxMountOffsets.root mount_offsets) "mount root" in
    let? mount_root := read_u64 root_address in
    if mount_root =? 0 then fail (Backend "Linux mount has null root")
    else if current_dentry =? mount_root then
      let? parent_address := add current_mount (LinuxMountOffsets.parent mount_offsets) "mount parent" in
      let? parent_mount := read_u64 parent_address in
      if parent_mount =? 0 then fail (Backend "Linux mount has null parent")
      else if parent_mount =? current_mount then mret (inr components)
      else
        let? point_address := add current_mount (LinuxMountOffsets.mountpoint mount_offsets) "mountpoint" in
        let? mountpoint := read_u64 point_address in
        if mountpoint =? 0 then fail (Backend "Linux mount has null mountpoint")
        else mret (inl (mountpoint, parent_mount, seen, components))
    else
      let? _ := reserve_one (zlen components) "Linux mounted path" in
      let? name := read_dentry_name current_dentry dentry_offsets in
      let components := components ++ [name] in
      if component_limit <=? zlen components then
        fail (Backend ("Linux mounted path exceeded component limit " +:+ dec component_limit))
      else
        let? parent_address := add current_dentry (LinuxDentryOffsets.parent dentry_offsets) "dentry parent" in
        let? parent := read_u64 parent_address in
        if parent =? 0 then
          fail (Backend ("Linux dentry " +:+ hex current_dentry +:+ " has null parent"))
        else mret (inl (parent, current_mount, seen, components)).

(** Pairs of a dentry and a mount are not repeated either. *)
Definition mounted_path (dentry mount : Gva.t) (dentry_offsets : LinuxDentryOffsets.t)
    (mount_offsets : LinuxMountOffsets.t) (component_limit : Z) : M string :=
  let maximum := LinuxDentryOffsets.maximum_name_bytes dentry_offsets in
  if (Gva.raw dentry =? 0) || (Gva.raw mount =? 0) || (component_limit =? 0)
     || (maximum =? 0) || (65536 <? maximum) then
    fail (Backend "invalid Linux mounted path arguments")
  else
    let? components := loop_m (Z.to_pos (2 ^ 128 + 1))
      (mount_step dentry_offsets mount_offsets component_limit)
      (Gva.raw dentry, Gva.raw mount, ∅, []) in
    let components := filter (fun c => c <> ""%string /\ c <> "/"%string) components in
    lift (join_absolute_path (reverse components) "Linux mounted path").

(** ** Sockets *)

Definition decode_sock (file socket sock_address : Gva.t) (offsets : LinuxSocketOffsets.t)
    : M LinuxSocket.t :=
  let sock := Gva.raw sock_address in
  let array n offset what :=
    let? address := add sock offset what in read_array n address in
  let u16 offset what := let? address := add sock offset what in read_u16 address in
  let u8 offset what := let? address := add sock offset what in read_u8 address in
  let? family := u16 (LinuxSocketOffsets.sock_family offsets) "socket family"%string in
  let? protocol := u8 (LinuxSocketOffsets.sock_protocol offsets) "socket protocol"%string in
  let? state := u8 (LinuxSocketOffsets.sock_state offsets) "socket state"%string in
  let? ' (source, destination) :=
    (if family =? 2 then
       let? source := array 4%nat (LinuxSocketOffsets.ipv4_source offsets) "IPv4 source" in
       let? destination := array 4%nat (LinuxSocketOffsets.ipv4_destination offsets) "IPv4 destination" in
       mret (V4 source, V4 destination)
     else if family =? 10 then
       let? source := array 16%nat (LinuxSocketOffsets.ipv6_source offsets) "IPv6 source" in
       let? destination := array 16%nat (LinuxSocketOffsets.ipv6_destination offsets) "IPv6 destination" in
       mret (V6 source, V6 destination)
     else fail (Backend ("unsupported Linux socket family " +:+ dec family))) : M (IpAddr * IpAddr) in
  let? source_port := array 2%nat (LinuxSocketOffsets.source_port offsets) "socket source port" in
  let? destination_port :=
    array 2%nat (LinuxSocketOffsets.destination_port offsets) "socket destination port" in
  mret (LinuxSocket.mk file socket sock_address family protocol state
          source (be_val source_port) destination (be_val destination_port)).

Definition socket_from_file (file : Gva.t) (offsets : LinuxSocketOffsets.t) : M LinuxSocket.t :=
  if Gva.raw file =? 0 then fail (Backend "Linux file pointer is null")
  else
    let? data_address := add (Gva.raw file) (LinuxSocketOffsets.file_private_data offsets) "socket" in
    let? socket := read_u64 data_address in
    if socket =? 0 then fail (Backend "Linux file has null private socket data")
    else
      let? sk_address := add socket (LinuxSocketOffsets.socket_sk offsets) "socket sk" in
      let? sock := read_u64 sk_address in
      if sock =? 0 then fail (Backend "Linux socket has null sock")
      else decode_sock file (Gva.new socket) (Gva.new sock) offsets.

Definition socket_walk (list_offsets : LinuxSocketListOffsets.t)
    (socket_offsets : LinuxSocketOffsets.t) (limit : Z) : ListWalk Z LinuxSocket.t :=
  MkListWalk "Linux socket cycle detector" "Linux socket list"
    (fun node => Backend ("Linux socket list looped at unexpected node " +:+ hex node))
    (Backend ("Linux socket list exceeded limit " +:+ dec limit))
    (fun node =>
       let? sock_address := add node (LinuxSocketListOffsets.node_sock list_offsets) "socket-list sock" in
       let? sock := read_u64 sock_address in
       if sock =? 0 then
         fail (Backend ("Linux socket-list node " +:+ hex node +:+ " has null sock"))
       else mret sock)
    (fun sock => decode_sock (Gva.new 0) (Gva.new 0) (Gva.new sock) socket_offsets)
    (fun node =>
       let? next_address := add node (LinuxSocketListOffsets.node_next list_offsets) "socket-list next" in
       read_u64 next_address).

Definition sockets_from_list (head : Gva.t) (list_offsets : LinuxSocketListOffsets.t)
    (socket_offsets : LinuxSocketOffsets.t) (limit : Z) : M (list LinuxSocket.t) :=
  if (Gva.raw head =? 0) || (limit =? 0) then
    fail (Backend "invalid Linux socket-list arguments")
  else
    let? node := read_u64 (Gva.raw head) in
    walk_list (socket_walk list_offsets socket_offsets limit) (Gva.raw head) limit node.

(** One node of a hash chain. *)
Definition hash_node (hash_offsets : LinuxSocketHashOffsets.t) (socket_offsets : LinuxSocketOffsets.t)
    (socket_limit : Z) (ls : Z * (gset Z * list LinuxSocket.t))
    : M ((Z * (gset Z * list LinuxSocket.t)) + (gset Z * list LinuxSocket.t)) :=
  let '(node, (seen, output)) := ls in
  if node =? 0 then mret (inr (seen, output))
  else
    let? _ := reserve_seen (Z.of_nat (size seen)) "Linux socket hash cycle detector" in
    if bool_decide (node ∈ seen) then
      fail (Backend ("Linux socket hash table repeats node " +:+ hex node))
    else
      let? sock_address := add node (LinuxSocketHashOffsets.node_sock hash_offsets) "hash-node sock" in
      let? sock := read_u64 sock_address in
      if sock =? 0 then
        fail (Backend ("Linux socket hash node " +:+ hex node +:+ " has null sock"))
      else
        let? _ := reserve_one (zlen output) "Linux socket hash table" in
        let? socket := decode_sock (Gva.new 0) (Gva.new 0) (Gva.new sock) socket_offsets in
        let output := output ++ [socket] in
        if socket_limit <? zlen output then
          fail (Backend ("Linux socket hash table exceeded limit " +:+ dec socket_limit))
        else
          let? next_address := add node (LinuxSocketHashOffsets.node_next hash_offsets) "hash-node next" in
          let? next := read_u64 next_address in
          mret (inl (next, ({[node]} ∪ seen, output))).

Definition hash_bucket (table : Gva.t) (hash_offsets : LinuxSocketHashOffsets.t)
    (socket_offsets : LinuxSocketOffsets.t) (socket_limit bucket : Z)
    (st : gset Z * list LinuxSocket.t) : M (gset Z * list LinuxSocket.t) :=
  let? bucket := lift (ok_or (try_width 64 bucket)
    (Backend "Linux socket bucket index is too large")) in
  let? bucket_offset := lift (ok_or
    (checked_mul 64 bucket (LinuxSocketHashOffsets.bucket_stride hash_offsets))
    (Backend "Linux socket bucket offset overflow")) in
  let? bucket_address := lift (ok_or
    (match checked_add 64 (Gva.raw table) bucket_offset with
     | Some address => checked_add 64 address (LinuxSocketHashOffsets.bucket_first hash_offsets)
     | None => None
     end) (Backend "Linux socket bucket overflow")) in
  let? node := read_u64 bucket_address in
  loop_m u64_rounds (hash_node hash_offsets socket_offsets socket_limit) (node, st).

Definition sockets_from_hash_table (table : Gva.t) (bucket_count : Z)
    (hash_offsets : LinuxSocketHashOffsets.t) (socket_offsets : LinuxSocketOffsets.t)
    (socket_limit : Z) : M (list LinuxSocket.t) :=
  if (Gva.raw table =? 0) || (bucket_count =? 0) || (1048576 <? bucket_count)
     || (LinuxSocketHashOffsets.bucket_stride hash_offsets =? 0) || (socket_limit =? 0) then
    fail (Backend "invalid Linux socket hash-table arguments")
  else
    let? ' (_, output) := for_m (Z.to_nat bucket_count) 0
      (hash_bucket table hash_offsets socket_offsets socket_limit) (∅, []) in
    mret output.
End ops.
End LinuxIntrospector.
