(* ===== verification/LinuxFacts.v ===== *)
(** * What Linux introspection guarantees ([crates/vmi-os-linux])

    Each traversal gives exactly the structure guest memory holds, read
    field by field, when that structure closes within the limit without a
    repetition; and on any other memory it fails. *)

From S2P Require Import Prelude.
From S2P Require Import Types.
From S2P Require Import DriverApi.
From S2P Require Import Text.
From S2P Require Import TextFacts.
From S2P Require Import Profile.
From S2P Require Import Guest.
From S2P Require Import Arch.
From S2P Require Import Amd64.
From S2P Require Import Session.
From S2P Require Import SessionFacts.
From S2P Require Import GuestFacts.
From S2P Require Import SessionGuest.
From S2P Require Import Linux.

Import LinuxIntrospector.

Section facts.
Context {St : Type} `{Allocator, !Guest St} {byte_at : Z -> option byte} {I : St -> Prop}.
Context `{!GuestMemory byte_at I}.

Abbreviation int n a := (le_at (byte_at := byte_at) n a).
Abbreviation run m P := (reads (I := I) m P).

(** ** Processes *)

Section processes.
Context (self : LinuxIntrospector.t) (limit : Z).
Abbreviation o := (offsets self).
Context (Htasks : in_u64 (LinuxTaskOffsets.tasks o)) (Hpid : in_u64 (LinuxTaskOffsets.pid o)).
Context (Hcomm : in_u64 (LinuxTaskOffsets.comm o)).

(** The process a task structure in guest memory describes. *)
Definition process_at (task : Z) (p : LinuxProcess.t) : Prop :=
  LinuxProcess.task p = Gva.new task /\
  int 4 (task + LinuxTaskOffsets.pid o) = Some (LinuxProcess.pid p) /\
  exists bs, bytes_at byte_at (task + LinuxTaskOffsets.comm o) (LinuxTaskOffsets.comm_length o) = Some bs /\
    LinuxProcess.command p = text (until_nul bs).

(** The tasks from one on, up to the one whose link is the head. *)
Inductive task_list (head : Z) : Z -> list Z -> list LinuxProcess.t -> Prop :=
| task_last task p :
    process_at task p -> int 8 (task + LinuxTaskOffsets.tasks o) = Some head ->
    task_list head task [task] [p]
| task_more task p link tasks ps :
    process_at task p -> int 8 (task + LinuxTaskOffsets.tasks o) = Some link -> link <> head ->
    LinuxTaskOffsets.tasks o <= link ->
    task_list head (link - LinuxTaskOffsets.tasks o) tasks ps ->
    task_list head task (task :: tasks) (p :: ps).

Context (Hlen : 0 < LinuxTaskOffsets.comm_length o <= 4096).

Lemma reads_process task : in_u64 task -> run (read_process self task) (process_at task).
Proof.
  intros Htask. unfold read_process. eapply reads_iff.
  { eapply reads_bind; [apply reads_checked_add|intros pa [Hpa ?]].
    eapply reads_bind; [apply reads_le; [unfold in_width in *; lia|by vm_compute]|intros pid _].
    eapply reads_bind; [apply reads_checked_add|intros ca [Hca ?]].
    eapply reads_bind; [apply reads_virtual; [unfold in_width in *; lia|lia]|intros bs [Hbs _]].
    eapply reads_bind; [apply reads_decode|intros command _].
    - pose proof (length_until_nul bs). apply bytes_at_bounds in Hbs as [_ Hz]; [|lia].
      unfold zlen, isize_max in *. lia.
    - apply reads_ret. }
  intros p. unfold process_at. split.
  - intros (pa & [-> _] & pid & Hp & ca & [-> _] & bs & [Hbs _] & command & -> & <-).
    cbn. split; [done|]. split; [done|]. by exists bs.
  - intros (Ht & Hp & bs & Hbs & Hc). pose proof (int_bounds _ _ _ Hp ltac:(lia)).
    destruct (bytes_at_bounds _ _ _ Hbs ltac:(lia)). eexists. split; [split; [done|lia]|].
    eexists. split; [done|]. eexists. split; [split; [done|lia]|].
    exists bs. split; [split; [done|unfold isize_max; lia]|]. eexists. split; [done|].
    destruct p. cbn in *. by subst.
Qed.

Definition task_inv (ls : Z * gset Z * list LinuxProcess.t) : Prop :=
  let '(task, seen, output) := ls in
  in_u64 task /\ (forall x, x ∈ seen -> in_u64 x) /\ Z.of_nat (size seen) = zlen output /\
  zlen output < limit.

Definition task_round (head : Z) (ls : Z * gset Z * list LinuxProcess.t)
    (r : (Z * gset Z * list LinuxProcess.t) + list LinuxProcess.t) : Prop :=
  let '(task, seen, output) := ls in
  zlen output + 1 <= isize_max /\ (task ∉ seen) /\
  exists p link, process_at task p /\ int 8 (task + LinuxTaskOffsets.tasks o) = Some link /\
    ((link = head /\ r = inr (output ++ [p])) \/
     (link <> head /\ zlen output + 1 < limit /\ LinuxTaskOffsets.tasks o <= link /\
      r = inl (link - LinuxTaskOffsets.tasks o, {[task]} ∪ seen, output ++ [p]))).

Definition task_rest (head : Z) (ls : Z * gset Z * list LinuxProcess.t) (out : list LinuxProcess.t) : Prop :=
  let '(task, seen, output) := ls in
  exists tasks ps, task_list head task tasks ps /\ NoDup tasks /\ (forall x, x ∈ tasks -> x ∉ seen) /\
    out = output ++ ps /\ zlen out <= limit /\ zlen out <= isize_max.

Lemma reads_processes_step head ls : task_inv ls -> run (processes_step self head limit ls) (task_round head ls).
Proof.
  destruct ls as [[task seen] output]. intros (Htask & Hseen & Hsize & Hlim).
  unfold processes_step, task_round. eapply reads_iff.
  { eapply reads_bind; [apply reads_reserve_one|intros ? _]. cbv beta.
    apply reads_if; intros _; [apply reads_fail|].
    eapply reads_bind; [apply reads_reserve_one|intros ? _].
    eapply reads_bind; [by apply reads_process|intros p _]. cbv zeta.
    eapply reads_bind; [apply reads_checked_add|intros la [Hla ?]].
    eapply reads_bind; [apply reads_le; [unfold in_width in *; lia|by vm_compute]|intros link _].
    apply reads_if; intros _; [apply reads_ret|].
    apply reads_if; intros _; [apply reads_fail|].
    eapply reads_bind; [apply reads_checked_sub|intros task' _]. apply reads_ret. }
  intros r. cbv beta. rewrite Hsize. case_bool_decide as Hin; [naive_solver|].
  split.
  - intros (_ & Hmax & _ & _ & p & Hp & la & [-> _] & link & Hlink & Hr).
    split; [done|]. split; [done|]. exists p, link. do 2 (split; [done|]).
    destruct (Z.eqb_spec link head); [by left|right].
    rewrite zlen_app in Hr. change (zlen [p]) with 1 in Hr.
    destruct (Z.leb_spec limit (zlen output + 1)); [done|].
    by destruct Hr as (task' & [-> ?] & <-).
  - intros (Hmax & _ & p & link & Hp & Hlink & Hr). pose proof (int_bounds _ _ _ Hlink ltac:(lia)).
    exists tt. split; [done|]. exists tt. split; [done|]. exists p. split; [done|].
    eexists. split; [split; [done|lia]|]. exists link. split; [done|].
    rewrite zlen_app. change (zlen [p]) with 1. destruct Hr as [[-> ->]|(Hne & Hl & Hle & ->)].
    + by rewrite Z.eqb_refl.
    + destruct (Z.eqb_spec link head); [done|].
      destruct (Z.leb_spec limit (zlen output + 1)); [lia|]. eauto.
Qed.

Lemma task_round_decreases head ls ls' : task_inv ls -> task_round head ls (inl ls') ->
  task_inv ls' /\ 2 ^ 64 - Z.of_nat (size ls'.1.2) < 2 ^ 64 - Z.of_nat (size ls.1.2).
Proof.
  destruct ls as [[task seen] output]. intros (Htask & Hseen & Hsize & Hlim).
  intros (_ & Hin & p & link & _ & Hlink & [[_ [=]]|(_ & Hl & Hle & [= ->])]). cbn [fst snd].
  rewrite size_union, size_singleton by set_solver. split; [|lia].
  apply le_at_range in Hlink. split; [unfold in_width in *; lia|]. split; [set_solver|].
  rewrite size_union, size_singleton, zlen_app by set_solver. change (zlen [p]) with 1. lia.
Qed.

Lemma task_rest_unfold head ls out : task_inv ls ->
  task_rest head ls out <->
  task_round head ls (inr out) \/ exists ls', task_round head ls (inl ls') /\ task_rest head ls' out.
Proof.
  destruct ls as [[task seen] output]. intros (Htask & Hseen & Hsize & Hlim).
  unfold task_round, task_rest. split.
  - intros (tasks & ps & Hc & Hnd & Hdis & -> & Hl & Hm). rewrite zlen_app in Hl, Hm.
    inversion Hc as [? p Hp Hlink|? p link tasks' ps' Hp Hlink Hne Hle Hc']; subst.
    + left. change (zlen [p]) with 1 in Hm. split; [done|]. split; [apply Hdis; left|]. eauto 10.
    + right. rewrite zlen_cons in Hl, Hm. pose proof (zlen_nonneg ps').
      apply NoDup_cons in Hnd as [Hnin Hnd].
      assert (0 < zlen ps') by (destruct ps'; [inversion Hc'|unfold zlen; cbn; lia]).
      eexists. split.
      * split; [lia|]. split; [apply Hdis; left|]. exists p, link. do 2 (split; [done|]). right.
        split; [done|]. split; [lia|]. split; [done|]. reflexivity.
      * exists tasks', ps'. split; [done|]. split; [done|]. split; [set_solver|].
        rewrite <- app_assoc. split; [done|]. rewrite zlen_app. cbn [app]. rewrite zlen_cons. lia.
  - intros [(Hmax & Hin & p & link & Hp & Hlink & [[-> [= ->]]|(_ & _ & _ & [=])])|
            ([[task' seen'] output'] & (Hmax & Hin & p & link & Hp & Hlink & Hr) & Hrest)].
    + exists [task], [p]. split; [by constructor|]. split; [apply NoDup_singleton|].
      split; [by intros x ->%list_elem_of_singleton|]. split; [done|]. rewrite zlen_app.
      change (zlen [p]) with 1. lia.
    + destruct Hr as [[_ [=]]|(Hne & Hl & Hle & [= -> -> ->])].
      destruct Hrest as (tasks & ps & Hc & Hnd & Hdis & -> & Hbound).
      exists (task :: tasks), (p :: ps). split; [by econstructor|].
      split; [apply NoDup_cons; split; [|done]; intros Hx; apply (Hdis _ Hx); set_solver|].
      split; [set_solver|]. by rewrite <- app_assoc in *.
Qed.

Lemma reads_task_loop head init : in_u64 init -> 0 < limit ->
  run (loop_m u64_rounds (processes_step self head limit) (init, ∅, []))
    (fun ps => exists tasks, task_list head init tasks ps /\ NoDup tasks /\ zlen ps <= limit /\
                             zlen ps <= isize_max).
Proof.
  intros Hinit Hlimit. eapply reads_iff.
  { apply (reads_loop _ _ task_inv (fun ls => 2 ^ 64 - Z.of_nat (size ls.1.2))
      (task_round head) (task_rest head)).
    - intros [[n seen] output] (_ & Hseen & _). cbn [fst snd].
      pose proof (size_in_range seen (2 ^ 64) ltac:(lia) Hseen). lia.
    - apply reads_processes_step.
    - apply task_round_decreases.
    - intros. by apply task_rest_unfold.
    - split; [done|]. split; [set_solver|]. split; [done|]. rewrite zlen_nil. lia.
    - cbn [fst snd]. change (size (∅ : gset Z)) with 0%nat. unfold u64_rounds. lia. }
  intros ps. unfold task_rest. split.
  - intros (tasks & ps' & Hc & Hnd & _ & -> & Hb). by exists tasks.
  - intros (tasks & Hc & Hnd & Hb). exists tasks, ps. split; [done|]. split; [done|].
    split; [set_solver|]. done.
Qed.
End processes.
(** ** Modules *)

Section modules.
Context (offsets : LinuxModuleOffsets.t).
Context (Hname : in_u64 (LinuxModuleOffsets.name offsets))
  (Hbase : in_u64 (LinuxModuleOffsets.core_base offsets))
  (Hsize : in_u64 (LinuxModuleOffsets.core_size offsets))
  (Hlist : in_u64 (LinuxModuleOffsets.list_ offsets)).

(** The module a structure in guest memory describes. *)
Definition module_at (module : Z) (m : LinuxModule.t) : Prop :=
  LinuxModule.module m = Gva.new module /\
  (exists bs, bytes_at byte_at (module + LinuxModuleOffsets.name offsets)
      (LinuxModuleOffsets.name_length offsets) = Some bs /\
    LinuxModule.name m = text (until_nul bs)) /\
  int 8 (module + LinuxModuleOffsets.core_base offsets) = Some (Gva.raw (LinuxModule.core_base m)) /\
  int 8 (module + LinuxModuleOffsets.core_size offsets) = Some (LinuxModule.core_size m).

Definition module_entry (node module : Z) : Prop :=
  module = node - LinuxModuleOffsets.list_ offsets /\ LinuxModuleOffsets.list_ offsets <= node.

Context (Hlen : 0 < LinuxModuleOffsets.name_length offsets <= 4096).

Lemma reads_add a b what : run (add a b what) (fun v => v = a + b /\ v < 2 ^ 64).
Proof. apply reads_checked_add. Qed.

Lemma reads_module module : in_u64 module -> run (read_module module offsets) (module_at module).
Proof.
  intros Hmodule. unfold read_module. eapply reads_iff.
  { eapply reads_bind; [apply reads_add|intros na [Hna ?]].
    eapply reads_bind; [apply reads_virtual; [unfold in_width in *; lia|lia]|intros bs [Hbs _]].
    eapply reads_bind; [apply reads_decode|intros name _].
    { pose proof (length_until_nul bs). apply bytes_at_bounds in Hbs as [_ Hz]; [|lia].
      unfold zlen, isize_max in *. lia. }
    eapply reads_bind; [apply reads_add|intros ba [Hba ?]].
    eapply reads_bind; [apply reads_le; [unfold in_width in *; lia|by vm_compute]|intros base _].
    eapply reads_bind; [apply reads_add|intros sa [Hsa ?]].
    eapply reads_bind; [apply reads_le; [unfold in_width in *; lia|by vm_compute]|intros size_ _].
    apply reads_ret. }
  intros m. unfold module_at. split.
  - intros (na & [-> _] & bs & [Hbs _] & name & -> & ba & [-> _] & base & Hb & sa & [-> _] & size_ & Hs & <-).
    cbn. split; [done|]. split; [by exists bs|done].
  - intros (Hm & (bs & Hbs & Hn) & Hb & Hs).
    pose proof (int_bounds _ _ _ Hb ltac:(lia)). pose proof (int_bounds _ _ _ Hs ltac:(lia)).
    destruct (bytes_at_bounds _ _ _ Hbs ltac:(lia)).
    eexists. split; [split; [done|lia]|]. exists bs. split; [split; [done|unfold isize_max; lia]|].
    eexists. split; [done|]. eexists. split; [split; [done|lia]|]. eexists. split; [done|].
    eexists. split; [split; [done|lia]|]. eexists. split; [done|].
    destruct m as [? ? [] ?]. cbn in *. by subst.
Qed.

Lemma reads_module_walk limit head node : in_u64 node -> 1 <= limit ->
  run (walk_list (module_walk offsets limit) head limit node)
    (fun ms => exists nodes,
       circle head module_entry module_at (fun node n => int 8 node = Some n) node nodes ms /\
       NoDup nodes /\ zlen ms <= limit /\ zlen ms <= isize_max).
Proof.
  intros Hnode Hlimit. apply reads_walk_list; [| | | |done|done]; cbn [module_walk w_entry w_read w_next].
  - intros n _. apply reads_checked_sub.
  - intros n e Hn [-> ?]. apply reads_module. unfold in_width in *. lia.
  - intros n e Hn _. by apply reads_le.
  - intros n m Hm. by apply le_at_range in Hm.
Qed.
End modules.

(** ** Sockets *)

Section sockets.
Context (offsets : LinuxSocketOffsets.t).

(** Every field offset is a [u64]. *)
Definition socket_offsets_range : Prop :=
  Forall in_u64 [LinuxSocketOffsets.sock_family offsets; LinuxSocketOffsets.sock_protocol offsets;
    LinuxSocketOffsets.sock_state offsets; LinuxSocketOffsets.ipv4_source offsets;
    LinuxSocketOffsets.ipv4_destination offsets; LinuxSocketOffsets.ipv6_source offsets;
    LinuxSocketOffsets.ipv6_destination offsets; LinuxSocketOffsets.source_port offsets;
    LinuxSocketOffsets.destination_port offsets].

Context (Hrange : socket_offsets_range).

(** The socket a [struct sock] in guest memory describes: the family selects
    where and how long the addresses are, ports are in network order. *)
Definition sock_at (sock : Z) (s : LinuxSocket.t) : Prop :=
  let array n offset bs := bytes_at byte_at (sock + offset) n = Some bs in
  LinuxSocket.sock s = Gva.new sock /\
  int 2 (sock + LinuxSocketOffsets.sock_family offsets) = Some (LinuxSocket.family s) /\
  int 1 (sock + LinuxSocketOffsets.sock_protocol offsets) = Some (LinuxSocket.protocol s) /\
  int 1 (sock + LinuxSocketOffsets.sock_state offsets) = Some (LinuxSocket.state s) /\
  (exists source destination,
     (LinuxSocket.family s = 2 /\
      array 4 (LinuxSocketOffsets.ipv4_source offsets) source /\
      array 4 (LinuxSocketOffsets.ipv4_destination offsets) destination /\
      LinuxSocket.source s = V4 source /\ LinuxSocket.destination s = V4 destination) \/
     (LinuxSocket.family s = 10 /\
      array 16 (LinuxSocketOffsets.ipv6_source offsets) source /\
      array 16 (LinuxSocketOffsets.ipv6_destination offsets) destination /\
      LinuxSocket.source s = V6 source /\ LinuxSocket.destination s = V6 destination)) /\
  (exists bs, array 2 (LinuxSocketOffsets.source_port offsets) bs /\ LinuxSocket.source_port s = be_val bs) /\
  (exists bs, array 2 (LinuxSocketOffsets.destination_port offsets) bs /\
     LinuxSocket.destination_port s = be_val bs).

Lemma reads_array n a : in_u64 a -> Z.of_nat n <= isize_max ->
  run (read_array n a) (fun bs => bytes_at byte_at a (Z.of_nat n) = Some bs).
Proof.
  intros Ha Hn. eapply reads_iff; [eapply reads_bind; [by apply reads_virtual; [|lia]|]|].
  - intros bs _. apply reads_lift.
  - intros bs. cbn. split.
    + intros (bs' & [Hbs _] & Hv). destruct (Nat.eqb _ _); [|done]. by injection Hv as <-.
    + intros Hbs. exists bs. split; [done|]. apply bytes_at_length in Hbs. rewrite Nat2Z.id in Hbs.
      by rewrite Hbs, Nat.eqb_refl.
Qed.

Lemma reads_field n sock offset what : in_u64 sock -> in_u64 offset -> (0 < n)%nat -> Z.of_nat n <= 16 ->
  run (let? address := add sock offset what in read_array n address)
    (fun bs => bytes_at byte_at (sock + offset) (Z.of_nat n) = Some bs).
Proof.
  intros Hs Ho Hn Hmax. eapply reads_iff.
  { eapply reads_bind; [apply reads_add|intros a [Ha ?]].
    apply reads_array; [unfold in_width in *; lia|unfold isize_max; lia]. }
  intros bs. split.
  - by intros (a & [-> _] & Hbs).
  - intros Hbs. destruct (bytes_at_bounds _ _ _ Hbs ltac:(lia)). eexists. split; [split; [done|lia]|done].
Qed.

Lemma reads_int_field n sock offset what : in_u64 sock -> in_u64 offset -> (0 < n)%nat -> Z.of_nat n <= 16 ->
  run (let? address := add sock offset what in let? bytes := read_array n address in mret (le_val bytes))
    (fun v => int n (sock + offset) = Some v).
Proof.
  intros Hs Ho Hn Hmax. eapply reads_iff.
  { eapply reads_bind; [apply reads_add|intros a [Ha ?]].
    eapply reads_bind; [apply reads_array; [unfold in_width in *; lia|unfold isize_max; lia]|intros bs _].
    apply reads_ret. }
  intros v. unfold le_at. split.
  - intros (a & [-> _] & bs & -> & <-). done.
  - destruct (bytes_at _ _ _) as [bs|] eqn:Hbs; [|done]. intros [= <-].
    destruct (bytes_at_bounds _ _ _ Hbs ltac:(lia)). eexists. split; [split; [done|lia]|]. by exists bs.
Qed.
Lemma reads_decode_sock file socket sock : in_u64 sock ->
  run (decode_sock file socket (Gva.new sock) offsets)
    (fun s => LinuxSocket.file s = file /\ LinuxSocket.socket s = socket /\ sock_at sock s).
Proof.
  intros Hsock. unfold decode_sock. cbn [Gva.raw].
  pose proof Hrange as Hr. unfold socket_offsets_range in Hr. rewrite !Forall_cons in Hr.
  destruct Hr as (H1 & H2 & H3 & H4 & H5 & H6 & H7 & H8 & H9 & _).
  eapply reads_iff.
  { eapply reads_bind; [apply reads_int_field; (done || lia)|intros family _].
    eapply reads_bind; [apply reads_int_field; (done || lia)|intros protocol _].
    eapply reads_bind; [apply reads_int_field; (done || lia)|intros state _].
    eapply reads_bind_pair.
    { apply reads_if; intros _.
      - eapply reads_bind; [apply reads_field; (done || lia)|intros src _].
        eapply reads_bind; [apply reads_field; (done || lia)|intros dst _]. apply reads_ret.
      - apply reads_if; intros _; [|apply reads_fail].
        eapply reads_bind; [apply reads_field; (done || lia)|intros src _].
        eapply reads_bind; [apply reads_field; (done || lia)|intros dst _]. apply reads_ret. }
    intros source destination _.
    eapply reads_bind; [apply reads_field; (done || lia)|intros sp _].
    eapply reads_bind; [apply reads_field; (done || lia)|intros dp _]. apply reads_ret. }
  intros s. unfold sock_at. cbv beta. split.
  - intros (family & Hf & protocol & Hp & state & Hs & source & destination & Haddr & sp & Hsp & dp & Hdp & <-).
    cbn. do 2 (split; [done|]). split; [done|]. do 3 (split; [done|]). split; [|split; [by exists sp|by exists dp]].
    destruct (Z.eqb_spec family 2) as [->|]; [|destruct (Z.eqb_spec family 10) as [->|]; [|done]];
      destruct Haddr as (src & Hsrc & dst & Hdst & [= <- <-]); exists src, dst; [by left|by right].
  - intros (<- & <- & Hsk & Hf & Hp & Hs & (src & dst & Haddr) & (sp & Hsp & Hspv) & (dp & Hdp & Hdpv)).
    eexists. split; [done|]. eexists. split; [done|]. eexists. split; [done|].
    exists (LinuxSocket.source s), (LinuxSocket.destination s). split.
    + destruct Haddr as [(-> & Hsrc & Hdst & -> & ->)|(-> & Hsrc & Hdst & -> & ->)]; cbn;
        exists src; (split; [done|]); exists dst; done.
    + exists sp. split; [done|]. exists dp. split; [done|]. rewrite <- Hspv, <- Hdpv, <- Hsk.
      by destruct s.
Qed.
End sockets.
(** ** Socket lists *)

Section socket_list.
Context (list_offsets : LinuxSocketListOffsets.t) (offsets : LinuxSocketOffsets.t).
Context (Hnext : in_u64 (LinuxSocketListOffsets.node_next list_offsets))
  (Hsock : in_u64 (LinuxSocketListOffsets.node_sock list_offsets))
  (Hrange : socket_offsets_range offsets).

Definition socket_entry (node sock : Z) : Prop :=
  int 8 (node + LinuxSocketListOffsets.node_sock list_offsets) = Some sock /\ sock <> 0.

(** A socket met in a list: the walk knows neither its file nor its socket. *)
Definition listed_socket (sock : Z) (s : LinuxSocket.t) : Prop :=
  LinuxSocket.file s = Gva.new 0 /\ LinuxSocket.socket s = Gva.new 0 /\ sock_at offsets sock s.

Lemma reads_pointer base offset what : in_u64 base -> in_u64 offset ->
  run (let? address := add base offset what in read_u64 address)
    (fun v => int 8 (base + offset) = Some v).
Proof.
  intros Hb Ho. eapply reads_iff.
  { eapply reads_bind; [apply reads_add|intros a [Ha ?]].
    apply reads_le; [unfold in_width in *; lia|by vm_compute]. }
  intros v. split; [by intros (a & [-> _] & Hv)|]. intros Hv.
  pose proof (int_bounds _ _ _ Hv ltac:(lia)). eexists. split; [split; [done|lia]|done].
Qed.

Lemma reads_socket_walk limit head node : in_u64 node -> 1 <= limit ->
  run (walk_list (socket_walk list_offsets offsets limit) head limit node)
    (fun ss => exists nodes,
       circle head socket_entry listed_socket
         (fun node n => int 8 (node + LinuxSocketListOffsets.node_next list_offsets) = Some n) node nodes ss /\
       NoDup nodes /\ zlen ss <= limit /\ zlen ss <= isize_max).
Proof.
  intros Hnode Hlimit. apply reads_walk_list; [| | | |done|done]; cbn [socket_walk w_entry w_read w_next].
  - intros n Hn. eapply reads_iff.
    { eapply reads_bind; [apply reads_add|intros a [Ha ?]].
      eapply reads_bind; [apply reads_le; [unfold in_width in *; lia|by vm_compute]|intros sock _].
      apply reads_if; intros _; [apply reads_fail|apply reads_ret]. }
    intros sock. unfold socket_entry. split.
    + intros (a & [-> _] & v & Hv & Hif). destruct (Z.eqb_spec v 0); [done|]. by subst.
    + intros [Hv Hne]. pose proof (int_bounds _ _ _ Hv ltac:(lia)).
      eexists. split; [split; [done|lia]|]. exists sock. split; [done|].
      by destruct (Z.eqb_spec sock 0).
  - intros n e Hn [He _]. apply reads_decode_sock; [done|]. by apply le_at_range in He.
  - intros n e Hn _. by apply reads_pointer.
  - intros n m Hm. by apply le_at_range in Hm.
Qed.
End socket_list.
End facts.

(** The fields of the introspector that are [u64] or [usize]. *)
Definition linux_widths (self : LinuxIntrospector.t) : Prop :=
  in_u64 (LinuxTaskOffsets.comm_length (offsets self)) /\ in_u64 (LinuxTaskOffsets.tasks (offsets self)) /\
  in_u64 (LinuxTaskOffsets.pid (offsets self)) /\ in_u64 (LinuxTaskOffsets.comm (offsets self)) /\
  forall s, SymbolTable.symbol (profile self) "init_task" = Some s -> in_u64 (Symbol.address s).

(** The limit and the name length are valid, the profile has [init_task], and
    the tasks linked from it come back to its link without repeating a task
    and within the limit; [ps] is the process each of them describes. *)
Definition linux_processes_described (byte_at : Z -> option byte) (self : LinuxIntrospector.t) (limit : Z)
    (ps : list LinuxProcess.t) : Prop :=
  0 < limit /\ 0 < LinuxTaskOffsets.comm_length (offsets self) <= 4096 /\
  exists symbol tasks,
    SymbolTable.symbol (profile self) "init_task" = Some symbol /\
    task_list (byte_at := byte_at) self
      (Symbol.address symbol + LinuxTaskOffsets.tasks (offsets self)) (Symbol.address symbol) tasks ps /\
    NoDup tasks /\ zlen ps <= limit /\ zlen ps <= isize_max.

Lemma reads_processes {St} `{Allocator, !Guest St} (byte_at : Z -> option byte)
    (I : St -> Prop) `{!GuestMemory byte_at I} (self : LinuxIntrospector.t) (limit : Z) :
  in_u64 limit -> linux_widths self ->
  reads (I := I) (processes self limit) (linux_processes_described byte_at self limit).
Proof.
  intros Hlimit (Hlength & Htasks & Hpid & Hcomm & Hsym). unfold linux_processes_described, processes.
  unfold in_width in Hlimit, Hlength.
  destruct ((limit =? 0) || (LinuxTaskOffsets.comm_length (offsets self) =? 0)
    || (4096 <? LinuxTaskOffsets.comm_length (offsets self))) eqn:Hguard.
  { eapply reads_iff; [apply reads_fail|]. intros ps. split; [done|]. intros (? & ? & _). exfalso. lia. }
  assert (Hok : 0 < limit /\ 0 < LinuxTaskOffsets.comm_length (offsets self) <= 4096) by lia.
  destruct Hok as [Hl Hc]. eapply reads_iff.
  { eapply reads_bind; [apply reads_option|intros symbol Hsymbol]. cbv zeta.
    eapply reads_bind; [apply reads_checked_add|intros head _].
    apply reads_task_loop; [done..|by apply Hsym|done]. }
  intros ps. cbv beta. split.
  - intros (symbol & Hs & head & [-> _] & tasks & Hrest). do 2 (split; [done|]). by exists symbol, tasks.
  - intros (_ & _ & symbol & tasks & Hs & Ht & Hrest). exists symbol. split; [done|].
    eexists. split; [|by exists tasks]. split; [done|].
    assert (Hlink : exists v, le_at (byte_at := byte_at) 8
      (Symbol.address symbol + LinuxTaskOffsets.tasks (offsets self)) = Some v)
      by (inversion Ht; eauto).
    destruct Hlink as [v Hv]. apply int_bounds in Hv; lia.
Qed.

(** Listing the processes of a Linux guest is exact.  It succeeds, when
    memory is available, exactly when the limit and the name length are
    valid, the profile has [init_task], and the tasks linked from it come
    back to its link without repeating a task and within the limit; it then
    returns, in list order, the process each task structure describes, its
    name decoded up to the first NUL.  On every memory image the traversal
    ends, and leaves the session's state as reads may. *)
Theorem linux_processes_exact {St} `{Allocator, !Guest St} (byte_at : Z -> option byte)
    (I : St -> Prop) `{!GuestMemory byte_at I} (self : LinuxIntrospector.t) (limit : Z)
    (Hlimit : in_u64 limit) (Hself : linux_widths self) :
  reads (I := I) (processes self limit) (linux_processes_described byte_at self limit).
Proof. by apply reads_processes. Qed.

(** Two tasks in a guest with AMD64 page tables. *)
Definition linux_memory : list (Z * list byte) :=
  [(0x1000, le_bytes 8 0x2001); (0x2000, le_bytes 8 0x3001); (0x3000, le_bytes 8 0x4001);
   (0x4000, le_bytes 8 0x5001 ++ le_bytes 8 0x7001);
   (0x5100, le_bytes 8 0x1200 ++ le_bytes 4 0 ++ [x69; x6e; x69; x74]);
   (0x7200, le_bytes 8 0x100 ++ le_bytes 4 77 ++ [x73; x68; x00; x78])].

Definition linux_state : VmiSession.state (list (Z * list byte)) :=
  VmiSession.mk_state linux_memory (mutex_new (TranslationCache.mk 4096 ∅ [])).

Definition linux_example : LinuxIntrospector.t :=
  LinuxIntrospector.new
    (SymbolTable.mk {["init_task"%string := Symbol.mk "init_task" 0x100 None]} ∅)
    (LinuxTaskOffsets.mk 0 8 12 4).

Lemma linux_processes_exact_witness :
  exists st, @processes _ ample_allocator
    (@session_guest ample_allocator _ example_session (@Amd64.Amd64Translator ample_allocator)
       (TranslationRoot.new 0x1000)) linux_example 10 linux_state
  = (Ok [LinuxProcess.mk (Gva.new 0x100) 0 "init"; LinuxProcess.mk (Gva.new 0x1200) 77 "sh"], st).
Proof.
  assert (Hready : ready patched_memory (@Amd64.Amd64Translator ample_allocator) linux_state).
  { apply (@attach_ready ample_allocator _ example_session patched_memory
      (@Amd64.Amd64Translator ample_allocator)
      {| descriptor := example_descriptor; connect := fun _ => Ok (example_session, linux_memory) |}
      (AttachRequest.any 0)). vm_compute. reflexivity. }
  pose proof (@session_guest_memory ample_allocator _ example_session patched_memory
    (@Amd64.Amd64Translator ample_allocator) _ (read_into patched_memory linux_memory)
    (patched_byte linux_memory) (memory_of_bytes _) (TranslationRoot.new 0x1000) eq_refl) as Hguest.
  pose proof (@linux_processes_exact _ ample_allocator _ _ _ Hguest linux_example 10
    ltac:(width_const)) as Hall.
  destruct (processes linux_example 10 linux_state) as [r st] eqn:E.
  specialize (Hall ltac:(do 4 (split; [width_const|]); intros s [= <-]; width_const) linux_state (conj Hready eq_refl)).
  rewrite E in Hall. destruct Hall as (_ & _ & Hall). exists st. f_equal.
  apply Hall; [apply ample_ample|]. split; [reflexivity|]. split; [vm_compute; intuition discriminate|].
  exists (Symbol.mk "init_task" 0x100 None), [0x100; 0x1200]. split; [reflexivity|].
  split; [|split; [|split; vm_compute; discriminate]].
  - eapply (task_more linux_example 0x100 0x100 _ 0x1200); [|vm_compute; reflexivity|discriminate|discriminate|].
    + split; [reflexivity|]. split; [vm_compute; reflexivity|]. eexists. split; vm_compute; reflexivity.
    + eapply task_last; [|vm_compute; reflexivity].
      split; [reflexivity|]. split; [vm_compute; reflexivity|]. eexists. split; vm_compute; reflexivity.
  - apply (bool_decide_unpack _). vm_compute. exact Logic.I.
Defined.

(** Listing kernel modules is exact.  It succeeds, when memory is
    available, exactly when the limit and the name length are valid, the
    profile has [modules], and the list nodes starting there come back to it
    without a repetition and within the limit; it returns, in list order,
    the module around each node, with its name up to the first NUL, its base
    and its size. *)
Theorem linux_modules_exact {St} `{Allocator, !Guest St} (byte_at : Z -> option byte)
    (I : St -> Prop) `{!GuestMemory byte_at I} (self : LinuxIntrospector.t)
    (offsets : LinuxModuleOffsets.t) (limit : Z)
    (Hlimit : in_u64 limit) (Hlength : in_u64 (LinuxModuleOffsets.name_length offsets))
    (Hoffsets : Forall in_u64 [LinuxModuleOffsets.name offsets; LinuxModuleOffsets.core_base offsets;
       LinuxModuleOffsets.core_size offsets; LinuxModuleOffsets.list_ offsets])
    (Hsym : forall s, SymbolTable.symbol (profile self) "modules" = Some s -> in_u64 (Symbol.address s)) :
  reads (I := I) (modules self offsets limit) (fun ms =>
    0 < limit /\ 0 < LinuxModuleOffsets.name_length offsets <= 4096 /\
    exists symbol first nodes,
      SymbolTable.symbol (profile self) "modules" = Some symbol /\
      le_at (byte_at := byte_at) 8 (Symbol.address symbol) = Some first /\
      circle (Symbol.address symbol) (module_entry offsets) (module_at (byte_at := byte_at) offsets)
        (fun node next => le_at (byte_at := byte_at) 8 node = Some next) first nodes ms /\
      NoDup nodes /\ zlen ms <= limit /\ zlen ms <= isize_max).
Proof.
  unfold modules. unfold in_width in Hlimit, Hlength. rewrite !Forall_cons in Hoffsets.
  destruct Hoffsets as (? & ? & ? & ? & _).
  destruct ((limit =? 0) || (LinuxModuleOffsets.name_length offsets =? 0)
    || (4096 <? LinuxModuleOffsets.name_length offsets)) eqn:Hguard.
  { eapply reads_iff; [apply reads_fail|]. intros ms. split; [done|]. intros (? & ? & _). exfalso. lia. }
  assert (Hok : 0 < limit /\ 0 < LinuxModuleOffsets.name_length offsets <= 4096) by lia.
  destruct Hok as [Hl Hc]. eapply reads_iff.
  { eapply reads_bind; [apply reads_option|intros symbol Hsymbol]. cbv zeta.
    eapply reads_bind; [apply reads_le; [by apply Hsym|by vm_compute]|intros node Hnode].
    apply reads_module_walk; [done..|by apply le_at_range in Hnode|lia]. }
  intros ms. cbv beta. split.
  - intros (symbol & Hs & node & Hn & nodes & Hrest). do 2 (split; [done|]). by exists symbol, node, nodes.
  - intros (_ & _ & symbol & node & nodes & Hs & Hn & Hrest). exists symbol. split; [done|].
    exists node. split; [done|]. by exists nodes.
Qed.

Definition module_memory : list (Z * list byte) :=
  [(0x100, le_bytes 8 0x200);
   (0x200, le_bytes 8 0x100 ++ [x65; x78; x74; x34] ++ le_bytes 8 0xffffffffc0000000 ++ le_bytes 8 0x9000)].

Lemma linux_modules_exact_witness :
  exists st, @modules _ ample_allocator (flat_guest (patched_byte module_memory))
    (LinuxIntrospector.new (SymbolTable.mk {["modules"%string := Symbol.mk "modules" 0x100 None]} ∅)
       (LinuxTaskOffsets.mk 0 0 0 0))
    (LinuxModuleOffsets.mk 0 8 4 12 20) 5 tt
  = (Ok [LinuxModule.mk (Gva.new 0x200) "ext4" (Gva.new 0xffffffffc0000000) 0x9000], st).
Proof.
  pose proof (flat_guest_memory (patched_byte module_memory)) as Hguest. exists tt.
  pose proof (@linux_modules_exact _ ample_allocator _ _ _ Hguest
    (LinuxIntrospector.new (SymbolTable.mk {["modules"%string := Symbol.mk "modules" 0x100 None]} ∅)
       (LinuxTaskOffsets.mk 0 0 0 0))
    (LinuxModuleOffsets.mk 0 8 4 12 20) 5 ltac:(width_const) ltac:(width_const)
    ltac:(repeat constructor; vm_compute; intuition discriminate)
    ltac:(intros s [= <-]; width_const) tt Logic.I) as Hall.
  destruct (modules _ _ _ tt) as [r []]. destruct Hall as (_ & _ & Hall). f_equal.
  apply Hall; [apply ample_ample|]. split; [reflexivity|]. split; [vm_compute; intuition discriminate|].
  exists (Symbol.mk "modules" 0x100 None), 0x200, [0x200]. do 2 (split; [vm_compute; reflexivity|]).
  split; [|split; [apply NoDup_singleton|split; vm_compute; discriminate]].
  eapply (circle_node _ _ _ _ 0x200 0x200 _ 0x100); [discriminate|by split|
    |vm_compute; reflexivity|apply circle_head].
  split; [reflexivity|]. split; [eexists; split; vm_compute; reflexivity|].
  split; vm_compute; reflexivity.
Defined.

(** C22: listing sockets is exact.  A socket list succeeds, when memory is
    available, exactly when head and limit are non-zero, the nodes from the
    head's link come back to the head without a repetition and within the
    limit, and every node has a socket that decodes: an IPv4 or IPv6 one by
    its family, the addresses at their family's offsets, the ports in
    network byte order. *)
Theorem linux_socket_list_exact {St} `{Allocator, !Guest St} (byte_at : Z -> option byte)
    (I : St -> Prop) `{!GuestMemory byte_at I} (head limit : Z)
    (list_offsets : LinuxSocketListOffsets.t) (offsets : LinuxSocketOffsets.t)
    (Hhead : in_u64 head) (Hlimit : in_u64 limit)
    (Hnext : in_u64 (LinuxSocketListOffsets.node_next list_offsets))
    (Hsock : in_u64 (LinuxSocketListOffsets.node_sock list_offsets))
    (Hrange : socket_offsets_range offsets) :
  reads (I := I) (sockets_from_list (Gva.new head) list_offsets offsets limit) (fun ss =>
    head <> 0 /\ 0 < limit /\ exists first nodes,
      le_at (byte_at := byte_at) 8 head = Some first /\
      circle head (socket_entry (byte_at := byte_at) list_offsets)
        (listed_socket (byte_at := byte_at) offsets)
        (fun node next => le_at (byte_at := byte_at) 8
           (node + LinuxSocketListOffsets.node_next list_offsets) = Some next) first nodes ss /\
      NoDup nodes /\ zlen ss <= limit /\ zlen ss <= isize_max).
Proof.
  unfold sockets_from_list. cbn [Gva.raw]. unfold in_width in Hlimit.
  destruct ((head =? 0) || (limit =? 0)) eqn:Hguard.
  { eapply reads_iff; [apply reads_fail|]. intros ms. split; [done|]. intros (? & ? & _). exfalso. lia. }
  assert (Hok : head <> 0 /\ 0 < limit) by lia. destruct Hok as [Hh Hl]. eapply reads_iff.
  { eapply reads_bind; [apply reads_le; [done|by vm_compute]|intros node Hnode].
    apply reads_socket_walk; [done..|by apply le_at_range in Hnode|lia]. }
  intros ss. cbv beta. split.
  - intros (node & Hn & nodes & Hrest). do 2 (split; [done|]). by exists node, nodes.
  - intros (_ & _ & node & nodes & Hn & Hrest). exists node. split; [done|]. by exists nodes.
Qed.

Definition socket_memory : list (Z * list byte) :=
  [(0x100, le_bytes 8 0x200); (0x200, le_bytes 8 0x100 ++ le_bytes 8 0x300);
   (0x300, le_bytes 2 2 ++ [x06; x01; x7f; x00; x00; x01; x0a; x00; x00; x02; x1f; x90; x00; x50])].

Lemma linux_socket_list_exact_witness :
  exists st, @sockets_from_list _ ample_allocator (flat_guest (patched_byte socket_memory))
    (Gva.new 0x100) (LinuxSocketListOffsets.mk 0 8) (LinuxSocketOffsets.mk 0 0 0 2 3 4 8 4 8 12 14) 4 tt
  = (Ok [LinuxSocket.mk (Gva.new 0) (Gva.new 0) (Gva.new 0x300) 2 6 1
           (V4 [x7f; x00; x00; x01]) 8080 (V4 [x0a; x00; x00; x02]) 80], st).
Proof.
  pose proof (flat_guest_memory (patched_byte socket_memory)) as Hguest. exists tt.
  pose proof (@linux_socket_list_exact _ ample_allocator _ _ _ Hguest 0x100 4
    (LinuxSocketListOffsets.mk 0 8) (LinuxSocketOffsets.mk 0 0 0 2 3 4 8 4 8 12 14)
    ltac:(width_const) ltac:(width_const) ltac:(width_const) ltac:(width_const)
    ltac:(repeat constructor; vm_compute; intuition discriminate) tt Logic.I) as Hall.
  destruct (sockets_from_list _ _ _ _ tt) as [r []]. destruct Hall as (_ & _ & Hall). f_equal.
  apply Hall; [apply ample_ample|]. split; [discriminate|]. split; [reflexivity|].
  exists 0x200, [0x200]. split; [vm_compute; reflexivity|].
  split; [|split; [apply NoDup_singleton|split; vm_compute; discriminate]].
  eapply (circle_node _ _ _ _ 0x200 0x300 _ 0x100);
    [discriminate|split; [vm_compute; reflexivity|discriminate]|
    |vm_compute; reflexivity|apply circle_head].
  split; [reflexivity|]. split; [reflexivity|]. split; [reflexivity|].
  do 3 (split; [vm_compute; reflexivity|]). split.
  - eexists _, _. left. repeat split; vm_compute; reflexivity.
  - split; eexists; split; vm_compute; reflexivity.
Defined.
