(* ===== verification/LinuxPathFacts.v ===== *)
(** * What Linux paths are ([crates/vmi-os-linux])

    The path of a dentry is the chain of its ancestors' names, read from
    guest memory up to the first that is its own parent, or no path at all. *)

From S2P Require Import Prelude.
From S2P Require Import Types.
From S2P Require Import DriverApi.
From S2P Require Import Text.
From S2P Require Import TextFacts.
From S2P Require Import Guest.
From S2P Require Import GuestFacts.
From S2P Require Import Linux.

Import LinuxIntrospector.

(** ** Joining names *)

(** The names one below the other, from the root. *)
Definition slashed (names : list string) : string := foldr (fun name rest => "/" +:+ name +:+ rest) ""%string names.

Definition absolute_path (names : list string) : string :=
  match names with [] => "/"%string | _ => slashed names end.

Definition text_bytes (names : list string) : Z := foldr (fun name n => Z.of_nat (String.length name) + n) 0 names.

Lemma slen_app a b : Z.of_nat (String.length (a +:+ b)) = Z.of_nat (String.length a) + Z.of_nat (String.length b).
Proof.
  induction a as [|c a IH]; [done|]. change (String.String c a +:+ b) with (String.String c (a +:+ b)).
  cbn [String.length]. lia.
Qed.

Lemma text_bytes_nonneg names : 0 <= text_bytes names.
Proof. induction names as [|name names IH]; [done|]. unfold text_bytes in *. cbn [foldr]. lia. Qed.

Lemma slen_slashed names : Z.of_nat (String.length (slashed names)) = zlen names + text_bytes names.
Proof.
  induction names as [|name names IH]; [done|]. cbn [slashed foldr text_bytes]. rewrite !slen_app, zlen_cons.
  fold (slashed names). rewrite IH. cbn [String.length]. fold (text_bytes names). lia.
Qed.

Lemma joined_length_spec what names n : 0 <= n < 2 ^ 64 ->
  match joined_length what names n with
  | Ok m => m = n + text_bytes names
  | Err _ => 2 ^ 64 <= n + text_bytes names
  end.
Proof.
  revert n. induction names as [|name names IH]; intros n Hn; cbn [joined_length text_bytes foldr]; [lia|].
  fold (text_bytes names). unfold checked_add. pose proof (text_bytes_nonneg names).
  destruct (Z.ltb_spec (n + Z.of_nat (String.length name)) (2 ^ 64)); cbn [ok_or mbind result_bind]; [|lia].
  specialize (IH (n + Z.of_nat (String.length name)) ltac:(lia)). destruct (joined_length _ _ _); lia.
Qed.

Lemma push_components_later names path index : 0 < index ->
  push_components index names path = path +:+ slashed names.
Proof.
  revert path index. induction names as [|name names IH]; intros path index Hi; cbn [push_components].
  - by rewrite string_app_nil_r.
  - rewrite (proj2 (Z.eqb_neq index 0)), IH by lia. cbn [slashed foldr]. by rewrite !string_app_assoc.
Qed.

Lemma push_components_path names : push_components 0 names "/" = absolute_path names.
Proof.
  destruct names as [|name names]; [done|]. cbn [push_components Z.eqb].
  rewrite push_components_later by lia. cbn [absolute_path slashed foldr]. by rewrite string_app_assoc.
Qed.

Lemma slen_absolute_path names :
  Z.of_nat (String.length (absolute_path names)) = 1 + saturating_sub (zlen names) 1 + text_bytes names.
Proof.
  unfold saturating_sub. destruct names as [|name names]; [done|]. cbn [absolute_path]. rewrite slen_slashed, zlen_cons.
  pose proof (zlen_nonneg names). lia.
Qed.

Section facts.
Context {St : Type} `{Allocator, !Guest St} {byte_at : Z -> option byte} {I : St -> Prop}.
Context `{!GuestMemory byte_at I}.

Abbreviation int n a := (le_at (byte_at := byte_at) n a).
Abbreviation run m P := (reads (I := I) m P).

Lemma reads_join names what : zlen names <= isize_max ->
  run (lift (join_absolute_path names what))
    (fun path => path = absolute_path names /\ Z.of_nat (String.length path) <= isize_max).
Proof.
  intros Hn st Hst. cbn. split; [done|]. unfold join_absolute_path.
  assert (Hsep : 1 + saturating_sub (zlen names) 1 < 2 ^ 64) by (unfold saturating_sub, isize_max in *; lia).
  rewrite checked_add_fits by done. cbn [ok_or mbind result_bind].
  pose proof (slen_absolute_path names) as Hlen.
  pose proof (joined_length_spec what names (1 + saturating_sub (zlen names) 1)
    ltac:(unfold saturating_sub in *; lia)) as Hj.
  destruct (joined_length _ _ _) as [m|e]; cbn [mbind result_bind].
  - subst m. rewrite <- Hlen. unfold try_reserve. rewrite push_components_path.
    destruct (alloc_ok what _) eqn:Ea; cbn; split.
    + intros path [= <-]. split; [done|].
      destruct (Z.le_gt_cases (Z.of_nat (String.length (absolute_path names))) isize_max); [done|].
      by rewrite alloc_limit in Ea.
    + by intros _ path [-> _].
    + done.
    + intros Hample path [-> Hmax]. by rewrite Hample in Ea.
  - split; [done|]. intros _ path [-> Hmax]. unfold isize_max in *. lia.
Qed.
(** ** The name of a dentry *)

Section names.
Context (name_offset length_offset pointer_offset maximum : Z).
Context (Hname : in_u64 name_offset) (Hlength : in_u64 length_offset) (Hpointer : in_u64 pointer_offset).

(** The length and the pointer of a [qstr]; only an empty name may have
    none. *)
Definition qstr_at (dentry length pointer : Z) : Prop :=
  int 4 (dentry + name_offset + length_offset) = Some length /\ length <= maximum /\
  int 8 (dentry + name_offset + pointer_offset) = Some pointer /\ (length = 0 \/ pointer <> 0).

Lemma reads_qstr dentry : in_u64 dentry ->
  run (read_qstr dentry name_offset length_offset pointer_offset maximum)
    (fun lp => qstr_at dentry (fst lp) (snd lp)).
Proof.
  intros Hd. unfold read_qstr, add. eapply reads_iff.
  { eapply reads_bind; [apply reads_checked_add|intros qstr [Hq ?]].
    eapply reads_bind; [apply reads_checked_add|intros la [Hla ?]].
    eapply reads_bind; [apply reads_le; [unfold in_width in *; lia|by vm_compute]|intros length _].
    apply reads_if; intros _; [apply reads_fail|].
    eapply reads_bind; [apply reads_checked_add|intros pa [Hpa ?]].
    eapply reads_bind; [apply reads_le; [unfold in_width in *; lia|by vm_compute]|intros pointer _].
    apply reads_if; intros _; [apply reads_fail|apply reads_ret]. }
  intros [l p]. unfold qstr_at. cbn [fst snd]. split.
  - intros (qstr & [-> _] & la & [-> _] & length & Hl & Hr). destruct (Z.ltb_spec maximum length); [done|].
    destruct Hr as (pa & [-> _] & pointer & Hp & Hr).
    destruct (Z.eqb_spec length 0), (Z.eqb_spec pointer 0); cbn [negb andb] in Hr; try done;
      injection Hr as <- <-; auto.
  - intros (Hl & Hmax & Hp & Hnull). unfold in_width in *. pose proof (int_bounds _ _ _ Hl ltac:(lia)).
    pose proof (int_bounds _ _ _ Hp ltac:(lia)). eexists. split; [split; [done|lia]|].
    eexists. split; [split; [done|lia]|]. exists l. split; [done|].
    rewrite (proj2 (Z.ltb_ge maximum l)) by lia. eexists. split; [split; [done|lia]|]. exists p. split; [done|].
    by destruct (Z.eqb_spec l 0), (Z.eqb_spec p 0), Hnull; cbn [negb andb].
Qed.

Lemma qstr_range dentry length pointer : qstr_at dentry length pointer -> in_u32 length /\ in_u64 pointer.
Proof. intros (Hl & _ & Hp & _). apply le_at_range in Hl, Hp. by split. Qed.
End names.
(** ** The ancestors of a dentry *)

Section ancestry.
Context (offsets : LinuxDentryOffsets.t) (limit : Z).
Abbreviation maximum := (LinuxDentryOffsets.maximum_name_bytes offsets).

Definition dentry_offsets_range : Prop :=
  Forall in_u64 [LinuxDentryOffsets.name offsets; LinuxDentryOffsets.qstr_length offsets;
    LinuxDentryOffsets.qstr_name offsets; LinuxDentryOffsets.parent offsets].

(** The component a dentry adds to a path: none for an empty name and for
    the root's. *)
Definition component (length pointer : Z) (names : list string) : Prop :=
  if length =? 0 then names = []
  else exists bs, bytes_at byte_at pointer length = Some bs /\
    names = if bool_decide (text bs <> "/"%string) then [text bs] else [].

Definition component_of (dentry : Z) (names : list string) : Prop :=
  exists length pointer, qstr_at (LinuxDentryOffsets.name offsets) (LinuxDentryOffsets.qstr_length offsets)
    (LinuxDentryOffsets.qstr_name offsets) maximum dentry length pointer /\ component length pointer names.

Abbreviation parent_is d p := (int 8 (d + LinuxDentryOffsets.parent offsets) = Some p).

(** A dentry and its ancestors up to the first that is its own parent, the
    components of those below that one, innermost first, and its own. *)
Inductive ancestry : Z -> list Z -> list string -> list string -> Prop :=
| ancestry_root d top : component_of d top -> parent_is d d -> d <> 0 -> ancestry d [d] [] top
| ancestry_child d names p ds below top :
    component_of d names -> parent_is d p -> p <> 0 -> p <> d -> ancestry p ds below top ->
    ancestry d (d :: ds) (names ++ below) top.

Context (Hrange : dentry_offsets_range) (Hmaximum : maximum <= 65536).

Lemma component_short length pointer names : component length pointer names -> zlen names <= 1.
Proof.
  unfold component. destruct (_ =? _); [by intros ->|]. intros (bs & _ & ->). by case_bool_decide.
Qed.

Lemma reads_component length pointer components : in_u32 length -> length <= maximum -> in_u64 pointer ->
  zlen components + 1 <= isize_max ->
  run ((if negb (length =? 0) then
         let? bytes := read_virtual (Gva.new pointer) length in
         let? name := lift (decode_guest_bytes bytes "Linux dentry name") in
         if bool_decide (name <> "/"%string) then
           let? _ := reserve_one (zlen components) "Linux dentry path" in
           mret (components ++ [name])
         else mret components
       else mret components) : stateful St VmiError.t (list string))
    (fun r => exists names, component length pointer names /\ r = components ++ names).
Proof.
  intros Hl Hmax Hp Hc. unfold component. destruct (Z.eqb_spec length 0) as [->|Hne]; cbn [negb].
  { eapply reads_iff; [apply reads_ret|]. intros r. split.
    - intros <-. exists []. by rewrite app_nil_r.
    - intros (names & -> & ->). by rewrite app_nil_r. }
  unfold in_width in Hl. eapply reads_iff.
  { eapply reads_bind; [apply reads_virtual; [done|lia]|intros bs [Hbs _]].
    eapply reads_bind; [apply reads_decode|intros name _].
    { apply bytes_at_bounds in Hbs as [_ Hz]; [|lia]. unfold isize_max. lia. }
    apply reads_if; intros _; [|apply reads_ret].
    eapply reads_bind; [apply reads_reserve_one|intros ? _]. apply reads_ret. }
  intros r. split.
  - intros (bs & [Hbs _] & name & -> & Hr). eexists. split; [by exists bs|].
    case_bool_decide; [by destruct Hr as (_ & _ & <-)|by rewrite app_nil_r].
  - intros (names & (bs & Hbs & ->) & ->). exists bs. split; [split; [done|unfold isize_max; lia]|].
    exists (text bs). split; [done|]. case_bool_decide; [by exists tt|by rewrite app_nil_r].
Qed.

Definition dentry_inv (ls : Z * gset Z * list string) : Prop :=
  let '(d, seen, names) := ls in
  in_u64 d /\ (forall x, x ∈ seen -> in_u64 x) /\ zlen names <= Z.of_nat (size seen) /\ zlen names < limit.

Definition dentry_round (ls : Z * gset Z * list string) (r : (Z * gset Z * list string) + list string) : Prop :=
  let '(d, seen, names) := ls in
  Z.of_nat (size seen) + 1 <= isize_max /\ (d ∉ seen) /\
  exists more p, component_of d more /\ parent_is d p /\ p <> 0 /\
    ((p = d /\ r = inr (names ++ more)) \/
     (p <> d /\ zlen (names ++ more) < limit /\ r = inl (p, {[d]} ∪ seen, names ++ more))).

Definition dentry_rest (ls : Z * gset Z * list string) (out : list string) : Prop :=
  let '(d, seen, names) := ls in
  exists ds below top, ancestry d ds below top /\ NoDup ds /\ (forall x, x ∈ ds -> x ∉ seen) /\
    out = names ++ below ++ top /\ zlen (names ++ below) < limit /\
    Z.of_nat (size seen) + zlen ds <= isize_max.

Lemma reads_dentry_step ls : dentry_inv ls -> run (dentry_step offsets limit ls) (dentry_round ls).
Proof.
  destruct ls as [[d seen] names]. intros (Hd & Hseen & Hsize & Hlim).
  pose proof Hrange as Hr. unfold dentry_offsets_range in Hr. rewrite !Forall_cons in Hr.
  destruct Hr as (Hn & Hl & Hq & Hparent & _).
  unfold dentry_step, dentry_round, add. eapply reads_iff.
  { eapply reads_bind; [apply reads_reserve_one|intros ? Hsz]. cbv beta in Hsz.
    apply reads_if; intros _; [apply reads_fail|].
    eapply reads_bind_pair; [by apply reads_qstr|intros length pointer Hqstr]. cbn [fst snd] in Hqstr.
    pose proof (qstr_range _ _ _ _ _ _ _ Hqstr) as [Hl32 Hp64].
    eapply reads_bind.
    { apply (reads_component length pointer names); [done| |done|lia].
      by destruct Hqstr as (_ & ? & _). }
    intros comps _. eapply reads_bind; [apply reads_checked_add|intros pa [Hpa ?]].
    eapply reads_bind; [apply reads_le; [unfold in_width in *; lia|by vm_compute]|intros p _].
    apply reads_if; intros _; [apply reads_fail|].
    apply reads_if; intros _; [apply reads_ret|].
    apply reads_if; intros _; [apply reads_fail|apply reads_ret]. }
  intros r. cbv beta. case_bool_decide as Hin; [naive_solver|]. split.
  - intros (_ & Hsz & length & pointer & Hqstr & comps & (more & Hmore & ->) & pa & [-> _] & p & Hp & Hr).
    split; [done|]. split; [done|]. exists more, p. split; [by exists length, pointer|]. split; [done|].
    destruct (Z.eqb_spec p 0); [done|]. split; [done|].
    destruct (Z.eqb_spec p d); [by left|right]. destruct (Z.leb_spec limit (zlen (names ++ more))); [done|]. auto.
  - intros (Hsz & _ & more & p & (length & pointer & Hqstr & Hmore) & Hp & Hne & Hr).
    unfold in_width in Hparent. pose proof (int_bounds _ _ _ Hp ltac:(lia)). exists tt. split; [done|].
    exists length, pointer. split; [done|]. eexists. split; [by exists more|].
    eexists. split; [split; [done|lia]|]. exists p. split; [done|].
    destruct (Z.eqb_spec p 0); [done|]. destruct Hr as [[-> ->]|(Hpd & Hlt & ->)].
    + by rewrite Z.eqb_refl.
    + destruct (Z.eqb_spec p d); [done|]. by destruct (Z.leb_spec limit (zlen (names ++ more))); [lia|].
Qed.

Lemma dentry_round_decreases ls ls' : dentry_inv ls -> dentry_round ls (inl ls') ->
  dentry_inv ls' /\ 2 ^ 64 - Z.of_nat (size ls'.1.2) < 2 ^ 64 - Z.of_nat (size ls.1.2).
Proof.
  destruct ls as [[d seen] names]. intros (Hd & Hseen & Hsize & Hlim).
  intros (_ & Hin & more & p & (length & pointer & _ & Hmore) & Hp & _ & [[_ [=]]|(_ & Hl & [= ->])]). cbn [fst snd].
  apply component_short in Hmore. apply le_at_range in Hp.
  rewrite size_union, size_singleton by set_solver. split; [|lia].
  split; [done|]. split; [set_solver|]. rewrite size_union, size_singleton, zlen_app by set_solver.
  split; [lia|]. by rewrite <- zlen_app.
Qed.

Lemma dentry_rest_unfold ls out : dentry_inv ls ->
  dentry_rest ls out <->
  dentry_round ls (inr out) \/ exists ls', dentry_round ls (inl ls') /\ dentry_rest ls' out.
Proof.
  destruct ls as [[d seen] names]. intros (Hd & Hseen & Hsize & Hlim). unfold dentry_round, dentry_rest. split.
  - intros (ds & below & top & Hc & Hnd & Hdis & -> & Hl & Hm).
    inversion Hc as [? ? Htop Hp Hne|? more p ds' below' ? Hmore Hp Hne Hpd Hc']; subst.
    + left. change (zlen [d]) with 1 in Hm. split; [done|]. split; [apply Hdis; left|].
      exists top, d. do 3 (split; [done|]). by left.
    + right. rewrite zlen_cons in Hm. apply NoDup_cons in Hnd as [Hnin Hnd]. pose proof (zlen_nonneg ds').
      eexists. split.
      * split; [lia|]. split; [apply Hdis; left|]. exists more, p. do 3 (split; [done|]). right.
        split; [done|]. split; [|reflexivity]. rewrite !zlen_app in *. pose proof (zlen_nonneg below'). lia.
      * exists ds', below', top. split; [done|]. split; [done|]. split; [set_solver|].
        rewrite <- !app_assoc in *. split; [done|]. split; [done|].
        rewrite size_union, size_singleton by (apply disjoint_singleton_l, Hdis; left). lia.
  - intros [(Hsz & Hin & more & p & Hmore & Hp & Hne & [[-> [= ->]]|(_ & _ & [=])])|
            ([[p' seen'] names'] & (Hsz & Hin & more & p & Hmore & Hp & Hne & Hr) & Hrest)].
    + exists [d], [], more. split; [by constructor|]. split; [apply NoDup_singleton|].
      split; [by intros x ->%list_elem_of_singleton|]. rewrite app_nil_r. split; [done|]. split; [done|].
      change (zlen [d]) with 1. lia.
    + destruct Hr as [[_ [=]]|(Hpd & Hl & [= -> -> ->])].
      destruct Hrest as (ds & below & top & Hc & Hnd & Hdis & -> & Hb & Hm).
      exists (d :: ds), (more ++ below), top. split; [by econstructor|].
      split; [apply NoDup_cons; split; [|done]; intros Hx; apply (Hdis _ Hx); set_solver|].
      split; [set_solver|]. rewrite <- !app_assoc in *. split; [done|]. split; [done|].
      rewrite size_union, size_singleton in Hm by set_solver. rewrite zlen_cons. lia.
Qed.

Lemma dentry_inv_start d : in_u64 d -> 0 < limit -> dentry_inv (d, ∅, []).
Proof. intros Hd Hlimit. split; [done|]. split; [set_solver|]. split; [done|]. rewrite zlen_nil. lia. Qed.

Lemma dentry_inv_measure ls : dentry_inv ls -> 0 <= 2 ^ 64 - Z.of_nat (size ls.1.2).
Proof.
  destruct ls as [[n seen] output]. intros (_ & Hseen & _). cbn [fst snd].
  pose proof (size_in_range seen (2 ^ 64) ltac:(lia) Hseen). lia.
Qed.

Lemma dentry_loop_ends d st : in_u64 d -> 0 < limit -> I st ->
  exists r st', loop_runs (loop_m_step (dentry_step offsets limit)) ((d, ∅, []), st) (r, st') /\
    loop_m u64_rounds (dentry_step offsets limit) (d, ∅, []) st = (r, st').
Proof.
  intros Hd Hlimit Hst.
  destruct (reads_loop_ends (I := I) u64_rounds (dentry_step offsets limit) dentry_inv
    (fun ls => 2 ^ 64 - Z.of_nat (size ls.1.2)) dentry_round (d, ∅, []) st)
    as (r & st' & Hrun & Hw & _); [apply dentry_inv_measure|apply reads_dentry_step|apply dentry_round_decreases
    |by apply dentry_inv_start| |done|by exists r, st'].
  cbn [fst snd]. change (size (∅ : gset Z)) with 0%nat. unfold u64_rounds. lia.
Qed.

Lemma reads_dentry_loop d : in_u64 d -> 0 < limit ->
  run (loop_m u64_rounds (dentry_step offsets limit) (d, ∅, []))
    (fun names => exists ds below top, ancestry d ds below top /\ NoDup ds /\ names = below ++ top /\
       zlen below < limit /\ zlen ds <= isize_max).
Proof.
  intros Hd Hlimit. eapply reads_iff.
  { apply (reads_loop _ _ dentry_inv (fun ls => 2 ^ 64 - Z.of_nat (size ls.1.2)) dentry_round dentry_rest).
    - apply dentry_inv_measure.
    - apply reads_dentry_step.
    - apply dentry_round_decreases.
    - intros. by apply dentry_rest_unfold.
    - by apply dentry_inv_start.
    - cbn [fst snd]. change (size (∅ : gset Z)) with 0%nat. unfold u64_rounds. lia. }
  intros names. unfold dentry_rest. split.
  - intros (ds & below & top & Hc & Hnd & _ & -> & Hb & Hm). exists ds, below, top. cbn [app] in Hb |- *.
    do 4 (split; [done|]). change (size (∅ : gset Z)) with 0%nat in Hm. lia.
  - intros (ds & below & top & Hc & Hnd & -> & Hb & Hm). exists ds, below, top. cbn [app].
    do 2 (split; [done|]). split; [set_solver|]. do 2 (split; [done|]).
    change (size (∅ : gset Z)) with 0%nat. lia.
Qed.

Lemma ancestry_names d ds below top : ancestry d ds below top -> zlen (below ++ top) <= zlen ds.
Proof.
  induction 1 as [d top (l & p & _ & Hc) _ _|d names p ds below top (l & q & _ & Hc) _ _ _ _ IH].
  - by apply component_short in Hc.
  - apply component_short in Hc. rewrite <- app_assoc, zlen_app, zlen_cons. lia.
Qed.
End ancestry.
(** ** Open files *)

Section files.
Context (offsets : LinuxFileOffsets.t).

Definition file_offsets_range : Prop :=
  Forall in_u64 [LinuxFileOffsets.task_files offsets; LinuxFileOffsets.files_fdt offsets;
    LinuxFileOffsets.fdtable_max_fds offsets; LinuxFileOffsets.fdtable_fd offsets; LinuxFileOffsets.file_path offsets;
    LinuxFileOffsets.path_dentry offsets; LinuxFileOffsets.dentry_name offsets; LinuxFileOffsets.qstr_length offsets;
    LinuxFileOffsets.qstr_name offsets].

(** What a slot of the descriptor array holds: nothing, or a file with the
    name of its dentry. *)
Definition slot_at (fd_array i : Z) (entry : option LinuxOpenFile.t) : Prop :=
  exists file, int 8 (fd_array + 8 * i) = Some file /\
  match entry with
  | None => file = 0
  | Some f => file <> 0 /\ exists dentry length pointer bs,
      int 8 (file + LinuxFileOffsets.file_path offsets + LinuxFileOffsets.path_dentry offsets) = Some dentry /\
      dentry <> 0 /\
      qstr_at (LinuxFileOffsets.dentry_name offsets) (LinuxFileOffsets.qstr_length offsets)
        (LinuxFileOffsets.qstr_name offsets) (LinuxFileOffsets.maximum_name_bytes offsets) dentry length pointer /\
      (if length =? 0 then bs = [] else bytes_at byte_at pointer length = Some bs) /\
      f = LinuxOpenFile.mk i (Gva.new file) (Gva.new dentry) (text bs)
  end.

Context (Hrange : file_offsets_range) (Hmaximum : LinuxFileOffsets.maximum_name_bytes offsets <= 65536).

Lemma reads_name_bytes length pointer : in_u32 length -> in_u64 pointer ->
  run ((if length =? 0 then mret [] else read_virtual (Gva.new pointer) length) : stateful St VmiError.t (list byte))
    (fun bs => if length =? 0 then bs = [] else bytes_at byte_at pointer length = Some bs).
Proof.
  intros Hl Hp. unfold in_width in Hl. destruct (Z.eqb_spec length 0).
  - eapply reads_iff; [apply reads_ret|]. by intros bs.
  - eapply reads_iff; [apply reads_virtual; [done|lia]|]. intros bs. split; [by intros [? _]|].
    intros Hb. split; [done|unfold isize_max; lia].
Qed.

Lemma reads_open_file fd_array i output : in_u64 fd_array -> 0 <= i < 2 ^ 32 -> zlen output <= i ->
  run (open_file offsets fd_array i output)
    (fun output' => exists entry, slot_at fd_array i entry /\ output' = output ++ option_list entry).
Proof.
  intros Hfd Hi Hout. pose proof Hrange as Hr. unfold file_offsets_range in Hr. rewrite !Forall_cons in Hr.
  destruct Hr as (_ & _ & _ & _ & Hpath & Hpd & Hdn & Hql & Hqn & _).
  unfold open_file, add. rewrite try_width_fits by lia. eapply reads_iff.
  { apply reads_bind_value. rewrite checked_mul_fits by lia. apply reads_bind_value.
    eapply reads_bind; [apply reads_checked_add|intros slot [Hslot ?]].
    eapply reads_bind; [apply reads_le; [unfold in_width in *; lia|by vm_compute]|intros file Hfile].
    apply le_at_range in Hfile. apply reads_if; intros _; [apply reads_ret|].
    eapply reads_bind; [apply reads_checked_add|intros pa [Hpa ?]].
    eapply reads_bind; [apply reads_checked_add|intros da [Hda ?]].
    eapply reads_bind; [apply reads_le; [unfold in_width in *; lia|by vm_compute]|intros dentry Hdentry].
    apply le_at_range in Hdentry. apply reads_if; intros _; [apply reads_fail|].
    eapply reads_bind_pair; [by apply reads_qstr|intros length pointer Hqstr]. cbn [fst snd] in Hqstr.
    pose proof (qstr_range _ _ _ _ _ _ _ Hqstr) as [Hl32 Hp64].
    eapply reads_bind; [by apply reads_name_bytes|intros bs Hbs]. cbv beta in Hbs.
    eapply reads_bind; [apply reads_reserve_one|intros ? _].
    eapply reads_bind; [apply reads_decode|intros name _; apply reads_ret].
    destruct Hqstr as (_ & Hmax & _). unfold in_width in Hl32. destruct (Z.eqb_spec length 0); [by subst|].
    apply bytes_at_bounds in Hbs as [_ Hz]; [|lia]. unfold isize_max. lia. }
  intros output'. unfold slot_at. split.
  - intros (slot & [-> _] & file & Hfile & Hr). rewrite (Z.mul_comm i 8) in Hfile.
    destruct (Z.eqb_spec file 0) as [->|Hne].
    + exists None. split; [by exists 0|]. by rewrite app_nil_r.
    + destruct Hr as (pa & [-> _] & da & [-> _] & dentry & Hd & Hr). destruct (Z.eqb_spec dentry 0); [done|].
      destruct Hr as (length & pointer & Hqstr & bs & Hbs & _ & _ & name & -> & <-).
      eexists (Some _). split; [|reflexivity]. exists file. split; [done|]. split; [done|].
      exists dentry, length, pointer, bs. auto.
  - intros ([f|] & (file & Hfile & Hr) & ->); cbn [option_list]; pose proof (int_bounds _ _ _ Hfile ltac:(lia));
      (eexists; split; [split; [done|lia]|]); exists file; rewrite (Z.mul_comm i 8); (split; [done|]).
    + destruct Hr as (Hne & dentry & length & pointer & bs & Hd & Hdne & Hqstr & Hbs & ->).
      destruct (Z.eqb_spec file 0); [done|]. unfold in_width in *. pose proof (int_bounds _ _ _ Hd ltac:(lia)).
      eexists. split; [split; [done|lia]|]. eexists. split; [split; [done|lia]|]. exists dentry. split; [done|].
      destruct (Z.eqb_spec dentry 0); [done|]. exists length, pointer. split; [done|]. exists bs. split; [done|].
      exists tt. split; [unfold isize_max; lia|]. by eexists.
    + subst. cbn. by rewrite app_nil_r.
Qed.

(** The slots of an array and the files they list. *)
Definition slots_at (fd_array : Z) (i : Z) (entries : list (option LinuxOpenFile.t)) : Prop :=
  forall j entry, entries !! j = Some entry -> slot_at fd_array (i + Z.of_nat j) entry.

Lemma slots_cons fd_array i entry entries :
  slots_at fd_array i (entry :: entries) <-> slot_at fd_array i entry /\ slots_at fd_array (i + 1) entries.
Proof.
  unfold slots_at. split.
  - intros Hs. split; [specialize (Hs 0%nat entry eq_refl); by rewrite Z.add_0_r in Hs|].
    intros j e He. specialize (Hs (S j) e He). by replace (i + 1 + Z.of_nat j) with (i + Z.of_nat (S j)) by lia.
  - intros [H0 Hs] [|j] e He; [injection He as <-; by rewrite Z.add_0_r|].
    specialize (Hs j e He). by replace (i + Z.of_nat (S j)) with (i + 1 + Z.of_nat j) by lia.
Qed.

Definition slot_round (fd_array i : Z) (output output' : list LinuxOpenFile.t) : Prop :=
  exists entry, slot_at fd_array i entry /\ output' = output ++ option_list entry.

Lemma for_slots fd_array n i output r :
  for_rel (slot_round fd_array) n i output r <->
  exists entries, length entries = n /\ slots_at fd_array i entries /\ r = output ++ omap id entries.
Proof.
  revert i output. induction n as [|n IH]; intros i output; cbn [for_rel]; split.
  - intros <-. exists []. split; [done|]. split; [by intros j e|]. by rewrite app_nil_r.
  - intros ([|] & Hl & _ & ->); [by rewrite app_nil_r|done].
  - intros (output' & (entry & He & ->) & Hr). apply IH in Hr as (entries & <- & Hs & ->).
    exists (entry :: entries). split; [done|]. split; [by apply slots_cons|]. rewrite <- app_assoc. by destruct entry.
  - intros ([|entry entries] & Hl & Hs & ->); [done|]. apply slots_cons in Hs as [He Hs].
    eexists. split; [by exists entry|]. apply IH. exists entries. split; [cbn in Hl; lia|]. split; [done|].
    rewrite <- app_assoc. by destruct entry.
Qed.

Lemma zlen_omap_le {A} (entries : list (option A)) : zlen (omap id entries) <= zlen entries.
Proof. induction entries as [|[|] ? ?]; cbn [omap list_omap id]; unfold zlen in *; cbn; lia. Qed.

Lemma reads_slots fd_array n : in_u64 fd_array -> Z.of_nat n < 2 ^ 32 ->
  run (for_m n 0 (open_file offsets fd_array) [])
    (fun fs => exists entries, length entries = n /\ slots_at fd_array 0 entries /\ fs = omap id entries).
Proof.
  intros Hfd Hn. eapply reads_iff.
  { apply (reads_for _ (slot_round fd_array) (fun i output => 0 <= i /\ zlen output <= i)).
    - intros j output Hj [_ Hz]. apply reads_open_file; (done || lia).
    - intros j output output' [Hj Hz] (entry & _ & ->). rewrite zlen_app.
      split; [lia|]. destruct entry; cbn; unfold zlen in *; cbn; lia.
    - split; [lia|done]. }
  intros fs. apply for_slots.
Qed.

(** The table of a task: absent, or as many slots as [max_fds] says. *)
Definition fd_table_at (task limit : Z) (fs : list LinuxOpenFile.t) : Prop :=
  exists files, int 8 (task + LinuxFileOffsets.task_files offsets) = Some files /\
    if files =? 0 then fs = []
    else exists fdt max_fds fd_array entries,
      int 8 (files + LinuxFileOffsets.files_fdt offsets) = Some fdt /\ fdt <> 0 /\
      int 4 (fdt + LinuxFileOffsets.fdtable_max_fds offsets) = Some max_fds /\ max_fds <= limit /\
      int 8 (fdt + LinuxFileOffsets.fdtable_fd offsets) = Some fd_array /\ (max_fds = 0 \/ fd_array <> 0) /\
      zlen entries = max_fds /\ slots_at fd_array 0 entries /\ fs = omap id entries.

(** Listing the open files of a task is exact. *)
Lemma linux_open_files task limit : in_u64 task -> in_u64 limit ->
  0 <= LinuxFileOffsets.maximum_name_bytes offsets ->
  run (open_files (Gva.new task) offsets limit)
    (fun fs => 0 < limit /\ 0 < LinuxFileOffsets.maximum_name_bytes offsets /\ fd_table_at task limit fs).
Proof.
  intros Htask Hlimit Hmin. unfold open_files, add, fd_table_at. cbn [Gva.raw]. unfold in_width in Hlimit.
  destruct ((limit =? 0) || (LinuxFileOffsets.maximum_name_bytes offsets =? 0)
    || (65536 <? LinuxFileOffsets.maximum_name_bytes offsets)) eqn:Hguard.
  { eapply reads_iff; [apply reads_fail|]. intros path. split; [done|]. intros (? & ? & _). exfalso. lia. }
  assert (Hok : 0 < limit /\ 0 < LinuxFileOffsets.maximum_name_bytes offsets) by lia. destruct Hok as [Hl Hm].
  pose proof Hrange as Hr. unfold file_offsets_range in Hr. rewrite !Forall_cons in Hr.
  destruct Hr as (Htf & Hff & Hmx & Hfd & _). eapply reads_iff.
  { eapply reads_bind; [apply reads_checked_add|intros fa [Hfa ?]].
    eapply reads_bind; [apply reads_le; [unfold in_width in *; lia|by vm_compute]|intros files Hfiles].
    apply le_at_range in Hfiles. apply reads_if; intros _; [apply reads_ret|].
    eapply reads_bind; [apply reads_checked_add|intros ta [Hta ?]].
    eapply reads_bind; [apply reads_le; [unfold in_width in *; lia|by vm_compute]|intros fdt Hfdt].
    apply le_at_range in Hfdt. apply reads_if; intros _; [apply reads_fail|].
    eapply reads_bind; [apply reads_checked_add|intros ma [Hma ?]].
    eapply reads_bind; [apply reads_le; [unfold in_width in *; lia|by vm_compute]|intros max_fds Hmax].
    apply le_at_range in Hmax. apply reads_if; intros _; [apply reads_fail|].
    eapply reads_bind; [apply reads_checked_add|intros aa [Haa ?]].
    eapply reads_bind; [apply reads_le; [unfold in_width in *; lia|by vm_compute]|intros fd_array Harray].
    apply le_at_range in Harray. apply reads_if; intros _; [apply reads_fail|].
    apply reads_slots; [done|]. unfold in_width in Hmax. lia. }
  intros fs. split.
  - intros (fa & [-> _] & files & Hfiles & Hr). do 2 (split; [done|]). exists files. split; [done|].
    destruct (Z.eqb_spec files 0); [done|]. destruct Hr as (ta & [-> _] & fdt & Hfdt & Hr).
    destruct (Z.eqb_spec fdt 0); [done|]. destruct Hr as (ma & [-> _] & max_fds & Hmax & Hr).
    destruct (Z.ltb_spec limit max_fds); [done|]. destruct Hr as (aa & [-> _] & fd_array & Harray & Hr).
    destruct (negb (max_fds =? 0) && (fd_array =? 0)) eqn:Hnull; [done|].
    destruct Hr as (entries & He & Hs & ->). apply le_at_range in Hmax as Hm32. unfold in_width in Hm32.
    exists fdt, max_fds, fd_array, entries. repeat (split; [done || lia|]). split; [|done]. unfold zlen. lia.
  - intros (_ & _ & files & Hfiles & Hr). unfold in_width in *. pose proof (int_bounds _ _ _ Hfiles ltac:(lia)).
    eexists. split; [split; [done|lia]|]. exists files. split; [done|].
    destruct (Z.eqb_spec files 0); [by subst|].
    destruct Hr as (fdt & max_fds & fd_array & entries & Hfdt & Hne & Hmax & Hle & Harray & Hnull & Hz & Hs & ->).
    pose proof (int_bounds _ _ _ Hfdt ltac:(lia)). pose proof (int_bounds _ _ _ Hmax ltac:(lia)).
    pose proof (int_bounds _ _ _ Harray ltac:(lia)).
    eexists. split; [split; [done|lia]|]. exists fdt. split; [done|]. destruct (Z.eqb_spec fdt 0); [done|].
    eexists. split; [split; [done|lia]|]. exists max_fds. split; [done|].
    rewrite (proj2 (Z.ltb_ge limit max_fds)) by lia.
    eexists. split; [split; [done|lia]|]. exists fd_array. split; [done|].
    replace (negb (max_fds =? 0) && (fd_array =? 0)) with false by lia.
    exists entries. unfold zlen in Hz. split; [lia|done].
Qed.
End files.
End facts.

(** The arguments [dentry_path] accepts. *)
Definition dentry_arguments (dentry limit : Z) (offsets : LinuxDentryOffsets.t) : Prop :=
  dentry <> 0 /\ 0 < limit /\ 0 < LinuxDentryOffsets.maximum_name_bytes offsets <= 65536.

Lemma dentry_guard dentry limit offsets : 0 <= limit -> 0 <= LinuxDentryOffsets.maximum_name_bytes offsets ->
  (dentry =? 0) || (limit =? 0) || (LinuxDentryOffsets.maximum_name_bytes offsets =? 0)
    || (65536 <? LinuxDentryOffsets.maximum_name_bytes offsets) = false <-> dentry_arguments dentry limit offsets.
Proof. unfold dentry_arguments. lia. Qed.

(** C20: the path of a dentry is the chain of its ancestors' names.  Whatever
    the image holds, the walk up the parents ends by itself, and the answer
    is that of its run.  The path is found, when memory is available, exactly
    when the arguments are valid and the parents read from guest memory lead,
    without a repetition and with fewer components than the limit below it,
    to a dentry that is its own parent; it is the absolute path of the names
    read on the way, lossy where they are not UTF-8, root first, the empty
    ones and the root's slash left out. *)
Theorem linux_dentry_path_exact {St} `{Allocator, !Guest St} (byte_at : Z -> option byte)
    (I : St -> Prop) `{!GuestMemory byte_at I} (dentry : Z) (offsets : LinuxDentryOffsets.t) (limit : Z)
    (Hdentry : in_u64 dentry) (Hlimit : in_u64 limit)
    (Hmaximum : in_u64 (LinuxDentryOffsets.maximum_name_bytes offsets))
    (Hoffsets : dentry_offsets_range offsets) :
  (forall st, I st -> dentry_arguments dentry limit offsets -> exists r st',
     loop_runs (loop_m_step (dentry_step offsets limit)) ((dentry, ∅, []), st) (r, st') /\
     dentry_path (Gva.new dentry) offsets limit st
       = (let? names := r in join_absolute_path (reverse names) "Linux dentry path", st')) /\
  reads (I := I) (dentry_path (Gva.new dentry) offsets limit) (fun path =>
    dentry <> 0 /\ 0 < limit /\ 0 < LinuxDentryOffsets.maximum_name_bytes offsets <= 65536 /\
    exists ds below top, ancestry (byte_at := byte_at) offsets dentry ds below top /\ NoDup ds /\
      zlen below < limit /\ zlen ds <= isize_max /\
      path = absolute_path (reverse (below ++ top)) /\ Z.of_nat (String.length path) <= isize_max).
Proof.
  unfold in_width in Hlimit, Hmaximum. pose proof (dentry_guard dentry limit offsets ltac:(lia) ltac:(lia)) as Hiff.
  unfold dentry_path. cbn [Gva.raw]. split.
  { intros st Hst Hargs. rewrite (proj2 Hiff Hargs). destruct Hargs as (Hd & Hl & Hm).
    destruct (dentry_loop_ends offsets limit Hoffsets ltac:(lia) dentry st Hdentry Hl Hst) as (r & st' & Hrun & Heq).
    exists r, st'. split; [done|]. unfold mbind, stateful_bind. rewrite Heq. by destruct r. }
  destruct (_ || _) eqn:Hguard.
  { eapply reads_iff; [apply reads_fail|]. intros path. split; [done|]. intros (H0 & H1 & H2 & _).
    by discriminate (proj2 Hiff (conj H0 (conj H1 H2))). }
  destruct (proj1 Hiff eq_refl) as (Hd & Hl & Hm). eapply reads_iff.
  { eapply reads_bind; [apply reads_dentry_loop; (done || lia)|intros names Hnames].
    apply reads_join. destruct Hnames as (ds & below & top & Hc & _ & -> & _ & Hz).
    apply ancestry_names in Hc. unfold zlen in *. rewrite length_reverse. lia. }
  intros path. split.
  - intros (names & (ds & below & top & Hc & Hnd & -> & Hb & Hz) & -> & Hlen). do 3 (split; [done|]).
    by exists ds, below, top.
  - intros (_ & _ & _ & ds & below & top & Hc & Hnd & Hb & Hz & -> & Hlen). exists (below ++ top).
    split; [|done]. by exists ds, below, top.
Qed.

(** [/etc/hosts]: three dentries of which the last is its own parent. *)
Definition dentry_memory : list (Z * list byte) :=
  [(0x100, le_bytes 8 0x200 ++ le_bytes 4 5 ++ le_bytes 8 0x500);
   (0x200, le_bytes 8 0x300 ++ le_bytes 4 3 ++ le_bytes 8 0x600);
   (0x300, le_bytes 8 0x300 ++ le_bytes 4 1 ++ le_bytes 8 0x700);
   (0x500, [x68; x6f; x73; x74; x73]); (0x600, [x65; x74; x63]); (0x700, [x2f])].

Lemma linux_dentry_path_exact_witness :
  exists st, @dentry_path _ ample_allocator (flat_guest (patched_byte dentry_memory)) (Gva.new 0x100)
    (LinuxDentryOffsets.mk 0 8 0 4 255) 8 tt = (Ok "/etc/hosts"%string, st).
Proof.
  pose proof (flat_guest_memory (patched_byte dentry_memory)) as Hguest. exists tt.
  pose proof (@linux_dentry_path_exact _ ample_allocator _ _ _ Hguest 0x100 (LinuxDentryOffsets.mk 0 8 0 4 255) 8
    ltac:(width_const) ltac:(width_const) ltac:(width_const)
    ltac:(repeat constructor; vm_compute; intuition discriminate)) as [_ Hall]. specialize (Hall tt Logic.I).
  destruct (dentry_path _ _ _ tt) as [r []]. destruct Hall as (_ & _ & Hall). f_equal.
  apply Hall; [apply ample_ample|]. split; [discriminate|]. split; [reflexivity|]. split; [vm_compute; intuition discriminate|].
  exists [0x100; 0x200; 0x300], ["hosts"%string; "etc"%string], []. split; [|split; [|split; [|split; [|split]]]].
  - apply (ancestry_child _ 0x100 ["hosts"%string] 0x200 _ ["etc"%string]); [|vm_compute; reflexivity|discriminate..|].
    { exists 5, 0x500. split; [|eexists; split; vm_compute; reflexivity].
      split; [vm_compute; reflexivity|]. split; [discriminate|]. split; [vm_compute; reflexivity|right; discriminate]. }
    apply (ancestry_child _ 0x200 ["etc"%string] 0x300 _ []); [|vm_compute; reflexivity|discriminate..|].
    { exists 3, 0x600. split; [|eexists; split; vm_compute; reflexivity].
      split; [vm_compute; reflexivity|]. split; [discriminate|]. split; [vm_compute; reflexivity|right; discriminate]. }
    apply ancestry_root; [|vm_compute; reflexivity|discriminate].
    exists 1, 0x700. split; [|eexists; split; vm_compute; reflexivity].
    split; [vm_compute; reflexivity|]. split; [discriminate|]. split; [vm_compute; reflexivity|right; discriminate].
  - apply (bool_decide_unpack _). vm_compute. exact Logic.I.
  - reflexivity.
  - discriminate.
  - reflexivity.
  - discriminate.
Defined.
