(* ===== verification/Windows.v ===== *)
(** * Windows introspection ([crates/vmi-os-windows])

    Processes, modules, file objects and handle tables of a Windows guest,
    read through a session. *)

From S2P Require Import Prelude.
From S2P Require Import Types.
From S2P Require Import Text.
From S2P Require Import Profile.
From S2P Require Import Guest.

Module WindowsProcessOffsets.
Record t : Type := mk {
  active_process_links : Z; unique_process_id : Z; image_file_name : Z;
  image_file_name_length : Z; directory_table_base : Z }.
End WindowsProcessOffsets.

Module WindowsProcess.
Record t : Type := mk { eprocess : Gva.t; pid : Z; image : string; directory_table_base : Z }.
End WindowsProcess.

Module WindowsModuleOffsets.
Record t : Type := mk {
  in_load_order_links : Z; dll_base : Z; size_of_image : Z; base_dll_name : Z;
  maximum_name_bytes : Z }.
End WindowsModuleOffsets.

Module WindowsModule.
Record t : Type := mk { entry : Gva.t; name : string; base : Gva.t; size : Z }.
End WindowsModule.

Module WindowsFileOffsets.
Record t : Type := mk {
  device_object : Z; file_name : Z; flags : Z; read_access : Z; write_access : Z;
  delete_access : Z; maximum_name_bytes : Z }.
End WindowsFileOffsets.

Module WindowsFile.
Record t : Type := mk {
  file_object : Gva.t; device_object : Gva.t; name : string; flags : Z;
  read_access : bool; write_access : bool; delete_access : bool }.
End WindowsFile.

Module WindowsHandleTableOffsets.
Record t : Type := mk {
  eprocess_object_table : Z; table_code : Z; next_handle_needing_pool : Z; entry_size : Z;
  entry_object : Z; entry_granted_access : Z; object_pointer_mask : Z;
  object_pointer_shift : Z; object_pointer_sign_bit : Z }.
End WindowsHandleTableOffsets.

Module WindowsHandle.
Record t : Type := mk { handle : Z; object : Gva.t; granted_access : Z }.
End WindowsHandle.

Section text.
Context `{Allocator}.

Definition decode_guest_bytes (bytes : list byte) (description : string) : Result string :=
  Guest.decode_guest_bytes bytes description.

Fixpoint push_characters (description : string) (decoded : list (result Z Z)) (output : list byte)
    : Result (list byte) :=
  match decoded with
  | [] => Ok output
  | character :: rest =>
      let? character := map_err (fun unpaired =>
          Backend ("invalid " +:+ description +:+ ": unpaired surrogate found: "
            +:+ hex_go 32 unpaired "")) character in
      push_characters description rest (output ++ encode_utf8 character)
  end.

Definition decode_utf16_words (words : list Z) (description : string) : Result string :=
  let? capacity := ok_or (checked_mul 64 (zlen words) 3)
    (Backend (description +:+ " decoded length overflow")) in
  let? _ := map_err (fun error =>
      Backend ("failed to allocate decoded " +:+ description +:+ ": " +:+ error))
    (try_reserve description capacity) in
  let? output := push_characters description (decode_utf16 words) [] in
  Ok (string_of_bytes output).

(** [bytes.chunks_exact(2)] as little-endian words. *)
Fixpoint words_of (bytes : list byte) : list Z :=
  match bytes with
  | first :: second :: rest => le_val [first; second] :: words_of rest
  | _ => []
  end.
End text.

Definition sign_extend (value sign_bit : Z) : Result Z :=
  let? width := ok_or (checked_add 8 sign_bit 1) (Backend "Windows sign-extension width overflow") in
  let? low_mask :=
    (if width =? 64 then Ok u64_max
     else ok_or (match checked_shl 64 1 width with Some mask => checked_sub mask 1 | None => None end)
            (Backend "Windows sign-extension mask overflow")) in
  let? sign_mask := ok_or (checked_shl 64 1 sign_bit) (Backend "Windows sign bit overflow") in
  let truncated := Z.land value low_mask in
  if Z.land truncated sign_mask =? 0 then Ok truncated
  else Ok (Z.lor truncated (wnot 64 low_mask)).

Module WindowsIntrospector.
Record t : Type := new { profile : SymbolTable.t; offsets : WindowsProcessOffsets.t }.

Section ops.
Context {St : Type} `{Allocator, !Guest St}.
Abbreviation M := (stateful St VmiError.t).

Definition add (base offset : Z) (field : string) : M Z :=
  lift (ok_or (checked_add 64 base offset) (Backend ("Windows " +:+ field +:+ " address overflow"))).

Definition read_u64 (address : Z) : M Z := read_le 8 "short Windows pointer read" address.
Definition read_u32 (address : Z) : M Z := read_le 4 "short Windows u32 read" address.
Definition read_u16 (address : Z) : M Z := read_le 2 "short Windows u16 read" address.

Definition read_bool (address : Z) : M bool :=
  let? bytes := read_virtual (Gva.new address) 1 in
  let? value := lift (ok_or (head bytes) (Backend "short Windows BOOLEAN read")) in
  if byte_val value =? 0 then mret false
  else if byte_val value =? 1 then mret true
  else fail (Backend ("invalid Windows BOOLEAN value " +:+ dec (byte_val value))).

Definition read_unicode_string (address maximum_bytes : Z) : M string :=
  let? length := read_u16 address in
  let? maximum_address := add address 2 "Unicode maximum" in
  let? declared_maximum := read_u16 maximum_address in
  if (declared_maximum <? length) || (maximum_bytes <? length) || negb (length mod 2 =? 0) then
    fail (Backend ("invalid Windows UNICODE_STRING length " +:+ dec length +:+ "/"
            +:+ dec declared_maximum))
  else if length =? 0 then mret ""%string
  else
    let? buffer_address := add address 8 "Unicode buffer" in
    let? buffer := read_u64 buffer_address in
    if buffer =? 0 then fail (Backend "non-empty Windows UNICODE_STRING has null buffer")
    else
      let? bytes := read_virtual (Gva.new buffer) length in
      let? _ := lift (map_err (fun error =>
          Backend ("failed to allocate Windows Unicode buffer: " +:+ error))
        (try_reserve "Windows Unicode buffer" (zlen bytes / 2))) in
      lift (decode_utf16_words (words_of bytes) "Windows module name").

(** ** Processes and modules *)

Definition read_process (self : t) (eprocess : Z) : M WindowsProcess.t :=
  let offsets := offsets self in
  let? pid_address := add eprocess (WindowsProcessOffsets.unique_process_id offsets) "PID" in
  let? pid := read_u64 pid_address in
  let? dtb_address := add eprocess (WindowsProcessOffsets.directory_table_base offsets) "DTB" in
  let? directory_table_base := read_u64 dtb_address in
  let? image_address := add eprocess (WindowsProcessOffsets.image_file_name offsets) "image" in
  let? bytes := read_virtual (Gva.new image_address)
    (WindowsProcessOffsets.image_file_name_length offsets) in
  let? image := lift (decode_guest_bytes (until_nul bytes) "Windows process image") in
  mret (WindowsProcess.mk (Gva.new eprocess) pid image directory_table_base).

Definition process_walk (self : t) (limit : Z) : ListWalk Z WindowsProcess.t :=
  MkListWalk "Windows process cycle detector" "Windows process list"
    (fun node => Backend ("Windows process list looped at unexpected node " +:+ hex node))
    (Backend ("Windows process list exceeded limit " +:+ dec limit))
    (fun node => lift (ok_or
       (checked_sub node (WindowsProcessOffsets.active_process_links (offsets self)))
       (Backend ("invalid ActiveProcessLinks pointer " +:+ hex node))))
    (read_process self)
    read_u64.

Definition processes (self : t) (limit : Z) : M (list WindowsProcess.t) :=
  let length := WindowsProcessOffsets.image_file_name_length (offsets self) in
  if (limit =? 0) || (length =? 0) || (4096 <? length) then
    fail (Backend "invalid Windows traversal limit or image length")
  else
    let? symbol := lift (ok_or (SymbolTable.symbol (profile self) "PsActiveProcessHead")
      (Backend "profile does not contain PsActiveProcessHead")) in
    let head := Symbol.address symbol in
    let? node := read_u64 head in
    walk_list (process_walk self limit) head limit node.

Definition read_module (entry : Z) (offsets : WindowsModuleOffsets.t) : M WindowsModule.t :=
  let? base_address := add entry (WindowsModuleOffsets.dll_base offsets) "module base" in
  let? base := read_u64 base_address in
  let? size_address := add entry (WindowsModuleOffsets.size_of_image offsets) "module size" in
  let? size := read_u32 size_address in
  let? name_address := add entry (WindowsModuleOffsets.base_dll_name offsets) "module name" in
  let? name := read_unicode_string name_address (WindowsModuleOffsets.maximum_name_bytes offsets) in
  mret (WindowsModule.mk (Gva.new entry) name (Gva.new base) size).

Definition module_walk (offsets : WindowsModuleOffsets.t) (limit : Z) : ListWalk Z WindowsModule.t :=
  MkListWalk "Windows module cycle detector" "Windows module list"
    (fun node => Backend ("Windows module list looped at unexpected node " +:+ hex node))
    (Backend ("Windows module list exceeded limit " +:+ dec limit))
    (fun node => lift (ok_or (checked_sub node (WindowsModuleOffsets.in_load_order_links offsets))
       (Backend ("invalid module list pointer " +:+ hex node))))
    (fun entry => read_module entry offsets)
    read_u64.

Definition modules (self : t) (offsets : WindowsModuleOffsets.t) (limit : Z)
    : M (list WindowsModule.t) :=
  let maximum := WindowsModuleOffsets.maximum_name_bytes offsets in
  if (limit =? 0) || (maximum =? 0) || (65536 <? maximum) then
    fail (Backend "invalid Windows module traversal limit or name length")
  else
    let? symbol := lift (ok_or (SymbolTable.symbol (profile self) "PsLoadedModuleList")
      (Backend "profile does not contain PsLoadedModuleList")) in
    let head := Symbol.address symbol in
    let? node := read_u64 head in
    walk_list (module_walk offsets limit) head limit node.

(** ** File objects *)

Definition file_object (address : Gva.t) (offsets : WindowsFileOffsets.t) : M WindowsFile.t :=
  let maximum := WindowsFileOffsets.maximum_name_bytes offsets in
  if (Gva.raw address =? 0) || (maximum =? 0) || (65536 <? maximum) then
    fail (Backend "invalid Windows FILE_OBJECT arguments")
  else
    let? device_address := add (Gva.raw address) (WindowsFileOffsets.device_object offsets)
      "file device object" in
    let? device_object := read_u64 device_address in
    let? name_address := add (Gva.raw address) (WindowsFileOffsets.file_name offsets) "file name" in
    let? name := read_unicode_string name_address maximum in
    let? flags_address := add (Gva.raw address) (WindowsFileOffsets.flags offsets) "file flags" in
    let? flags := read_u32 flags_address in
    let? read_address := add (Gva.raw address) (WindowsFileOffsets.read_access offsets)
      "file read access" in
    let? read_access := read_bool read_address in
    let? write_address := add (Gva.raw address) (WindowsFileOffsets.write_access offsets)
      "file write access" in
    let? write_access := read_bool write_address in
    let? delete_address := add (Gva.raw address) (WindowsFileOffsets.delete_access offsets)
      "file delete access" in
    let? delete_access := read_bool delete_address in
    mret (WindowsFile.mk address (Gva.new device_object) name flags read_access write_access delete_access).

(** ** Handle tables *)

Definition PAGE_SIZE : Z := 4096.
Definition POINTERS_PER_PAGE : Z := PAGE_SIZE / 8.

Definition read_table_pointer (table index : Z) : M Z :=
  let? offset := lift (ok_or (checked_mul 64 index 8)
    (Backend "Windows handle pointer offset overflow")) in
  let? address := lift (ok_or (checked_add 64 table offset)
    (Backend "Windows handle pointer table overflow")) in
  let? value := read_u64 address in
  let pointer := Z.land value (wnot 64 0xf) in
  if (pointer =? 0) || negb (Z.land pointer 0xfff =? 0) then
    fail (Backend ("invalid Windows handle table page pointer " +:+ hex pointer))
  else mret pointer.

(** [checked_div] and [checked_rem]. *)
Definition checked_div (a b : Z) : option Z := if b =? 0 then None else Some (a / b).
Definition checked_rem (a b : Z) : option Z := if b =? 0 then None else Some (a mod b).

Definition handle_entry_address (table_base level index entry_size : Z) : M Z :=
  let? entries_per_page := lift (ok_or
    (match checked_div PAGE_SIZE entry_size with
     | Some entries => if negb (entries =? 0) then Some entries else None
     | None => None
     end) (Backend "invalid Windows handle entry size")) in
  let? leaf_index := lift (ok_or (checked_div index entries_per_page)
    (Backend "invalid Windows handle page divisor")) in
  let? entry_index := lift (ok_or (checked_rem index entries_per_page)
    (Backend "invalid Windows handle page divisor")) in
  let? leaf :=
    (if level =? 0 then mret table_base
     else if level =? 1 then read_table_pointer table_base leaf_index
     else if level =? 2 then
       let directory_index := leaf_index / POINTERS_PER_PAGE in
       let pointer_index := leaf_index mod POINTERS_PER_PAGE in
       let? directory := read_table_pointer table_base directory_index in
       read_table_pointer directory pointer_index
     else fail (Backend ("invalid Windows handle table level " +:+ dec level))) : M Z in
  let? offset := lift (ok_or (checked_mul 64 entry_index entry_size)
    (Backend "Windows handle entry offset overflow")) in
  lift (ok_or (checked_add 64 leaf offset) (Backend "Windows handle leaf overflow")).

Definition handle_at (offsets : WindowsHandleTableOffsets.t) (entries level index : Z)
    (output : list WindowsHandle.t) : M (list WindowsHandle.t) :=
  let? index_u64 := lift (ok_or (try_width 64 index) (Backend "Windows handle index is too large")) in
  let? entry := handle_entry_address entries level index_u64
    (WindowsHandleTableOffsets.entry_size offsets) in
  let? object_address := add entry (WindowsHandleTableOffsets.entry_object offsets) "handle object" in
  let? encoded := read_u64 object_address in
  let? pointer := lift (ok_or
    (checked_shl 64 (Z.land encoded (WindowsHandleTableOffsets.object_pointer_mask offsets))
       (WindowsHandleTableOffsets.object_pointer_shift offsets))
    (Backend "Windows object pointer shift overflow")) in
  if pointer =? 0 then mret output
  else
    let? object := lift (sign_extend pointer (WindowsHandleTableOffsets.object_pointer_sign_bit offsets)) in
    let? access_address := add entry (WindowsHandleTableOffsets.entry_granted_access offsets)
      "handle granted access" in
    let? granted_access := read_u32 access_address in
    let? _ := reserve_one (zlen output) "Windows handle list" in
    let? handle := lift (ok_or (checked_mul 64 index_u64 4) (Backend "Windows handle value overflow")) in
    mret (output ++ [WindowsHandle.mk handle (Gva.new object) granted_access]).

Definition handles (eprocess : Gva.t) (offsets : WindowsHandleTableOffsets.t) (handle_limit : Z)
    : M (list WindowsHandle.t) :=
  let entry_size := WindowsHandleTableOffsets.entry_size offsets in
  if (Gva.raw eprocess =? 0) || (handle_limit =? 0) || (entry_size =? 0) || (4096 <? entry_size)
     || negb (bool_decide (checked_rem 4096 entry_size = Some 0))
     || (64 <=? WindowsHandleTableOffsets.object_pointer_shift offsets)
     || (64 <=? WindowsHandleTableOffsets.object_pointer_sign_bit offsets) then
    fail (Backend "invalid Windows handle-table arguments")
  else
    let? table_address := add (Gva.raw eprocess)
      (WindowsHandleTableOffsets.eprocess_object_table offsets) "process object table" in
    let? table := read_u64 table_address in
    if table =? 0 then mret []
    else
      let? code_address := add table (WindowsHandleTableOffsets.table_code offsets) "handle table code" in
      let? table_code := read_u64 code_address in
      let level := Z.land table_code 3 in
      if 2 <? level then fail (Backend ("invalid Windows handle table level " +:+ dec level))
      else
        let entries := Z.land table_code (wnot 64 3) in
        if entries =? 0 then fail (Backend "Windows handle table has null entry array")
        else
          let? next_address := add table (WindowsHandleTableOffsets.next_handle_needing_pool offsets)
            "next handle" in
          let? next_handle := read_u64 next_address in
          if negb (Z.land next_handle 3 =? 0) then
            fail (Backend ("unaligned Windows next handle " +:+ hex next_handle))
          else
            let? count := lift (ok_or (try_width 64 (next_handle / 4))
              (Backend "Windows handle count is too large")) in
            if handle_limit <? count then
              fail (Backend ("Windows handle count " +:+ dec count +:+ " exceeds limit "
                      +:+ dec handle_limit))
            else for_m (Z.to_nat count) 0 (handle_at offsets entries level) [].
End ops.
End WindowsIntrospector.
