(* ===== verification/WindowsFacts.v ===== *)
(** * What Windows introspection guarantees ([crates/vmi-os-windows])

    Process lists and handle tables are read exactly, and UTF-16 names are
    decoded exactly when they are well formed. *)

From S2P Require Import Prelude.
From S2P Require Import Types.
From S2P Require Import DriverApi.
From S2P Require Import Text.
From S2P Require Import TextFacts.
From S2P Require Import Profile.
From S2P Require Import Guest.
From S2P Require Import GuestFacts.
From S2P Require Import Windows.

(** ** UTF-16 *)

(** A Unicode scalar value, and its UTF-16 words. *)
Definition scalar (c : Z) : Prop := 0 <= c < 0x110000 /\ ~ (0xd800 <= c <= 0xdfff).

Definition encode_utf16 (c : Z) : list Z :=
  if c <? 0x10000 then [c]
  else [0xd800 + (c - 0x10000) / 2 ^ 10; 0xdc00 + (c - 0x10000) mod 2 ^ 10].

Lemma decode_encode_utf16 c rest : scalar c ->
  decode_utf16 (encode_utf16 c ++ rest) = Ok c :: decode_utf16 rest.
Proof.
  intros [Hc Hs]. unfold encode_utf16. destruct (Z.ltb_spec c 0x10000); cbn [app decode_utf16].
  - replace ((0xd800 <=? c) && (c <=? 0xdfff)) with false; [done|].
    symmetry. apply andb_false_iff. rewrite !Z.leb_gt. lia.
  - pose proof (Z.div_mod (c - 0x10000) (2 ^ 10)). pose proof (Z.mod_pos_bound (c - 0x10000) (2 ^ 10)).
    set (q := (c - 0x10000) / 2 ^ 10) in *. set (r := (c - 0x10000) mod 2 ^ 10) in *.
    replace ((0xd800 <=? 0xd800 + q) && (0xd800 + q <=? 0xdfff)) with true
      by (symmetry; rewrite andb_true_iff, !Z.leb_le; lia).
    replace (0xdc00 <=? 0xd800 + q) with false by (symmetry; apply Z.leb_gt; lia).
    replace ((0xdc00 <=? 0xdc00 + r) && (0xdc00 + r <=? 0xdfff)) with true
      by (symmetry; rewrite andb_true_iff, !Z.leb_le; lia).
    cbn [negb]. do 2 f_equal. lia.
Qed.

(** What decodes without an error was well formed. *)
Lemma decode_utf16_Ok words cs : Forall in_u16 words -> decode_utf16 words = Ok <$> cs ->
  Forall scalar cs /\ words = concat (encode_utf16 <$> cs).
Proof.
  remember (length words) as n eqn:En. revert words cs En.
  induction n as [n IH] using lt_wf_ind. intros [|u words] cs ->; [by destruct cs|].
  intros Hall. apply Forall_cons in Hall as [Hu Hall]. unfold in_width in Hu. cbn [decode_utf16].
  destruct ((0xd800 <=? u) && (u <=? 0xdfff)) eqn:Hsur; cbn [negb].
  - destruct (Z.leb_spec 0xdc00 u); [by destruct cs|]. destruct words as [|u2 words]; [by destruct cs as [|? [|]]|].
    apply Forall_cons in Hall as [Hu2 Hall]. unfold in_width in Hu2.
    destruct ((0xdc00 <=? u2) && (u2 <=? 0xdfff)) eqn:Hlow; cbn [negb]; [|by destruct cs].
    destruct cs as [|c cs]; [done|]. intros [= Hc Hcs].
    apply (IH (length words)) in Hcs as [Hs ->]; [|cbn; lia|done|done].
    rewrite andb_true_iff, !Z.leb_le in Hsur, Hlow. subst c. split.
    + apply Forall_cons. split; [|done]. unfold scalar. lia.
    + cbn [fmap list_fmap concat]. unfold encode_utf16 at 2.
      destruct (Z.ltb_spec (0x10000 + (u - 0xd800) * 2 ^ 10 + (u2 - 0xdc00)) 0x10000); [lia|].
      replace (0x10000 + (u - 0xd800) * 2 ^ 10 + (u2 - 0xdc00) - 0x10000)
        with ((u2 - 0xdc00) + (u - 0xd800) * 2 ^ 10) by lia.
      rewrite Z.div_add, Z.mod_add, Z.div_small, Z.mod_small by lia. cbn [app]. f_equal; [lia|].
      f_equal. lia.
  - destruct cs as [|c cs]; [done|]. intros [= <- Hcs].
    apply (IH (length words)) in Hcs as [Hs ->]; [|cbn; lia|done|done].
    apply andb_false_iff in Hsur. rewrite !Z.leb_gt in Hsur. split.
    + apply Forall_cons. split; [|done]. unfold scalar. lia.
    + cbn [fmap list_fmap concat]. unfold encode_utf16 at 2.
      destruct (Z.ltb_spec u 0x10000); [done|lia].
Qed.

Lemma decode_utf16_concat cs : Forall scalar cs ->
  decode_utf16 (concat (encode_utf16 <$> cs)) = Ok <$> cs.
Proof.
  induction 1 as [|c cs Hc _ IH]; [done|]. cbn [fmap list_fmap concat].
  by rewrite decode_encode_utf16, IH.
Qed.

Lemma push_characters_Ok description decoded output out :
  push_characters description decoded output = Ok out <->
  exists cs, decoded = Ok <$> cs /\ out = output ++ concat (encode_utf8 <$> cs).
Proof.
  revert output. induction decoded as [|[c|u] decoded IH]; intros output; cbn [push_characters].
  - split; [intros [= <-]; exists []; by rewrite app_nil_r|].
    intros ([|] & ? & ->); [by rewrite app_nil_r|done].
  - cbn. rewrite IH. split.
    + intros (cs & -> & ->). exists (c :: cs). split; [done|]. cbn. by rewrite app_assoc.
    + intros ([|c' cs] & [=] & ->). subst. exists cs. split; [done|]. cbn. by rewrite app_assoc.
  - cbn. split; [done|]. by intros ([|] & [=] & _).
Qed.

(** ** UTF-8 encoding *)

Lemma byte_of_small z : 0 <= z < 256 -> byte_val (byte_of z) = z.
Proof. intros. by rewrite byte_val_of, Z.mod_small. Qed.

(** Decide the comparisons of a UTF-8 automaton on bounded bytes. *)
#[local] Ltac decide_bytes :=
  repeat match goal with
  | |- context [if ?a <? ?b then _ else _] => destruct (Z.ltb_spec a b); try lia
  | |- context [if ?a =? ?b then _ else _] => destruct (Z.eqb_spec a b); try lia
  | |- context [(?a <=? ?b) && (?c <=? ?d)] =>
      destruct (Z.leb_spec a b); try lia; destruct (Z.leb_spec c d); try lia; cbn [andb]
  end.

Lemma encode_utf8_valid c : scalar c -> valid (encode_utf8 c) /\ (1 <= length (encode_utf8 c) <= 4)%nat.
Proof.
  intros [Hc Hs]. unfold encode_utf8.
  pose proof (Z.div_mod c 64 ltac:(lia)) as D1. pose proof (Z.mod_pos_bound c 64 ltac:(lia)) as M1.
  pose proof (Z.div_mod (c / 64) 64 ltac:(lia)) as D2. pose proof (Z.mod_pos_bound (c / 64) 64 ltac:(lia)) as M2.
  pose proof (Z.div_mod (c / 64 / 64) 64 ltac:(lia)) as D3.
  pose proof (Z.mod_pos_bound (c / 64 / 64) 64 ltac:(lia)) as M3.
  change (2 ^ 6) with 64 in *.
  replace (c / 2 ^ 12) with (c / 64 / 64) by (rewrite Z.div_div by lia; done).
  replace (c / 2 ^ 18) with (c / 64 / 64 / 64) by (rewrite !Z.div_div by lia; done).
  set (l := c mod 64) in *. set (m := c / 64 mod 64) in *. set (h := c / 64 / 64 mod 64) in *.
  set (t := c / 64 / 64 / 64) in *. set (x := c / 64 / 64) in *. set (y := c / 64) in *.
  destruct (Z.ltb_spec c 0x80); [|destruct (Z.ltb_spec c 0x800); [|destruct (Z.ltb_spec c 0x10000)]].
  - split; [|cbn; lia]. apply valid_sequence with 1%nat; [|constructor].
    unfold Utf8.sequence, Utf8.lead. rewrite byte_of_small by lia. decide_bytes. done.
  - split; [|cbn; lia]. apply valid_sequence with 2%nat; [|constructor].
    unfold Utf8.sequence, Utf8.lead. rewrite byte_of_small by lia. decide_bytes.
    cbn [Nat.sub Utf8.continuation]. rewrite byte_of_small by lia. decide_bytes. done.
  - split; [|cbn; lia]. apply valid_sequence with 3%nat; [|constructor].
    unfold Utf8.sequence, Utf8.lead. rewrite byte_of_small by lia.
    decide_bytes; cbn [Nat.sub Utf8.continuation]; rewrite !byte_of_small by lia; decide_bytes; done.
  - split; [|cbn; lia]. apply valid_sequence with 4%nat; [|constructor].
    unfold Utf8.sequence, Utf8.lead. rewrite byte_of_small by lia.
    decide_bytes; cbn [Nat.sub Utf8.continuation]; rewrite !byte_of_small by lia; decide_bytes; done.
Qed.

Lemma encode_utf8_length c : scalar c ->
  (length (encode_utf8 c) <= 3 * length (encode_utf16 c))%nat.
Proof.
  intros [Hc _]. unfold encode_utf8, encode_utf16.
  destruct (Z.ltb_spec c 0x80); [|destruct (Z.ltb_spec c 0x800); [|destruct (Z.ltb_spec c 0x10000)]];
    decide_bytes; cbn; lia.
Qed.

(** ** Sign extension *)

Lemma testbit_top v b : 0 <= b -> 0 <= v < 2 * 2 ^ b -> Z.testbit v b = (2 ^ b <=? v).
Proof.
  intros Hb Hv. pose proof (Z.pow_pos_nonneg 2 b ltac:(lia) Hb). destruct (Z.leb_spec (2 ^ b) v).
  - apply Z.testbit_true; [done|]. replace (v / 2 ^ b) with 1; [done|].
    apply (Z.div_unique v (2 ^ b) 1 (v - 2 ^ b)); lia.
  - apply Z.testbit_false; [done|]. by rewrite Z.div_small by lia.
Qed.

(** [sign_extend] keeps the low [sign_bit + 1] bits, read as a signed number. *)
Lemma sign_extend_eq value sign_bit : in_u64 value -> 0 <= sign_bit < 64 ->
  sign_extend value sign_bit =
  Ok (Scalar.to_signed (sign_bit + 1) (value mod 2 ^ (sign_bit + 1)) mod 2 ^ 64).
Proof.
  intros Hv Hb. unfold sign_extend. rewrite checked_add_fits by lia. cbn [ok_or mbind result_bind].
  set (w := sign_bit + 1) in *. pose proof (Z.pow_pos_nonneg 2 w ltac:(lia) ltac:(lia)) as Hpos.
  assert (Hmask : (if w =? 64 then Ok u64_max
     else ok_or (match checked_shl 64 1 w with Some mask => checked_sub mask 1 | None => None end)
            (Backend "Windows sign-extension mask overflow")) = Ok (Z.ones w) :> Result Z).
  { destruct (Z.eqb_spec w 64) as [->|]; [done|]. unfold checked_shl.
    destruct (Z.ltb_spec w 64); [|lia].
    rewrite Z.shiftl_1_l, Z.mod_small by (split; [lia|apply Z.pow_lt_mono_r; lia]).
    rewrite checked_sub_fits by lia. rewrite <- ones_eq by lia. done. }
  rewrite Hmask. cbn [mbind result_bind]. unfold checked_shl. destruct (Z.ltb_spec sign_bit 64); [|lia].
  rewrite Z.shiftl_1_l, Z.mod_small by (split; [lia|apply Z.pow_lt_mono_r; lia]).
  cbn [ok_or mbind result_bind]. rewrite Z.land_ones by lia. set (v := value mod 2 ^ w).
  assert (Hvr : 0 <= v < 2 ^ w) by (apply Z.mod_pos_bound; lia).
  assert (Hw : 2 ^ w = 2 * 2 ^ sign_bit) by (unfold w; rewrite Z.pow_add_r by lia; lia).
  pose proof (Z.pow_le_mono_r 2 w 64 ltac:(lia) ltac:(lia)) as Hle.
  rewrite land_pow2_eqb, testbit_top by lia. unfold Scalar.to_signed.
  replace (w - 1) with sign_bit by lia.
  destruct (Z.leb_spec (2 ^ sign_bit) v); destruct (Z.ltb_spec v (2 ^ sign_bit)); try lia; cbn [negb].
  - rewrite wnot_ones by lia. f_equal.
    assert (Hhigh : (2 ^ 64 - 2 ^ w) mod 2 ^ w = 0).
    { replace (2 ^ 64 - 2 ^ w) with ((2 ^ (64 - w) - 1) * 2 ^ w); [by apply Z.mod_mul; lia|].
      rewrite Z.mul_sub_distr_r, <- Z.pow_add_r by lia. do 2 f_equal; lia. }
    rewrite Z.lor_comm, (lor_add _ _ w) by (done || lia).
    apply (Z.mod_unique_pos _ _ (-1)); lia.
  - by rewrite Z.mod_small by lia.
Qed.

(** ** Reading Windows structures *)

Import WindowsIntrospector.

(** The text of well-formed UTF-16. *)
Definition utf16_text (words : list Z) (s : string) : Prop :=
  exists cs, Forall scalar cs /\ words = concat (encode_utf16 <$> cs) /\
             s = string_of_bytes (concat (encode_utf8 <$> cs)).

Lemma length_words_of bytes : (2 * length (words_of bytes) <= length bytes)%nat.
Proof.
  remember (length bytes) as n eqn:En. revert bytes En. induction n as [n IH] using lt_wf_ind.
  intros [|a [|b bytes]] ->; cbn [words_of length]; [lia..|].
  specialize (IH (length bytes) ltac:(cbn; lia) bytes eq_refl). lia.
Qed.

Lemma words_of_range bytes : Forall in_u16 (words_of bytes).
Proof.
  remember (length bytes) as n eqn:En. revert bytes En. induction n as [n IH] using lt_wf_ind.
  intros [|a [|b bytes]] ->; cbn [words_of]; [constructor..|]. constructor.
  - exact (le_val_range [a; b]).
  - apply (IH (length bytes)); [cbn; lia|done].
Qed.

Lemma decode_utf16_words_Ok `{Allocator} words description s :
  Forall in_u16 words -> decode_utf16_words words description = Ok s -> utf16_text words s.
Proof.
  intros Hw Hs. unfold decode_utf16_words in Hs. inv_ok. subst s.
  apply push_characters_Ok in Hm1 as (cs & Hcs & ->).
  apply decode_utf16_Ok in Hcs as [? ?]; [|done]. by exists cs.
Qed.

Lemma decode_utf16_words_ample `{Allocator} words description s :
  ample -> 3 * zlen words <= isize_max -> utf16_text words s ->
  decode_utf16_words words description = Ok s.
Proof.
  intros Hample Hmax (cs & Hcs & -> & ->). unfold decode_utf16_words.
  rewrite checked_mul_fits by (unfold isize_max in *; lia). cbn [ok_or mbind result_bind].
  unfold try_reserve. rewrite Hample by lia. cbn [map_err mbind result_bind].
  rewrite decode_utf16_concat by done.
  assert (push_characters description (Ok <$> cs) [] = Ok (concat (encode_utf8 <$> cs))) as ->; [|done].
  apply push_characters_Ok. by exists cs.
Qed.

Section facts.
Context {St : Type} `{Allocator, !Guest St} {byte_at : Z -> option byte} {I : St -> Prop}.
Context `{!GuestMemory byte_at I}.

Abbreviation int n a := (le_at (byte_at := byte_at) n a).
Abbreviation run m P := (reads (I := I) m P).

Lemma reads_wadd a b what : run (add a b what) (fun v => v = a + b /\ v < 2 ^ 64).
Proof. apply reads_checked_add. Qed.

(** A field: an address sum and an integer read. *)
Lemma reads_wfield {A} n base offset what short (k : Z -> stateful St VmiError.t A) P :
  in_u64 base -> in_u64 offset -> (0 < n)%nat -> Z.of_nat n <= isize_max ->
  (forall v, int n (base + offset) = Some v -> run (k v) (P v)) ->
  run (let? address := add base offset what in let? v := read_le n short address in k v)
    (fun r => exists v, int n (base + offset) = Some v /\ P v r).
Proof.
  intros Hb Ho Hn Hmax Hk. eapply reads_iff.
  { eapply reads_bind; [apply reads_wadd|intros a [Ha ?]].
    eapply reads_bind; [by apply reads_le; [unfold in_width in *; lia|]|intros v Hv].
    cbv beta in Hv. rewrite Ha in Hv. by apply Hk. }
  intros r. cbv beta. split.
  - intros (a & [-> _] & v & Hv & Hr). by exists v.
  - intros (v & Hv & Hr). pose proof (int_bounds _ _ _ Hv ltac:(lia)).
    eexists. split; [split; [done|lia]|]. by exists v.
Qed.

(** A well-formed [UNICODE_STRING] in guest memory. *)
Definition unicode_at (a maximum : Z) (s : string) : Prop :=
  exists length declared,
    int 2 a = Some length /\ int 2 (a + 2) = Some declared /\
    length <= declared /\ length <= maximum /\ length mod 2 = 0 /\
    ((length = 0 /\ s = ""%string) \/
     (length <> 0 /\ exists buffer bs, int 8 (a + 8) = Some buffer /\ buffer <> 0 /\
        bytes_at byte_at buffer length = Some bs /\ utf16_text (words_of bs) s)).

Lemma reads_utf16 bytes : zlen bytes < 2 ^ 16 ->
  run (let? _ := lift (map_err (fun error =>
          Backend ("failed to allocate Windows Unicode buffer: " +:+ error))
        (try_reserve "Windows Unicode buffer" (zlen bytes / 2))) in
      lift (decode_utf16_words (words_of bytes) "Windows module name"))
    (utf16_text (words_of bytes)).
Proof.
  intros Hl st Hst. cbn. unfold mbind, stateful_bind, lift. unfold try_reserve.
  assert (Hdiv : zlen bytes / 2 <= isize_max).
  { pose proof (Z.div_le_upper_bound (zlen bytes) 2 isize_max ltac:(lia) ltac:(unfold isize_max; lia)). done. }
  pose proof (words_of_range bytes) as Hw. pose proof (length_words_of bytes) as Hlen.
  destruct (alloc_ok "Windows Unicode buffer" _) eqn:E; cbn; (split; [done|]); split.
  - intros s. by apply decode_utf16_words_Ok.
  - intros Hample s Hs. apply decode_utf16_words_ample; [done|unfold zlen, isize_max in *; lia|done].
  - done.
  - intros Hample. by rewrite Hample in E.
Qed.

Lemma reads_unicode_string a maximum : in_u64 a ->
  run (read_unicode_string a maximum) (unicode_at a maximum).
Proof.
  intros Ha. unfold read_unicode_string. eapply reads_iff.
  { eapply reads_bind; [apply reads_le; [done|by vm_compute]|intros length Hlength].
    apply reads_wfield; [done|width_const|lia|by vm_compute|intros declared Hdeclared].
    apply reads_if; intros Hguard; [apply reads_fail|].
    apply reads_if; intros Hzero; [apply reads_ret|].
    apply reads_wfield; [done|width_const|lia|by vm_compute|intros buffer Hbuffer].
    apply reads_if; intros Hnull; [apply reads_fail|].
    apply le_at_range in Hlength, Hbuffer. unfold in_width in Hlength.
    eapply reads_bind; [apply reads_virtual; [done|lia]|intros bs [Hbs _]].
    apply reads_utf16. apply bytes_at_bounds in Hbs as [_ ->]; lia. }
  intros s. unfold unicode_at. cbv beta. split.
  - intros (length & Hl & declared & Hd & Hif). exists length, declared. do 2 (split; [done|]).
    destruct (_ || _) eqn:Hguard; [done|]. rewrite !orb_false_iff, !Z.ltb_ge, negb_false_iff, Z.eqb_eq in Hguard.
    destruct Hguard as [[? ?] ?]. do 3 (split; [done|]).
    destruct (Z.eqb_spec length 0); [by left|right]. split; [done|].
    destruct Hif as (buffer & Hb & Hif). destruct (Z.eqb_spec buffer 0); [done|].
    destruct Hif as (bs & [Hbs _] & Hs). by exists buffer, bs.
  - intros (length & declared & Hl & Hd & ? & ? & Hmod & Hs). exists length. split; [done|].
    exists declared. split; [done|]. replace (_ || _) with false
      by (symmetry; rewrite !orb_false_iff, !Z.ltb_ge, negb_false_iff, Z.eqb_eq; done).
    destruct Hs as [[-> ->]|(Hne & buffer & bs & Hb & Hnz & Hbs & Hs)]; [done|].
    destruct (Z.eqb_spec length 0); [done|]. exists buffer. split; [done|].
    destruct (Z.eqb_spec buffer 0); [done|]. exists bs. split; [split; [done|]|done].
    apply le_at_range in Hl. unfold in_width, isize_max in *. lia.
Qed.

(** ** Modules *)

Section modules.
Context (offsets : WindowsModuleOffsets.t) (limit : Z).
Context (Hbase : in_u64 (WindowsModuleOffsets.dll_base offsets))
  (Hsize : in_u64 (WindowsModuleOffsets.size_of_image offsets))
  (Hname : in_u64 (WindowsModuleOffsets.base_dll_name offsets))
  (Hlinks : in_u64 (WindowsModuleOffsets.in_load_order_links offsets)).

(** The module a loader entry in guest memory describes. *)
Definition wmodule_at (entry : Z) (m : WindowsModule.t) : Prop :=
  WindowsModule.entry m = Gva.new entry /\
  int 8 (entry + WindowsModuleOffsets.dll_base offsets) = Some (Gva.raw (WindowsModule.base m)) /\
  int 4 (entry + WindowsModuleOffsets.size_of_image offsets) = Some (WindowsModule.size m) /\
  unicode_at (entry + WindowsModuleOffsets.base_dll_name offsets)
    (WindowsModuleOffsets.maximum_name_bytes offsets) (WindowsModule.name m).

Definition wmodule_entry (node entry : Z) : Prop :=
  entry = node - WindowsModuleOffsets.in_load_order_links offsets /\
  WindowsModuleOffsets.in_load_order_links offsets <= node.

Lemma unicode_at_bounds a maximum s : unicode_at a maximum s -> a + 2 <= 2 ^ 64.
Proof. intros (l & d & Hl & _). exact (int_bounds 2 a l Hl ltac:(lia)). Qed.

Lemma reads_wmodule entry : in_u64 entry -> run (read_module entry offsets) (wmodule_at entry).
Proof.
  intros He. unfold read_module. eapply reads_iff.
  { apply reads_wfield; [done|done|lia|by vm_compute|intros base Hb].
    apply reads_wfield; [done|done|lia|by vm_compute|intros size_ Hs].
    eapply reads_bind; [apply reads_wadd|intros na [Hna ?]].
    eapply reads_bind; [apply reads_unicode_string; unfold in_width in *; lia|intros name Hn].
    apply reads_ret. }
  intros m. unfold wmodule_at. cbv beta. split.
  - by intros (base & Hb & size_ & Hs & na & [-> _] & name & Hn & <-).
  - intros (He' & Hb & Hs & Hn). pose proof (unicode_at_bounds _ _ _ Hn).
    eexists. split; [done|]. eexists. split; [done|]. eexists. split; [split; [done|lia]|].
    eexists. split; [done|]. destruct m as [? ? [] ?]. cbn in *. by subst.
Qed.

Lemma reads_wmodule_walk head node : in_u64 node -> 1 <= limit ->
  run (walk_list (module_walk offsets limit) head limit node)
    (fun ms => exists nodes,
       circle head wmodule_entry wmodule_at (fun node n => int 8 node = Some n) node nodes ms /\
       NoDup nodes /\ zlen ms <= limit /\ zlen ms <= isize_max).
Proof.
  intros Hnode Hlimit. apply reads_walk_list; [| | | |done|done]; cbn [module_walk w_entry w_read w_next].
  - intros n _. apply reads_checked_sub.
  - intros n e Hn [-> ?]. apply reads_wmodule. unfold in_width in *. lia.
  - intros n e Hn _. by apply reads_le.
  - intros n m Hm. by apply le_at_range in Hm.
Qed.
End modules.

(** ** Handle tables *)

Section handles.
Context (offsets : WindowsHandleTableOffsets.t).
Abbreviation entry_size := (WindowsHandleTableOffsets.entry_size offsets).
Context (Hentry : 0 < entry_size <= 4096).

(** A page of a handle table: a pointer whose low four bits are flags. *)
Definition table_page (table index page : Z) : Prop :=
  exists v, int 8 (table + index * 8) = Some v /\ page = 16 * (v / 16) /\ page <> 0 /\ page mod 4096 = 0.

(** Where the entry of a handle index is, by the level of the table: in the
    table itself, in a page it points to, or in a page of a page. *)
Definition entry_at (base level index entry : Z) : Prop :=
  let per_page := 4096 / entry_size in
  exists page,
    match level with
    | 0 => page = base
    | 1 => table_page base (index / per_page) page
    | 2 => exists directory, table_page base (index / per_page / 512) directory /\
                             table_page directory (index / per_page mod 512) page
    | _ => False
    end /\
    entry = page + (index mod per_page) * entry_size /\ entry < 2 ^ 64.

Lemma reads_table_pointer table index : in_u64 table -> in_u64 index ->
  run (read_table_pointer table index) (table_page table index).
Proof.
  intros Ht Hi. unfold read_table_pointer. eapply reads_iff.
  { eapply reads_bind; [apply reads_option|intros offset Hoff].
    apply checked_mul_Some in Hoff as [Hoff ?].
    eapply reads_bind; [apply reads_checked_add|intros address [Ha ?]].
    eapply reads_bind; [by apply reads_le; [unfold in_width in *; lia|]|intros v _]. cbv zeta.
    apply reads_if; intros _; [apply reads_fail|apply reads_ret]. }
  intros page. unfold table_page.
  assert (Hpage : forall v, int 8 (table + index * 8) = Some v -> Z.land v (wnot 64 15) = 16 * (v / 16)).
  { intros v Hv. apply le_at_range in Hv. rewrite land_wnot by (done || lia).
    exact (ldiff_ones_div v 4 ltac:(lia)). }
  assert (Hlow : forall p, Z.land p 4095 = p mod 4096).
  { intros p. exact (Z.land_ones p 12 ltac:(lia)). }
  split.
  - intros (offset & Hoff & a & [-> _] & v & Hv & Hif). apply checked_mul_Some in Hoff as [-> _].
    exists v. split; [done|]. rewrite Hpage, Hlow in Hif by done.
    destruct (Z.eqb_spec (16 * (v / 16)) 0); cbn [orb] in Hif; [done|].
    destruct (Z.eqb_spec (16 * (v / 16) mod 4096) 0); cbn [negb] in Hif; [by subst|done].
  - intros (v & Hv & -> & Hnz & Hal). pose proof (int_bounds _ _ _ Hv ltac:(lia)).
    unfold in_width in *. exists (index * 8). split; [apply checked_mul_fits; lia|].
    eexists. split; [split; [done|lia]|]. exists v. split; [done|]. rewrite Hpage, Hlow by done.
    destruct (Z.eqb_spec (16 * (v / 16)) 0); [done|]. cbn [orb]. by rewrite Hal.
Qed.

Lemma table_page_range table index page : table_page table index page -> in_u64 page.
Proof.
  intros (v & Hv & -> & _). apply le_at_range in Hv. unfold in_width in *.
  pose proof (Z.div_mod v 16). pose proof (Z.mod_pos_bound v 16). lia.
Qed.

Lemma reads_leaf base level leaf : in_u64 base -> in_u64 leaf ->
  run ((if level =? 0 then mret base
        else if level =? 1 then read_table_pointer base leaf
        else if level =? 2 then
          let directory_index := leaf / POINTERS_PER_PAGE in
          let pointer_index := leaf mod POINTERS_PER_PAGE in
          let? directory := read_table_pointer base directory_index in
          read_table_pointer directory pointer_index
        else fail (Backend ("invalid Windows handle table level " +:+ dec level))) : stateful St VmiError.t Z)
    (fun page => match level with
     | 0 => page = base
     | 1 => table_page base leaf page
     | 2 => exists directory, table_page base (leaf / 512) directory /\
                              table_page directory (leaf mod 512) page
     | _ => False
     end).
Proof.
  intros Hb Hl. change POINTERS_PER_PAGE with 512.
  pose proof (Z.div_mod leaf 512). pose proof (Z.mod_pos_bound leaf 512).
  destruct (Z.eqb_spec level 0) as [->|]; [eapply reads_iff; [apply reads_ret|by intros]|].
  destruct (Z.eqb_spec level 1) as [->|]; [by apply reads_table_pointer|].
  destruct (Z.eqb_spec level 2) as [->|].
  - cbv zeta. unfold in_width in *. eapply reads_bind; [apply reads_table_pointer; unfold in_width; lia|].
    intros directory Hd. apply reads_table_pointer; [by eapply table_page_range|unfold in_width; lia].
  - eapply reads_iff; [apply reads_fail|]. intros page.
    destruct level as [|[[?|?|]|[?|?|]|]|]; (done || lia).
Qed.

Lemma reads_handle_entry base level index : in_u64 base -> in_u64 index ->
  run (handle_entry_address base level index entry_size) (entry_at base level index).
Proof.
  intros Hb Hi. unfold handle_entry_address, checked_div, checked_rem.
  assert (Hper : 1 <= 4096 / entry_size) by (apply Z.div_le_lower_bound; lia).
  pose proof (Z.mul_div_le 4096 entry_size ltac:(lia)) as Hmul.
  pose proof (Z.mod_pos_bound index (4096 / entry_size) ltac:(lia)) as Hmod.
  pose proof (Z.div_mod index (4096 / entry_size) ltac:(lia)) as Hdiv.
  change PAGE_SIZE with 4096. destruct (Z.eqb_spec entry_size 0); [lia|].
  assert (Hnz : (4096 / entry_size =? 0) = false) by (apply Z.eqb_neq; lia).
  rewrite Hnz. cbn [negb ok_or].
  assert (Hleaf : in_u64 (index / (4096 / entry_size))).
  { unfold in_width in *. split; [apply Z.div_pos; lia|]. nia. }
  set (per := 4096 / entry_size) in *.
  eapply reads_iff.
  { apply reads_bind_value. rewrite Hnz. do 2 apply reads_bind_value.
    eapply reads_bind; [by apply reads_leaf|intros page _].
    eapply reads_bind; [apply reads_option|intros offset _]. apply reads_checked_add. }
  intros entry. unfold entry_at. fold per.
  rewrite checked_mul_fits by nia. split.
  - intros (page & Hpage & ? & [= <-] & -> & ?). by exists page.
  - intros (page & Hpage & -> & ?). exists page. split; [done|]. by eexists.
Qed.

Lemma entry_at_range base level index entry : in_u64 base -> 0 <= index ->
  entry_at base level index entry -> in_u64 entry.
Proof.
  intros Hb Hi (page & Hpage & -> & Hlt). unfold in_width in *. split; [|done].
  assert (0 <= page).
  { destruct level as [|[[?|?|]|[?|?|]|]|]; [by subst; lia|done|done|done|done|done| |by apply table_page_range in Hpage as []|done].
    destruct Hpage as (d & _ & Hp). by apply table_page_range in Hp as []. }
  pose proof (Z.mod_pos_bound index (4096 / entry_size)).
  assert (1 <= 4096 / entry_size) by (apply Z.div_le_lower_bound; lia). nia.
Qed.

Context (Hobject : in_u64 (WindowsHandleTableOffsets.entry_object offsets))
  (Haccess : in_u64 (WindowsHandleTableOffsets.entry_granted_access offsets))
  (Hshift : 0 <= WindowsHandleTableOffsets.object_pointer_shift offsets < 64)
  (Hsign : 0 <= WindowsHandleTableOffsets.object_pointer_sign_bit offsets < 64).

(** The object pointer an entry encodes: masked, shifted within 64 bits and
    sign-extended; no object when nothing is left of it. *)
Definition decoded_pointer (encoded : Z) : Z :=
  (Z.land encoded (WindowsHandleTableOffsets.object_pointer_mask offsets) *
   2 ^ WindowsHandleTableOffsets.object_pointer_shift offsets) mod 2 ^ 64.
Definition object_of (pointer : Z) : Gva.t :=
  let width := WindowsHandleTableOffsets.object_pointer_sign_bit offsets + 1 in
  Gva.new (Scalar.to_signed width (pointer mod 2 ^ width) mod 2 ^ 64).

(** The handle of an index, if its entry is in use. *)
Definition handle_slot (base level index : Z) (o : option WindowsHandle.t) : Prop :=
  exists entry encoded,
    entry_at base level index entry /\
    int 8 (entry + WindowsHandleTableOffsets.entry_object offsets) = Some encoded /\
    ((decoded_pointer encoded = 0 /\ o = None) \/
     (decoded_pointer encoded <> 0 /\ exists access,
        int 4 (entry + WindowsHandleTableOffsets.entry_granted_access offsets) = Some access /\
        o = Some (WindowsHandle.mk (4 * index) (object_of (decoded_pointer encoded)) access))).

Lemma reads_handle_at base level index output :
  in_u64 base -> 0 <= index < 2 ^ 62 -> zlen output <= index ->
  run (handle_at offsets base level index output)
    (fun out => exists o, handle_slot base level index o /\ out = output ++ option_list o).
Proof.
  intros Hb Hi Hout. unfold handle_at. rewrite try_width_fits by lia. cbn [ok_or].
  assert (Hptr : forall encoded, checked_shl 64 (Z.land encoded (WindowsHandleTableOffsets.object_pointer_mask offsets))
    (WindowsHandleTableOffsets.object_pointer_shift offsets) = Some (decoded_pointer encoded)).
  { intros e. unfold checked_shl, decoded_pointer. rewrite Z.shiftl_mul_pow2 by lia.
    destruct (Z.ltb_spec (WindowsHandleTableOffsets.object_pointer_shift offsets) 64); [done|lia]. }
  eapply reads_iff.
  { apply reads_bind_value.
    eapply reads_bind; [apply reads_handle_entry; [done|unfold in_width; lia]|intros entry He].
    apply entry_at_range in He; [|done|lia].
    apply reads_wfield; [done|done|lia|by vm_compute|intros encoded _].
    rewrite Hptr. cbn [ok_or]. apply reads_bind_value.
    apply reads_if; intros _; [apply reads_ret|].
    rewrite sign_extend_eq by (done || (unfold decoded_pointer; apply Z.mod_pos_bound; lia)).
    apply reads_bind_value.
    apply reads_wfield; [done|done|lia|by vm_compute|intros access _].
    eapply reads_bind; [apply reads_reserve_one|intros ? _].
    rewrite checked_mul_fits by lia. cbn [ok_or]. apply reads_bind_value. apply reads_ret. }
  intros out. unfold handle_slot. cbv beta. split.
  - intros (entry & He & encoded & Henc & Hif). destruct (Z.eqb_spec (decoded_pointer encoded) 0).
    + exists None. rewrite app_nil_r. split; [exists entry, encoded; auto|done].
    + destruct Hif as (access & Ha & _ & _ & <-). eexists (Some _). split; [|done].
      exists entry, encoded. do 2 (split; [done|]). right. split; [done|]. exists access.
      split; [done|]. by rewrite Z.mul_comm.
  - intros (o & (entry & encoded & He & Henc & Ho) & ->). exists entry. split; [done|].
    exists encoded. split; [done|]. destruct Ho as [[-> ->]|(Hnz & access & Ha & ->)].
    + by rewrite app_nil_r.
    + destruct (Z.eqb_spec (decoded_pointer encoded) 0); [done|]. exists access. split; [done|].
      exists tt. split; [unfold isize_max; lia|]. by rewrite Z.mul_comm.
Qed.

Lemma for_rel_slots (slot : Z -> option WindowsHandle.t -> Prop) n i output out :
  for_rel (fun j a a' => exists o, slot j o /\ a' = a ++ option_list o) n i output out <->
  exists slots, Forall2 slot (seqZ i (Z.of_nat n)) slots /\ out = output ++ omap id slots.
Proof.
  revert i output. induction n as [|n IH]; intros i output; cbn [for_rel].
  - split; [intros <-; exists []; by rewrite app_nil_r|].
    intros (slots & Hs & ->). inversion Hs. by rewrite app_nil_r.
  - rewrite (seqZ_cons i (Z.of_nat (S n))) by lia.
    replace (Z.pred (Z.of_nat (S n))) with (Z.of_nat n) by lia. split.
    + intros (a' & (o & Ho & ->) & Hr). apply IH in Hr as (slots & Hs & ->).
      exists (o :: slots). split; [by constructor|]. rewrite <- app_assoc. f_equal. by destruct o.
    + intros (slots & Hs & ->). inversion Hs as [|? o ? slots' Ho Hs']; subst.
      eexists. split; [by exists o|]. apply IH. exists slots'. split; [done|].
      rewrite <- app_assoc. f_equal. by destruct o.
Qed.

Lemma reads_handle_loop base level count : in_u64 base -> 0 <= count <= 2 ^ 62 ->
  run (for_m (Z.to_nat count) 0 (handle_at offsets base level) [])
    (fun hs => exists slots, Forall2 (handle_slot base level) (seqZ 0 count) slots /\ hs = omap id slots).
Proof.
  intros Hb Hc. eapply reads_iff.
  { apply (reads_for _
      (fun j a a' => exists o, handle_slot base level j o /\ a' = a ++ option_list o)
      (fun j a => 0 <= j /\ zlen a <= j)).
    - intros j a Hj [_ Ha]. apply reads_handle_at; [done|lia|done].
    - intros j a a' [Hj Ha] (o & _ & ->). rewrite zlen_app. unfold zlen in *. destruct o; cbn; lia.
    - split; [lia|done]. }
  intros hs. rewrite for_rel_slots, Z2Nat.id by lia. done.
Qed.
End handles.

Lemma handle_guard eprocess limit es sh sb :
  0 <= eprocess -> 0 <= limit -> 0 <= es ->
  ((eprocess =? 0) || (limit =? 0) || (es =? 0) || (4096 <? es)
     || negb (bool_decide (checked_rem 4096 es = Some 0)) || (64 <=? sh) || (64 <=? sb)) = false <->
  eprocess <> 0 /\ 0 < limit /\ 0 < es <= 4096 /\ 4096 mod es = 0 /\ sh < 64 /\ sb < 64.
Proof.
  intros. rewrite !orb_false_iff, !Z.eqb_neq, !Z.ltb_ge, !Z.leb_gt, negb_false_iff, bool_decide_eq_true.
  unfold checked_rem. destruct (Z.eqb_spec es 0); intuition (congruence || lia).
Qed.
End facts.

(** * Properties *)

(** C19: listing kernel modules is exact.  It succeeds, when memory is
    available, exactly when the limit and the name bound are valid, the
    profile has [PsLoadedModuleList], and the loader entries from there come
    back to it without a repetition and within the limit, each with a name
    that is well-formed UTF-16 of even length within its declared maximum
    and the bound; it returns their bases, sizes and names, in list order,
    the name of a module being the UTF-8 of its code points. *)
Theorem windows_modules_exact {St} `{Allocator, !Guest St} (byte_at : Z -> option byte)
    (I : St -> Prop) `{!GuestMemory byte_at I} (self : WindowsIntrospector.t)
    (offsets : WindowsModuleOffsets.t) (limit : Z)
    (Hlimit : in_u64 limit) (Hmaximum : in_u64 (WindowsModuleOffsets.maximum_name_bytes offsets))
    (Hoffsets : Forall in_u64 [WindowsModuleOffsets.dll_base offsets;
       WindowsModuleOffsets.size_of_image offsets; WindowsModuleOffsets.base_dll_name offsets;
       WindowsModuleOffsets.in_load_order_links offsets])
    (Hsym : forall s, SymbolTable.symbol (profile self) "PsLoadedModuleList" = Some s ->
       in_u64 (Symbol.address s)) :
  reads (I := I) (modules self offsets limit) (fun ms =>
    0 < limit /\ 0 < WindowsModuleOffsets.maximum_name_bytes offsets <= 65536 /\
    exists symbol first nodes,
      SymbolTable.symbol (profile self) "PsLoadedModuleList" = Some symbol /\
      le_at (byte_at := byte_at) 8 (Symbol.address symbol) = Some first /\
      circle (Symbol.address symbol) (wmodule_entry offsets) (wmodule_at (byte_at := byte_at) offsets)
        (fun node next => le_at (byte_at := byte_at) 8 node = Some next) first nodes ms /\
      NoDup nodes /\ zlen ms <= limit /\ zlen ms <= isize_max).
Proof.
  unfold modules. unfold in_width in Hlimit, Hmaximum. rewrite !Forall_cons in Hoffsets.
  destruct Hoffsets as (? & ? & ? & ? & _). cbv zeta.
  destruct ((limit =? 0) || (WindowsModuleOffsets.maximum_name_bytes offsets =? 0)
    || (65536 <? WindowsModuleOffsets.maximum_name_bytes offsets)) eqn:Hguard.
  { eapply reads_iff; [apply reads_fail|]. intros ms. split; [done|]. intros (? & ? & _). exfalso. lia. }
  assert (Hok : 0 < limit /\ 0 < WindowsModuleOffsets.maximum_name_bytes offsets <= 65536) by lia.
  destruct Hok as [Hl Hc]. eapply reads_iff.
  { eapply reads_bind; [apply reads_option|intros symbol Hsymbol].
    eapply reads_bind; [apply reads_le; [by apply Hsym|by vm_compute]|intros node Hnode].
    apply reads_wmodule_walk; [done..|by apply le_at_range in Hnode|lia]. }
  intros ms. cbv beta. split.
  - intros (symbol & Hs & node & Hn & nodes & Hrest). do 2 (split; [done|]). by exists symbol, node, nodes.
  - intros (_ & _ & symbol & node & nodes & Hs & Hn & Hrest). exists symbol. split; [done|].
    exists node. split; [done|]. by exists nodes.
Qed.

(** One loader entry, whose name is two characters, the second beyond the
    basic plane. *)
Definition wmodule_memory : list (Z * list byte) :=
  [(0x100, le_bytes 8 0x200);
   (0x200, le_bytes 8 0x100 ++ le_bytes 8 0xfffff80000000000 ++ le_bytes 4 0x9000
             ++ le_bytes 2 6 ++ le_bytes 2 8 ++ le_bytes 4 0 ++ le_bytes 8 0x300);
   (0x300, le_bytes 2 0x41 ++ le_bytes 2 0xd83d ++ le_bytes 2 0xde00)].

Definition windows_example (symbol : string) : WindowsIntrospector.t :=
  WindowsIntrospector.new (SymbolTable.mk {[symbol := Symbol.mk symbol 0x100 None]} ∅)
    (WindowsProcessOffsets.mk 0 0 0 0 0).

Lemma windows_modules_exact_witness :
  exists st, @modules _ ample_allocator (flat_guest (patched_byte wmodule_memory))
    (windows_example "PsLoadedModuleList") (WindowsModuleOffsets.mk 0 8 16 20 512) 5 tt
  = (Ok [WindowsModule.mk (Gva.new 0x200)
           (string_of_bytes [x41; xf0; x9f; x98; x80]) (Gva.new 0xfffff80000000000) 0x9000], st).
Proof.
  pose proof (flat_guest_memory (patched_byte wmodule_memory)) as Hguest. exists tt.
  pose proof (@windows_modules_exact _ ample_allocator _ _ _ Hguest
    (windows_example "PsLoadedModuleList") (WindowsModuleOffsets.mk 0 8 16 20 512) 5
    ltac:(width_const) ltac:(width_const)
    ltac:(repeat constructor; vm_compute; intuition discriminate)
    ltac:(intros s [= <-]; width_const) tt Logic.I) as Hall.
  destruct (modules _ _ _ tt) as [r []]. destruct Hall as (_ & _ & Hall). f_equal.
  apply Hall; [apply ample_ample|]. split; [reflexivity|]. split; [vm_compute; intuition discriminate|].
  exists (Symbol.mk "PsLoadedModuleList" 0x100 None), 0x200, [0x200].
  do 2 (split; [vm_compute; reflexivity|]).
  split; [|split; [apply NoDup_singleton|split; vm_compute; discriminate]].
  eapply (circle_node _ _ _ _ 0x200 0x200 _ 0x100); [discriminate|by split|
    |vm_compute; reflexivity|apply circle_head].
  split; [reflexivity|]. do 2 (split; [vm_compute; reflexivity|]).
  exists 6, 8. do 2 (split; [vm_compute; reflexivity|]). do 2 (split; [discriminate|]).
  split; [reflexivity|]. right. split; [discriminate|]. eexists 0x300, _.
  split; [vm_compute; reflexivity|]. split; [discriminate|]. split; [vm_compute; reflexivity|].
  exists [0x41; 0x1f600]. split; [repeat constructor; vm_compute; intuition discriminate|].
  split; vm_compute; reflexivity.
Defined.

(** C18: listing a process's handles is exact.  It succeeds, when memory is
    available, exactly when the arguments are valid and either the process
    has no handle table, and then there are no handles, or its table has a
    level up to two, a non-null base, an aligned count within the limit, and
    every entry below that count can be reached through page pointers that
    are aligned and not null; it then returns, in order of handle value, the
    entries in use, each with its sign-extended object and its access. *)
Theorem windows_handles_exact {St} `{Allocator, !Guest St} (byte_at : Z -> option byte)
    (I : St -> Prop) `{!GuestMemory byte_at I} (eprocess limit : Z)
    (offsets : WindowsHandleTableOffsets.t)
    (Heprocess : in_u64 eprocess) (Hlimit : in_u64 limit)
    (Hoffsets : Forall in_u64 [WindowsHandleTableOffsets.eprocess_object_table offsets;
       WindowsHandleTableOffsets.table_code offsets;
       WindowsHandleTableOffsets.next_handle_needing_pool offsets;
       WindowsHandleTableOffsets.entry_size offsets; WindowsHandleTableOffsets.entry_object offsets;
       WindowsHandleTableOffsets.entry_granted_access offsets])
    (Hshift : in_u8 (WindowsHandleTableOffsets.object_pointer_shift offsets))
    (Hsign : in_u8 (WindowsHandleTableOffsets.object_pointer_sign_bit offsets)) :
  reads (I := I) (handles (Gva.new eprocess) offsets limit) (fun hs =>
    eprocess <> 0 /\ 0 < limit /\ 0 < WindowsHandleTableOffsets.entry_size offsets <= 4096 /\
    4096 mod WindowsHandleTableOffsets.entry_size offsets = 0 /\
    WindowsHandleTableOffsets.object_pointer_shift offsets < 64 /\
    WindowsHandleTableOffsets.object_pointer_sign_bit offsets < 64 /\
    exists table,
      le_at (byte_at := byte_at) 8
        (eprocess + WindowsHandleTableOffsets.eprocess_object_table offsets) = Some table /\
      ((table = 0 /\ hs = []) \/
       (table <> 0 /\ exists code next slots,
          le_at (byte_at := byte_at) 8 (table + WindowsHandleTableOffsets.table_code offsets) = Some code /\
          code mod 4 <= 2 /\ 4 * (code / 4) <> 0 /\
          le_at (byte_at := byte_at) 8
            (table + WindowsHandleTableOffsets.next_handle_needing_pool offsets) = Some next /\
          next mod 4 = 0 /\ next / 4 <= limit /\
          Forall2 (handle_slot (byte_at := byte_at) offsets (4 * (code / 4)) (code mod 4))
            (seqZ 0 (next / 4)) slots /\
          hs = omap id slots))).
Proof.
  rewrite !Forall_cons in Hoffsets. destruct Hoffsets as (? & ? & ? & Hes & ? & ? & _).
  unfold handles. unfold in_width in Hlimit, Hes, Hshift, Hsign. cbv zeta. cbn [Gva.raw].
  set (es := WindowsHandleTableOffsets.entry_size offsets) in *.
  set (sh := WindowsHandleTableOffsets.object_pointer_shift offsets) in *.
  set (sb := WindowsHandleTableOffsets.object_pointer_sign_bit offsets) in *.
  pose proof (handle_guard eprocess limit es sh sb ltac:(apply Heprocess) ltac:(lia) ltac:(lia)) as Hguard.
  destruct (_ || _) eqn:Hbool.
  { eapply reads_iff; [apply reads_fail|]. intros hs. split; [done|].
    intros (? & ? & ? & ? & ? & ? & _). exfalso. assert (true = false) by (apply Hguard; done). done. }
  destruct Hguard as [Hguard _]. specialize (Hguard eq_refl).
  destruct Hguard as (Hep & Hl & Hes' & Hdiv & Hsh & Hsb).
  assert (Hland : forall x, Z.land x 3 = x mod 4) by (intros x; exact (Z.land_ones x 2 ltac:(lia))).
  assert (Hmask : forall x, in_u64 x -> Z.land x (wnot 64 3) = 4 * (x / 4)).
  { intros x Hx. rewrite land_wnot by (done || lia). exact (ldiff_ones_div x 2 ltac:(lia)). }
  assert (Hcount : forall x, in_u64 x -> 0 <= x / 4 <= 2 ^ 62).
  { intros x [? Hx]. split; [apply Z.div_pos; lia|]. apply Z.div_le_upper_bound; lia. }
  eapply reads_iff.
  { apply reads_wfield; [done|done|lia|by vm_compute|intros table Htable].
    apply le_at_range in Htable. apply reads_if; intros _; [apply reads_ret|].
    apply reads_wfield; [done|done|lia|by vm_compute|intros code Hcode].
    apply le_at_range in Hcode. rewrite Hland, Hmask by done.
    apply reads_if; intros _; [apply reads_fail|]. apply reads_if; intros _; [apply reads_fail|].
    apply reads_wfield; [done|done|lia|by vm_compute|intros next Hnext].
    apply le_at_range, Hcount in Hnext. rewrite Hland. apply reads_if; intros _; [apply reads_fail|].
    rewrite try_width_fits by lia. cbn [ok_or]. apply reads_bind_value.
    apply reads_if; intros _; [apply reads_fail|].
    apply reads_handle_loop; try (done || lia).
    unfold in_width in *. pose proof (Z.div_mod code 4). pose proof (Z.mod_pos_bound code 4). lia. }
  intros hs. cbv beta. split.
  - intros (table & Ht & Hif). do 6 (split; [done|]). exists table. split; [done|].
    destruct (Z.eqb_spec table 0); [left; by split|right]. split; [done|].
    destruct Hif as (code & Hc & Hif). destruct (Z.ltb_spec 2 (code mod 4)); [done|].
    destruct (Z.eqb_spec (4 * (code / 4)) 0); [done|]. destruct Hif as (next & Hn & Hif).
    destruct (Z.eqb_spec (next mod 4) 0); cbn [negb] in Hif; [|done].
    destruct (Z.ltb_spec limit (next / 4)); [done|]. destruct Hif as (slots & Hs & Hh).
    exists code, next, slots. done.
  - intros (_ & _ & _ & _ & _ & _ & table & Ht & Hrest). exists table. split; [done|].
    destruct Hrest as [[-> ->]|(Hnz & code & next & slots & Hc & Hl2 & Hb & Hn & Hal & Hle & Hs & Hh)]; [done|].
    destruct (Z.eqb_spec table 0); [done|]. exists code. split; [done|].
    destruct (Z.ltb_spec 2 (code mod 4)); [lia|]. destruct (Z.eqb_spec (4 * (code / 4)) 0); [done|].
    exists next. split; [done|]. rewrite Hal. cbn [Z.eqb negb].
    destruct (Z.ltb_spec limit (next / 4)); [lia|]. by exists slots.
Qed.

(** A one-level table of one page pointer, whose second entry is unused. *)
Definition handle_memory : list (Z * list byte) :=
  [(0x110, le_bytes 8 0x200);
   (0x200, le_bytes 8 12 ++ le_bytes 8 0x301);
   (0x300, le_bytes 8 0x1008);
   (0x1000, le_bytes 8 0xc0ffee000001 ++ le_bytes 8 0x1f0003 ++ le_bytes 8 0 ++ le_bytes 8 0
             ++ le_bytes 8 0x0000123400000007 ++ le_bytes 8 0x2)].

Definition handle_offsets : WindowsHandleTableOffsets.t :=
  WindowsHandleTableOffsets.mk 16 8 0 16 0 8 0xfffffffffff8 0 47.

Lemma windows_handles_exact_witness :
  exists st, @handles _ ample_allocator (flat_guest (patched_byte handle_memory))
    (Gva.new 0x100) handle_offsets 10 tt
  = (Ok [WindowsHandle.mk 0 (Gva.new 0xffffc0ffee000000) 0x1f0003;
         WindowsHandle.mk 8 (Gva.new 0x123400000000) 2], st).
Proof.
  pose proof (flat_guest_memory (patched_byte handle_memory)) as Hguest. exists tt.
  pose proof (@windows_handles_exact _ ample_allocator _ _ _ Hguest 0x100 10 handle_offsets
    ltac:(width_const) ltac:(width_const)
    ltac:(repeat constructor; vm_compute; intuition discriminate)
    ltac:(width_const) ltac:(width_const) tt Logic.I) as Hall.
  destruct (handles _ _ _ tt) as [r []]. destruct Hall as (_ & _ & Hall). f_equal.
  apply Hall; [apply ample_ample|]. split; [discriminate|]. split; [reflexivity|].
  split; [vm_compute; intuition discriminate|]. do 3 (split; [reflexivity|]).
  exists 0x200. split; [vm_compute; reflexivity|]. right. split; [discriminate|].
  exists 0x301, 12, [Some (WindowsHandle.mk 0 (Gva.new 0xffffc0ffee000000) 0x1f0003); None;
     Some (WindowsHandle.mk 8 (Gva.new 0x123400000000) 2)].
  split; [vm_compute; reflexivity|]. split; [discriminate|]. split; [discriminate|].
  split; [vm_compute; reflexivity|]. split; [reflexivity|]. split; [discriminate|].
  split; [|reflexivity]. change (seqZ 0 (12 / 4)) with [0; 1; 2].
  repeat constructor; eexists _, _; (split; [exists 0x1000; split;
    [exists 0x1008; repeat split; (vm_compute; reflexivity) || discriminate|split; reflexivity]|]);
    (split; [vm_compute; reflexivity|]).
  - right. split; [discriminate|]. eexists. split; vm_compute; reflexivity.
  - left. split; reflexivity.
  - right. split; [discriminate|]. eexists. split; vm_compute; reflexivity.
Defined.
