(* ===== verification/WindowsProcessFacts.v ===== *)
(** * What Windows processes and file objects are ([crates/vmi-os-windows])

    The process list and a [FILE_OBJECT] are read exactly as guest memory
    holds them. *)

From S2P Require Import Prelude.
From S2P Require Import Types.
From S2P Require Import DriverApi.
From S2P Require Import Text.
From S2P Require Import Profile.
From S2P Require Import Guest.
From S2P Require Import GuestFacts.
From S2P Require Import Windows.
From S2P Require Import WindowsFacts.

Import WindowsIntrospector.

Section facts.
Context {St : Type} `{Allocator, !Guest St} {byte_at : Z -> option byte} {I : St -> Prop}.
Context `{!GuestMemory byte_at I}.

Abbreviation int n a := (le_at (byte_at := byte_at) n a).
Abbreviation run m P := (reads (I := I) m P).

(** ** Processes *)

Section processes.
Context (self : WindowsIntrospector.t).
Abbreviation o := (offsets self).

Definition wprocess_offsets_range : Prop :=
  Forall in_u64 [WindowsProcessOffsets.active_process_links o; WindowsProcessOffsets.unique_process_id o;
    WindowsProcessOffsets.image_file_name o; WindowsProcessOffsets.directory_table_base o].

(** The process an [EPROCESS] in guest memory describes. *)
Definition wprocess_at (eprocess : Z) (p : WindowsProcess.t) : Prop :=
  WindowsProcess.eprocess p = Gva.new eprocess /\
  int 8 (eprocess + WindowsProcessOffsets.unique_process_id o) = Some (WindowsProcess.pid p) /\
  int 8 (eprocess + WindowsProcessOffsets.directory_table_base o) = Some (WindowsProcess.directory_table_base p) /\
  exists bs, bytes_at byte_at (eprocess + WindowsProcessOffsets.image_file_name o)
      (WindowsProcessOffsets.image_file_name_length o) = Some bs /\
    WindowsProcess.image p = text (until_nul bs).

(** The process around a node of the list of active processes. *)
Definition wprocess_entry (node eprocess : Z) : Prop :=
  eprocess = node - WindowsProcessOffsets.active_process_links o /\
  WindowsProcessOffsets.active_process_links o <= node.

Context (Hrange : wprocess_offsets_range) (Hlen : 0 < WindowsProcessOffsets.image_file_name_length o <= 4096).

Lemma reads_wprocess eprocess : in_u64 eprocess -> run (read_process self eprocess) (wprocess_at eprocess).
Proof.
  intros He. pose proof Hrange as Hr. unfold wprocess_offsets_range in Hr. rewrite !Forall_cons in Hr.
  destruct Hr as (Hlinks & Hpid & Himage & Hdtb & _). unfold read_process. eapply reads_iff.
  { apply reads_wfield; [done|done|lia|by vm_compute|intros pid Hp].
    apply reads_wfield; [done|done|lia|by vm_compute|intros dtb Hd].
    eapply reads_bind; [apply reads_wadd|intros ia [Hia ?]].
    eapply reads_bind; [apply reads_virtual; [unfold in_width in *; lia|lia]|intros bs [Hbs _]].
    eapply reads_bind; [apply reads_decode|intros image _; apply reads_ret].
    pose proof (length_until_nul bs). apply bytes_at_bounds in Hbs as [_ Hz]; [|lia].
    unfold zlen, isize_max in *. lia. }
  intros p. unfold wprocess_at. cbv beta. split.
  - intros (pid & Hp & dtb & Hd & ia & [-> _] & bs & [Hbs _] & image & -> & <-). cbn.
    do 3 (split; [done|]). by exists bs.
  - intros (He' & Hp & Hd & bs & Hbs & Hi). destruct (bytes_at_bounds _ _ _ Hbs ltac:(lia)).
    eexists. split; [done|]. eexists. split; [done|]. eexists. split; [split; [done|lia]|].
    exists bs. split; [split; [done|unfold isize_max; lia]|]. eexists. split; [done|].
    destruct p. cbn in *. by subst.
Qed.

Lemma reads_wprocess_walk limit head node : in_u64 node -> 1 <= limit ->
  run (walk_list (process_walk self limit) head limit node)
    (fun ps => exists nodes,
       circle head wprocess_entry wprocess_at (fun node n => int 8 node = Some n) node nodes ps /\
       NoDup nodes /\ zlen ps <= limit /\ zlen ps <= isize_max).
Proof.
  intros Hnode Hlimit. pose proof Hrange as Hr. unfold wprocess_offsets_range in Hr. rewrite !Forall_cons in Hr.
  destruct Hr as (Hlinks & _). apply reads_walk_list; [| | | |done|done]; cbn [process_walk w_entry w_read w_next].
  - intros n _. apply reads_checked_sub.
  - intros n e Hn [-> ?]. apply reads_wprocess. unfold in_width in *. lia.
  - intros n e Hn _. by apply reads_le.
  - intros n m Hm. by apply le_at_range in Hm.
Qed.

Lemma wprocess_walk_ends limit head node st : in_u64 node -> 1 <= limit -> I st ->
  exists r st', loop_runs (loop_m_step (walk_list_step (process_walk self limit) head limit)) ((node, ∅, []), st) (r, st') /\
    walk_list (process_walk self limit) head limit node st = (r, st').
Proof.
  intros Hnode Hlimit Hst. pose proof Hrange as Hr. unfold wprocess_offsets_range in Hr. rewrite !Forall_cons in Hr.
  destruct Hr as (Hlinks & _).
  apply (walk_list_ends (I := I) (process_walk self limit) head limit wprocess_entry wprocess_at
    (fun node n => int 8 node = Some n)); [| | | |done..]; cbn [process_walk w_entry w_read w_next].
  - intros n _. apply reads_checked_sub.
  - intros n e Hn [-> ?]. apply reads_wprocess. unfold in_width in *. lia.
  - intros n e Hn _. by apply reads_le.
  - intros n m Hm. by apply le_at_range in Hm.
Qed.
End processes.

(** ** File objects *)

Section files.
Context (offsets : WindowsFileOffsets.t).

Definition wfile_offsets_range : Prop :=
  Forall in_u64 [WindowsFileOffsets.device_object offsets; WindowsFileOffsets.file_name offsets;
    WindowsFileOffsets.flags offsets; WindowsFileOffsets.read_access offsets;
    WindowsFileOffsets.write_access offsets; WindowsFileOffsets.delete_access offsets].

(** A [BOOLEAN] in guest memory is a byte 0 or 1. *)
Definition bool_at (a : Z) (b : bool) : Prop := int 1 a = Some (if b then 1 else 0).

Lemma reads_bool_field {A} base offset what (k : bool -> stateful St VmiError.t A) P :
  in_u64 base -> in_u64 offset -> (forall b, run (k b) (P b)) ->
  run (let? address := add base offset what in let? b := read_bool address in k b)
    (fun r => exists b, bool_at (base + offset) b /\ P b r).
Proof.
  intros Hb Ho Hk. unfold read_bool, bool_at. eapply reads_iff.
  { eapply reads_bind; [apply reads_wadd|intros a [Ha ?]]. eapply reads_bind; [|intros b _; apply Hk].
    eapply reads_bind; [apply reads_virtual; [unfold in_width in *; lia|lia]|intros bs _].
    eapply reads_bind; [apply reads_option|intros v _].
    apply reads_if; intros _; [apply reads_ret|]. apply reads_if; intros _; [apply reads_ret|apply reads_fail]. }
  intros r. unfold le_at. cbv beta. change (Z.of_nat 1) with 1. split.
  - intros (a & [-> _] & b & (bs & [Hbs _] & v & Hv & Hr) & Hp). exists b. split; [|done]. rewrite Hbs.
    apply bytes_at_length in Hbs. destruct bs as [|x [|]]; try done. injection Hv as ->.
    destruct (Z.eqb_spec (byte_val v) 0); [subst b|destruct (Z.eqb_spec (byte_val v) 1); [subst b|done]];
      cbn; f_equal; lia.
  - destruct (bytes_at byte_at (base + offset) 1) as [bs|] eqn:Hbs; [|intros (b & [=] & _)].
    intros (b & Hv & Hp). destruct (bytes_at_bounds _ _ _ Hbs ltac:(lia)) as [? _].
    pose proof (bytes_at_length _ _ _ Hbs) as Hl. destruct bs as [|x [|]]; try done. injection Hv as Hv.
    eexists. split; [split; [done|lia]|]. exists b. split; [|done]. exists [x].
    split; [split; [done|by vm_compute]|]. exists x. split; [done|]. cbn in Hv.
    destruct b; destruct (Z.eqb_spec (byte_val x) 0), (Z.eqb_spec (byte_val x) 1); (done || lia).
Qed.

Definition wfile_at (address : Z) (f : WindowsFile.t) : Prop :=
  WindowsFile.file_object f = Gva.new address /\
  int 8 (address + WindowsFileOffsets.device_object offsets) = Some (Gva.raw (WindowsFile.device_object f)) /\
  unicode_at (byte_at := byte_at) (address + WindowsFileOffsets.file_name offsets)
    (WindowsFileOffsets.maximum_name_bytes offsets) (WindowsFile.name f) /\
  int 4 (address + WindowsFileOffsets.flags offsets) = Some (WindowsFile.flags f) /\
  bool_at (address + WindowsFileOffsets.read_access offsets) (WindowsFile.read_access f) /\
  bool_at (address + WindowsFileOffsets.write_access offsets) (WindowsFile.write_access f) /\
  bool_at (address + WindowsFileOffsets.delete_access offsets) (WindowsFile.delete_access f).

(** A file object is read exactly. *)
Lemma windows_file_object address : wfile_offsets_range -> in_u64 address ->
  in_u64 (WindowsFileOffsets.maximum_name_bytes offsets) ->
  run (file_object (Gva.new address) offsets)
    (fun f => address <> 0 /\ 0 < WindowsFileOffsets.maximum_name_bytes offsets <= 65536 /\ wfile_at address f).
Proof.
  intros Hr Ha Hmax. unfold wfile_offsets_range in Hr. rewrite !Forall_cons in Hr.
  destruct Hr as (Hdev & Hname & Hflags & Hread & Hwrite & Hdelete & _).
  unfold file_object. cbn [Gva.raw]. unfold in_width in Hmax.
  destruct ((address =? 0) || (WindowsFileOffsets.maximum_name_bytes offsets =? 0)
    || (65536 <? WindowsFileOffsets.maximum_name_bytes offsets)) eqn:Hguard.
  { eapply reads_iff; [apply reads_fail|]. intros f. split; [done|]. intros (? & ? & _). exfalso. lia. }
  assert (Hok : address <> 0 /\ 0 < WindowsFileOffsets.maximum_name_bytes offsets <= 65536) by lia.
  destruct Hok as [Hne Hm]. eapply reads_iff.
  { apply reads_wfield; [done|done|lia|by vm_compute|intros device _].
    eapply reads_bind; [apply reads_wadd|intros na [Hna ?]].
    eapply reads_bind; [apply reads_unicode_string; unfold in_width in *; lia|intros name _].
    apply reads_wfield; [done|done|lia|by vm_compute|intros flags _].
    apply reads_bool_field; [done|done|intros read].
    apply reads_bool_field; [done|done|intros write].
    apply reads_bool_field; [done|done|intros delete]. apply reads_ret. }
  intros f. unfold wfile_at. cbv beta. split.
  - intros (device & Hd & na & [-> _] & name & Hn & flags & Hf & read & Hr & write & Hw & delete & Hx & <-).
    by split.
  - intros (_ & _ & Ho & Hd & Hn & Hf & Hr & Hw & Hx). pose proof (unicode_at_bounds _ _ _ Hn).
    eexists. split; [done|]. eexists. split; [split; [done|lia]|]. eexists. split; [done|].
    eexists. split; [done|]. eexists. split; [done|]. eexists. split; [done|]. eexists. split; [done|].
    destruct f as [? [] ? ? ? ? ?]. cbn in *. by subst.
Qed.
End files.
End facts.

(** The fields of the introspector that are [u64] or [usize]. *)
Definition windows_widths (self : WindowsIntrospector.t) : Prop :=
  in_u64 (WindowsProcessOffsets.image_file_name_length (offsets self)) /\ wprocess_offsets_range self /\
  forall s, SymbolTable.symbol (profile self) "PsActiveProcessHead" = Some s -> in_u64 (Symbol.address s).

(** The limit and the image length are valid, the profile has
    [PsActiveProcessHead], and the nodes from there come back to it without a
    repetition and within the limit; [ps] is the process around each node. *)
Definition windows_processes_described (byte_at : Z -> option byte) (self : WindowsIntrospector.t) (limit : Z)
    (ps : list WindowsProcess.t) : Prop :=
  0 < limit /\ 0 < WindowsProcessOffsets.image_file_name_length (offsets self) <= 4096 /\
  exists symbol first nodes,
    SymbolTable.symbol (profile self) "PsActiveProcessHead" = Some symbol /\
    le_at (byte_at := byte_at) 8 (Symbol.address symbol) = Some first /\
    circle (Symbol.address symbol) (wprocess_entry self) (wprocess_at (byte_at := byte_at) self)
      (fun node next => le_at (byte_at := byte_at) 8 node = Some next) first nodes ps /\
    NoDup nodes /\ zlen ps <= limit /\ zlen ps <= isize_max.

Lemma reads_wprocesses {St} `{Allocator, !Guest St} (byte_at : Z -> option byte)
    (I : St -> Prop) `{!GuestMemory byte_at I} (self : WindowsIntrospector.t) (limit : Z) :
  in_u64 limit -> windows_widths self ->
  reads (I := I) (processes self limit) (windows_processes_described byte_at self limit).
Proof.
  intros Hlimit (Hlength & Hoffsets & Hsym). unfold windows_processes_described, processes. unfold in_width in Hlimit, Hlength. cbv zeta.
  destruct ((limit =? 0) || (WindowsProcessOffsets.image_file_name_length (offsets self) =? 0)
    || (4096 <? WindowsProcessOffsets.image_file_name_length (offsets self))) eqn:Hguard.
  { eapply reads_iff; [apply reads_fail|]. intros ms. split; [done|]. intros (? & ? & _). exfalso. lia. }
  assert (Hok : 0 < limit /\ 0 < WindowsProcessOffsets.image_file_name_length (offsets self) <= 4096) by lia.
  destruct Hok as [Hl Hc]. eapply reads_iff.
  { eapply reads_bind; [apply reads_option|intros symbol Hsymbol].
    eapply reads_bind; [apply reads_le; [by apply Hsym|by vm_compute]|intros node Hnode].
    apply reads_wprocess_walk; [done..|by apply le_at_range in Hnode|lia]. }
  intros ps. cbv beta. split.
  - intros (symbol & Hs & node & Hn & nodes & Hrest). do 2 (split; [done|]). by exists symbol, node, nodes.
  - intros (_ & _ & symbol & node & nodes & Hs & Hn & Hrest). exists symbol. split; [done|].
    exists node. split; [done|]. by exists nodes.
Qed.

(** C21: listing Windows processes is exact.  Whatever the image holds, the
    walk from the first node ends by itself, and the answer is that of its
    run.  The listing succeeds, when memory is available, exactly when the
    limit and the image length are valid, the profile has
    [PsActiveProcessHead], and the nodes from there come back to it without a
    repetition and within the limit; it returns, in list order, the process
    around each node: its identifier, its page-table base and its image name
    up to the first NUL. *)
Theorem windows_processes_exact {St} `{Allocator, !Guest St} (byte_at : Z -> option byte)
    (I : St -> Prop) `{!GuestMemory byte_at I} (self : WindowsIntrospector.t) (limit : Z)
    (Hlimit : in_u64 limit) (Hself : windows_widths self) :
  (forall st symbol first st1, I st ->
     0 < limit /\ 0 < WindowsProcessOffsets.image_file_name_length (offsets self) <= 4096 ->
     SymbolTable.symbol (profile self) "PsActiveProcessHead" = Some symbol ->
     read_u64 (Symbol.address symbol) st = (Ok first, st1) ->
     exists r st',
       loop_runs (loop_m_step (walk_list_step (process_walk self limit) (Symbol.address symbol) limit))
         ((first, ∅, []), st1) (r, st') /\
       processes self limit st = (r, st')) /\
  reads (I := I) (processes self limit) (windows_processes_described byte_at self limit).
Proof.
  split; [|by apply reads_wprocesses]. destruct Hself as (_ & Hoffsets & Hsym).
  intros st symbol first st1 Hst [Hl Hc] Hs Hread.
  pose proof (reads_le (byte_at := byte_at) (I := I) 8 "short Windows pointer read" (Symbol.address symbol)
    (Hsym _ Hs) ltac:(by vm_compute) st Hst) as Hle.
  change (read_le 8 _ ?a) with (read_u64 a) in Hle. rewrite Hread in Hle. destruct Hle as (Hst1 & Hok & _). pose proof (le_at_range _ _ _ (Hok _ eq_refl)) as Hfirst.
  destruct (wprocess_walk_ends self Hoffsets Hc limit (Symbol.address symbol) first st1 Hfirst ltac:(lia) Hst1)
    as (r & st' & Hrun & Heq).
  exists r, st'. split; [done|]. unfold processes. cbv zeta.
  replace ((limit =? 0) || _ || _) with false by lia.
  unfold mbind, stateful_bind, lift. rewrite Hs. cbn [ok_or]. by rewrite Hread.
Qed.

(** Two processes: the links are 8 bytes into each. *)
Definition wprocess_memory : list (Z * list byte) :=
  [(0x100, le_bytes 8 0x208);
   (0x200, le_bytes 8 4 ++ le_bytes 8 0x308 ++ le_bytes 8 0x1aa000 ++ [x53; x79; x73; x00]);
   (0x300, le_bytes 8 88 ++ le_bytes 8 0x100 ++ le_bytes 8 0x1bb000 ++ [x61; x62; x63; x64])].

Definition wprocess_example : WindowsIntrospector.t :=
  WindowsIntrospector.new
    (SymbolTable.mk {["PsActiveProcessHead"%string := Symbol.mk "PsActiveProcessHead" 0x100 None]} ∅)
    (WindowsProcessOffsets.mk 8 0 24 4 16).

Lemma windows_processes_exact_witness :
  exists st, @processes _ ample_allocator (flat_guest (patched_byte wprocess_memory)) wprocess_example 2 tt
  = (Ok [WindowsProcess.mk (Gva.new 0x200) 4 "Sys" 0x1aa000;
         WindowsProcess.mk (Gva.new 0x300) 88 "abcd" 0x1bb000], st).
Proof.
  pose proof (flat_guest_memory (patched_byte wprocess_memory)) as Hguest. exists tt.
  pose proof (@windows_processes_exact _ ample_allocator _ _ _ Hguest wprocess_example 2
    ltac:(width_const)
    ltac:(split; [width_const|split; [repeat constructor; vm_compute; intuition discriminate
                                     |intros s [= <-]; width_const]])) as [_ Hall]. specialize (Hall tt Logic.I).
  destruct (processes _ _ tt) as [r []]. destruct Hall as (_ & _ & Hall). f_equal.
  apply Hall; [apply ample_ample|]. split; [reflexivity|]. split; [vm_compute; intuition discriminate|].
  exists (Symbol.mk "PsActiveProcessHead" 0x100 None), 0x208, [0x208; 0x308].
  do 2 (split; [vm_compute; reflexivity|]).
  split; [|split; [apply (bool_decide_unpack _); vm_compute; exact Logic.I|split; vm_compute; discriminate]].
  assert (Hat : forall e pid dtb image bs next, 
    le_at (byte_at := patched_byte wprocess_memory) 8 (e + 0) = Some pid ->
    le_at (byte_at := patched_byte wprocess_memory) 8 (e + 16) = Some dtb ->
    bytes_at (patched_byte wprocess_memory) (e + 24) 4 = Some bs -> image = text (until_nul bs) ->
    le_at (byte_at := patched_byte wprocess_memory) 8 (e + 8) = Some next ->
    wprocess_at (byte_at := patched_byte wprocess_memory) wprocess_example e
      (WindowsProcess.mk (Gva.new e) pid image dtb)).
  { intros e pid dtb image bs next Hp Hd Hb Hi _. split; [reflexivity|]. split; [exact Hp|]. split; [exact Hd|].
    exists bs. split; [exact Hb|exact Hi]. }
  eapply (circle_node _ _ _ _ 0x208 0x200 _ 0x308); [discriminate|split; [reflexivity|discriminate]| |vm_compute; reflexivity|].
  { eapply Hat; vm_compute; reflexivity. }
  eapply (circle_node _ _ _ _ 0x308 0x300 _ 0x100); [discriminate|split; [reflexivity|discriminate]| |vm_compute; reflexivity|apply circle_head].
  eapply Hat; vm_compute; reflexivity.
Defined.
