(* ===== verification/HostFs.v ===== *)
(** * Files that are written

    The operations of [std::fs] the providers publish their output with, on
    a disk of named files, as programs whose operations other processes may
    run between; and rely-guarantee reasoning about such programs.

    A path names a file or a directory; two paths are the same file when
    they are the same path or were linked.  Every operation may fail for
    reasons of the system: a fault is given to each. *)

From S2P Require Import Prelude.
From S2P Require Import Host.

#[global] Instance Path_countable : Countable Path.
Proof.
  refine (inj_countable' (fun p => (has_root p, components p)) (fun '(r, c) => MkPath r c) _).
  by intros [].
Defined.

(** ** The disk *)

Inductive ErrorKind : Type := NotFound | AlreadyExists | OtherKind.
Record io_error : Type := MkIoError { error_kind : ErrorKind; error_text : string }.

Abbreviation io_result A := (result io_error A).

#[global] Instance ErrorKind_eq_dec : EqDecision ErrorKind.
Proof. solve_decision. Defined.

Inductive entry : Type := IsFile (inode : Z) | IsDirectory.

#[global] Instance entry_eq_dec : EqDecision entry.
Proof. solve_decision. Defined.

(** The last field is for statements only: the name a file was created
    under, which no operation reads. *)
Record Disk : Type := MkDisk {
  names : gmap Path entry;
  inodes : gmap Z (list byte);
  next_inode : Z;
  births : gmap Z Path;
}.

(** What the file at an entry holds. *)
Definition content (d : Disk) (i : Z) : list byte := from_option id [] (inodes d !! i).

(** A failure of the system, and how much of a write it lets through. *)
Record Fault : Type := MkFault { f_error : io_error; f_written : Z }.

Definition exists_error : io_error := MkIoError AlreadyExists "File exists (os error 17)".
Definition absent_error : io_error := MkIoError NotFound "No such file or directory (os error 2)".
Definition directory_error : io_error := MkIoError OtherKind "Is a directory (os error 21)".

(** ** Operations *)

Inductive op : Type -> Type :=
| Exists (p : Path) : op bool
| SymlinkMetadata (p : Path) : op (result io_error unit)
| IsAFile (p : Path) : op bool
| CreateNew (p : Path) : op (result io_error Z)
| WriteAll (file : Z) (bytes : list byte) : op (result io_error unit)
| SyncAll (file : Z) : op (result io_error unit)
| HardLink (original link : Path) : op (result io_error unit)
| RemoveFile (p : Path) : op (result io_error unit).

Definition append (d : Disk) (i : Z) (bytes : list byte) : Disk :=
  MkDisk (names d) (<[i := content d i ++ bytes]> (inodes d)) (next_inode d) (births d).

Definition run_op {T} (fault : option Fault) (o : op T) (d : Disk) : T * Disk :=
  match o in op T return T * Disk with
  | Exists p =>
      (match fault with Some _ => false | None => bool_decide (is_Some (names d !! p)) end, d)
  | SymlinkMetadata p =>
      (match fault with
       | Some f => Err (f_error f)
       | None => match names d !! p with Some _ => Ok tt | None => Err absent_error end
       end, d)
  | IsAFile p =>
      (match fault with
       | Some _ => false
       | None => match names d !! p with Some (IsFile _) => true | _ => false end
       end, d)
  | CreateNew p =>
      match fault, names d !! p with
      | Some f, _ => (Err (f_error f), d)
      | None, Some _ => (Err exists_error, d)
      | None, None =>
          (Ok (next_inode d),
           MkDisk (<[p := IsFile (next_inode d)]> (names d)) (<[next_inode d := []]> (inodes d))
             (next_inode d + 1) (<[next_inode d := p]> (births d)))
      end
  | WriteAll file bytes =>
      match fault with
      | Some f => (Err (f_error f), append d file (take (Z.to_nat (f_written f)) bytes))
      | None => (Ok tt, append d file bytes)
      end
  | SyncAll _ => (match fault with Some f => Err (f_error f) | None => Ok tt end, d)
  | HardLink original link =>
      match fault, names d !! original, names d !! link with
      | Some f, _, _ => (Err (f_error f), d)
      | None, None, _ => (Err absent_error, d)
      | None, Some IsDirectory, _ => (Err directory_error, d)
      | None, Some (IsFile _), Some _ => (Err exists_error, d)
      | None, Some (IsFile i), None =>
          (Ok tt, MkDisk (<[link := IsFile i]> (names d)) (inodes d) (next_inode d) (births d))
      end
  | RemoveFile p =>
      match fault, names d !! p with
      | Some f, _ => (Err (f_error f), d)
      | None, None => (Err absent_error, d)
      | None, Some IsDirectory => (Err directory_error, d)
      | None, Some (IsFile _) =>
          (Ok tt, MkDisk (delete p (names d)) (inodes d) (next_inode d) (births d))
      end
  end.

(** ** Programs *)

Inductive prog (A : Type) : Type :=
| Ret (a : A)
| Vis {T : Type} (o : op T) (k : T -> prog A).
Arguments Ret {A} a.
Arguments Vis {A T} o k.

#[global] Instance prog_ret : MRet prog := @Ret.
#[global] Instance prog_bind : MBind prog := fun A B f =>
  fix go (p : prog A) : prog B :=
    match p with
    | Ret a => f a
    | Vis o k => Vis o (fun a => go (k a))
    end.

Definition do {T} (o : op T) : prog T := Vis o Ret.

(** One operation of a program. *)
Definition step_prog {A} (fault : option Fault) (p : prog A) (d : Disk) : option (prog A * Disk) :=
  match p with
  | Ret _ => None
  | Vis o k => let '(a, d') := run_op fault o d in Some (k a, d')
  end.

(** A program alone, with the faults of its operations in order, none after. *)
Fixpoint run_prog {A} (faults : list (option Fault)) (p : prog A) (d : Disk) : A * Disk :=
  match p with
  | Ret a => (a, d)
  | Vis o k =>
      let '(a, d') := run_op (from_option id None (head faults)) o d in
      run_prog (tail faults) (k a) d'
  end.

(** ** Interleavings

    A pool of programs on one disk; every step is one operation of one of
    them. *)
Section pool.
Context {A : Type}.

Inductive pool_step : list (prog A) * Disk -> list (prog A) * Disk -> Prop :=
| pool_step_intro ps d i p p' d' fault :
    ps !! i = Some p -> step_prog fault p d = Some (p', d') ->
    pool_step (ps, d) (<[i := p']> ps, d').

Definition pool_run : list (prog A) * Disk -> list (prog A) * Disk -> Prop := rtc pool_step.

(** A run by a schedule: whose operation comes next, and its fault. *)
Fixpoint schedule (turns : list (nat * option Fault)) (c : list (prog A) * Disk) : list (prog A) * Disk :=
  match turns with
  | [] => c
  | (i, fault) :: rest =>
      match fst c !! i with
      | Some p =>
          match step_prog fault p (snd c) with
          | Some (p', d') => schedule rest (<[i := p']> (fst c), d')
          | None => schedule rest c
          end
      | None => schedule rest c
      end
  end.

Lemma schedule_run turns c : pool_run c (schedule turns c).
Proof.
  revert c. induction turns as [|[i fault] turns IH]; intros [ps d]; cbn [schedule fst snd]; [apply rtc_refl|].
  destruct (ps !! i) as [p|] eqn:Hp; [|apply IH].
  destruct (step_prog fault p d) as [[p' d']|] eqn:Hs; [|apply IH].
  eapply rtc_l; [by econstructor|apply IH].
Qed.

(** [rg R G Q p d]: from disk [d], whatever steps within [R] others take,
    every operation of [p] is within [G] and its result satisfies [Q]. *)
Fixpoint rg (R G : Disk -> Disk -> Prop) (Q : A -> Disk -> Prop) (p : prog A) (d : Disk) : Prop :=
  forall d1, R d d1 ->
    match p with
    | Ret a => Q a d1
    | Vis o k => forall fault, let '(a, d2) := run_op fault o d1 in G d1 d2 /\ rg R G Q (k a) d2
    end.

Lemma rg_rely R G Q p d d' : Transitive R -> R d d' -> rg R G Q p d -> rg R G Q p d'.
Proof. intros HR Hd. destruct p; cbn; intros Hp d1 Hd1; apply Hp; by transitivity d'. Qed.

Lemma rg_step R G Q p d fault p' d' : Reflexive R ->
  rg R G Q p d -> step_prog fault p d = Some (p', d') -> G d d' /\ rg R G Q p' d'.
Proof.
  intros HR Hp Hs. destruct p as [a|T o k]; [done|]. cbn in Hs, Hp. specialize (Hp d (HR d) fault).
  destruct (run_op fault o d) as [a d2]. injection Hs as <- <-. exact Hp.
Qed.

(** Programs each of whose steps the others allow are safe together. *)
Lemma pool_safe (R G : nat -> Disk -> Disk -> Prop) (Q : nat -> A -> Disk -> Prop)
    (Inv : Disk -> Prop) ps d ps' d' :
  (forall i, Reflexive (R i)) -> (forall i, Transitive (R i)) ->
  (forall i j d d', i <> j -> Inv d -> G i d d' -> R j d d') ->
  (forall i d d', Inv d -> G i d d' -> Inv d') ->
  Inv d -> (forall i p, ps !! i = Some p -> rg (R i) (G i) (Q i) p d) ->
  pool_run (ps, d) (ps', d') ->
  Inv d' /\ forall i p, ps' !! i = Some p -> rg (R i) (G i) (Q i) p d'.
Proof.
  intros Hrefl Htrans Hgr Hinv Hd Hps Hrun. remember (ps, d) as c eqn:Ec. remember (ps', d') as c' eqn:Ec'.
  revert ps d Ec Hd Hps. induction Hrun as [c|c c1 c' Hstep Hrun IH]; intros ps d -> Hd Hps.
  { by injection Ec' as <- <-. }
  inversion Hstep as [ps0 d0 i p p1 d1 fault Hi Hs]; subst.
  destruct (rg_step _ _ _ _ _ _ _ _ (Hrefl i) (Hps i p Hi) Hs) as [HG Hp1].
  apply (IH eq_refl _ _ eq_refl); [by eapply Hinv|].
  intros j q Hq. destruct (decide (i = j)) as [<-|Hne].
  - rewrite list_lookup_insert_eq in Hq by (by eapply lookup_lt_Some). by injection Hq as <-.
  - rewrite list_lookup_insert_ne in Hq by done. eapply rg_rely; [apply Htrans|by eapply Hgr|by apply Hps].
Qed.
End pool.

(** ** Reading what is on the disk *)

(** The files of the disk as the loaders open them. *)
Definition disk_files (d : Disk) : FileSystem := {|
  open := fun path =>
    match names d !! parse_path path with
    | Some (IsFile i) =>
        let bytes := content d i in
        Ok (MkFile (Ok (zlen bytes)) [Chunk bytes] (fun offset => Ok [Chunk (drop (Z.to_nat offset) bytes)]))
    | Some IsDirectory => Err (error_text directory_error)
    | None => Err (error_text absent_error)
    end;
  canonicalize := fun p =>
    if bool_decide (is_Some (names d !! p)) then Ok p else Err (error_text absent_error);
|}.
