(* ===== verification/Sequence.v ===== *)
(** * Identifiers drawn from a shared counter

    [next_sequence] of the VirtualBox and Xen providers, [next_temp_id] of
    the test provider and the loop in libvirt's [temporary_core_path] draw
    numbers from an [AtomicU64] by compare-and-exchange.  The callers run
    interleaved; a weak exchange may fail without cause. *)

From S2P Require Import Prelude.
From S2P Require Import Types.

(** [AtomicU64::compare_exchange_weak]: the old value, or the value found. *)
Definition compare_exchange_weak (spurious : bool) (value current next : Z) : result Z Z * Z :=
  if (value =? current) && negb spurious then (Ok current, next) else (Err value, value).

(** A caller of [next_sequence]: before its load, in its loop with the value
    it last saw, or returned. *)
Inductive caller : Type :=
| Start
| Trying (current : Z)
| Returned (r : Result Z).

Definition exhausted (description : string) : VmiError.t :=
  Backend (description +:+ " identifier space exhausted").

(** What a caller does between two accesses of the counter. *)
Definition next_sequence_step (description : string) (spurious : bool) (c : caller) (counter : Z)
    : caller * Z :=
  match c with
  | Start => (Trying counter, counter)
  | Trying current =>
      match ok_or (checked_add 64 current 1) (exhausted description) with
      | Err e => (Returned (Err e), counter)
      | Ok next =>
          match compare_exchange_weak spurious counter current next with
          | (Ok _, counter') => (Returned (Ok current), counter')
          | (Err observed, counter') => (Trying observed, counter')
          end
      end
  | Returned r => (Returned r, counter)
  end.

(** A call with no other caller and no spurious failure: load and exchange. *)
Definition next_sequence (description : string) (counter : Z) : Result Z * Z :=
  let '(c, counter) := next_sequence_step description false Start counter in
  match next_sequence_step description false c counter with
  | (Returned r, counter') => (r, counter')
  | (_, counter') => (Err (Backend "model fuel exhausted"), counter')
  end.

Section callers.
Context (description : string).

Inductive callers_step : list caller * Z -> list caller * Z -> Prop :=
| callers_step_intro cs n i c spurious c' n' :
    cs !! i = Some c -> next_sequence_step description spurious c n = (c', n') ->
    callers_step (cs, n) (<[i := c']> cs, n').

Definition drawn (c : caller) : option Z := match c with Returned (Ok id) => Some id | _ => None end.

Definition callers_inv (first : Z) (s : list caller * Z) : Prop :=
  first <= s.2 < 2 ^ 64 /\ omap drawn s.1 ≡ₚ seqZ first (s.2 - first) /\
  Forall (fun c => match c with
                   | Trying current => current <= s.2
                   | Returned (Err e) => e = exhausted description /\ s.2 = 2 ^ 64 - 1
                   | _ => True
                   end) s.1.

Lemma omap_drawn_same (cs : list caller) (i : nat) c c' : cs !! i = Some c -> drawn c = drawn c' ->
  omap drawn (<[i := c']> cs) = omap drawn cs.
Proof.
  intros Hi Hd. rewrite insert_take_drop by (by eapply lookup_lt_Some).
  rewrite <- (take_drop_middle cs i c Hi) at 3. rewrite !omap_app. cbn. by rewrite Hd.
Qed.

Lemma omap_drawn_new (cs : list caller) (i : nat) c id : cs !! i = Some c -> drawn c = None ->
  omap drawn (<[i := Returned (Ok id)]> cs) ≡ₚ omap drawn cs ++ [id].
Proof.
  intros Hi Hd. rewrite insert_take_drop by (by eapply lookup_lt_Some).
  rewrite <- (take_drop_middle cs i c Hi) at 3. rewrite !omap_app. cbn. rewrite Hd.
  rewrite <- app_assoc. f_equiv. apply Permutation_cons_append.
Qed.

Lemma callers_inv_step first s s' : callers_inv first s -> callers_step s s' -> callers_inv first s'.
Proof.
  intros (Hn & Hids & Hall) Hstep. destruct Hstep as [cs n i c spurious c' n' Hi Hs]. cbn [fst snd] in *.
  pose proof (Forall_lookup_1 _ _ _ _ Hall Hi) as Hc.
  destruct c as [|current|r]; cbn [next_sequence_step] in Hs.
  - injection Hs as <- <-. split; [done|]. split; cbn [fst snd].
    + by rewrite (omap_drawn_same cs i Start (Trying n) Hi).
    + apply Forall_insert; [done|lia].
  - unfold checked_add in Hs. destruct (Z.ltb_spec (current + 1) (2 ^ 64)) as [Hlt|Hge]; cbn [ok_or] in Hs.
    + unfold compare_exchange_weak in Hs.
      destruct (Z.eqb_spec n current) as [->|Hne]; cbn [andb] in Hs; [destruct spurious; cbn [negb] in Hs|].
      * injection Hs as <- <-. split; [done|]. split; cbn [fst snd];
          [by rewrite (omap_drawn_same cs i _ (Trying current) Hi)|by apply Forall_insert; [|lia]].
      * injection Hs as <- <-. split; [cbn; lia|]. split; cbn [fst snd].
        -- rewrite (omap_drawn_new cs i _ current Hi) by done. rewrite Hids.
           replace (current + 1 - first) with ((current - first) + 1) by lia.
           rewrite (seqZ_app first (current - first) 1) by lia. f_equiv.
           replace (first + (current - first)) with current by lia. done.
        -- apply Forall_insert; [|done]. eapply Forall_impl; [exact Hall|].
           intros [|x|[id|e]]; [done|lia|done|]. intros [-> ?]. lia.
      * injection Hs as <- <-. split; [done|]. split; cbn [fst snd];
          [by rewrite (omap_drawn_same cs i _ (Trying n) Hi)|by apply Forall_insert; [|lia]].
    + injection Hs as <- <-. split; [done|]. split; cbn [fst snd].
      * by rewrite (omap_drawn_same cs i _ (Returned (Err (exhausted description))) Hi).
      * apply Forall_insert; [done|]. split; [done|lia].
  - injection Hs as <- <-. by rewrite list_insert_id.
Qed.

End callers.

(** C35: identifiers are never drawn twice.  However callers interleave, and
    however often weak exchanges fail without cause, the identifiers drawn
    so far are the numbers from the counter's first value up to its present
    one, each exactly once; a call fails only when the identifier space is
    used up, and never wraps around. *)
Theorem sequences_drawn_once (description : string) (first : Z) (callers : nat)
    (cs : list caller) (counter : Z) (Hfirst : in_u64 first)
    (Hrun : rtc (callers_step description) (replicate callers Start, first) (cs, counter)) :
  first <= counter <= u64_max /\
  omap drawn cs ≡ₚ seqZ first (counter - first) /\
  NoDup (omap drawn cs) /\
  (forall e, Returned (Err e) ∈ cs -> e = exhausted description /\ counter = u64_max).
Proof.
  assert (Hinv : callers_inv description first (cs, counter)).
  { apply (rtc_invariant _ _ _ _ (callers_inv_step description first) Hrun).
    unfold in_width in Hfirst. split; [cbn; lia|]. cbn [fst snd]. rewrite Z.sub_diag. split.
    - clear. cbn. induction callers as [|n IH]; [done|exact IH].
    - by apply Forall_replicate. }
  destruct Hinv as (Hn & Hids & Hall). cbn [fst snd] in *. unfold u64_max.
  split; [lia|]. split; [done|]. split; [rewrite Hids; apply NoDup_seqZ|].
  intros e He. rewrite Forall_forall in Hall. exact (Hall _ He).
Qed.

(** Two callers race; the loser retries. *)
Lemma sequences_drawn_once_witness :
  NoDup (omap drawn [Returned (Ok 0); Returned (Ok 1)]).
Proof.
  refine (proj1 (proj2 (proj2 (sequences_drawn_once "range publication" 0 2
    [Returned (Ok 0); Returned (Ok 1)] 2 ltac:(width_const) _)))).
  eapply rtc_l; [eapply (callers_step_intro _ _ _ 0 _ false); reflexivity|].
  eapply rtc_l; [eapply (callers_step_intro _ _ _ 1 _ false); reflexivity|].
  eapply rtc_l; [eapply (callers_step_intro _ _ _ 0 _ true); reflexivity|].
  eapply rtc_l; [eapply (callers_step_intro _ _ _ 0 _ false); reflexivity|].
  eapply rtc_l; [eapply (callers_step_intro _ _ _ 1 _ false); reflexivity|].
  eapply rtc_l; [eapply (callers_step_intro _ _ _ 1 _ false); reflexivity|].
  reflexivity.
Defined.
