(* ===== verification/Publication.v ===== *)
(** * Publishing acquisition files

    [publish_range] of the VirtualBox and Xen providers and
    [publish_atomically] of the test provider write a file beside the
    destination under a temporary name, link it to the destination and
    remove the temporary name; [publish_new] of the libvirt provider creates
    the destination itself. *)

From S2P Require Import Prelude.
From S2P Require Import Types.
From S2P Require Import Host.
From S2P Require Import HostFs.

Section names.
Context `{Allocator}.

Definition allocate (description : string) (capacity : Z) : Result unit :=
  map_err (fun error => Backend ("failed to allocate " +:+ description +:+ ": " +:+ error))
    (try_reserve description capacity).

Definition slen (s : string) : Z := Z.of_nat (String.length s).

Definition try_publication_suffix (vendor : string) (process_id sequence : Z) : Result string :=
  let? _ := allocate (vendor +:+ " publication suffix") 42 in
  Ok (".vmi-range-" +:+ dec process_id +:+ "-" +:+ dec sequence).

(** [name.len() + extra.len() + 1], checked. *)
Definition joined_capacity (name extra message : string) : Result Z :=
  ok_or (match checked_add 64 (slen name) (slen extra) with
         | Some length => checked_add 64 length 1
         | None => None
         end) (Backend message).

Definition try_native_name (name suffix description : string) : Result string :=
  let? capacity := joined_capacity name suffix (description +:+ " filename length overflow") in
  let? _ := allocate (description +:+ " filename") capacity in
  Ok ("." +:+ name +:+ suffix).

Definition try_child_path (parent : Path) (name description : string) : Result Path :=
  let? capacity := joined_capacity (path_display parent) name (description +:+ " path length overflow") in
  let? _ := allocate (description +:+ " path") capacity in
  Ok (join parent (MkPath false [name])).

(** The directory of a path, [.] when it has none. *)
Definition directory_of (path : Path) : Path := from_option id (MkPath false ["."%string]) (parent path).

(** The temporary name of a range publication. *)
Definition range_temporary (vendor : string) (process_id : Z) (sequence : Result Z) (path : Path)
    : Result Path :=
  let parent := directory_of path in
  let? name := ok_or (file_name path) (Backend "acquisition path has no file name") in
  let? sequence := sequence in
  let? suffix := try_publication_suffix vendor process_id sequence in
  let? temporary_name := try_native_name name suffix (vendor +:+ " publication") in
  try_child_path parent temporary_name (vendor +:+ " publication").

(** The same for the test provider. *)
Definition fake_temporary (process_id : Z) (sequence : Result Z) (path : Path) : Result Path :=
  let parent := directory_of path in
  let? name := ok_or (file_name path) (Backend "fake acquisition destination has no file name") in
  let? sequence := sequence in
  let? _ := allocate "fake acquisition suffix" 40 in
  let suffix := ".vmi-tmp-" +:+ dec process_id +:+ "-" +:+ dec sequence in
  let? temp_name := try_native_name name suffix "fake acquisition" in
  try_child_path parent temp_name "fake acquisition".
End names.

(** ** Writing and linking *)

(** How a publication reports each failure. *)
Record PublishErrors : Type := MkPublishErrors {
  e_create : string -> VmiError.t;
  e_write : string -> VmiError.t;
  e_link : string -> VmiError.t;
  e_remove : string -> VmiError.t;
}.

Definition publish_body (errors : PublishErrors) (temporary path : Path) (bytes : list byte)
    : prog (Result unit) :=
  let? created := do (CreateNew temporary) in
  match created : io_result Z with
  | Err error => Ret (Err (e_create errors (error_text error)))
  | Ok file =>
      let? written := do (WriteAll file bytes) in
      let? synced := match written : io_result unit with Ok _ => do (SyncAll file) | Err error => Ret (Err error) end in
      match synced : io_result unit with
      | Err error => Ret (Err (e_write errors (error_text error)))
      | Ok _ =>
          let? linked := do (HardLink temporary path) in
          match linked : io_result unit with
          | Err error => Ret (Err (e_link errors (error_text error)))
          | Ok _ =>
              let? removed := do (RemoveFile temporary) in
              Ret (map_err (fun error => e_remove errors (error_text error)) removed)
          end
      end
  end.

(** The body, and the temporary name removed again when it failed. *)
Definition publish (errors : PublishErrors) (temporary path : Path) (bytes : list byte)
    : prog (Result unit) :=
  let? result := publish_body errors temporary path bytes in
  match result : Result unit with
  | Ok _ => Ret result
  | Err _ => let? _ := do (RemoveFile temporary) in Ret result
  end.

Definition range_errors (path : Path) : PublishErrors :=
  MkPublishErrors
    (fun error => Backend ("failed to create acquisition output: " +:+ error))
    (fun error => Backend ("failed to write acquisition output: " +:+ error))
    (fun error => Backend ("failed to publish " +:+ path_display path +:+ ": " +:+ error))
    (fun error => Backend ("published " +:+ path_display path
       +:+ " but failed to remove temporary output: " +:+ error)).

Definition publish_range `{Allocator} (vendor : string) (process_id : Z) (sequence : Result Z)
    (path : Path) (bytes : list byte) : prog (Result unit) :=
  let? existing := do (Exists path) in
  if existing : bool then
    Ret (Err (Backend ("refusing to replace existing acquisition output " +:+ path_display path)))
  else
    match range_temporary vendor process_id sequence path with
    | Err e => Ret (Err e)
    | Ok temporary => publish (range_errors path) temporary path bytes
    end.

Definition fake_io (error : string) : VmiError.t := Backend ("fake acquisition I/O failed: " +:+ error).

Definition publish_atomically `{Allocator} (process_id : Z) (sequence : Result Z) (path : Path)
    (bytes : list byte) : prog (Result unit) :=
  match fake_temporary process_id sequence path with
  | Err e => Ret (Err e)
  | Ok temporary => publish (MkPublishErrors fake_io fake_io fake_io fake_io) temporary path bytes
  end.

(** [publish_new] of the libvirt provider. *)
Definition publish_new (path : Path) (bytes : list byte) : prog (Result unit) :=
  let? created := do (CreateNew path) in
  match created : io_result Z with
  | Err error =>
      Ret (Err (Backend ("failed to create " +:+ path_display path +:+ ": " +:+ error_text error)))
  | Ok file =>
      let? written := do (WriteAll file bytes) in
      let? synced := match written : io_result unit with Ok _ => do (SyncAll file) | Err error => Ret (Err error) end in
      match synced : io_result unit with
      | Err error =>
          let? _ := do (RemoveFile path) in
          Ret (Err (Backend ("failed to publish " +:+ path_display path +:+ ": " +:+ error_text error)))
      | Ok _ => Ret (Ok tt)
      end
  end.

(** [ensure_output_absent]. *)
Definition ensure_output_absent (path : Path) (description : string) : prog (Result unit) :=
  let? found := do (SymlinkMetadata path) in
  Ret (match found : io_result unit with
        | Ok _ => Err (Backend ("refusing to replace existing " +:+ description +:+ " output "
                    +:+ path_display path))
        | Err error =>
            if bool_decide (error_kind error = NotFound) then Ok tt
            else Err (Backend ("failed to inspect " +:+ description +:+ " output "
                        +:+ path_display path +:+ ": " +:+ error_text error))
        end).

(** [finish_temporary_core]: the name is removed whatever the result is. *)
Definition finish_temporary_core (vendor : string) (path : Path) (result : Result unit)
    : prog (Result unit) :=
  let? removed := do (RemoveFile path) in
  Ret (match result, removed : io_result unit with
        | Err error, _ => Err error
        | Ok _, Ok _ => Ok tt
        | Ok _, Err error =>
            Err (Backend ("failed to remove temporary " +:+ vendor +:+ " core " +:+ path_display path
              +:+ ": " +:+ error_text error))
        end).
