(* ===== verification/PublicationFacts.v ===== *)
(** * What publication guarantees

    Whatever publishers run at the same time and whatever operations fail,
    nothing that was there is changed, a destination appears complete or not
    at all, and at most one publisher of a destination succeeds. *)

From S2P Require Import Prelude.
From S2P Require Import Types.
From S2P Require Import TextFacts.
From S2P Require Import Host.
From S2P Require Import HostFs.
From S2P Require Import Publication.

(** ** Temporary names *)

Fixpoint dashless (s : string) : Prop :=
  match s with
  | EmptyString => True
  | String.String c s' => c <> Ascii.ascii_of_byte x2d /\ dashless s'
  end.

Lemma dashless_go x s : dashless s -> dashless (pretty_N_go x s).
Proof.
  revert s. induction x as [x IH] using (well_founded_induction N.lt_wf_0). intros s Hs.
  assert (x = 0 \/ 0 < x)%N as [->|?] by lia; [done|].
  rewrite pretty_N_go_step by done. apply IH; [by apply N.div_lt|]. split; [|done].
  unfold pretty_N_char. by repeat case_match.
Qed.

Lemma dashless_dec z : 0 <= z -> dashless (dec z).
Proof.
  intros Hz. destruct z as [|p|p]; [cbn; by split|..|lia].
  unfold dec, pretty, pretty_Z, pretty, pretty_positive, pretty, pretty_N. by apply dashless_go.
Qed.

Lemma dashless_no_dash b t : ~ dashless (b +:+ "-" +:+ t).
Proof. induction b as [|c b IH]; cbn; intros [Hc Hs]; [by apply Hc|by apply IH]. Qed.

Lemma after_last_dash a b s t : dashless s -> dashless t ->
  a +:+ "-" +:+ s = b +:+ "-" +:+ t -> a = b /\ s = t.
Proof.
  intros Hs Ht. revert b. induction a as [|c a IH]; intros [|c' b] Heq; cbn in Heq.
  - by injection Heq.
  - injection Heq as Hc Heq. change (s = b +:+ "-" +:+ t) in Heq. subst s. by apply dashless_no_dash in Hs.
  - injection Heq as Hc Heq. change (a +:+ "-" +:+ s = t) in Heq. subst t. by apply dashless_no_dash in Ht.
  - injection Heq as -> Heq. by destruct (IH b Heq) as [-> ->].
Qed.

Section names.
Context `{Allocator}.

Lemma last_join base name : name <> "."%string -> last (components (join base (MkPath false [name]))) = Some name.
Proof.
  intros Hn. unfold join. cbn [components]. case_bool_decide as Hb.
  - by rewrite last_snoc.
  - rewrite filter_cons_True by done. rewrite filter_nil. by rewrite last_snoc.
Qed.

Lemma range_temporary_name vendor pid n path t :
  range_temporary vendor pid (Ok n) path = Ok t ->
  exists name, last (components t) = Some (("." +:+ name +:+ ".vmi-range-" +:+ dec pid) +:+ "-" +:+ dec n).
Proof.
  unfold range_temporary, try_publication_suffix, try_native_name, try_child_path. intros Ht. inv_ok.
  subst. exists v. rewrite last_join; [|by destruct v].
  f_equal. by rewrite !string_app_assoc.
Qed.

(** Publications by different processes, or with different sequence numbers,
    use different names. *)
Lemma range_temporary_distinct vendor1 pid1 n1 path1 vendor2 pid2 n2 path2 t :
  0 <= pid1 -> 0 <= pid2 -> 0 <= n1 -> 0 <= n2 ->
  range_temporary vendor1 pid1 (Ok n1) path1 = Ok t ->
  range_temporary vendor2 pid2 (Ok n2) path2 = Ok t -> pid1 = pid2 /\ n1 = n2.
Proof.
  intros Hp1 Hp2 Hn1 Hn2 [a Ha]%range_temporary_name [b Hb]%range_temporary_name.
  rewrite Ha in Hb. injection Hb as Hb.
  apply (after_last_dash ("" +:+ a +:+ ".vmi-range-" +:+ dec pid1)
                         ("" +:+ b +:+ ".vmi-range-" +:+ dec pid2)) in Hb as [Hp Hn];
    [|by apply dashless_dec..].
  apply (inj pretty) in Hn. split; [|done].
  assert (Hsplit : forall name pid, ("" +:+ name +:+ ".vmi-range-" +:+ dec pid)
    = (name +:+ ".vmi-range") +:+ "-" +:+ dec pid).
  { intros name pid. by rewrite string_app_assoc. }
  rewrite !Hsplit in Hp. apply after_last_dash in Hp as [_ Hp]; [|by apply dashless_dec..].
  by apply (inj pretty) in Hp.
Qed.
End names.

(** ** One publisher among others *)

(** Files are numbered in order of creation. *)
Definition wf_disk (d : Disk) : Prop :=
  (forall p i, names d !! p = Some (IsFile i) -> i < next_inode d) /\
  (forall i, next_inode d <= i -> inodes d !! i = None).

Definition history_kept (d d' : Disk) : Prop :=
  (wf_disk d -> wf_disk d') /\ next_inode d <= next_inode d' /\
  forall i, i < next_inode d -> births d' !! i = births d !! i.

Section publisher.
Context (is_temp : Path -> Prop) (first : Z) (temp dest : Path) (bytes : list byte).
Context (Htemp : is_temp temp) (Hdest : ~ is_temp dest).

(** What others may do: anything but touch the temporary name, the file
    behind it if the run created it (its number is then [first] or above),
    and names in use that are not temporary. *)
Definition rely (d d' : Disk) : Prop :=
  names d' !! temp = names d !! temp /\
  (forall i, first <= i -> names d !! temp = Some (IsFile i) -> content d' i = content d i /\
     forall p, names d' !! p = Some (IsFile i) -> names d !! p = Some (IsFile i)) /\
  (forall p e, ~ is_temp p -> names d !! p = Some e ->
     names d' !! p = Some e /\ forall i, e = IsFile i -> content d' i = content d i) /\
  history_kept d d'.

(** What the publisher itself does: create and remove its temporary name,
    write to a file that the run created and no other name has, and link it,
    complete, to a destination that is not there. *)
Definition guarantee (d d' : Disk) : Prop :=
  (forall p, p <> temp -> p <> dest -> names d' !! p = names d !! p) /\
  (forall e, names d !! dest = Some e -> names d' !! dest = Some e) /\
  (names d !! dest = None -> names d' !! dest = None \/
     exists i, first <= i /\ names d !! temp = Some (IsFile i) /\ names d' !! dest = Some (IsFile i) /\
       content d i = bytes /\ content d' i = content d i) /\
  (forall i, content d' i = content d i \/
     (first <= i /\ names d !! temp = Some (IsFile i) /\
      forall p, names d !! p = Some (IsFile i) -> p = temp)) /\
  (names d' !! temp = names d !! temp \/ names d' !! temp = None \/
     (names d !! temp = None /\ names d' !! temp = Some (IsFile (next_inode d)))) /\
  history_kept d d'.

Lemma history_refl d : history_kept d d.
Proof. split; [done|]. split; [lia|done]. Qed.

#[local] Instance rely_refl : Reflexive rely.
Proof. intros d. split; [done|]. split; [auto|]. split; [auto|apply history_refl]. Qed.

Lemma history_trans d1 d2 d3 : history_kept d1 d2 -> history_kept d2 d3 -> history_kept d1 d3.
Proof.
  intros (Hw & Hn & Hb) (Hw' & Hn' & Hb'). split; [auto|]. split; [lia|].
  intros i Hi. rewrite Hb' by lia. by apply Hb.
Qed.

#[local] Instance rely_trans : Transitive rely.
Proof.
  intros d1 d2 d3 (Ht & Hi & Hp & Hh) (Ht' & Hi' & Hp' & Hh').
  split; [congruence|]. split; [|split; [|by eapply history_trans]].
  - intros i Hfirst Hf. destruct (Hi i Hfirst Hf) as [Hc Hn]. rewrite <- Ht in Hf.
    destruct (Hi' i Hfirst Hf) as [Hc' Hn']. split; [congruence|auto].
  - intros p e Hnt He. destruct (Hp p e Hnt He) as [He' Hc]. destruct (Hp' p e Hnt He') as [He'' Hc'].
    split; [done|]. intros i Hi0. rewrite (Hc' i Hi0). by apply Hc.
Qed.

Lemma guarantee_refl d : guarantee d d.
Proof.
  split; [done|]. split; [done|]. split; [by left|]. split; [by left|]. split; [by left|].
  apply history_refl.
Qed.

(** *** The states of a publication *)

Definition started (d : Disk) : Prop := wf_disk d /\ first <= next_inode d.
Definition unnamed (d : Disk) : Prop := started d /\ names d !! temp = None.

Definition written (i : Z) (bs : list byte) (d : Disk) : Prop :=
  wf_disk d /\ first <= i /\ names d !! temp = Some (IsFile i) /\ content d i = bs /\
  (forall p, names d !! p = Some (IsFile i) -> p = temp) /\ births d !! i = Some temp.

Definition published (i : Z) (d : Disk) : Prop :=
  wf_disk d /\ names d !! dest = Some (IsFile i) /\ content d i = bytes /\ births d !! i = Some temp.

Lemma started_stable d d' : rely d d' -> started d -> started d'.
Proof. intros (_ & _ & _ & Hw & Hn & _) [Hd Hf]. split; [auto|lia]. Qed.

Lemma written_stable i bs d d' : rely d d' -> written i bs d -> written i bs d'.
Proof.
  intros (Ht & Hi & _ & Hw & Hn & Hb) (Hd & Hfirst & Hf & Hc & Hu & Hbirth).
  destruct (Hi i Hfirst Hf) as [Hc' Hu']. split; [auto|]. split; [done|]. split; [by rewrite Ht|]. split; [congruence|].
  split; [auto|]. rewrite Hb; [done|]. by apply (proj1 Hd temp).
Qed.

Lemma published_stable i d d' : rely d d' -> published i d -> published i d'.
Proof.
  intros (_ & _ & Hp & Hw & Hn & Hb) (Hd & Hf & Hc & Hbirth).
  destruct (Hp dest _ Hdest Hf) as [Hf' Hc']. split; [auto|]. split; [done|].
  split; [rewrite (Hc' i eq_refl); done|]. rewrite Hb; [done|]. by apply (proj1 Hd dest).
Qed.

(** *** The effects of its operations *)

Lemma temp_not_dest : temp <> dest.
Proof. intros ->. done. Qed.

Lemma guarantee_remove fault d : wf_disk d -> guarantee d (run_op fault (RemoveFile temp) d).2.
Proof.
  intros [Hw Hwi]. cbn [run_op]. destruct fault; [apply guarantee_refl|].
  destruct (names d !! temp) as [[i|]|] eqn:Ht; try apply guarantee_refl. cbn [snd].
  pose proof temp_not_dest as Hne. unfold guarantee. cbn [names].
  split; [intros p Hp _; by rewrite lookup_delete_ne|].
  split; [intros e He; by rewrite lookup_delete_ne|].
  split; [intros He; left; by rewrite lookup_delete_ne|]. split; [by left|].
  split; [right; left; apply lookup_delete_eq|]. split; [|split; [cbn; lia|done]].
  intros _. split; [|done]. cbn [names]. intros p j [_ Hp]%lookup_delete_Some. by eapply Hw.
Qed.

Lemma guarantee_create d : unnamed d ->
  let '(r, d') := run_op None (CreateNew temp) d in
  exists i, r = Ok i /\ guarantee d d' /\ written i [] d'.
Proof.
  intros [[[Hw Hwi] Hfirst] Hn]. cbn [run_op]. rewrite Hn. exists (next_inode d). split; [done|].
  pose proof temp_not_dest as Hne. set (i := next_inode d) in *.
  assert (Hwf : wf_disk (MkDisk (<[temp := IsFile i]> (names d)) (<[i := []]> (inodes d)) (i + 1)
                  (<[i := temp]> (births d)))).
  { split; cbn [names inodes next_inode].
    - intros p j. rewrite lookup_insert_Some. intros [[_ [= <-]]|[_ Hp]]; [lia|]. apply Hw in Hp. lia.
    - intros j Hj. rewrite lookup_insert_ne by lia. apply Hwi. lia. }
  split.
  - unfold guarantee. cbn [names next_inode].
    split; [intros p Hp _; by rewrite lookup_insert_ne|].
    split; [intros e He; by rewrite lookup_insert_ne|].
    split; [intros He; left; by rewrite lookup_insert_ne|].
    split.
    { intros j. left. unfold content. cbn [inodes]. destruct (decide (j = i)) as [->|].
      - by rewrite lookup_insert_eq, (Hwi i) by lia.
      - by rewrite lookup_insert_ne. }
    split; [right; right; by rewrite lookup_insert_eq|].
    split; [done|]. split; [cbn; lia|]. intros j Hj. cbn [births]. by rewrite lookup_insert_ne by lia.
  - split; [done|]. split; [done|]. cbn [names births]. split; [apply lookup_insert_eq|].
    split; [unfold content; cbn [inodes]; by rewrite lookup_insert_eq|].
    split; [|apply lookup_insert_eq]. intros p. rewrite lookup_insert_Some.
    intros [[-> _]|[_ Hp]]; [done|]. apply Hw in Hp. lia.
Qed.

Lemma guarantee_append i bs more d : written i bs d ->
  guarantee d (append d i more) /\ written i (bs ++ more) (append d i more).
Proof.
  intros ([Hw Hwi] & Hfirst & Hf & Hc & Hu & Hb). unfold append.
  assert (Hwf : wf_disk (MkDisk (names d) (<[i := content d i ++ more]> (inodes d)) (next_inode d) (births d))).
  { split; [done|]. cbn. intros j Hj. apply Hw in Hf. rewrite lookup_insert_ne by lia. by apply Hwi. }
  split.
  - unfold guarantee. cbn [names]. split; [done|]. split; [done|]. split; [by left|].
    split; [|split; [by left|split; [done|split; [cbn; lia|done]]]].
    intros j. destruct (decide (j = i)) as [->|]; [right; by split|]. left. unfold content. cbn [inodes].
    by rewrite lookup_insert_ne.
  - split; [done|]. split; [done|]. cbn [names births]. split; [done|]. split; [|done].
    unfold content at 1. cbn [inodes]. rewrite lookup_insert_eq. cbn. by rewrite Hc.
Qed.

Lemma guarantee_link i d : written i bytes d ->
  let '(r, d') := run_op None (HardLink temp dest) d in
  guarantee d d' /\ wf_disk d' /\ (r = Ok tt -> published i d').
Proof.
  intros (Hd & Hfirst & Hf & Hc & Hu & Hb). cbn [run_op]. rewrite Hf.
  destruct (names d !! dest) as [e|] eqn:He; [split; [apply guarantee_refl|done]|].
  pose proof temp_not_dest as Hne. destruct Hd as [Hw Hwi].
  assert (Hwf : wf_disk (MkDisk (<[dest := IsFile i]> (names d)) (inodes d) (next_inode d) (births d))).
  { split; [|done]. cbn. intros p j. rewrite lookup_insert_Some.
    intros [[_ [= <-]]|[_ Hp]]; [by apply (Hw temp)|by apply (Hw p)]. }
  split; [|split; [done|]].
  - unfold guarantee. cbn [names]. split; [intros p _ Hp; by rewrite lookup_insert_ne|].
    split; [intros e He'; congruence|].
    split; [intros _; right; exists i; split; [done|]; split; [done|]; split; [by rewrite lookup_insert_eq|done]|].
    split; [by left|]. split; [left; by rewrite lookup_insert_ne|]. split; [done|]. split; [cbn; lia|done].
  - intros _. split; [done|]. cbn [names births]. by rewrite lookup_insert_eq.
Qed.

(** *** The program *)

(** A publication that reports success has published. *)
Definition outcome (r : Result unit) (d : Disk) : Prop :=
  r = Ok tt -> names d !! temp = None /\ exists i, published i d.

Abbreviation safe := (rg rely guarantee outcome).

Lemma safe_failed e d : safe (Ret (Err e)) d.
Proof. by intros d1 _. Qed.

Lemma safe_cleanup e d : wf_disk d -> safe (Vis (RemoveFile temp) (fun _ => Ret (Err e))) d.
Proof.
  intros Hd d1 HR fault. destruct HR as (_ & _ & _ & Hw & _).
  pose proof (guarantee_remove fault d1 (Hw Hd)) as HG.
  destruct (run_op fault (RemoveFile temp) d1). split; [done|apply safe_failed].
Qed.

Lemma guarantee_wf d d' : guarantee d d' -> wf_disk d -> wf_disk d'.
Proof. intros (_ & _ & _ & _ & _ & Hw & _). exact Hw. Qed.

(** What is left to do once the file is linked. *)
Lemma safe_unlink i errors d : published i d -> names d !! temp = Some (IsFile i) ->
  safe (Vis (RemoveFile temp) (fun removed =>
          mbind (fun result : Result unit =>
                   match result with
                   | Ok _ => Ret result
                   | Err _ => let? _ := do (RemoveFile temp) in Ret result
                   end)
            (Ret (map_err (fun error => e_remove errors (error_text error)) removed)))) d.
Proof.
  intros Hp Ht d1 HR fault. pose proof (published_stable i d d1 HR Hp) as Hp1.
  destruct HR as (Ht1 & _). rewrite Ht in Ht1.
  pose proof (guarantee_remove fault d1 (proj1 Hp1)) as HG.
  destruct fault as [f|]; cbn [run_op snd] in *.
  - split; [done|]. apply safe_cleanup, Hp1.
  - rewrite Ht1 in *. cbn [snd] in HG. split; [done|]. intros d2 HR2 _.
    assert (Hp2 : published i (MkDisk (delete temp (names d1)) (inodes d1) (next_inode d1) (births d1))).
    { pose proof (guarantee_wf _ _ HG (proj1 Hp1)). destruct Hp1 as (_ & Hn & Hc & Hb).
      split; [done|]. cbn [names births]. rewrite lookup_delete_ne by apply temp_not_dest. done. }
    pose proof (published_stable _ _ _ HR2 Hp2). destruct HR2 as (Ht2 & _). cbn [names] in Ht2.
    rewrite Ht2, lookup_delete_eq. split; [done|]. by exists i.
Qed.

(** A name already in use is not created, and then removed. *)
Lemma safe_publish errors d : started d -> safe (publish errors temp dest bytes) d.
Proof.
  intros Hd d1 HR1 fault. pose proof (started_stable d d1 HR1 Hd) as Hd1.
  destruct fault as [f|]; cbn [run_op].
  { split; [apply guarantee_refl|]. apply safe_cleanup, Hd1. }
  destruct (names d1 !! temp) as [e|] eqn:Hn.
  { split; [apply guarantee_refl|]. apply safe_cleanup, Hd1. }
  pose proof (guarantee_create d1 (conj Hd1 Hn)) as Hc. cbn [run_op] in Hc. rewrite Hn in Hc.
  destruct Hc as (i & [= <-] & HG & Hw). split; [done|]. clear HG. set (i := next_inode d1) in *.
  intros d2 HR2 fault. pose proof (written_stable i _ _ _ HR2 Hw) as Hw2. clear Hw HR2.
  destruct fault as [f|]; cbn [run_op].
  { pose proof (guarantee_append i [] (take (Z.to_nat (f_written f)) bytes) d2 Hw2) as [HG Hw].
    split; [done|]. apply safe_cleanup, Hw. }
  pose proof (guarantee_append i [] bytes d2 Hw2) as [HG Hw]. split; [done|]. clear HG Hw2. cbn [app] in Hw.
  intros d3 HR3 fault. pose proof (written_stable i _ _ _ HR3 Hw) as Hw3. clear Hw HR3.
  destruct fault as [f|]; cbn [run_op]; (split; [apply guarantee_refl|]); [apply safe_cleanup, Hw3|].
  intros d4 HR4 fault. pose proof (written_stable i _ _ _ HR4 Hw3) as Hw4. clear Hw3 HR4.
  destruct fault as [f|]; [cbn [run_op]; split; [apply guarantee_refl|]; apply safe_cleanup, Hw4|].
  pose proof (guarantee_link i d4 Hw4) as HL. cbn [run_op] in *.
  destruct Hw4 as (_ & _ & Ht4 & _). rewrite Ht4 in *.
  destruct (names d4 !! dest) as [e|]; destruct HL as (HG & Hwf & Hp); (split; [done|]).
  - by apply safe_cleanup.
  - apply (safe_unlink i); [by apply Hp|]. cbn [names]. by rewrite lookup_insert_ne by (apply not_eq_sym, temp_not_dest).
Qed.
End publisher.

(** ** Publishers together *)

(** A call of [publish_range]. *)
Record Job : Type := MkJob {
  j_vendor : string; j_process : Z; j_sequence : Z; j_path : Path; j_bytes : list byte }.

Section jobs.
Context `{Allocator}.

Definition job_temporary (j : Job) : Result Path :=
  range_temporary (j_vendor j) (j_process j) (Ok (j_sequence j)) (j_path j).
Definition job_prog (j : Job) : prog (Result unit) :=
  publish_range (j_vendor j) (j_process j) (Ok (j_sequence j)) (j_path j) (j_bytes j).

Context (jobs : list Job) (d0 : Disk).

Definition temporary_name (p : Path) : Prop := exists j, j ∈ jobs /\ job_temporary j = Ok p.

Context (Hwf0 : wf_disk d0) (Hseq : NoDup ((fun j => (j_process j, j_sequence j)) <$> jobs))
  (Hpos : Forall (fun j => 0 <= j_process j /\ 0 <= j_sequence j) jobs)
  (Hplain : Forall (fun j => ~ temporary_name (j_path j)) jobs).

Lemma job_temporary_inj a b ja jb t : jobs !! a = Some ja -> jobs !! b = Some jb ->
  job_temporary ja = Ok t -> job_temporary jb = Ok t -> a = b.
Proof.
  intros Ha Hb Hta Htb. rewrite Forall_forall in Hpos.
  assert (j_process ja = j_process jb /\ j_sequence ja = j_sequence jb) as [Hp Hs].
  { eapply range_temporary_distinct; [| | | |exact Hta|exact Htb];
      apply Hpos; by eapply list_elem_of_lookup_2. }
  eapply (NoDup_lookup ((fun j => (j_process j, j_sequence j)) <$> jobs)); [done| |];
    rewrite list_lookup_fmap, ?Ha, ?Hb; cbn; [done|by rewrite Hp, Hs].
Qed.

(** Nothing that was there under another than a temporary name has changed;
    every new name that is not a temporary one is a destination with all its
    bytes; temporary names do not share a file of the run. *)
Definition disk_inv (d : Disk) : Prop :=
  wf_disk d /\
  (forall p e, ~ temporary_name p -> names d0 !! p = Some e -> names d !! p = Some e /\
     forall i, e = IsFile i -> content d i = content d0 i) /\
  (forall p e, names d !! p = Some e -> names d0 !! p = None -> temporary_name p \/
     exists j i, j ∈ jobs /\ j_path j = p /\ e = IsFile i /\ content d i = j_bytes j) /\
  next_inode d0 <= next_inode d /\
  (forall p q i, temporary_name p -> temporary_name q -> next_inode d0 <= i ->
     names d !! p = Some (IsFile i) -> names d !! q = Some (IsFile i) -> p = q).

(** What a job's steps are allowed; one without a temporary name does nothing. *)
Definition job_guarantee (j : Job) (d d' : Disk) : Prop :=
  match job_temporary j with
  | Ok t => guarantee (next_inode d0) t (j_path j) (j_bytes j) d d'
  | Err _ => d = d'
  end.
Definition job_rely (j : Job) (d d' : Disk) : Prop :=
  match job_temporary j with
  | Ok t => rely temporary_name (next_inode d0) t d d'
  | Err _ => True
  end.
Definition job_outcome (j : Job) (r : Result unit) (d : Disk) : Prop :=
  r = Ok tt -> exists t, job_temporary j = Ok t /\ names d !! t = None /\
    exists i, published t (j_path j) (j_bytes j) i d.

Lemma job_temp j t : j ∈ jobs -> job_temporary j = Ok t -> temporary_name t /\ t <> j_path j.
Proof.
  intros Hj Ht. split; [by exists j|]. intros ->. rewrite Forall_forall in Hplain.
  apply (Hplain j Hj). by exists j.
Qed.

Lemma disk_inv_step a j d d' : jobs !! a = Some j -> disk_inv d -> job_guarantee j d d' -> disk_inv d'.
Proof.
  unfold job_guarantee. intros Ha Hinv HG. destruct (job_temporary j) as [t|e] eqn:Ht; [|by subst].
  pose proof (list_elem_of_lookup_2 _ _ _ Ha) as Hj. destruct (job_temp j t Hj Ht) as [Htemp Hne].
  destruct Hinv as (Hwf & Hold & Hnew & Hnext & Htemps).
  pose proof (guarantee_wf (next_inode d0) t (j_path j) (j_bytes j) d d' HG Hwf) as Hwf'.
  destruct HG as (Hother & Hkeep & Hlink & Hcontent & Hname & _ & Hmore & _).
  assert (Hsame : forall p i, p <> t -> names d !! p = Some (IsFile i) -> content d' i = content d i).
  { intros p i Hp Hi. destruct (Hcontent i) as [?|(_ & _ & Honly)]; [done|]. by apply Honly in Hi. }
  split; [done|]. split; [|split; [|split; [lia|]]].
  - intros p e Hnt He. destruct (Hold p e Hnt He) as [Hd Hc]. assert (p <> t) by (by intros ->).
    split; [destruct (decide (p = j_path j)) as [->|]; [by apply Hkeep|by rewrite Hother]|].
    intros i ->. rewrite (Hsame p i) by done. by apply Hc.
  - intros p e He H0. destruct (decide (p = t)) as [->|Hpt]; [by left|]. destruct (names d !! p) as [e'|] eqn:Hd.
    + assert (e' = e) as ->.
      { destruct (decide (p = j_path j)) as [->|]; [apply Hkeep in Hd|rewrite <- Hother in Hd by done]; congruence. }
      destruct (Hnew p e Hd H0) as [?|(j' & i & ? & ? & -> & Hc)]; [by left|]. right. exists j', i.
      do 3 (split; [done|]). by rewrite (Hsame p i).
    + destruct (decide (p = j_path j)) as [->|]; [|rewrite Hother in He; congruence].
      right. destruct (Hlink Hd) as [?|(i & _ & _ & Hi & Hc & Hc')]; [congruence|].
      exists j, i. split; [done|]. split; [done|]. split; [congruence|]. by rewrite Hc'.
  - intros p q i Hp Hq Hi0.
    assert (Hback : forall p, temporary_name p -> p <> t -> names d' !! p = Some (IsFile i) -> names d !! p = Some (IsFile i)).
    { intros x Hx Hxt Hi. rewrite <- Hother; [done|done|]. intros ->.
      rewrite Forall_forall in Hplain. by apply (Hplain j Hj). }
    assert (Hfreshi : forall x, names d !! x <> Some (IsFile (next_inode d))).
    { intros x Hx. apply (proj1 Hwf) in Hx. lia. }
    intros Hpi Hqi.
    destruct (decide (p = t)) as [->|Hpt], (decide (q = t)) as [->|Hqt]; [done| | |].
    + apply Hback in Hqi; [|done|done]. destruct Hname as [Hn|[Hn|[_ Hn]]]; rewrite Hn in Hpi; [|done|].
      * by apply (Htemps t q i).
      * injection Hpi as <-. by apply Hfreshi in Hqi.
    + apply Hback in Hpi; [|done|done]. destruct Hname as [Hn|[Hn|[_ Hn]]]; rewrite Hn in Hqi; [|done|].
      * by apply (Htemps p t i).
      * injection Hqi as <-. by apply Hfreshi in Hpi.
    + by apply (Htemps p q i); [| | |apply Hback|apply Hback].
Qed.

Lemma job_interference a b ja jb d d' : jobs !! a = Some ja -> jobs !! b = Some jb -> a <> b ->
  disk_inv d -> job_guarantee ja d d' -> job_rely jb d d'.
Proof.
  unfold job_guarantee, job_rely. intros Ha Hb Hab Hinv HG.
  destruct (job_temporary jb) as [tb|] eqn:Htb; [|done].
  destruct (job_temporary ja) as [ta|] eqn:Hta; [|subst d'; apply rely_refl].
  pose proof (list_elem_of_lookup_2 _ _ _ Ha) as Hja. pose proof (list_elem_of_lookup_2 _ _ _ Hb) as Hjb.
  destruct (job_temp ja ta Hja Hta) as [Htempa Hnea]. destruct (job_temp jb tb Hjb Htb) as [Htempb _].
  assert (Hne : tb <> ta) by (intros ->; apply Hab; by eapply job_temporary_inj).
  assert (Hnd : tb <> j_path ja).
  { intros ->. rewrite Forall_forall in Hplain. by apply (Hplain ja Hja). }
  destruct Hinv as (Hwf & _ & _ & Hnext & Htemps). destruct HG as (Hother & Hkeep & Hlink & Hcontent & Hname & Hh).
  assert (Hsame : forall p i, p <> ta -> names d !! p = Some (IsFile i) -> content d' i = content d i).
  { intros p i Hp Hi. destruct (Hcontent i) as [?|(_ & _ & Honly)]; [done|]. by apply Honly in Hi. }
  split; [by apply Hother|]. split; [|split; [|done]].
  - intros i Hfirst Hi. split; [by eapply Hsame|]. intros p Hp.
    destruct (decide (p = ta)) as [->|Hpa].
    + destruct Hname as [Hn|[Hn|[_ Hn]]]; rewrite Hn in Hp; [done|done|].
      injection Hp as <-. apply (proj1 Hwf) in Hi. lia.
    + destruct (decide (p = j_path ja)) as [->|]; [|by rewrite <- Hother].
      destruct (names d !! j_path ja) as [e|] eqn:He; [specialize (Hkeep e eq_refl); congruence|].
      destruct (Hlink eq_refl) as [?|(i' & _ & Hi' & Hp' & _)]; [congruence|].
      rewrite Hp' in Hp. injection Hp as <-. exfalso. apply Hne. by apply (Htemps tb ta i').
  - intros p e Hnt He. assert (p <> ta) by (intros ->; done).
    split; [destruct (decide (p = j_path ja)) as [->|]; [by apply Hkeep|by rewrite Hother]|].
    intros i ->. by eapply Hsame.
Qed.

Lemma outcome_job j t p d : job_temporary j = Ok t ->
  rg (rely temporary_name (next_inode d0) t) (guarantee (next_inode d0) t (j_path j) (j_bytes j)) (outcome t (j_path j) (j_bytes j)) p d ->
  rg (job_rely j) (job_guarantee j) (job_outcome j) p d.
Proof.
  intros Ht. assert (Hr : job_rely j = rely temporary_name (next_inode d0) t) by (unfold job_rely; by rewrite Ht).
  assert (Hg : job_guarantee j = guarantee (next_inode d0) t (j_path j) (j_bytes j)) by (unfold job_guarantee; by rewrite Ht).
  rewrite Hr, Hg. revert d. induction p as [r|T o k IH]; intros d Hp d1 Hd1.
  - intros ->. destruct (Hp d1 Hd1 eq_refl) as [? ?]. by exists t.
  - intros fault. specialize (Hp d1 Hd1 fault). destruct (run_op fault o d1) as [x d2].
    destruct Hp as [? ?]. split; [done|by apply IH].
Qed.

Lemma job_safe j : j ∈ jobs -> rg (job_rely j) (job_guarantee j) (job_outcome j) (job_prog j) d0.
Proof.
  intros Hj. unfold job_prog, publish_range. fold (job_temporary j).
  destruct (job_temporary j) as [t|e] eqn:Ht.
  - apply (outcome_job j t); [done|]. destruct (job_temp j t Hj Ht) as [Htemp _].
    assert (Hd : ~ temporary_name (j_path j)).
    { rewrite Forall_forall in Hplain. by apply Hplain. }
    intros d1 HR fault. cbn [run_op]. split; [apply guarantee_refl|].
    destruct fault as [f|]; [|case_bool_decide; [apply safe_failed|]];
      (eapply rg_rely; [apply rely_trans|exact HR|]);
      (apply safe_publish; [done|done|]; by split).
  - intros d1 _ fault. cbn [run_op]. unfold job_guarantee, job_rely, job_outcome. rewrite Ht. split; [done|].
    destruct fault as [f|]; [|case_bool_decide]; intros d2 _ [=].
Qed.

Lemma jobs_safe ps d : pool_run (job_prog <$> jobs, d0) (ps, d) ->
  disk_inv d /\ forall k p j, ps !! k = Some p -> jobs !! k = Some j ->
    rg (job_rely j) (job_guarantee j) (job_outcome j) p d.
Proof.
  intros Hrun.
  set (R k := match jobs !! k with Some j => job_rely j | None => fun _ _ => True end).
  set (G k := match jobs !! k with Some j => job_guarantee j | None => fun _ _ => False end).
  set (Q k := match jobs !! k with Some j => job_outcome j | None => fun _ _ => True end).
  destruct (pool_safe R G Q disk_inv (job_prog <$> jobs) d0 ps d) as [Hd Hps].
  - intros k d1. unfold R, job_rely. destruct (jobs !! k) as [j|]; [|done].
    destruct (job_temporary j); [apply rely_refl|done].
  - intros k d1 d2 d3. unfold R, job_rely. destruct (jobs !! k) as [j|]; [|done].
    destruct (job_temporary j); [apply rely_trans|done].
  - intros a b d1 d2 Hab Hinv. unfold R, G. destruct (jobs !! a) as [ja|] eqn:Ha; [|done]. intros HG.
    destruct (jobs !! b) as [jb|] eqn:Hb; [exact (job_interference a b ja jb d1 d2 Ha Hb Hab Hinv HG)|done].
  - intros a d1 d2 Hinv. unfold G. destruct (jobs !! a) as [ja|] eqn:Ha; [|done]. exact (disk_inv_step a ja d1 d2 Ha Hinv).
  - split; [done|]. split; [by intros|]. split; [by intros p e ->|]. split; [lia|].
    intros p q i _ _ Hi Hp. apply (proj1 Hwf0) in Hp. lia.
  - intros k p. rewrite list_lookup_fmap. unfold R, G, Q. destruct (jobs !! k) as [j|] eqn:Hk; [|done].
    intros [= <-]. apply job_safe. by eapply list_elem_of_lookup_2.
  - exact Hrun.
  - split; [done|]. intros k p j Hp Hj. specialize (Hps k p Hp). unfold R, G, Q in Hps. by rewrite Hj in Hps.
Qed.
End jobs.

(** * Properties *)

(** C27: publishing a range is atomic and never clobbers.  Let any number of
    publications run interleaved on any disk, operation by operation, with
    any operation failing and any write falling short.  No two of them have
    both the same process and the same sequence number, and no destination is
    one of their temporary names.  At every moment: everything that was on
    the disk under another name than their temporary ones is there,
    unchanged; whatever else is there is at a temporary name or at a
    destination with all the bytes of one publication of it; a publication
    that reported success has its bytes at its destination and its temporary
    name removed; and of several publications of one destination at most one
    has reported success. *)
Theorem publications_atomic `{Allocator} (jobs : list Job) (d0 : Disk)
    (Hwf : wf_disk d0) (Hsequences : NoDup ((fun j => (j_process j, j_sequence j)) <$> jobs))
    (Hpositive : Forall (fun j => 0 <= j_process j /\ 0 <= j_sequence j) jobs)
    (Hplain : Forall (fun j => ~ temporary_name jobs (j_path j)) jobs)
    (ps : list (prog (Result unit))) (d : Disk)
    (Hrun : pool_run (job_prog <$> jobs, d0) (ps, d)) :
  (forall p e, ~ temporary_name jobs p -> names d0 !! p = Some e -> names d !! p = Some e /\
     forall i, e = IsFile i -> content d i = content d0 i) /\
  (forall p e, names d !! p = Some e -> names d0 !! p = None -> temporary_name jobs p \/
     exists j i, j ∈ jobs /\ j_path j = p /\ e = IsFile i /\ content d i = j_bytes j) /\
  (forall k j, ps !! k = Some (Ret (Ok tt)) -> jobs !! k = Some j ->
     exists t i, job_temporary j = Ok t /\ names d !! t = None /\
       names d !! j_path j = Some (IsFile i) /\ content d i = j_bytes j) /\
  (forall k l j j', ps !! k = Some (Ret (Ok tt)) -> ps !! l = Some (Ret (Ok tt)) ->
     jobs !! k = Some j -> jobs !! l = Some j' -> j_path j = j_path j' -> k = l).
Proof.
  destruct (jobs_safe jobs d0 Hwf Hsequences Hpositive Hplain ps d Hrun) as [Hinv Hsafe].
  assert (Hdone : forall k j, ps !! k = Some (Ret (Ok tt)) -> jobs !! k = Some j ->
    exists t, job_temporary j = Ok t /\ names d !! t = None /\
      exists i, published t (j_path j) (j_bytes j) i d).
  { intros k j Hp Hj. apply (Hsafe k _ j Hp Hj d); [|done].
    unfold job_rely. destruct (job_temporary j); [apply rely_refl|done]. }
  destruct Hinv as (_ & Hold & Hnew & _). split; [done|]. split; [done|]. split.
  - intros k j Hp Hj. destruct (Hdone k j Hp Hj) as (t & Ht & Hn & i & _ & Hi & Hc & _). by exists t, i.
  - intros k l j j' Hp Hp' Hj Hj' Heq.
    destruct (Hdone k j Hp Hj) as (t & Ht & _ & i & _ & Hi & _ & Hb).
    destruct (Hdone l j' Hp' Hj') as (t' & Ht' & _ & i' & _ & Hi' & _ & Hb').
    rewrite Heq in Hi. rewrite Hi in Hi'. injection Hi' as <-. rewrite Hb in Hb'. injection Hb' as <-.
    by eapply (job_temporary_inj jobs).
Qed.

Definition empty_disk : Disk := MkDisk ∅ ∅ 0 ∅.
Definition race_path : Path := MkPath true ["dumps"%string; "range.bin"%string].
Definition race_jobs : list Job :=
  [MkJob "Xen" 42 0 race_path [x01; x02]; MkJob "Xen" 43 0 race_path [x09]].

(** A disk with one file, under the temporary name of the first. *)
Definition race_temporary : Path := MkPath true ["dumps"%string; ".range.bin.vmi-range-42-0"%string].
Definition race_disk : Disk := MkDisk {[race_temporary := IsFile 0]} {[0 := [x07]]} 1 ∅.

(** Both find no destination; the first cannot create its temporary file,
    the second publishes. *)
Definition race : list (nat * option Fault) :=
  (fun i => (i, None)) <$> [0; 1; 0; 1; 0; 1; 1; 0; 1; 0; 1; 0]%nat.

Lemma publications_atomic_witness :
  let '(ps, d) := schedule race ((@job_prog ample_allocator <$> race_jobs), race_disk) in
  exists t i, @job_temporary ample_allocator (MkJob "Xen" 43 0 race_path [x09]) = Ok t /\
    names d !! t = None /\ names d !! race_path = Some (IsFile i) /\ content d i = [x09].
Proof.
  pose proof (schedule_run race ((@job_prog ample_allocator <$> race_jobs), race_disk)) as Hrun.
  destruct (schedule _ _) as [ps d] eqn:E.
  destruct (@publications_atomic ample_allocator race_jobs race_disk) with (ps := ps) (d := d)
    as (_ & _ & Hdone & _).
  - split.
    + intros p i Hp. change (({[race_temporary := IsFile 0]} : gmap Path entry) !! p = Some (IsFile i)) in Hp.
      apply lookup_singleton_Some in Hp as [_ [= <-]]. reflexivity.
    + intros i Hi. change (({[0 := [x07]]} : gmap Z (list byte)) !! i = None).
      apply lookup_singleton_ne. change (1 <= i) in Hi. lia.
  - apply (bool_decide_unpack _). vm_compute. exact Logic.I.
  - repeat constructor; vm_compute; discriminate.
  - repeat constructor; intros (j & Hj & Ht); repeat apply elem_of_cons in Hj as [->|Hj];
      (by apply not_elem_of_nil in Hj) || vm_compute in Ht; discriminate.
  - exact Hrun.
  - apply (Hdone 1%nat); [|reflexivity].
    change ps with (fst (ps, d)). rewrite <- E. vm_compute. reflexivity.
Defined.

(** Two providers of one process can use the same temporary name: each counts
    its own publications, and the name does not tell them apart.  Here both
    publish their first range to the same free destination; the second cannot
    create the name the first is using and removes it in its cleanup, so the
    first has nothing to link, and neither range is published. *)
Theorem providers_share_temporary :
  let jobs := [MkJob "Xen" 42 0 race_path [x01]; MkJob "VirtualBox" 42 0 race_path [x01]] in
  let '(ps, d) := schedule ((fun i => (i, None)) <$> [0; 1; 0; 1; 1; 0; 0; 0; 0]%nat)
    ((@job_prog ample_allocator <$> jobs), empty_disk) in
  (@job_temporary ample_allocator <$> jobs) = [Ok race_temporary; Ok race_temporary] /\
  Forall (fun p => exists e, p = Ret (Err e)) ps /\ names d !! race_path = None.
Proof. vm_compute. split; [done|]. split; [repeat constructor; by eexists|done]. Qed.

(** A temporary name already in use, by a process of the same number on
    another machine or in another container, is not left alone: creation
    fails, and the cleanup removes the other's file. *)
Lemma publication_removes_foreign_temporary errors temporary path bytes d i
    (Hused : names d !! temporary = Some (IsFile i)) :
  let '(r, d') := run_prog [] (publish errors temporary path bytes) d in
  r = Err (e_create errors (error_text exists_error)) /\ names d' !! temporary = None.
Proof.
  unfold publish, publish_body. cbn. rewrite Hused. cbn. rewrite Hused. cbn.
  split; [done|apply lookup_delete_eq].
Qed.

Lemma publication_removes_foreign_temporary_witness :
  let d := MkDisk {[race_path := IsFile 0]} {[0 := [x07]]} 1 ∅ in
  names (run_prog [] (publish (range_errors race_path) race_path race_path [x01]) d).2 !! race_path = None.
Proof.
  pose proof (publication_removes_foreign_temporary (range_errors race_path) race_path race_path [x01]
    (MkDisk {[race_path := IsFile 0]} {[0 := [x07]]} 1 ∅) 0 eq_refl) as Hrun.
  cbv zeta. destruct (run_prog _ _ _) as [r d']. apply Hrun.
Defined.
