(* ===== verification/Command.v ===== *)
(** * Commands with bounded output

    [run_bounded_command] of the VirtualBox, Xen and libvirt providers: a
    child process whose standard output and error are read by two threads,
    within one shared capacity, while the caller waits for it to end, for
    the capacity to be exceeded or for a deadline.  The three run
    interleaved; they share two atomics. *)

From S2P Require Import Prelude.
From S2P Require Import Types.
From S2P Require Import Text.
From S2P Require Import TextFacts.
From S2P Require Import Host.
From S2P Require Import Sequence.

(** [Duration]s are numbers of nanoseconds. *)
Definition seconds (n : Z) : Z := n * 1000000000.
Definition DEFAULT_COMMAND_TIMEOUT : Z := seconds 30.
Definition MAX_COMMAND_TIMEOUT : Z := seconds (24 * 60 * 60).

Definition bounded_command_timeout (timeout : Z) (command_name : string) : Result Z :=
  if timeout =? 0 then Err (Backend (command_name +:+ " timeout must be non-zero"))
  else Ok (Z.min timeout MAX_COMMAND_TIMEOUT).

Definition validate_command_output_lengths_with_limit (stdout stderr : Z) (command : string)
    (capacity : Z) : Result unit :=
  let? total := ok_or (checked_add 64 stdout stderr) (Backend (command +:+ " output length overflow")) in
  if capacity <? total then
    Err (Backend (command +:+ " output exceeds " +:+ dec capacity +:+ " bytes"))
  else Ok tt.

Definition try_thread_name `{Allocator} (command_name stream_name : string) : Result string :=
  let? capacity := ok_or
    (match checked_add 64 (Z.of_nat (String.length command_name)) (Z.of_nat (String.length stream_name)) with
     | Some length => checked_add 64 length 1
     | None => None
     end) (Backend "command reader thread name length overflow") in
  let? _ := map_err (fun error =>
      Backend ("failed to allocate command reader thread name: " +:+ error))
    (try_reserve "command reader thread name" capacity) in
  Ok (command_name +:+ "-" +:+ stream_name).

(** ** The threads *)

(** The number of bytes captured so far, and whether a reader had to stop. *)
Record Shared : Type := MkShared { captured : Z; output_exceeded : bool }.

(** One turn of the loop of [reserve_captured_bytes] with the value last
    seen: done with an answer, or with a newly observed value. *)
Definition reserve_captured_step (capacity count : Z) (spurious : bool) (current counter : Z)
    : (bool + Z) * Z :=
  match checked_add 64 current count with
  | Some next =>
      if next <=? capacity then
        match compare_exchange_weak spurious counter current next with
        | (Ok _, counter') => (inl true, counter')
        | (Err observed, counter') => (inr observed, counter')
        end
      else (inl false, counter)
  | None => (inl false, counter)
  end.

(** A reader: about to read, reserving room for a chunk (with the value of
    the counter once it is loaded), about to report, or ended. *)
Inductive reader : Type :=
| Reading (bytes : list byte) (pipe : stream)
| Reserving (bytes chunk : list byte) (pipe : stream) (current : option Z)
| Exceeding (bytes : list byte)
| Ended (r : result string (list byte)).

Definition reader_step `{Allocator} (capacity : Z) (spurious : bool) (r : reader) (s : Shared)
    : reader * Shared :=
  match r with
  | Reading bytes pipe =>
      match read_retry pipe 8192 with
      | (Err error, _) => (Ended (Err error), s)
      | (Ok chunk, pipe') =>
          (if zlen chunk =? 0 then Ended (Ok bytes) else Reserving bytes chunk pipe' None, s)
      end
  | Reserving bytes chunk pipe None => (Reserving bytes chunk pipe (Some (captured s)), s)
  | Reserving bytes chunk pipe (Some current) =>
      match reserve_captured_step capacity (zlen chunk) spurious current (captured s) with
      | (inl true, counter) =>
          (match try_reserve "command output" (zlen bytes + zlen chunk) with
           | Err error => Ended (Err error)
           | Ok _ => Reading (bytes ++ chunk) pipe
           end, MkShared counter (output_exceeded s))
      | (inl false, counter) => (Exceeding bytes, MkShared counter (output_exceeded s))
      | (inr observed, counter) =>
          (Reserving bytes chunk pipe (Some observed), MkShared counter (output_exceeded s))
      end
  | Exceeding bytes => (Ended (Ok bytes), MkShared (captured s) true)
  | Ended r => (Ended r, s)
  end.

Section caller.
Context {Status : Type}.

(** The three providers differ in the name of the timeout and in whether the
    lengths are checked once more at the end. *)
Record Command : Type := MkCommand {
  command_name : string;
  capacity : Z;
  timeout_operation : string;
  validates_lengths : bool;
}.

(** The calling thread: in its polling loop, joining the readers, or done. *)
Inductive caller : Type :=
| Polling
| Joining (status : Status)
| Returned (r : Result (Status * list byte * list byte)).

Definition exceeds (c : Command) : VmiError.t :=
  Backend (command_name c +:+ " output exceeds " +:+ dec (capacity c) +:+ " bytes").

(** One round of the polling loop: what [try_wait] answers, the flag as it
    is, and whether the deadline has passed. *)
Definition poll (c : Command) (try_wait : result string (option Status)) (s : Shared) (expired : bool)
    : caller :=
  match try_wait with
  | Err error => Returned (Err (Backend ("failed to wait for " +:+ command_name c +:+ ": " +:+ error)))
  | Ok (Some status) => Joining status
  | Ok None =>
      if output_exceeded s then Returned (Err (exceeds c))
      else if expired then Returned (Err (VmiError.Timeout (timeout_operation c)))
      else Polling
  end.

(** After both readers have ended. *)
Definition join (c : Command) (status : Status) (stdout stderr : result string (list byte)) (s : Shared)
    : Result (Status * list byte * list byte) :=
  let? stdout := map_err (fun error =>
      Backend ("failed to read " +:+ command_name c +:+ " stdout: " +:+ error)) stdout in
  let? stderr := map_err (fun error =>
      Backend ("failed to read " +:+ command_name c +:+ " stderr: " +:+ error)) stderr in
  if output_exceeded s then Err (exceeds c)
  else
    let? _ :=
      if validates_lengths c then
        validate_command_output_lengths_with_limit (zlen stdout) (zlen stderr) (command_name c) (capacity c)
      else Ok tt in
    Ok (status, stdout, stderr).

(** What is checked before the child is started. *)
Definition prepare `{Allocator} (c : Command) (timeout : Z) : Result Z :=
  let? timeout := bounded_command_timeout timeout (command_name c) in
  let? _ := try_thread_name (command_name c) "stdout" in
  let? _ := try_thread_name (command_name c) "stderr" in
  let? _ := ok_or (checked_add 64 (capacity c) 1)
    (Backend (command_name c +:+ " output capacity is too large for bounded capture")) in
  Ok timeout.

(** ** Their interleavings *)

Record config : Type := MkConfig {
  shared : Shared;
  stdout_reader : reader;
  stderr_reader : reader;
  caller_at : caller;
}.

Definition start (stdout stderr : stream) : config :=
  MkConfig (MkShared 0 false) (Reading [] stdout) (Reading [] stderr) Polling.

Inductive command_step `{Allocator} (c : Command) : config -> config -> Prop :=
| step_stdout k spurious r s :
    reader_step (capacity c) spurious (stdout_reader k) (shared k) = (r, s) ->
    command_step c k (MkConfig s r (stderr_reader k) (caller_at k))
| step_stderr k spurious r s :
    reader_step (capacity c) spurious (stderr_reader k) (shared k) = (r, s) ->
    command_step c k (MkConfig s (stdout_reader k) r (caller_at k))
| step_poll k try_wait expired :
    caller_at k = Polling ->
    command_step c k (MkConfig (shared k) (stdout_reader k) (stderr_reader k)
                        (poll c try_wait (shared k) expired))
| step_join k status stdout stderr :
    caller_at k = Joining status -> stdout_reader k = Ended stdout -> stderr_reader k = Ended stderr ->
    command_step c k (MkConfig (shared k) (stdout_reader k) (stderr_reader k)
                        (Returned (join c status stdout stderr (shared k)))).

(** A run by a schedule. *)
Inductive turn : Type :=
| Out (spurious : bool) | Error_ (spurious : bool)
| Poll (try_wait : result string (option Status)) (expired : bool) | Join.

Definition take_turn `{Allocator} (c : Command) (k : config) (t : turn) : config :=
  match t with
  | Out spurious =>
      let '(r, s) := reader_step (capacity c) spurious (stdout_reader k) (shared k) in
      MkConfig s r (stderr_reader k) (caller_at k)
  | Error_ spurious =>
      let '(r, s) := reader_step (capacity c) spurious (stderr_reader k) (shared k) in
      MkConfig s (stdout_reader k) r (caller_at k)
  | Poll try_wait expired =>
      match caller_at k with
      | Polling => MkConfig (shared k) (stdout_reader k) (stderr_reader k)
                     (poll c try_wait (shared k) expired)
      | _ => k
      end
  | Join =>
      match caller_at k, stdout_reader k, stderr_reader k with
      | Joining status, Ended stdout, Ended stderr =>
          MkConfig (shared k) (stdout_reader k) (stderr_reader k)
            (Returned (join c status stdout stderr (shared k)))
      | _, _, _ => k
      end
  end.

Lemma take_turn_step `{Allocator} c k t : command_step c k (take_turn c k t) \/ take_turn c k t = k.
Proof.
  destruct t as [sp|sp|tw ex|]; cbn [take_turn].
  - left. destruct (reader_step _ _ _ _) as [r s] eqn:E. by eapply step_stdout.
  - left. destruct (reader_step _ _ _ _) as [r s] eqn:E. by eapply step_stderr.
  - destruct (caller_at k) eqn:E; [left; by apply step_poll|by right..].
  - destruct (caller_at k) eqn:E, (stdout_reader k) eqn:E1, (stderr_reader k) eqn:E2; try by right.
    left. rewrite <- E1, <- E2. by apply step_join.
Qed.

Lemma turns_run `{Allocator} c ts k : rtc (command_step c) k (foldl (take_turn c) k ts).
Proof.
  revert k. induction ts as [|t ts IH]; intros k; cbn; [done|].
  destruct (take_turn_step c k t) as [Hs| ->]; [by eapply rtc_l|done].
Qed.

(** What [execute] makes of a command that ended. *)
Definition execute_result (c : Command) (success : Status -> bool) (display : Status -> string)
    (outcome : Result (Status * list byte * list byte)) : Result string :=
  let? ' (status, stdout, stderr) := outcome in
  if negb (success status) then
    Err (Backend (command_name c +:+ " failed with " +:+ display status +:+ ": "
           +:+ trim (string_of_bytes (lossy stderr))))
  else
    map_err (fun error => Backend (command_name c +:+ " output is not UTF-8: " +:+ Utf8.display error))
      (let? _ := Utf8.from_utf8 stdout in Ok (string_of_bytes stdout)).
End caller.
Arguments caller Status : clear implicits.
Arguments config Status : clear implicits.

(** * What bounded commands guarantee *)

Section facts.
Context `{Allocator} {Status : Type} (c : Command) (stdout stderr : stream).

(** The bytes a reader keeps. *)
Definition kept (r : reader) : list byte :=
  match r with
  | Reading bytes _ | Reserving bytes _ _ _ | Exceeding bytes | Ended (Ok bytes) => bytes
  | Ended (Err _) => []
  end.

(** What a reader has taken from its pipe and what is left make the pipe;
    one that ended without an error has taken everything, or has raised the
    flag. *)
Definition reader_inv (pipe : stream) (s : Shared) (r : reader) : Prop :=
  match r with
  | Reading bytes rest => stream_bytes pipe = app bytes <$> stream_bytes rest
  | Reserving bytes chunk rest _ => stream_bytes pipe = app (bytes ++ chunk) <$> stream_bytes rest
  | Exceeding _ => True
  | Ended (Ok bytes) => stream_bytes pipe = Some bytes \/ output_exceeded s = true
  | Ended (Err _) => True
  end.

Definition command_inv (k : config Status) : Prop :=
  reader_inv stdout (shared k) (stdout_reader k) /\ reader_inv stderr (shared k) (stderr_reader k) /\
  zlen (kept (stdout_reader k)) + zlen (kept (stderr_reader k)) <= captured (shared k) <= capacity c /\
  match caller_at k with
  | Returned (Ok (_, o, e)) =>
      stream_bytes stdout = Some o /\ stream_bytes stderr = Some e /\ zlen o + zlen e <= capacity c
  | _ => True
  end.

Lemma reader_inv_flag pipe s s' r :
  (output_exceeded s = true -> output_exceeded s' = true) -> reader_inv pipe s r -> reader_inv pipe s' r.
Proof. intros Hs. destruct r as [| | |[|]]; cbn; [done..| |done]. intros [?|?]; auto. Qed.

(** A step of one reader, with [others] bytes kept by the other. *)
Lemma reader_step_inv pipe spurious r s r' s' others :
  reader_step (capacity c) spurious r s = (r', s') -> reader_inv pipe s r -> 0 <= others ->
  zlen (kept r) + others <= captured s <= capacity c ->
  reader_inv pipe s' r' /\ zlen (kept r') + others <= captured s' <= capacity c /\
  (output_exceeded s = true -> output_exceeded s' = true).
Proof.
  intros Hs Hr Ho Hc. destruct r as [bytes rest|bytes chunk rest [current|]|bytes|r]; cbn [reader_step] in Hs.
  - pose proof (read_retry_spec rest 8192 ltac:(lia)) as Hread.
    destruct (read_retry rest 8192) as [[chunk|error] rest'].
    + destruct Hread as [_ Hread]. destruct (zlen chunk =? 0); injection Hs as <- <-; cbn in *.
      * split; [left; by rewrite Hr, Hread; cbn; rewrite app_nil_r|done].
      * split; [|done]. rewrite Hr, Hread. destruct (stream_bytes rest'); cbn; [by rewrite app_assoc|done].
    + injection Hs as <- <-. cbn in *. split; [done|]. split; [unfold zlen in *; cbn; lia|done].
  - unfold reserve_captured_step, compare_exchange_weak in Hs.
    destruct (checked_add 64 current (zlen chunk)) as [next|] eqn:Hadd;
      [|by injection Hs as <- <-].
    apply checked_add_Some in Hadd as [-> _].
    destruct (Z.leb_spec (current + zlen chunk) (capacity c)); [|by injection Hs as <- <-].
    destruct (Z.eqb_spec (captured s) current) as [Heq|]; cbn [andb] in Hs;
      [destruct spurious; cbn [negb] in Hs|]; try by injection Hs as <- <-.
    pose proof (zlen_nonneg chunk). pose proof (zlen_nonneg bytes).
    destruct (try_reserve _ _); injection Hs as <- <-; cbn in *.
    + split; [done|]. rewrite zlen_app. split; [lia|done].
    + split; [done|]. unfold zlen at 1. cbn. split; [lia|done].
  - by injection Hs as <- <-.
  - injection Hs as <- <-. cbn in *. auto.
  - by injection Hs as <- <-.
Qed.

Lemma join_Ok status o e s so se st :
  join (Status := Status) c status o e s = Ok (st, so, se) -> o = Ok so /\ e = Ok se /\ output_exceeded s = false.
Proof.
  unfold join. intros Hj. inv_ok. destruct (output_exceeded s); [done|]. inv_ok. by simplify_eq.
Qed.

Lemma command_inv_step k k' : command_inv k -> command_step c k k' -> command_inv k'.
Proof.
  intros (Ho & He & Hc & Hcall) Hstep.
  destruct Hstep as [k spurious r s Hs|k spurious r s Hs|k try_wait expired Hk|k status o e Hk Hso Hse];
    cbn [shared stdout_reader stderr_reader caller_at].
  - destruct (reader_step_inv stdout spurious _ _ _ _ (zlen (kept (stderr_reader k))) Hs Ho
      (zlen_nonneg _) Hc) as (Ho' & Hc' & Hf).
    split; [done|]. split; [by eapply reader_inv_flag|done].
  - destruct (reader_step_inv stderr spurious _ _ _ _ (zlen (kept (stdout_reader k))) Hs He
      (zlen_nonneg _) ltac:(lia)) as (He' & Hc' & Hf).
    split; [by eapply reader_inv_flag|]. split; [done|]. split; [cbn; lia|done].
  - split; [done|]. split; [done|]. split; [done|]. cbn. unfold poll.
    destruct try_wait as [[?|]|?]; [done| |done]. destruct (output_exceeded _); [done|]. by destruct expired.
  - split; [done|]. split; [done|]. split; [done|]. cbn.
    destruct (join _ _ _ _ _) as [[[st so] se]|] eqn:Hj; [|done].
    apply join_Ok in Hj as (-> & -> & Hflag). rewrite Hso, Hse in *. cbn in *. rewrite Hflag in *.
    destruct Ho as [?|?]; [|done]. destruct He as [?|?]; [|done]. split; [done|]. split; [done|lia].
Qed.
End facts.

Lemma command_output_kept `{Allocator} {Status : Type} (c : Command) (stdout stderr : stream)
    (k : config Status) (Hcapacity : 0 <= capacity c)
    (Hrun : rtc (command_step c) (start stdout stderr) k) :
  zlen (kept (stdout_reader k)) + zlen (kept (stderr_reader k)) <= capacity c /\
  (forall status o e, caller_at k = Returned (Ok (status, o, e)) ->
     stream_bytes stdout = Some o /\ stream_bytes stderr = Some e /\ zlen o + zlen e <= capacity c).
Proof.
  assert (Hinv : command_inv c stdout stderr k).
  { apply (rtc_invariant _ _ _ _ (command_inv_step c stdout stderr) Hrun).
    split; [by cbn; destruct (stream_bytes stdout)|]. split; [by cbn; destruct (stream_bytes stderr)|].
    split; [cbn; unfold zlen; cbn; lia|done]. }
  destruct Hinv as (_ & _ & Hc & Hcall). split; [lia|]. intros status o e Hk. by rewrite Hk in Hcall.
Qed.
