(* ===== verification/Process.v ===== *)
(** * Process transports

    The programs behind the live providers: [ProcessTransport] of the
    VirtualBox, Xen and libvirt drivers and [XenCtxTransport]'s command.  A
    transport starts its program, has its output read by the threads of
    [Command], and turns what they kept and the exit status into text or an
    error; in the end the child process has been waited for, or not. *)

From S2P Require Import Prelude.
From S2P Require Import Types.
From S2P Require Import Text.
From S2P Require Import TextFacts.
From S2P Require Import Host.
From S2P Require Import Command.

(** ** The operating system *)

(** A started child: a pipe for each stream it was asked for. *)
Record Child : Type := mk_child { out_pipe : option stream; err_pipe : option stream }.

(** What starting a program, starting a named thread and killing the child
    come to, and how an exit status reads. *)
Class System := {
  ExitStatus : Type;
  success : ExitStatus -> bool;
  status_display : ExitStatus -> string;
  spawn : string -> list string -> result string Child;
  start_thread : string -> result string unit;
  kill : result string unit;
}.

(** What became of the child. *)
Inductive fate : Type := NotStarted | Running | Reaped.

(** A program and how long it may run, in nanoseconds. *)
Record Transport : Type := mk_transport { executable : string; timeout : Z }.

Section processes.
Context `{Allocator, System}.

Definition terminate_and_reap : fate := match kill with Ok _ => Reaped | Err _ => Running end.

(** ** VirtualBox and Xen: [run_bounded_command_with_limit] *)

(** Up to the polling loop: the child is started with both pipes, then the
    two readers. *)
Definition launch (c : Command) (executable : string) (arguments : list string) (timeout : Z)
    : Result (config ExitStatus) * fate :=
  let name stream := (command_name c +:+ "-" +:+ stream)%string in
  let capture (stream : string) := Backend ("failed to capture " +:+ command_name c +:+ " " +:+ stream) in
  let started (stream error : string) :=
    Backend ("failed to start " +:+ command_name c +:+ " " +:+ stream +:+ " reader: " +:+ error) in
  match prepare c timeout with
  | Err e => (Err e, NotStarted)
  | Ok _ =>
      match spawn executable arguments with
      | Err error => (Err (Backend ("failed to execute " +:+ executable +:+ ": " +:+ error)), NotStarted)
      | Ok child =>
          match out_pipe child, err_pipe child with
          | None, _ => (Err (capture "stdout"), terminate_and_reap)
          | Some _, None => (Err (capture "stderr"), terminate_and_reap)
          | Some stdout, Some stderr =>
              match start_thread (name "stdout"), start_thread (name "stderr") with
              | Err error, _ => (Err (started "stdout" error), terminate_and_reap)
              | Ok _, Err error => (Err (started "stderr" error), terminate_and_reap)
              | Ok _, Ok _ => (Ok (start stdout stderr), Running)
              end
          end
      end
  end.

(** From there: refused before it began; given up by the polling loop, the
    child then [stopped]; or ended, waited for and its readers joined. *)
Inductive bounded (c : Command) (launched : Result (config ExitStatus) * fate) (stopped : fate)
    : Result (ExitStatus * list byte * list byte) -> fate -> Prop :=
| bounded_refused e f : launched = (Err e, f) -> bounded c launched stopped (Err e) f
| bounded_stopped k0 k try_wait expired e :
    launched = (Ok k0, Running) -> rtc (command_step c) k0 k -> caller_at k = Polling ->
    poll (Status := ExitStatus) c try_wait (shared k) expired = Returned (Err e) -> bounded c launched stopped (Err e) stopped
| bounded_joined k0 k status o e :
    launched = (Ok k0, Running) -> rtc (command_step c) k0 k -> caller_at k = Joining status ->
    stdout_reader k = Ended o -> stderr_reader k = Ended e ->
    bounded c launched stopped (join c status o e (shared k)) Reaped.

Definition run_bounded_command (c : Command) (t : Transport) (arguments : list string)
    : Result (ExitStatus * list byte * list byte) -> fate -> Prop :=
  bounded c (launch c (executable t) arguments (timeout t)) terminate_and_reap.

(** The text of an outcome. *)
Definition executes (c : Command) (t : Transport) (arguments : list string) (r : Result string) (f : fate) : Prop :=
  exists outcome, run_bounded_command c t arguments outcome f /\
    r = execute_result c success status_display outcome.

Definition with_bounded_timeout (command_name : string) (t : Transport) (timeout : Z) : Result Transport :=
  let? timeout := bounded_command_timeout timeout command_name in
  Ok (mk_transport (executable t) timeout).
End processes.

(** ** The four programs *)

Module VBoxProcess.
Definition COMMAND_OUTPUT_CAPACITY : Z := 16 * 1024 * 1024.
Definition command : Command := MkCommand "VBoxManage" COMMAND_OUTPUT_CAPACITY "VirtualBox command" true.
Definition default : Transport := mk_transport "VBoxManage" DEFAULT_COMMAND_TIMEOUT.
Definition new (executable : string) : Transport := mk_transport executable DEFAULT_COMMAND_TIMEOUT.
Definition with_timeout : Transport -> Z -> Result Transport := with_bounded_timeout "VBoxManage".
Definition execute `{Allocator, System} : Transport -> list string -> Result string -> fate -> Prop := executes command.
End VBoxProcess.

Module XlProcess.
Definition COMMAND_OUTPUT_CAPACITY : Z := 16 * 1024 * 1024.
Definition command : Command := MkCommand "xl" COMMAND_OUTPUT_CAPACITY "Xen command" true.
Definition default : Transport := mk_transport "xl" DEFAULT_COMMAND_TIMEOUT.
Definition new (executable : string) : Transport := mk_transport executable DEFAULT_COMMAND_TIMEOUT.
Definition with_timeout : Transport -> Z -> Result Transport := with_bounded_timeout "xl".
Definition execute `{Allocator, System} : Transport -> list string -> Result string -> fate -> Prop := executes command.
End XlProcess.

(** The command of [XenCtxTransport]; its domain is an argument of
    [XenCtx.read_register]. *)
Module XenCtxProcess.
Definition command : Command := MkCommand "xenctx" XlProcess.COMMAND_OUTPUT_CAPACITY "Xen command" true.
Definition new : Transport := mk_transport "xenctx" DEFAULT_COMMAND_TIMEOUT.
Definition with_executable (executable : string) : Transport := mk_transport executable DEFAULT_COMMAND_TIMEOUT.
Definition with_timeout : Transport -> Z -> Result Transport := with_bounded_timeout "xenctx".
Definition execute `{Allocator, System} : Transport -> list string -> Result string -> fate -> Prop := executes command.
End XenCtxProcess.

(** libvirt's own copy: nothing is checked before the program is started,
    the kill's result does not matter, and a reader that cannot be started
    leaves the child as it is. *)
Module VirshProcess.
Definition COMMAND_OUTPUT_CAPACITY : Z := 1024 * 1024.
Definition command : Command := MkCommand "virsh" COMMAND_OUTPUT_CAPACITY "libvirt command" false.
Definition default : Transport := mk_transport "virsh" DEFAULT_COMMAND_TIMEOUT.
Definition new (executable : string) : Transport := mk_transport executable DEFAULT_COMMAND_TIMEOUT.

Definition with_timeout (t : Transport) (timeout : Z) : Result Transport :=
  if timeout =? 0 then Err (Backend "virsh command timeout must be non-zero")
  else Ok (mk_transport (executable t) (Z.min timeout MAX_COMMAND_TIMEOUT)).

Section virsh.
Context `{Allocator, System}.

Definition terminate_and_reap : fate := Reaped.

Definition spawn_reader (stream : string) : Result unit :=
  map_err (fun error => Backend ("failed to start virsh " +:+ stream +:+ " reader: " +:+ error))
    (start_thread ("virsh-" +:+ stream)).

Definition launch (executable : string) (arguments : list string) : Result (config ExitStatus) * fate :=
  match spawn executable arguments with
  | Err error => (Err (Backend ("failed to execute " +:+ executable +:+ ": " +:+ error)), NotStarted)
  | Ok child =>
      match out_pipe child, err_pipe child with
      | None, _ => (Err (Backend "failed to capture virsh stdout"), terminate_and_reap)
      | Some _, None => (Err (Backend "failed to capture virsh stderr"), terminate_and_reap)
      | Some stdout, Some stderr =>
          (let? _ := spawn_reader "stdout" in let? _ := spawn_reader "stderr" in Ok (start stdout stderr), Running)
      end
  end.

Definition run_bounded_command (t : Transport) (arguments : list string)
    : Result (ExitStatus * list byte * list byte) -> fate -> Prop :=
  bounded command (launch (executable t) arguments) terminate_and_reap.

Definition execute (t : Transport) (arguments : list string) (r : Result string) (f : fate) : Prop :=
  exists outcome, run_bounded_command t arguments outcome f /\
    r = execute_result command success status_display outcome.
End virsh.
End VirshProcess.

(** * What a command's text is *)

Section facts.
Context `{Allocator, System}.

Definition process_commands : list (Transport -> list string -> Result string -> fate -> Prop) :=
  [VBoxProcess.execute; XlProcess.execute; XenCtxProcess.execute; VirshProcess.execute].

(** The launches agree in what they start. *)
Definition starts (launched : Result (config ExitStatus) * fate) (executable : string) (arguments : list string) : Prop :=
  match launched with
  | (Ok k, f) => f = Running /\ exists stdout stderr,
      spawn executable arguments = Ok (mk_child (Some stdout) (Some stderr)) /\ k = start stdout stderr
  | (Err _, f) => is_ok kill = true -> (forall name, is_ok (start_thread name) = true) -> f <> Running
  end.

Lemma terminate_killed : is_ok kill = true -> terminate_and_reap <> Running.
Proof. unfold terminate_and_reap. by destruct kill. Qed.

Lemma launch_starts c executable arguments timeout :
  starts (launch c executable arguments timeout) executable arguments.
Proof.
  unfold launch, starts. destruct (prepare _ _); [|done]. destruct (spawn _ _) as [[[o|] [e|]]|]; cbn [out_pipe err_pipe];
    try (intros Hk _; by apply terminate_killed); try done.
  destruct (start_thread (command_name c +:+ "-" +:+ "stdout")); [|intros Hk _; by apply terminate_killed].
  destruct (start_thread (command_name c +:+ "-" +:+ "stderr")); [|intros Hk _; by apply terminate_killed].
  split; [done|]. by exists o, e.
Qed.

Lemma virsh_launch_starts executable arguments : starts (VirshProcess.launch executable arguments) executable arguments.
Proof.
  unfold VirshProcess.launch, VirshProcess.spawn_reader, starts.
  destruct (spawn _ _) as [[[o|] [e|]]|]; cbn [out_pipe err_pipe]; try done.
  destruct (start_thread ("virsh-" +:+ "stdout")) as [?|?] eqn:E1;
    [destruct (start_thread ("virsh-" +:+ "stderr")) as [?|?] eqn:E2|]; cbn [map_err mbind result_bind].
  - split; [done|]. by exists o, e.
  - intros _ Hall. specialize (Hall ("virsh-" +:+ "stderr")). by rewrite E2 in Hall.
  - intros _ Hall. specialize (Hall ("virsh-" +:+ "stdout")). by rewrite E1 in Hall.
Qed.

Lemma execute_result_Ok c outcome text :
  execute_result c success status_display outcome = Ok text ->
  exists status e, outcome = Ok (status, bytes_of_string text, e) /\ success status = true /\
    Utf8.from_utf8 (bytes_of_string text) = Ok tt.
Proof.
  unfold execute_result. destruct outcome as [[[status o] e]|]; [|done]. cbn [mbind result_bind].
  destruct (success status) eqn:Hs; [|done]. cbn [negb]. intros Hr. inv_ok. destruct v. subst text.
  exists status, e. by rewrite bytes_of_string_of_bytes.
Qed.

Lemma bounded_text c launched stopped executable arguments text f :
  0 <= capacity c -> starts launched executable arguments ->
  (exists outcome, bounded c launched stopped outcome f /\
     Ok text = execute_result c success status_display outcome) ->
  exists status stdout stderr e,
    spawn executable arguments = Ok (mk_child (Some stdout) (Some stderr)) /\ success status = true /\
    stream_bytes stdout = Some (bytes_of_string text) /\ stream_bytes stderr = Some e /\
    zlen (bytes_of_string text) + zlen e <= capacity c /\
    Utf8.from_utf8 (bytes_of_string text) = Ok tt /\ f = Reaped.
Proof.
  intros Hc Hstarts (outcome & Hb & Hr). symmetry in Hr.
  apply execute_result_Ok in Hr as (status & e & -> & Hs & Hutf).
  remember (Ok (status, bytes_of_string text, e)) as outcome eqn:Hj.
  destruct Hb as [|k0 k tw ex e' Hl Hrun Hk Hp|k0 k st o' e' Hl Hrun Hk Ho He]; try done.
  rewrite Hl in Hstarts. destruct Hstarts as (_ & stdout & stderr & Hspawn & ->).
  destruct (command_output_kept c stdout stderr
    (MkConfig (shared k) (stdout_reader k) (stderr_reader k) (Returned (Ok (status, bytes_of_string text, e)))))
    as [_ Hall]; [done| |].
  { eapply rtc_r; [exact Hrun|]. rewrite <- Hj. by apply step_join. }
  destruct (Hall _ _ _ eq_refl) as (Hout & Herr & Hlen). by exists status, stdout, stderr, e.
Qed.

Lemma bounded_reaped c launched stopped executable arguments outcome f :
  starts launched executable arguments -> is_ok kill = true -> (forall name, is_ok (start_thread name) = true) ->
  stopped <> Running -> bounded c launched stopped outcome f -> f <> Running.
Proof.
  intros Hstarts Hk Ht Hs Hb. destruct Hb as [e f Hl|k0 k tw ex e Hl|]; [|done|done].
  rewrite Hl in Hstarts. by apply Hstarts.
Qed.

(** Every command is one of [bounded], whatever starts it. *)
Lemma process_bounded execute t arguments r f : execute ∈ process_commands -> execute t arguments r f ->
  exists c launched stopped, 0 <= capacity c <= 16 * 1024 * 1024 /\ starts launched (executable t) arguments /\
    (is_ok kill = true -> stopped <> Running) /\
    exists outcome, bounded c launched stopped outcome f /\ r = execute_result c success status_display outcome.
Proof.
  intros Hin Hrun. unfold process_commands in Hin. rewrite !elem_of_cons in Hin.
  destruct Hin as [->|[->|[->|[->|[]%not_elem_of_nil]]]].
  1,2,3: eexists _, _, _; (split; [|split; [apply launch_starts|split; [apply terminate_killed|exact Hrun]]]);
    by vm_compute.
  eexists _, _, _. split; [|split; [apply virsh_launch_starts|split; [|exact Hrun]]]; [by vm_compute|done].
Qed.
End facts.

(** C33: a command's text is all its program wrote.  Whatever driver runs a
    program, and however its two readers and the polling caller interleave:
    a command that gives text has started the program with both streams
    captured, its exit status was a success, the text is every byte of its
    standard output, in UTF-8, and together with standard error within the
    capacity, and the child was waited for.  However a command ends, when
    threads can be started and the child can be killed, no child is left
    running. *)
Theorem process_output_complete `{Allocator, System}
    (execute : Transport -> list string -> Result string -> fate -> Prop) (t : Transport)
    (arguments : list string) (r : Result string) (f : fate)
    (Hexecute : execute ∈ process_commands) (Hrun : execute t arguments r f) :
  (forall text, r = Ok text -> exists status stdout stderr e,
     spawn (executable t) arguments = Ok (mk_child (Some stdout) (Some stderr)) /\ success status = true /\
     stream_bytes stdout = Some (bytes_of_string text) /\ stream_bytes stderr = Some e /\
     zlen (bytes_of_string text) + zlen e <= 16 * 1024 * 1024 /\
     Utf8.from_utf8 (bytes_of_string text) = Ok tt /\ f = Reaped) /\
  (is_ok kill = true -> (forall name, is_ok (start_thread name) = true) -> f <> Running).
Proof.
  destruct (process_bounded _ _ _ _ _ Hexecute Hrun) as (c & launched & stopped & Hc & Hstarts & Hstop & outcome & Hb & ->).
  split.
  - intros text Htext. destruct (bounded_text c launched stopped (executable t) arguments text f)
      as (status & stdout & stderr & e & Hspawn & Hs & Ho & He & Hlen & Hrest); [lia|done|by exists outcome|].
    exists status, stdout, stderr, e. repeat (split; [done|]). split; [lia|done].
  - intros Hk Ht. eapply bounded_reaped; eauto.
Qed.

(** [xl list] printing two bytes, with one on standard error; one exchange
    of the readers fails because the other was faster, one without cause. *)
Definition example_system : System := {|
  ExitStatus := Z;
  success := Z.eqb 0;
  status_display := dec;
  spawn := fun _ _ => Ok (mk_child (Some [Chunk [x61; x62]]) (Some [Interrupted; Chunk [x63]]));
  start_thread := fun _ => Ok tt;
  kill := Ok tt;
|}.

Definition example_turns : list turn :=
  [Out false; Error_ false; Out false; Error_ false; Poll (Ok None) false; Out false;
   Error_ false; Error_ true; Error_ false; Out false; Error_ false; Poll (Ok (Some 0)) true].

Lemma process_output_complete_witness :
  let xl := @XlProcess.execute ample_allocator example_system in
  xl XlProcess.default ["list"%string] (Ok "ab"%string) Reaped /\
  @stream_bytes [Chunk [x61; x62]] = Some (bytes_of_string "ab").
Proof.
  intros xl.
  set (k0 := start (Status := Z) [Chunk [x61; x62]] [Interrupted; Chunk [x63]]).
  pose proof (@turns_run Z ample_allocator XlProcess.command example_turns k0) as Hturns.
  assert (Hrun : xl XlProcess.default ["list"%string] (Ok "ab"%string) Reaped).
  { exists (Ok (0, [x61; x62], [x63])). split; [|vm_compute; reflexivity].
    pose proof (@bounded_joined ample_allocator example_system XlProcess.command
      (@launch ample_allocator example_system XlProcess.command "xl" ["list"%string] DEFAULT_COMMAND_TIMEOUT)
      (@terminate_and_reap example_system) k0 _ 0 (Ok [x61; x62]) (Ok [x63]) ltac:(vm_compute; reflexivity) Hturns
      ltac:(vm_compute; reflexivity) ltac:(vm_compute; reflexivity) ltac:(vm_compute; reflexivity)) as Hjoined.
    replace (join _ _ _ _ _) with
      (Ok (0, [x61; x62], [x63]) : Result (@ExitStatus example_system * list byte * list byte)) in Hjoined
      by (vm_compute; reflexivity).
    exact Hjoined. }
  split; [exact Hrun|].
  destruct (@process_output_complete ample_allocator example_system xl XlProcess.default ["list"%string] (Ok "ab"%string) Reaped)
    as [Htext _]; [apply list_elem_of_further, list_elem_of_here|exact Hrun|].
  destruct (Htext "ab"%string eq_refl) as (status & stdout & stderr & e & Hspawn & _ & Ho & _).
  injection Hspawn as <- _. exact Ho.
Defined.
