(* ===== verification/Fake.v ===== *)
(** * The test provider ([crates/vmi-testkit])

    A provider over sparse segments held in memory, with injected faults:
    every facet of the provider contract, publishing acquisitions to the
    disk. *)

From S2P Require Import Prelude.
From S2P Require Import Types.
From S2P Require Import DriverApi.
From S2P Require Import Host.
From S2P Require Import HostFs.
From S2P Require Import Sequence.
From S2P Require Import Publication.

Module SparseSegment.
Record t : Type := new { start : Gpa.t; bytes : list byte }.
End SparseSegment.

Module FakeConnector.
Record t : Type := mk {
  descriptor : ProviderDescriptor.t;
  target : TargetDescriptor.t;
  capabilities : Z;
  segments : list SparseSegment.t;
  registers : gmap (Z * string) Z;
  events : list VmiEvent;
  read_faults : gset Z;
  write_faults : gset Z;
}.

Section builders.
Context `{Bitflags}.

Definition new : t :=
  let capabilities := CapabilitySet.from_caps [Capability.MemoryRead] in
  mk (ProviderDescriptor.new "fake-read-only" "Fake Read-Only Provider" ProviderMaturity.Supported
        capabilities)
    (TargetDescriptor.new "fake-target" (Some "Fake Target") GuestArchitecture.Amd64
       ConsistencyMode.ImmutableSnapshot)
    capabilities [] ∅ [] ∅ ∅.
End builders.

Definition with_capabilities (capabilities : Z) (c : t) : t :=
  let d := descriptor c in
  mk (ProviderDescriptor.mk (ProviderDescriptor.id d) (ProviderDescriptor.display_name d)
        (ProviderDescriptor.version d) (ProviderDescriptor.maturity d) capabilities)
    (target c) capabilities (segments c) (registers c) (events c) (read_faults c) (write_faults c).
Definition with_segment (start : Gpa.t) (bytes : list byte) (c : t) : t :=
  mk (descriptor c) (target c) (capabilities c) (segments c ++ [SparseSegment.new start bytes])
    (registers c) (events c) (read_faults c) (write_faults c).
Definition with_register (vcpu : Z) (register : string) (value : Z) (c : t) : t :=
  mk (descriptor c) (target c) (capabilities c) (segments c) (<[(vcpu, register) := value]> (registers c))
    (events c) (read_faults c) (write_faults c).
Definition with_event (event : VmiEvent) (c : t) : t :=
  mk (descriptor c) (target c) (capabilities c) (segments c) (registers c) (events c ++ [event])
    (read_faults c) (write_faults c).
Definition with_read_fault (address : Gpa.t) (c : t) : t :=
  mk (descriptor c) (target c) (capabilities c) (segments c) (registers c) (events c)
    ({[Gpa.raw address]} ∪ read_faults c) (write_faults c).
Definition with_write_fault (address : Gpa.t) (c : t) : t :=
  mk (descriptor c) (target c) (capabilities c) (segments c) (registers c) (events c)
    (read_faults c) ({[Gpa.raw address]} ∪ write_faults c).
End FakeConnector.

(** ** Segments *)

(** The sort of tuples: by start, then by end. *)
Definition sort_ranges (ranges : list (Z * Z)) : list (Z * Z) := sort_by_key fst (sort_by_key snd ranges).

Fixpoint first_overlap (pairs : list ((Z * Z) * (Z * Z))) : Result unit :=
  match pairs with
  | [] => Ok tt
  | (previous, current) :: rest =>
      if fst current <? snd previous then
        Err (Backend ("fake sparse segments overlap at " +:+ hex (fst current)))
      else first_overlap rest
  end.

Definition validate_segments (segments : list SparseSegment.t) : Result unit :=
  let ranges :=
    (fun s => let start := Gpa.raw (SparseSegment.start s) in
              (start, saturating_add 128 start (zlen (SparseSegment.bytes s))))
    <$> filter (fun s => SparseSegment.bytes s <> []) segments in
  let address_space_end := saturating_add 128 u64_max 1 in
  match find (fun r => address_space_end <? snd r) ranges with
  | Some (start, _) =>
      Err (Backend ("fake sparse segment at " +:+ hex start +:+ " exceeds the physical address space"))
  | None => first_overlap (windows2 (sort_ranges ranges))
  end.

(** Where an address lies in a segment. *)
Definition segment_offset (s : SparseSegment.t) (absolute : Z) : option nat :=
  match checked_sub absolute (Gpa.raw (SparseSegment.start s)) with
  | Some offset => if offset <? zlen (SparseSegment.bytes s) then Some (Z.to_nat offset) else None
  | None => None
  end.

(** The byte of the first segment that holds the address. *)
Fixpoint sparse_byte (segments : list SparseSegment.t) (absolute : Z) : option byte :=
  match segments with
  | [] => None
  | s :: rest =>
      match segment_offset s absolute with
      | Some offset => SparseSegment.bytes s !! offset
      | None => sparse_byte rest absolute
      end
  end.

(** The first segment that holds the address, with its byte replaced. *)
Fixpoint sparse_store (segments : list SparseSegment.t) (absolute : Z) (value : byte)
    : option (list SparseSegment.t) :=
  match segments with
  | [] => None
  | s :: rest =>
      match segment_offset s absolute with
      | Some offset =>
          Some (SparseSegment.new (SparseSegment.start s) (<[offset := value]> (SparseSegment.bytes s)) :: rest)
      | None => cons s <$> sparse_store rest absolute value
      end
  end.

Definition fake_lock {A} (m : Mutex A) : Result A :=
  map_err (fun error => Backend ("fake provider lock failed: " +:+ error)) (lock m).
Definition memory_lock {A} (m : Mutex A) : Result A :=
  map_err (fun error => Backend ("fake memory lock failed: " +:+ error)) (lock m).

Module FakeSession.
Record t : Type := mk {
  provider : ProviderDescriptor.t;
  target : TargetDescriptor.t;
  capabilities : Z;
  read_faults : gset Z;
  write_faults : gset Z;
}.

(** What a session changes: its own fields behind locks, and the disk, with
    the faults of the publications to come. *)
Record state : Type := mk_state {
  segments : Mutex (list SparseSegment.t);
  registers : Mutex (gmap (Z * string) Z);
  execution_state : Mutex ExecutionState.t;
  events : Mutex (list VmiEvent);
  active_view : Mutex Z;
  generation : Z;
  lifecycle_events : Mutex (list LifecycleEvent.t);
  disk : Disk;
  faults : list (list (option Fault));
  next_id : Z;
}.

Section ops.
Context `{Allocator, Bitflags} (process_id : Z).

Definition try_owned_text (value description : string) : Result string :=
  let? _ := allocate description (slen value) in Ok value.

Definition missing (f : t) (capability : Capability.t) : Result VmiError.t :=
  let? provider := try_owned_text (ProviderDescriptor.id (provider f)) "fake provider ID" in
  Ok (VmiError.CapabilityMissing provider capability).

Definition require (f : t) (capability : Capability.t) : Result unit :=
  if CapabilitySet.contains_capability (capabilities f) capability then Ok tt
  else let? e := missing f capability in Err e.

Definition facet {A} (f : t) (capability : Capability.t) (value : A) : Result A :=
  if CapabilitySet.contains_capability (capabilities f) capability then Ok value
  else let? e := missing f capability in Err e.

(** *** Memory *)

Fixpoint read_slots (f : t) (segs : list SparseSegment.t) (address length index : Z) (buffer : list byte)
    : Result unit * list byte :=
  match buffer with
  | [] => (Ok tt, [])
  | slot :: rest =>
      let byte :=
        let? absolute := ok_or (checked_add 64 address index) (VmiError.ReadFailed address length) in
        if bool_decide (absolute ∈ read_faults f) then
          Err (Backend ("injected fake read fault at " +:+ hex absolute))
        else ok_or (sparse_byte segs absolute) (VmiError.ReadFailed absolute 1) in
      match byte with
      | Err e => (Err e, slot :: rest)
      | Ok b => let '(r, rest') := read_slots f segs address length (index + 1) rest in (r, b :: rest')
      end
  end.

Definition read_sparse_into (f : t) (s : state) (address : Gpa.t) (buffer : list byte)
    : Result unit * list byte :=
  match memory_lock (segments s) with
  | Err e => (Err e, buffer)
  | Ok segs => read_slots f segs (Gpa.raw address) (zlen buffer) 0 buffer
  end.

Definition read_into (f : t) (s : state) (address : Gpa.t) (buffer : list byte)
    : Result unit * list byte :=
  match require f Capability.MemoryRead with
  | Err e => (Err e, buffer)
  | Ok _ => read_sparse_into f s address buffer
  end.

Fixpoint write_slots (f : t) (segs : list SparseSegment.t) (address length index : Z) (data : list byte)
    : Result unit * list SparseSegment.t :=
  match data with
  | [] => (Ok tt, segs)
  | value :: rest =>
      let stored :=
        let? absolute := ok_or (checked_add 64 address index) (VmiError.ReadFailed address length) in
        if bool_decide (absolute ∈ write_faults f) then
          Err (Backend ("injected fake write fault at " +:+ hex absolute))
        else ok_or (sparse_store segs absolute value) (VmiError.ReadFailed absolute 1) in
      match stored with
      | Err e => (Err e, segs)
      | Ok segs' => write_slots f segs' address length (index + 1) rest
      end
  end.

Definition set_segments (s : state) (segs : list SparseSegment.t) : state :=
  mk_state (store (segments s) segs) (registers s) (execution_state s) (events s) (active_view s)
    (generation s) (lifecycle_events s) (disk s) (faults s) (next_id s).

Definition write (f : t) (s : state) (address : Gpa.t) (data : list byte) : Result unit * state :=
  match require f Capability.MemoryWrite, memory_lock (segments s) with
  | Err e, _ | Ok _, Err e => (Err e, s)
  | Ok _, Ok segs =>
      let '(r, segs') := write_slots f segs (Gpa.raw address) (zlen data) 0 data in
      (r, set_segments s segs')
  end.

(** *** Registers, control, events and views *)

Definition read_register (f : t) (s : state) (vcpu : Z) (register : string) : Result Z * state :=
  (let? _ := require f Capability.RegisterRead in
   let? registers := fake_lock (registers s) in
   ok_or (registers !! (vcpu, register))
     (Backend ("fake register " +:+ register +:+ " for vCPU " +:+ dec vcpu +:+ " is not defined")), s).

Definition write_register (f : t) (s : state) (vcpu : Z) (register : string) (value : Z)
    : Result unit * state :=
  match require f Capability.RegisterWrite, fake_lock (registers s) with
  | Err e, _ | Ok _, Err e => (Err e, s)
  | Ok _, Ok regs =>
      (Ok tt, mk_state (segments s) (store (registers s) (<[(vcpu, register) := value]> regs))
         (execution_state s) (events s) (active_view s) (generation s) (lifecycle_events s)
         (disk s) (faults s) (next_id s))
  end.

Definition get_execution_state (f : t) (s : state) : Result ExecutionState.t * state :=
  (let? _ := require f Capability.Control in fake_lock (execution_state s), s).

Definition set_execution_state (x : ExecutionState.t) (f : t) (s : state) : Result unit * state :=
  match require f Capability.Control, fake_lock (execution_state s) with
  | Err e, _ | Ok _, Err e => (Err e, s)
  | Ok _, Ok _ =>
      (Ok tt, mk_state (segments s) (registers s) (store (execution_state s) x) (events s) (active_view s)
         (generation s) (lifecycle_events s) (disk s) (faults s) (next_id s))
  end.
Definition pause : t -> state -> Result unit * state := set_execution_state ExecutionState.Paused.
Definition resume : t -> state -> Result unit * state := set_execution_state ExecutionState.Running.

Definition next_event (f : t) (s : state) (timeout : Z) : Result (option VmiEvent) * state :=
  match require f Capability.Events, fake_lock (events s) with
  | Err e, _ | Ok _, Err e => (Err e, s)
  | Ok _, Ok queue =>
      (Ok (head queue), mk_state (segments s) (registers s) (execution_state s)
         (store (events s) (tail queue)) (active_view s) (generation s) (lifecycle_events s)
         (disk s) (faults s) (next_id s))
  end.

Definition get_active_view (f : t) (s : state) : Result Z * state :=
  (let? _ := require f Capability.MemoryView in fake_lock (active_view s), s).

Definition switch_view (f : t) (s : state) (view : Z) : Result unit * state :=
  match require f Capability.MemoryView, fake_lock (active_view s) with
  | Err e, _ | Ok _, Err e => (Err e, s)
  | Ok _, Ok _ =>
      (Ok tt, mk_state (segments s) (registers s) (execution_state s) (events s)
         (store (active_view s) view) (generation s) (lifecycle_events s) (disk s) (faults s) (next_id s))
  end.

(** [fetch_max] keeps the larger generation. *)
Definition next_lifecycle_event (f : t) (s : state) (timeout : Z)
    : Result (option LifecycleEvent.t) * state :=
  match require f Capability.Lifecycle,
        map_err (fun error => Backend ("fake lifecycle lock failed: " +:+ error)) (lock (lifecycle_events s)) with
  | Err e, _ | Ok _, Err e => (Err e, s)
  | Ok _, Ok [] => (Ok None, s)
  | Ok _, Ok (event :: queue) =>
      (Ok (Some event), mk_state (segments s) (registers s) (execution_state s) (events s) (active_view s)
         (Z.max (generation s) (LifecycleEvent.generation event)) (store (lifecycle_events s) queue)
         (disk s) (faults s) (next_id s))
  end.

(** *** Acquisition *)

(** [publish_atomically], drawing its number from the shared counter only
    if the destination has a file name. *)
Definition publish_file (s : state) (path : string) (bytes : list byte) : Result unit * state :=
  let p := parse_path path in
  let '(sequence, next_id') :=
    match file_name p with
    | Some _ => next_sequence "fake acquisition" (next_id s)
    | None => (Ok 0, next_id s)
    end in
  let '(r, disk') := run_prog (from_option id [] (head (faults s))) (publish_atomically process_id sequence p bytes) (disk s) in
  (r, mk_state (segments s) (registers s) (execution_state s) (events s) (active_view s) (generation s)
        (lifecycle_events s) disk' (tail (faults s)) next_id').

Definition save_physical_range (f : t) (s : state) (path : string) (start : Gpa.t) (length : Z)
    : Result unit * state :=
  let bytes :=
    let? _ := require f Capability.Acquisition in
    let? length := ok_or (try_width 64 length) (VmiError.ReadFailed (Gpa.raw start) u64_max) in
    let? _ := allocate "fake acquisition" length in
    match read_sparse_into f s start (replicate (Z.to_nat length) x00) with
    | (Ok _, bytes) => Ok bytes
    | (Err e, _) => Err e
    end in
  match bytes with
  | Err e => (Err e, s)
  | Ok bytes => publish_file s path bytes
  end.

(** The snapshot format: start, length and bytes of each segment. *)
Fixpoint snapshot_records (segs : list SparseSegment.t) (bytes : list byte) : Result (list byte) :=
  match segs with
  | [] => Ok bytes
  | segment :: rest =>
      let? segment_length := ok_or (try_width 64 (zlen (SparseSegment.bytes segment)))
        (Backend "fake snapshot segment length exceeds the file format") in
      let? record_length := ok_or (checked_add 64 16 (zlen (SparseSegment.bytes segment)))
        (Backend "fake snapshot record length overflow") in
      let? _ := allocate "fake snapshot" (zlen bytes + record_length) in
      snapshot_records rest
        (bytes ++ le_bytes 8 (Gpa.raw (SparseSegment.start segment)) ++ le_bytes 8 segment_length
           ++ SparseSegment.bytes segment)
  end.

Definition save_snapshot (f : t) (s : state) (path : string) : Result unit * state :=
  let bytes :=
    let? _ := require f Capability.Acquisition in
    let? segs := fake_lock (segments s) in
    snapshot_records segs [] in
  match bytes with
  | Err e => (Err e, s)
  | Ok bytes => publish_file s path bytes
  end.

(** *** The session *)

Definition session (f : t) : Session state := {|
  DriverApi.provider := provider f;
  DriverApi.target := target f;
  DriverApi.capabilities := capabilities f;
  DriverApi.memory := facet f Capability.MemoryRead {| DriverApi.read_into := read_into f |};
  DriverApi.memory_write := facet f Capability.MemoryWrite {| DriverApi.write := write f |};
  DriverApi.cpu :=
    (if bf_intersects (capabilities f)
          (bf_union (Capability.bit Capability.RegisterRead) (Capability.bit Capability.RegisterWrite))
     then Ok {| DriverApi.read_register := read_register f; DriverApi.write_register := write_register f |}
     else let? e := missing f Capability.RegisterRead in Err e);
  DriverApi.control := facet f Capability.Control
    {| DriverApi.execution_state := get_execution_state f; DriverApi.pause := pause f;
       DriverApi.resume := resume f |};
  DriverApi.events := facet f Capability.Events {| DriverApi.next_event := next_event f |};
  DriverApi.views := facet f Capability.MemoryView
    {| DriverApi.active_view := get_active_view f; DriverApi.switch_view := switch_view f |};
  DriverApi.acquisition := facet f Capability.Acquisition
    {| DriverApi.save_physical_range := save_physical_range f; DriverApi.save_snapshot := save_snapshot f |};
  DriverApi.lifecycle := facet f Capability.Lifecycle
    {| DriverApi.generation := generation; DriverApi.next_lifecycle_event := next_lifecycle_event f |};
|}.

(** [FakeConnector::connect], on the disk as it is. *)
Definition connect (d : Disk) (fs : list (list (option Fault))) (next : Z) (c : FakeConnector.t)
    (request : AttachRequest.t) : Result (Session state * state) :=
  let? _ := validate_segments (FakeConnector.segments c) in
  let missing := CapabilitySet.difference_of (AttachRequest.required_capabilities request)
    (FakeConnector.capabilities c) in
  let id := ProviderDescriptor.id (FakeConnector.descriptor c) in
  if negb (CapabilitySet.is_empty missing) then
    let? provider := try_owned_text id "fake provider ID" in
    Err (VmiError.AttachRejected provider missing)
  else
    let? _ :=
      match AttachRequest.selector request with
      | TargetSelector.Named expected =>
          if bool_decide (expected <> TargetDescriptor.id (FakeConnector.target c)) &&
             bool_decide (expected <> from_option (fun name => name) ""%string
                            (TargetDescriptor.display_name (FakeConnector.target c))) then
            Err (Backend ("target " +:+ expected +:+ " not found for provider " +:+ id))
          else Ok tt
      | TargetSelector.Any => Ok tt
      end in
    Ok (session (mk (FakeConnector.descriptor c) (FakeConnector.target c) (FakeConnector.capabilities c)
                   (FakeConnector.read_faults c) (FakeConnector.write_faults c)),
        mk_state (mutex_new (FakeConnector.segments c)) (mutex_new (FakeConnector.registers c))
          (mutex_new ExecutionState.Running) (mutex_new (FakeConnector.events c)) (mutex_new 0) 1
          (mutex_new []) d fs next).
End ops.
End FakeSession.
