(* ===== verification/FakeFacts.v ===== *)
(** * What the test provider guarantees ([crates/vmi-testkit])

    Its memory is a partial map from addresses to bytes: reads return it,
    writes update it up to the first address that refuses. *)

From S2P Require Import Prelude.
From S2P Require Import Types.
From S2P Require Import DriverApi.
From S2P Require Import Host.
From S2P Require Import HostFs.
From S2P Require Import Publication.
From S2P Require Import Fake.

Import FakeSession.

(** ** Segments *)

Lemma segment_offset_Some s a i :
  segment_offset s a = Some i <->
  a = Gpa.raw (SparseSegment.start s) + Z.of_nat i /\ (i < length (SparseSegment.bytes s))%nat.
Proof.
  unfold segment_offset. destruct (checked_sub a _) as [o|] eqn:Ho.
  - apply checked_sub_Some in Ho as [-> ?]. unfold zlen.
    destruct (Z.ltb_spec (a - Gpa.raw (SparseSegment.start s)) (Z.of_nat (length (SparseSegment.bytes s)))).
    + split; [intros [= <-]; lia|]. intros [-> ?]. f_equal. lia.
    + split; [done|]. lia.
  - split; [done|]. intros [-> ?]. unfold checked_sub in Ho.
    destruct (Z.leb_spec (Gpa.raw (SparseSegment.start s)) (Gpa.raw (SparseSegment.start s) + Z.of_nat i)); [done|lia].
Qed.

(** A store succeeds exactly where there is a byte, and replaces it alone. *)
Lemma sparse_store_spec segs a v :
  match sparse_store segs a v with
  | Some segs' => is_Some (sparse_byte segs a) /\
      forall x, sparse_byte segs' x = if x =? a then Some v else sparse_byte segs x
  | None => sparse_byte segs a = None
  end.
Proof.
  induction segs as [|s segs IH]; cbn [sparse_store sparse_byte]; [done|].
  destruct (segment_offset s a) as [i|] eqn:Hi.
  - pose proof Hi as Hoff. apply segment_offset_Some in Hoff as [Ha Hlt].
    split; [by apply lookup_lt_is_Some|]. intros x. cbn [sparse_byte].
    set (s' := SparseSegment.new (SparseSegment.start s) (<[i := v]> (SparseSegment.bytes s))).
    assert (Hsame : segment_offset s' x = segment_offset s x).
    { unfold segment_offset, s', zlen. cbn. by rewrite length_insert. }
    rewrite Hsame. destruct (segment_offset s x) as [j|] eqn:Hj.
    + apply segment_offset_Some in Hj as [Hx _]. unfold s'. cbn [SparseSegment.bytes].
      destruct (Z.eqb_spec x a).
      * assert (j = i) as -> by lia. by rewrite list_lookup_insert_eq.
      * by rewrite list_lookup_insert_ne by lia.
    + destruct (Z.eqb_spec x a) as [->|]; [congruence|done].
  - destruct (sparse_store segs a v) as [segs'|]; cbn; [|done]. destruct IH as [Hs Hx]. split; [done|].
    intros x. rewrite Hx. destruct (segment_offset s x) eqn:Hj; [|done].
    destruct (Z.eqb_spec x a) as [->|]; [congruence|done].
Qed.

Section session.
Context `{Allocator, Bitflags} (f : FakeSession.t).

(** ** Reads *)

(** The readable byte at an address. *)
Definition fake_byte (segs : list SparseSegment.t) (a : Z) : option byte :=
  if (a <? 2 ^ 64) && negb (bool_decide (a ∈ read_faults f)) then sparse_byte segs a else None.

Lemma read_slots_spec segs address length_ index buffer :
  match read_slots f segs address length_ index buffer with
  | (Ok _, bytes) => bytes_from (fake_byte segs) (address + index) (length buffer) = Some bytes
  | (Err _, bytes) => bytes_from (fake_byte segs) (address + index) (length buffer) = None
  end.
Proof.
  revert index. induction buffer as [|slot buffer IH]; intros index; [done|].
  cbn [read_slots length bytes_from]. unfold checked_add, fake_byte at 1.
  unfold fake_byte at 2.
  destruct (Z.ltb_spec (address + index) (2 ^ 64)); cbn [ok_or mbind result_bind andb]; [|done].
  case_bool_decide; cbn [negb]; [done|]. destruct (sparse_byte segs (address + index)) as [b|]; cbn; [|done].
  specialize (IH (index + 1)). replace (address + index + 1) with (address + (index + 1)) by lia.
  destruct (read_slots _ _ _ _ _ buffer) as [[[]|e] bytes]; by rewrite IH.
Qed.

(** The session's memory keeps the contract of a byte memory. *)
Lemma fake_byte_memory s segs :
  CapabilitySet.contains_capability (capabilities f) Capability.MemoryRead = true ->
  lock (segments s) = Ok segs -> ByteMemory (read_into f s) (fake_byte segs).
Proof.
  intros Hcap Hlock.
  assert (Hread : forall address buffer, (match read_into f s address buffer with
    | (Ok _, bytes) => bytes_from (fake_byte segs) (Gpa.raw address) (length buffer) = Some bytes
    | (Err _, _) => bytes_from (fake_byte segs) (Gpa.raw address) (length buffer) = None end)).
  { intros address buffer. unfold read_into, require, read_sparse_into, memory_lock. rewrite Hcap, Hlock. cbn.
    pose proof (read_slots_spec segs (Gpa.raw address) (zlen buffer) 0 buffer) as Hs.
    rewrite Z.add_0_r in Hs. exact Hs. }
  split.
  - intros address buffer buffer' _ Hok. specialize (Hread address buffer). rewrite Hok in Hread.
    by apply bytes_from_Some in Hread.
  - intros address buffer bytes Hl _ Hb. specialize (Hread address buffer).
    assert (Hsome : bytes_from (fake_byte segs) (Gpa.raw address) (length buffer) = Some bytes)
      by (apply bytes_from_Some; by rewrite <- Hl).
    destruct (read_into f s address buffer) as [[[]|e] buffer']; rewrite Hsome in Hread; [|done].
    by injection Hread as <-.
Qed.

(** ** Writes *)

Definition writable (segs : list SparseSegment.t) (a : Z) : Prop :=
  a < 2 ^ 64 /\ (a ∉ write_faults f) /\ is_Some (sparse_byte segs a).

(** The memory after the first [k] bytes were written at an address. *)
Definition written_to (segs segs' : list SparseSegment.t) (a : Z) (data : list byte) (k : nat) : Prop :=
  forall x, sparse_byte segs' x =
    (if (a <=? x) && (x <? a + Z.of_nat k) then data !! Z.to_nat (x - a) else sparse_byte segs x).

Lemma written_to_nil segs a data : written_to segs segs a data 0.
Proof.
  intros x. destruct (Z.leb_spec a x), (Z.ltb_spec x (a + Z.of_nat 0)); try done. lia.
Qed.

Lemma write_slots_spec segs address length_ index data :
  let '(r, segs') := write_slots f segs address length_ index data in
  exists k, (k <= length data)%nat /\ written_to segs segs' (address + index) data k /\
    (r = Ok tt <-> k = length data) /\
    (forall i, (i < k)%nat -> writable segs (address + index + Z.of_nat i)) /\
    ((k < length data)%nat -> ~ writable segs (address + index + Z.of_nat k)).
Proof.
  revert segs index. induction data as [|v data IH]; intros segs index.
  { exists 0%nat. split; [done|]. split; [apply written_to_nil|]. split; [done|]. split; cbn; lia. }
  assert (Hstuck : ~ writable segs (address + index) -> forall e : VmiError.t, exists k,
    (k <= length (v :: data))%nat /\ written_to segs segs (address + index) (v :: data) k /\
    (Err e = Ok tt <-> k = length (v :: data)) /\
    (forall i, (i < k)%nat -> writable segs (address + index + Z.of_nat i)) /\
    ((k < length (v :: data))%nat -> ~ writable segs (address + index + Z.of_nat k))).
  { intros Hw e. exists 0%nat. split; [cbn; lia|]. split; [apply written_to_nil|].
    split; [done|]. split; [lia|]. intros _. by rewrite Z.add_0_r. }
  cbn [write_slots]. unfold checked_add.
  destruct (Z.ltb_spec (address + index) (2 ^ 64)); cbn [ok_or mbind result_bind];
    [|apply Hstuck; by intros [? _]; lia].
  case_bool_decide; [apply Hstuck; by intros (_ & ? & _)|].
  pose proof (sparse_store_spec segs (address + index) v) as Hs.
  destruct (sparse_store segs (address + index) v) as [segs1|]; cbn;
    [|apply Hstuck; unfold writable; rewrite Hs; by intros (_ & _ & [? ?])].
  destruct Hs as [Hsome Hx]. specialize (IH segs1 (index + 1)).
  destruct (write_slots _ _ _ _ _ data) as [r segs2].
  destruct IH as (k & Hk & Hwt & Hr & Hw & Hn). exists (S k).
  assert (Hsame : forall a, writable segs1 a <-> writable segs a).
  { intros a. unfold writable. rewrite Hx. destruct (Z.eqb_spec a (address + index)) as [->|]; [|done].
    split; intros (? & ? & _); done. }
  split; [cbn; lia|]. split; [|split; [cbn; rewrite Hr; lia|split]].
  - intros x. rewrite (Hwt x), Hx.
    destruct (Z.leb_spec (address + index) x), (Z.leb_spec (address + (index + 1)) x),
      (Z.ltb_spec x (address + index + Z.of_nat (S k))), (Z.ltb_spec x (address + (index + 1) + Z.of_nat k));
      cbn [andb]; destruct (Z.eqb_spec x (address + index)); try lia; try done.
    + replace (Z.to_nat (x - (address + index))) with (S (Z.to_nat (x - (address + (index + 1))))) by lia. done.
    + subst x. by rewrite Z.sub_diag.
  - intros i Hi. destruct i as [|i].
    + rewrite Z.add_0_r. done.
    + apply Hsame. replace (address + index + Z.of_nat (S i)) with (address + (index + 1) + Z.of_nat i) by lia.
      apply Hw. lia.
  - intros Hlt. rewrite <- Hsame.
    replace (address + index + Z.of_nat (S k)) with (address + (index + 1) + Z.of_nat k) by lia.
    apply Hn. cbn in Hlt. lia.
Qed.
End session.

(** The test provider's memory is a map from addresses to bytes.  With
    its memory facets, a session reads exactly the bytes its segments hold
    outside injected faults, all of a range or an error; a write replaces
    the bytes of the longest prefix of the data whose addresses are all
    present, in range and free of write faults, nothing else, and succeeds
    exactly when that is the whole data; no other part of the state
    changes. *)
Theorem fake_memory_refines_map `{Allocator, Bitflags} (f : FakeSession.t) (s : state)
    (segs : list SparseSegment.t)
    (Hread : CapabilitySet.contains_capability (capabilities f) Capability.MemoryRead = true)
    (Hwrite : CapabilitySet.contains_capability (capabilities f) Capability.MemoryWrite = true)
    (Hlock : lock (segments s) = Ok segs) :
  ByteMemory (read_into f s) (fake_byte f segs) /\
  forall address data, let '(r, s') := write f s (Gpa.new address) data in
    exists segs' k, s' = set_segments s segs' /\ lock (segments s') = Ok segs' /\
      (k <= length data)%nat /\ written_to segs segs' address data k /\
      (r = Ok tt <-> k = length data) /\
      (forall i, (i < k)%nat -> writable f segs (address + Z.of_nat i)) /\
      ((k < length data)%nat -> ~ writable f segs (address + Z.of_nat k)).
Proof.
  split; [by apply fake_byte_memory|]. intros address data.
  unfold write, require, memory_lock. rewrite Hwrite, Hlock. cbn [map_err Gpa.raw].
  pose proof (write_slots_spec f segs address (zlen data) 0 data) as Hw. rewrite Z.add_0_r in Hw.
  destruct (write_slots _ _ _ _ _ _) as [r segs']. destruct Hw as (k & Hw).
  exists segs', k. split; [done|]. split; [|exact Hw].
  unfold lock in *. cbn. by destruct (poisoned (segments s)).
Qed.

(** A write of three bytes over the end of a segment into a fault. *)
Definition fake_example : FakeSession.t * state :=
  let caps := @CapabilitySet.from_caps bitflags_u64 [Capability.MemoryRead; Capability.MemoryWrite] in
  (FakeSession.mk (ProviderDescriptor.new "fake" "Fake" ProviderMaturity.Supported caps)
     (TargetDescriptor.new "t" None GuestArchitecture.Amd64 ConsistencyMode.ImmutableSnapshot) caps ∅ {[0x1002]},
   mk_state (mutex_new [SparseSegment.new (Gpa.new 0x1000) [x01; x02]; SparseSegment.new (Gpa.new 0x1002) [x03]])
     (mutex_new ∅) (mutex_new ExecutionState.Running) (mutex_new []) (mutex_new 0) 1 (mutex_new [])
     (MkDisk ∅ ∅ 0 ∅) [] 0).

Lemma fake_memory_refines_map_witness :
  exists segs' k, lock (segments (snd (@write ample_allocator bitflags_u64 (fst fake_example) (snd fake_example)
      (Gpa.new 0x1001) [x0a; x0b]))) = Ok segs' /\ k = 1%nat /\
    written_to [SparseSegment.new (Gpa.new 0x1000) [x01; x02]; SparseSegment.new (Gpa.new 0x1002) [x03]]
      segs' 0x1001 [x0a; x0b] k.
Proof.
  destruct (@fake_memory_refines_map ample_allocator bitflags_u64 (fst fake_example) (snd fake_example)
    [SparseSegment.new (Gpa.new 0x1000) [x01; x02]; SparseSegment.new (Gpa.new 0x1002) [x03]]
    eq_refl eq_refl eq_refl) as [_ Hw].
  specialize (Hw 0x1001 [x0a; x0b]).
  destruct (@write _ _ _ _ _ _) as [r s'] eqn:Hrun. destruct Hw as (segs' & k & _ & Hl & Hk & Hwt & Hr & Hp & Hn).
  exists segs', k. split; [done|]. split; [|done].
  vm_compute in Hrun. injection Hrun as <- _.
  destruct k as [|[|[|k]]]; [exfalso|done|exfalso; destruct Hr as [_ Hr]; by specialize (Hr eq_refl)|cbn in Hk; lia].
  apply Hn; [cbn; lia|]. split; [vm_compute; reflexivity|]. split; [|by eexists; vm_compute].
  cbn. set_solver.
Defined.
