(* ===== verification/Socket.v ===== *)
(** * Sockets and the clock

    What the QEMU provider's clients see of a [TcpStream] or [UnixStream]: a
    peer whose bytes, silences and failures are given in advance, the bytes
    sent to it, and the clock their deadlines are read from.  Both streams
    write without a buffer, so [flush] does nothing. *)

From S2P Require Import Prelude.
From S2P Require Import Types.

(** What a read will find: bytes, an interruption, a read timeout (the kinds
    [TimedOut] and [WouldBlock]) or another error.  Past the last event the
    peer has closed. *)
Inductive socket_event : Type :=
| Delivered (bytes : list byte)
| Interrupts
| TimesOut (error : string)
| Fails (error : string).

Record socket_error : Type := MkSocketError { is_timeout : bool; socket_text : string }.

(** [Instant::checked_add] fails past the platform's last instant. *)
Class Clock := { last_instant : Z }.

(** Every reading of the clock advances it by the next of [ticks]; every
    write and every [set_read_timeout] may fail as the next of its faults
    says (a write after a number of bytes). *)
Record Socket : Type := MkSocket {
  incoming : list socket_event;
  sent : list byte;
  write_faults : list (option (Z * string));
  option_faults : list (option string);
  now : Z;
  ticks : list Z;
}.

Definition set_incoming (s : Socket) (input : list socket_event) : Socket :=
  MkSocket input (sent s) (write_faults s) (option_faults s) (now s) (ticks s).

(** [Instant::now()]. *)
Definition instant_now (s : Socket) : Z * Socket :=
  let t := now s + from_option (fun d => d) 0 (head (ticks s)) in
  (t, MkSocket (incoming s) (sent s) (write_faults s) (option_faults s) t (tail (ticks s))).

(** [Instant::now().checked_add(timeout)]. *)
Definition deadline_in `{Clock} (timeout : Z) (s : Socket) : option Z * Socket :=
  let '(t, s) := instant_now s in
  (if t + timeout <=? last_instant then Some (t + timeout) else None, s).

(** [write_all]. *)
Definition write_all (bytes : list byte) (s : Socket) : result string unit * Socket :=
  match from_option (fun f => f) None (head (write_faults s)) with
  | Some (count, error) =>
      (Err error, MkSocket (incoming s) (sent s ++ take (Z.to_nat count) bytes)
                    (tail (write_faults s)) (option_faults s) (now s) (ticks s))
  | None =>
      (Ok tt, MkSocket (incoming s) (sent s ++ bytes) (tail (write_faults s)) (option_faults s)
                (now s) (ticks s))
  end.

(** [set_read_timeout(Some(duration))], which refuses the duration zero.
    Whether a read times out is the peer's matter. *)
Definition set_read_timeout (duration : Z) (s : Socket) : result string unit * Socket :=
  if duration =? 0 then (Err "cannot set a 0 duration timeout"%string, s)
  else
    (match from_option (fun f => f) None (head (option_faults s)) with
     | Some error => Err error
     | None => Ok tt
     end, MkSocket (incoming s) (sent s) (write_faults s) (tail (option_faults s)) (now s) (ticks s)).

Definition deliver (bytes : list byte) (input : list socket_event) : list socket_event :=
  if bool_decide (bytes = []) then input else Delivered bytes :: input.

(** One [read] of at most [n] bytes; no bytes at the end of the stream. *)
Definition read (n : Z) (input : list socket_event)
    : (option (result socket_error (list byte))) * list socket_event :=
  match input with
  | [] => (Some (Ok []), [])
  | Delivered bytes :: rest =>
      (Some (Ok (take (Z.to_nat n) bytes)), deliver (drop (Z.to_nat n) bytes) rest)
  | Interrupts :: rest => (None, rest)
  | TimesOut error :: rest => (Some (Err (MkSocketError true error)), rest)
  | Fails error :: rest => (Some (Err (MkSocketError false error)), rest)
  end.

Definition unexpected_end : socket_error := MkSocketError false "failed to fill whole buffer".

(** [read_exact], which retries interruptions. *)
Fixpoint read_exact (n : nat) (input : list socket_event)
    : result socket_error (list byte) * list socket_event :=
  match n with
  | O => (Ok [], input)
  | _ =>
      match input with
      | [] => (Err unexpected_end, [])
      | Interrupts :: rest => read_exact n rest
      | TimesOut error :: rest => (Err (MkSocketError true error), rest)
      | Fails error :: rest => (Err (MkSocketError false error), rest)
      | Delivered [] :: rest => (Err unexpected_end, rest)
      | Delivered bytes :: rest =>
          if (n <=? length bytes)%nat then (Ok (take n bytes), deliver (drop n bytes) rest)
          else
            match read_exact (n - length bytes) rest with
            | (Ok more, rest') => (Ok (bytes ++ more), rest')
            | (Err e, rest') => (Err e, rest')
            end
      end
  end.

(** ** What a peer still delivers *)

(** The bytes a peer delivers before it is silent, fails or closes. *)
Fixpoint avail (input : list socket_event) : list byte :=
  match input with
  | Delivered [] :: _ => []
  | Delivered bytes :: rest => bytes ++ avail rest
  | Interrupts :: rest => avail rest
  | _ => []
  end.

Definition event_weight (e : socket_event) : nat :=
  match e with Delivered bytes => S (length bytes) | _ => 1 end.

(** How many reads of at least a byte an input can answer, at most. *)
Definition input_weight (input : list socket_event) : nat := sum_list_with event_weight input.

Lemma avail_deliver bytes rest : avail (deliver bytes rest) = bytes ++ avail rest.
Proof. unfold deliver. case_bool_decide; [by subst|]. by destruct bytes. Qed.

Lemma weight_deliver bytes rest :
  (input_weight (deliver bytes rest) <= S (length bytes) + input_weight rest)%nat.
Proof. unfold deliver, input_weight. case_bool_decide; cbn; lia. Qed.

Lemma avail_weight input : (length (avail input) <= input_weight input)%nat.
Proof.
  unfold input_weight. induction input as [|[[|b bytes]| | |] input IH]; cbn in *; rewrite ?length_app; lia.
Qed.

Lemma read_exact_avail n input :
  match read_exact n input with
  | (Ok bytes, input') =>
      avail input = bytes ++ avail input' /\ length bytes = n /\
      (n + input_weight input' <= input_weight input)%nat
  | (Err _, _) => (length (avail input) < n)%nat
  end.
Proof.
  revert n. induction input as [|[[|b bytes]| |error|error] input IH]; intros [|n];
    cbn [read_exact avail]; try (cbn; done || lia).
  - destruct (Nat.leb_spec (S n) (length (b :: bytes))) as [Hle|Hlt].
    + rewrite avail_deliver. pose proof (weight_deliver (drop (S n) (b :: bytes)) input) as Hw.
      rewrite app_assoc, take_drop, length_take. rewrite length_drop in Hw.
      split; [done|]. split; [lia|]. unfold input_weight in *. cbn in *. lia.
    + specialize (IH (S n - length (b :: bytes))%nat).
      destruct (read_exact _ input) as [[more|e] input']; cbn [length] in *.
      * destruct IH as (Hav & Hl & Hw). rewrite Hav, length_app, app_assoc.
        split; [done|]. split; [cbn; lia|]. unfold input_weight in *. cbn in *. lia.
      * rewrite length_app. cbn. lia.
  - specialize (IH (S n)). destruct (read_exact _ _) as [[]]; [|done].
    destruct IH as (? & ? & ?). split; [done|]. split; [done|]. unfold input_weight in *. cbn in *. lia.
Qed.
