(* ===== verification/Gdb.v ===== *)
(** * The GDB client of the QEMU provider ([crates/vmi-driver-qemu])

    [GdbClient]: packets with checksums over a socket, each read before a
    deadline, and registers as little-endian hexadecimal text. *)

From S2P Require Import Prelude.
From S2P Require Import Types.
From S2P Require Import Text.
From S2P Require Import Socket.

Definition GDB_PACKET_CAPACITY : Z := 1024 * 1024.
Definition MAX_SOCKET_WAIT : Z := 24 * 60 * 60 * 1000000000.

Definition bounded_socket_timeout (timeout : Z) : Z := Z.min timeout MAX_SOCKET_WAIT.

(** Formatting: [{:x}] and [{:02x}]. *)
Definition lower_hex (z : Z) : string := hex_go 32 z "".
Definition hex_pair (z : Z) : string :=
  String (hex_digit (z / 16)) (String (hex_digit (z mod 16)) "").

(** ** Hexadecimal text *)

Definition hex_nibble (value : byte) : option Z :=
  let v := byte_val value in
  if (48 <=? v) && (v <=? 57) then Some (v - 48)
  else if (97 <=? v) && (v <=? 102) then Some (v - 97 + 10)
  else if (65 <=? v) && (v <=? 70) then Some (v - 65 + 10)
  else None.

(** The digit of a nibble below 16. *)
Definition nibble_char (nibble : Z) : byte :=
  byte_of (if nibble <? 10 then wrapping_add 8 48 nibble
           else wrapping_add 8 97 ((nibble - 10) mod 2 ^ 8)).

Section text.
Context `{Allocator}.

Definition try_format_command (capacity : Z) (text description : string) : Result string :=
  let? _ := map_err (fun error => Backend ("failed to allocate " +:+ description +:+ " command: " +:+ error))
    (try_reserve (description +:+ " command") capacity) in
  Ok text.

Definition gdb_thread_id (vcpu : Z) : Result string :=
  let? thread := ok_or (checked_add 32 vcpu 1) (Backend "vCPU index is too large") in
  try_format_command 8 (lower_hex thread) "GDB thread ID".

Definition encode_little_hex (value width : Z) : Result string :=
  if 8 <? width then Err (Backend ("invalid GDB register width: " +:+ dec width +:+ " bytes"))
  else
    let? encoded_length := ok_or (checked_mul 64 width 2)
      (Backend "GDB register encoding length overflow") in
    let? _ := map_err (fun error => Backend ("failed to allocate GDB register encoding: " +:+ error))
      (try_reserve "GDB register encoding" encoded_length) in
    Ok (string_of_bytes
          (flat_map (fun b => [nibble_char (Z.shiftr (byte_val b) 4); nibble_char (Z.land (byte_val b) 0xf)])
             (take (Z.to_nat width) (le_bytes 8 value)))).

(** The loop over [chunks_exact(2).zip(bytes.iter_mut())]. *)
Fixpoint decode_pairs (slots : nat) (index : Z) (encoded : list byte) : Result (list byte) :=
  match slots, encoded with
  | S slots', high_byte :: low_byte :: rest =>
      let? position := ok_or (checked_mul 64 index 2) (Backend "GDB register hex position overflow") in
      match hex_nibble high_byte, hex_nibble low_byte with
      | Some high, Some low =>
          let? more := decode_pairs slots' (index + 1) rest in
          Ok (byte_of (Z.lor (Z.shiftl high 4 mod 2 ^ 8) low) :: more)
      | _, _ => Err (Backend ("invalid GDB register hex at byte " +:+ dec position))
      end
  | _, _ => Ok (replicate slots x00)
  end.

Definition decode_little_hex (value : string) (width : Z) : Result Z :=
  let len := Z.of_nat (String.length value) in
  if (8 <? width) || negb (bool_decide (checked_mul 64 width 2 = Some len)) then
    Err (Backend ("invalid GDB register width: " +:+ dec len +:+ " hex digits"))
  else
    let? bytes := decode_pairs 8 0 (bytes_of_string value) in
    Ok (le_val bytes).

(** ** Register numbers *)

Definition amd64_register (register : string) : option (Z * Z) :=
  let name := to_ascii_lowercase register in
  if one_of name ["rax"; "eax"]%string then Some (0, 8)
  else if one_of name ["rbx"; "ebx"]%string then Some (1, 8)
  else if one_of name ["rcx"; "ecx"]%string then Some (2, 8)
  else if one_of name ["rdx"; "edx"]%string then Some (3, 8)
  else if one_of name ["rsi"; "esi"]%string then Some (4, 8)
  else if one_of name ["rdi"; "edi"]%string then Some (5, 8)
  else if one_of name ["rbp"; "ebp"]%string then Some (6, 8)
  else if one_of name ["rsp"; "esp"]%string then Some (7, 8)
  else if one_of name ["r8"]%string then Some (8, 8)
  else if one_of name ["r9"]%string then Some (9, 8)
  else if one_of name ["r10"]%string then Some (10, 8)
  else if one_of name ["r11"]%string then Some (11, 8)
  else if one_of name ["r12"]%string then Some (12, 8)
  else if one_of name ["r13"]%string then Some (13, 8)
  else if one_of name ["r14"]%string then Some (14, 8)
  else if one_of name ["r15"]%string then Some (15, 8)
  else if one_of name ["rip"; "eip"]%string then Some (16, 8)
  else if one_of name ["rflags"; "eflags"; "efl"]%string then Some (17, 4)
  else None.
End text.

(** ** The client *)

Module GdbClient.
Section client.
Context `{Allocator, Clock}.

(** Between connecting and dropping, a client is its socket and its timeout,
    which never changes. *)
Record t : Type := mk { stream : Socket; timeout : Z }.

Abbreviation M := (stateful Socket VmiError.t).

Definition io {A} (op : Socket -> result string A * Socket) : M A :=
  fun s => let '(r, s') := op s in (map_err Backend r, s').

(** The common part of the waits: what is left until the deadline. *)
Definition read_exact_before (deadline : option Z) (n : nat) (phase : string) : M (list byte) :=
  fun s =>
    let '(t, s) := instant_now s in
    let remaining :=
      match deadline with
      | Some d => if d <=? t then Err (VmiError.Timeout phase) else Ok (bounded_socket_timeout (d - t))
      | None => Ok MAX_SOCKET_WAIT
      end in
    match remaining with
    | Err e => (Err e, s)
    | Ok remaining =>
        match io (set_read_timeout remaining) s with
        | (Err e, s) => (Err e, s)
        | (Ok _, s) =>
            let '(r, input) := read_exact n (incoming s) in
            (map_err (fun error => if is_timeout error then VmiError.Timeout phase
                                   else Backend (socket_text error)) r,
             set_incoming s input)
        end
    end.

Definition read_byte_before (deadline : option Z) (phase : string) : M byte :=
  let? bytes := read_exact_before deadline 1 phase in
  mret (from_option (fun b => b) x00 (head bytes)).

(** Every round of a loop reads a byte. *)
Definition rounds (s : Socket) : nat := S (input_weight (incoming s)).

Fixpoint await_start (fuel : nat) (deadline : option Z) : M unit :=
  match fuel with
  | O => fail (Backend "model fuel exhausted")
  | S fuel' =>
      let? byte := read_byte_before deadline "GDB response start" in
      if bool_decide (byte = x24) then mret tt else await_start fuel' deadline
  end.

Fixpoint read_payload (fuel : nat) (deadline : option Z) (response : list byte) : M (list byte) :=
  match fuel with
  | O => fail (Backend "model fuel exhausted")
  | S fuel' =>
      let? byte := read_byte_before deadline "GDB response payload" in
      if bool_decide (byte = x23) then mret response
      else if zlen response =? GDB_PACKET_CAPACITY then
        fail (Backend ("GDB response exceeds " +:+ dec GDB_PACKET_CAPACITY +:+ " bytes"))
      else
        let? _ := lift (map_err (fun error => Backend ("failed to grow GDB response buffer: " +:+ error))
          (try_reserve "GDB response buffer" (zlen response + 1))) in
        read_payload fuel' deadline (response ++ [byte])
  end.

Definition checksum (bytes : list byte) : Z := fold_left (fun sum b => wrapping_add 8 sum (byte_val b)) bytes 0.

(** [${payload}#{checksum:02x}]. *)
Definition frame (payload : string) : list byte :=
  bytes_of_string ("$" +:+ payload +:+ "#" +:+ hex_pair (checksum (bytes_of_string payload))).

(** [command], after the deadline is set. *)
Definition exchange_packet (payload : string) (deadline : option Z) : M string :=
  let? _ := io (write_all (frame payload)) in
  let? byte := read_byte_before deadline "GDB acknowledgement" in
  if negb (bool_decide (byte = x2b)) then fail (Backend "GDB server rejected packet")
  else
    let? _ := fun s => await_start (rounds s) deadline s in
    let? response := fun s => read_payload (rounds s) deadline [] s in
    let? checksum_bytes := read_exact_before deadline 2 "GDB response checksum" in
    let? _ := lift (map_err (fun e => Backend (Utf8.display e)) (Utf8.from_utf8 checksum_bytes)) in
    let? expected := lift (map_err (fun e => Backend (ParseInt.display e))
      (ParseInt.from_str_radix 8 16 (string_of_bytes checksum_bytes))) in
    if negb (expected =? checksum response) then fail (Backend "GDB response checksum mismatch")
    else
      let? _ := io (write_all [x2b]) in
      let? _ := lift (map_err (fun e => Backend (Utf8.display e)) (Utf8.from_utf8 response)) in
      if starts_with response [x45] then
        fail (Backend ("GDB command failed: " +:+ string_of_bytes response))
      else mret (string_of_bytes response).

Definition command (timeout : Z) (payload : string) : M string :=
  fun s => let '(deadline, s) := deadline_in timeout s in exchange_packet payload deadline s.

Definition read_register (timeout register width : Z) : M Z :=
  let? text := lift (try_format_command 9 ("p" +:+ lower_hex register) "GDB register read") in
  let? response := command timeout text in
  lift (decode_little_hex response width).

Definition select_vcpu (timeout vcpu : Z) : M unit :=
  let? thread := lift (gdb_thread_id vcpu) in
  let? text := lift (try_format_command 10 ("Hg" +:+ thread) "GDB thread selection") in
  let? response := command timeout text in
  if bool_decide (response = "OK"%string) then mret tt
  else fail (Backend ("GDB failed to select vCPU " +:+ dec vcpu +:+ ": " +:+ response)).

(** [u32::try_from] and [1u64.checked_shl]. *)
Definition width_limit (width_bits : Z) : option Z :=
  match try_width 32 width_bits with
  | Some bits => if bits <? 64 then Some (Z.shiftl 1 bits mod 2 ^ 64) else None
  | None => None
  end.

Definition write_register (timeout register width value : Z) : M unit :=
  let? width_bits := lift (ok_or (checked_mul 64 width 8) (Backend "GDB register width overflow")) in
  if (width <? 8) && match width_limit width_bits with None => true | Some limit => limit <=? value end then
    fail (Backend ("register value " +:+ hex value +:+ " does not fit " +:+ dec width +:+ " bytes"))
  else
    let? encoded := lift (encode_little_hex value width) in
    let? capacity := lift (ok_or (checked_add 64 (Z.of_nat (String.length encoded)) 10)
      (Backend "GDB register write command length overflow")) in
    let? text := lift (try_format_command capacity ("P" +:+ lower_hex register +:+ "=" +:+ encoded)
      "GDB register write") in
    let? response := command timeout text in
    if bool_decide (response = "OK"%string) then mret tt
    else fail (Backend ("unexpected GDB write response: " +:+ response)).
End client.
End GdbClient.
