(* ===== verification/GdbFacts.v ===== *)
(** * What the GDB client guarantees ([crates/vmi-driver-qemu])

    A command that succeeds has exchanged exactly one well-formed packet for
    its own; registers survive their hexadecimal text. *)

From S2P Require Import Prelude.
From S2P Require Import Types.
From S2P Require Import Text.
From S2P Require Import TextFacts.
From S2P Require Import Socket.
From S2P Require Import Gdb.

Import GdbClient.

(** ** Conversations

    [speaks T m R]: whenever [m] succeeds with a value, the bytes it sent
    and the bytes it took from the peer are related to it by [R]; and on a
    socket that satisfies [T], a peer that delivers bytes so related makes
    it succeed. *)
Section speaks.
Context `{Allocator}.
Abbreviation M := (stateful Socket VmiError.t).

Definition speaks {A} (T : Socket -> Prop) (m : M A) (R : A -> list byte -> list byte -> Prop) : Prop :=
  (forall s a s', m s = (Ok a, s') -> exists out inn,
     sent s' = sent s ++ out /\ avail (incoming s) = inn ++ avail (incoming s') /\ R a out inn) /\
  (ample -> forall s a out inn rest, T s -> avail (incoming s) = inn ++ rest -> R a out inn ->
     exists s', m s = (Ok a, s') /\ sent s' = sent s ++ out /\ avail (incoming s') = rest /\ T s').

(** No write or option fails, the clock stands still, before the deadline. *)
Definition timely (deadline : option Z) (s : Socket) : Prop :=
  Forall (fun f => f = None) (write_faults s) /\ Forall (fun f => f = None) (option_faults s) /\
  Forall (fun t => t = 0) (ticks s) /\ match deadline with Some d => now s < d | None => True end.

Context {T : Socket -> Prop}.

Lemma speaks_ret {A} (a : A) : speaks T (mret a) (fun b out inn => b = a /\ out = [] /\ inn = []).
Proof.
  split.
  - intros s b s' [= <- <-]. exists [], []. by rewrite app_nil_r.
  - intros _ s b out inn rest HT Hin (-> & -> & ->). exists s. by rewrite app_nil_r.
Qed.

Lemma speaks_fail {A} e : speaks (A := A) T (fail e) (fun _ _ _ => False).
Proof. by split. Qed.

Lemma speaks_lift {A} (r : Result A) P : (forall a, r = Ok a -> P a) -> (ample -> forall a, P a -> r = Ok a) ->
  speaks T (lift r) (fun a out inn => P a /\ out = [] /\ inn = []).
Proof.
  intros Hs Hc. split.
  - intros s a s' [= Hr <-]. exists [], []. rewrite app_nil_r. auto.
  - intros Ha s a out inn rest HT Hin (Hp & -> & ->). exists s. unfold lift. by rewrite (Hc Ha a Hp), app_nil_r.
Qed.

Lemma speaks_bind {A B} (m : M A) (k : A -> M B) P Q :
  speaks T m P -> (forall a, speaks T (k a) (Q a)) ->
  speaks T (let? a := m in k a) (fun b out inn => exists a o1 o2 i1 i2,
    out = o1 ++ o2 /\ inn = i1 ++ i2 /\ P a o1 i1 /\ Q a b o2 i2).
Proof.
  intros [Hs Hc] Hk. split.
  - intros s b s' Hrun. unfold mbind, stateful_bind in Hrun.
    destruct (m s) as [[a|e] s1] eqn:Hm; [|done].
    destruct (Hs _ _ _ Hm) as (o1 & i1 & Ho1 & Hi1 & HP).
    destruct (proj1 (Hk a) _ _ _ Hrun) as (o2 & i2 & Ho2 & Hi2 & HQ).
    exists (o1 ++ o2), (i1 ++ i2). rewrite Ho2, Ho1, Hi1, Hi2, <- !app_assoc.
    split; [done|]. split; [done|]. by exists a, o1, o2, i1, i2.
  - intros Ha s b out inn rest HT Hin (a & o1 & o2 & i1 & i2 & -> & -> & HP & HQ).
    rewrite <- app_assoc in Hin.
    destruct (Hc Ha s a o1 i1 (i2 ++ rest) HT Hin HP) as (s1 & Hm & Ho1 & Hi1 & HT1).
    destruct (proj2 (Hk a) Ha s1 b o2 i2 rest HT1 Hi1 HQ) as (s2 & Hm2 & Ho2 & Hi2 & HT2).
    exists s2. unfold mbind, stateful_bind. rewrite Hm, Ho2, Ho1, <- app_assoc. done.
Qed.

Lemma speaks_iff {A} (m : M A) P Q :
  speaks T m P -> (forall a out inn, P a out inn <-> Q a out inn) -> speaks T m Q.
Proof.
  intros [Hs Hc] Hpq. split.
  - intros s a s' Hm. destruct (Hs s a s' Hm) as (o & i & ? & ? & HP). exists o, i. by rewrite <- Hpq.
  - intros Ha s a out inn rest HT Hin HQ. apply (Hc Ha s a out inn rest HT Hin). by apply Hpq.
Qed.

Lemma speaks_ext {A} (m m' : M A) P : (forall s, m s = m' s) -> speaks T m P -> speaks T m' P.
Proof.
  intros Hext [Hs Hc]. split.
  - intros s a s' Hm. apply Hs. by rewrite Hext.
  - intros Ha s a out inn rest HT Hin HP. rewrite <- Hext. by eapply Hc.
Qed.

Lemma speaks_if {A} (b : bool) (m1 m2 : M A) P1 P2 :
  speaks T m1 P1 -> speaks T m2 P2 ->
  speaks T (if b then m1 else m2) (fun a out inn => if b then P1 a out inn else P2 a out inn).
Proof. by destruct b. Qed.

(** A step that only allocates or fails otherwise. *)
Lemma speaks_guard {A} (r : Result unit) (k : M A) P :
  (ample -> r = Ok tt) -> speaks T k P -> speaks T (let? _ := lift r in k) P.
Proof.
  intros Hr Hk. eapply speaks_iff; [eapply speaks_bind; [apply (speaks_lift r (fun _ => True))|intros []; exact Hk]|].
  - done.
  - by intros Ha [] _; apply Hr.
  - intros a out inn. split.
    + intros ([] & o1 & o2 & i1 & i2 & -> & -> & (_ & -> & ->) & HP). done.
    + intros HP. by exists tt, [], out, [], inn.
Qed.
End speaks.

Section client.
Context `{Allocator}.
Abbreviation M := (stateful Socket VmiError.t).

(** ** Reads and writes *)

Lemma speaks_write deadline bytes :
  speaks (timely deadline) (io (write_all bytes)) (fun _ out inn => out = bytes /\ inn = []).
Proof.
  split.
  - intros s u s' Hrun. unfold io, write_all in Hrun.
    destruct (from_option _ None (head (write_faults s))) as [[? ?]|]; [done|].
    injection Hrun as <- <-. by exists bytes, [].
  - intros _ s u out inn rest (Hw & Ho & Ht & Hd) Hin [-> ->]. unfold io, write_all. destruct u.
    assert (Hhead : from_option (fun f => f) None (head (write_faults s)) = None).
    { destruct (write_faults s); [done|]. by apply Forall_cons in Hw as [-> _]. }
    rewrite Hhead. eexists. split; [done|]. split; [done|]. split; [done|].
    repeat split; try done. cbn. destruct (write_faults s); [done|]. by apply Forall_cons in Hw as [_ ?].
Qed.

Lemma instant_now_spec s : let '(t, s') := instant_now s in
  incoming s' = incoming s /\ sent s' = sent s /\ write_faults s' = write_faults s /\
  option_faults s' = option_faults s /\ now s' = t /\
  (Forall (fun t => t = 0) (ticks s) -> t = now s /\ Forall (fun t => t = 0) (ticks s')).
Proof.
  unfold instant_now. cbn. repeat split; destruct (ticks s) as [|t ts]; try done; cbn;
    [lia|apply Forall_cons in H0 as [-> _]; lia|by apply Forall_cons in H0 as [_ ?]].
Qed.

Lemma speaks_read deadline n phase : (0 < n)%nat ->
  speaks (timely deadline) (read_exact_before deadline n phase)
    (fun bytes out inn => out = [] /\ inn = bytes /\ length bytes = n).
Proof.
  intros Hn. split.
  - intros s bytes s' Hrun. unfold read_exact_before in Hrun.
    pose proof (instant_now_spec s) as Hnow. destruct (instant_now s) as [t s1].
    destruct Hnow as (Hi & Hs & _).
    destruct (match deadline with Some d => _ | None => _ end) as [remaining|]; [|done].
    unfold io, set_read_timeout in Hrun. destruct (remaining =? 0); cbn in Hrun; [done|].
    destruct (from_option _ None (head (option_faults s1))); [done|]. cbn in Hrun.
    pose proof (read_exact_avail n (incoming s1)) as Hr.
    destruct (read_exact n (incoming s1)) as [[bs|e] input]; [|done].
    injection Hrun as <- <-. destruct Hr as (Hav & Hl & _). exists [], bs.
    rewrite app_nil_r, <- Hs, <- Hi. done.
  - intros _ s bytes out inn rest (Hw & Ho & Ht & Hd) Hin (-> & -> & Hl). unfold read_exact_before.
    pose proof (instant_now_spec s) as Hnow. destruct (instant_now s) as [t s1].
    destruct Hnow as (Hi & Hs & Hw1 & Ho1 & Hn1 & Hclock). destruct (Hclock Ht) as [-> Ht1].
    assert (Hremaining : exists remaining, remaining <> 0 /\
      match deadline with
      | Some d => if d <=? now s then Err (VmiError.Timeout phase) else Ok (bounded_socket_timeout (d - now s))
      | None => Ok MAX_SOCKET_WAIT
      end = Ok remaining).
    { destruct deadline as [d|]; [|by exists MAX_SOCKET_WAIT].
      destruct (Z.leb_spec d (now s)); [lia|]. eexists. split; [|done].
      unfold bounded_socket_timeout, MAX_SOCKET_WAIT. lia. }
    destruct Hremaining as (remaining & Hr0 & ->). unfold io, set_read_timeout.
    destruct (Z.eqb_spec remaining 0); [done|]. cbn [map_err].
    assert (Hhead : from_option (fun f => f) None (head (option_faults s1)) = None).
    { rewrite Ho1. destruct (option_faults s); [done|]. by apply Forall_cons in Ho as [-> _]. }
    rewrite Hhead. cbn [map_err]. pose proof (read_exact_avail n (incoming s1)) as Hr.
    cbn [incoming]. rewrite Hi in *. destruct (read_exact n (incoming s)) as [[bs|e] input].
    + destruct Hr as (Hav & Hlen & _). rewrite Hin in Hav.
      apply app_inj_1 in Hav as [-> ->]; [|congruence]. eexists. split; [done|].
      cbn. rewrite app_nil_r. split; [done|]. split; [done|]. unfold timely. cbn. rewrite Hn1, Hw1.
      repeat split; try done. destruct (option_faults s1) eqn:E; [done|]. cbn.
      rewrite <- Ho1, ?E in Ho. by apply Forall_cons in Ho as [_ ?].
    + rewrite Hin, length_app in Hr. lia.
Qed.

Lemma speaks_byte deadline phase :
  speaks (timely deadline) (read_byte_before deadline phase) (fun b out inn => out = [] /\ inn = [b]).
Proof.
  eapply speaks_iff; [eapply speaks_bind; [by apply speaks_read; lia|intros bs; apply speaks_ret]|].
  intros b out inn. cbn. split.
  - intros (bs & o1 & o2 & i1 & i2 & -> & -> & (-> & -> & Hl) & (-> & -> & ->)).
    destruct bs as [|b' [|]]; try done.
  - intros (-> & ->). exists [b], [], [], [b], []. done.
Qed.

(** ** The two loops *)

Lemma rounds_avail s : (length (avail (incoming s)) < rounds s)%nat.
Proof. unfold rounds. pose proof (avail_weight (incoming s)). lia. Qed.

Lemma speaks_start deadline :
  speaks (timely deadline) (fun s => await_start (rounds s) deadline s)
    (fun _ out inn => out = [] /\ exists junk, inn = junk ++ [x24] /\ x24 ∉ junk).
Proof.
  pose proof (speaks_byte deadline "GDB response start") as [Hbs Hbc]. split.
  - intros s. generalize (rounds s). intros fuel. revert s.
    induction fuel as [|fuel IH]; intros s u s' Hrun; [done|]. cbn [await_start] in Hrun.
    unfold mbind, stateful_bind in Hrun.
    destruct (read_byte_before _ _ s) as [[b|e] s1] eqn:Hb; [|done].
    destruct (Hbs _ _ _ Hb) as (? & ? & Hs1 & Hi1 & -> & ->). rewrite app_nil_r in Hs1.
    case_bool_decide as E.
    + subst b. injection Hrun as <- <-. exists [], [x24]. rewrite app_nil_r.
      split; [done|]. split; [done|]. split; [done|]. exists []. split; [done|]. apply not_elem_of_nil.
    + destruct (IH _ _ _ Hrun) as (o & i & Hs2 & Hi2 & -> & junk & -> & Hj).
      exists [], (b :: junk ++ [x24]). rewrite Hs2, Hs1, Hi1, Hi2. split; [done|]. split; [done|].
      split; [done|]. exists (b :: junk). split; [done|]. rewrite elem_of_cons. by intros [<-|].
  - intros Ha s u out inn rest HT Hin (-> & junk & -> & Hj). destruct u.
    assert (Hfuel : (length junk < rounds s)%nat).
    { pose proof (rounds_avail s) as Hr. rewrite Hin, !length_app in Hr. lia. }
    revert Hfuel. generalize (rounds s). intros fuel Hfuel. revert s fuel HT Hin Hfuel.
    induction junk as [|b junk IH]; intros s fuel HT Hin Hfuel; (destruct fuel as [|fuel]; [cbn in *; lia|]);
      cbn [await_start]; unfold mbind, stateful_bind.
    + destruct (Hbc Ha s x24 [] [x24] rest HT Hin) as (s1 & Hrun & Hs & Hi & HT1); [done|].
      rewrite Hrun, bool_decide_eq_true_2 by done. by exists s1.
    + apply not_elem_of_cons in Hj as [Hb Hj].
      destruct (Hbc Ha s b [] [b] (junk ++ [x24] ++ rest) HT) as (s1 & Hrun & Hs & Hi & HT1); [|done|].
      { rewrite Hin. cbn. by rewrite <- app_assoc. }
      rewrite Hrun, bool_decide_eq_false_2 by congruence.
      destruct (IH Hj s1 fuel HT1) as (s2 & Hrun2 & Hs2 & ?); [by rewrite Hi, <- app_assoc|cbn in Hfuel; lia|].
      exists s2. rewrite Hs2, Hs, app_nil_r. done.
Qed.

Lemma speaks_payload deadline :
  speaks (timely deadline) (fun s => read_payload (rounds s) deadline [] s)
    (fun r out inn => out = [] /\ inn = r ++ [x23] /\ (x23 ∉ r) /\ zlen r <= GDB_PACKET_CAPACITY).
Proof.
  pose proof (speaks_byte deadline "GDB response payload") as [Hbs Hbc]. split.
  - intros s r s' Hrun.
    enough (Hgen : forall fuel s response r s', read_payload fuel deadline response s = (Ok r, s') ->
      zlen response <= GDB_PACKET_CAPACITY -> exists more, r = response ++ more /\ (x23 ∉ more) /\
        sent s' = sent s /\ avail (incoming s) = more ++ x23 :: avail (incoming s') /\
        zlen r <= GDB_PACKET_CAPACITY).
    { destruct (Hgen _ _ _ _ _ Hrun ltac:(done)) as (more & -> & Hm & Hs & Hi & Hl).
      exists [], (more ++ [x23]). rewrite app_nil_r, <- app_assoc. done. }
    clear Hrun s r s'. intros fuel. induction fuel as [|fuel IH]; intros s response r s' Hrun Hlen; [done|].
    cbn [read_payload] in Hrun. unfold mbind, stateful_bind in Hrun.
    destruct (read_byte_before _ _ s) as [[b|e] s1] eqn:Hb; [|done].
    destruct (Hbs _ _ _ Hb) as (? & ? & Hs1 & Hi1 & -> & ->). rewrite app_nil_r in Hs1.
    case_bool_decide as E.
    + subst b. injection Hrun as <- <-. exists []. rewrite app_nil_r. repeat split; try done. apply not_elem_of_nil.
    + destruct (Z.eqb_spec (zlen response) GDB_PACKET_CAPACITY); [done|]. unfold lift in Hrun.
      destruct (map_err _ _); [|done]. destruct (IH _ _ _ _ Hrun) as (more & -> & Hm & Hs2 & Hi2 & Hl).
      { rewrite zlen_app, zlen_cons, zlen_nil. lia. }
      exists (b :: more). rewrite <- app_assoc in *. rewrite Hi1, Hi2, Hs2. repeat split; try done.
      rewrite elem_of_cons. by intros [<-|].
  - intros Ha s r out inn rest HT Hin (-> & -> & Hr & Hl).
    assert (Hfuel : (length r < rounds s)%nat).
    { pose proof (rounds_avail s) as Hlt. rewrite Hin, !length_app in Hlt. lia. }
    rewrite app_nil_r. rewrite <- app_assoc in Hin.
    enough (Hgen : forall s fuel response, timely deadline s -> avail (incoming s) = r ++ [x23] ++ rest ->
      (length r < fuel)%nat -> zlen (response ++ r) <= GDB_PACKET_CAPACITY ->
      exists s', read_payload fuel deadline response s = (Ok (response ++ r), s') /\
        sent s' = sent s /\ avail (incoming s') = rest /\ timely deadline s') by exact (Hgen s _ [] HT Hin Hfuel Hl).
    clear s HT Hin Hfuel Hl.
    induction r as [|b r IH]; intros s fuel response HT Hin Hfuel Hl;
      (destruct fuel as [|fuel]; [cbn in *; lia|]); cbn [read_payload]; unfold mbind, stateful_bind.
    + destruct (Hbc Ha s x23 [] [x23] rest HT Hin) as (s1 & Hrun & Hs & Hi & HT1); [done|].
      rewrite Hrun, bool_decide_eq_true_2 by done. exists s1. rewrite app_nil_r in *. done.
    + apply not_elem_of_cons in Hr as [Hb Hr].
      destruct (Hbc Ha s b [] [b] (r ++ [x23] ++ rest) HT Hin) as (s1 & Hrun & Hs & Hi & HT1); [done|].
      rewrite Hrun, bool_decide_eq_false_2 by congruence.
      rewrite zlen_app, zlen_cons in Hl. pose proof (zlen_nonneg r).
      destruct (Z.eqb_spec (zlen response) GDB_PACKET_CAPACITY); [lia|].
      rewrite reserve_ample by (done || unfold isize_max, GDB_PACKET_CAPACITY in *; lia). cbn [map_err lift].
      destruct (IH Hr s1 fuel (response ++ [b]) HT1 Hi ltac:(cbn in Hfuel; lia)) as (s2 & Hrun2 & Hs2 & ?).
      { rewrite !zlen_app, zlen_cons, zlen_nil. lia. }
      exists s2. unfold lift. rewrite Hrun2, Hs2, Hs, app_nil_r, <- app_assoc. done.
Qed.
(** More fuel than there are bytes and events changes nothing. *)
Lemma read_byte_weight deadline phase s b s' :
  read_byte_before deadline phase s = (Ok b, s') ->
  (input_weight (incoming s') < input_weight (incoming s))%nat.
Proof.
  unfold read_byte_before, mbind, stateful_bind, read_exact_before. pose proof (instant_now_spec s) as Hnow.
  destruct (instant_now s) as [t s1]. destruct Hnow as (Hi & _).
  destruct (match deadline with Some d => _ | None => _ end) as [remaining|]; [|done].
  unfold io, set_read_timeout. destruct (remaining =? 0); cbn; [done|].
  destruct (from_option _ None (head (option_faults s1))); [done|]. cbn.
  pose proof (read_exact_avail 1 (incoming s1)) as Hr. destruct (read_exact 1 (incoming s1)) as [[bs|e] input]; [|done].
  destruct Hr as (_ & _ & Hr). intros [= _ <-].
  change (input_weight input < input_weight (incoming s))%nat. rewrite <- Hi. lia.
Qed.

Lemma await_start_fuel deadline m n s :
  (input_weight (incoming s) < m)%nat -> (input_weight (incoming s) < n)%nat ->
  await_start m deadline s = await_start n deadline s.
Proof.
  revert n s. induction m as [|m IH]; intros [|n] s Hm Hn; [lia..|]. cbn [await_start].
  unfold mbind, stateful_bind. destruct (read_byte_before _ _ s) as [[b|e] s1] eqn:Hb; [|done].
  apply read_byte_weight in Hb. case_bool_decide; [done|]. apply IH; lia.
Qed.

Lemma read_payload_fuel deadline m n response s :
  (input_weight (incoming s) < m)%nat -> (input_weight (incoming s) < n)%nat ->
  read_payload m deadline response s = read_payload n deadline response s.
Proof.
  revert n response s. induction m as [|m IH]; intros [|n] response s Hm Hn; [lia..|]. cbn [read_payload].
  unfold mbind, stateful_bind. destruct (read_byte_before _ _ s) as [[b|e] s1] eqn:Hb; [|done].
  apply read_byte_weight in Hb. case_bool_decide; [done|]. destruct (_ =? _); [done|].
  unfold lift. destruct (map_err _ _); [|done]. apply IH; lia.
Qed.

(** ** Commands *)

(** Nothing on the way fails and the clock stands still. *)
Definition calm : Socket -> Prop := timely None.

Lemma speaks_deadline `{Clock} {A} timeout (m : option Z -> M A) R :
  0 < timeout -> (forall deadline, speaks (timely deadline) (m deadline) R) ->
  speaks calm (fun s => let '(deadline, s) := deadline_in timeout s in m deadline s) R.
Proof.
  intros Ht Hm. split.
  - intros s a s' Hrun. unfold deadline_in in Hrun. pose proof (instant_now_spec s) as Hnow.
    destruct (instant_now s) as [t s1]. destruct Hnow as (<- & <- & _). by eapply (proj1 (Hm _)).
  - intros Ha s a out inn rest (Hw & Ho & Htk & _) Hin HR. unfold deadline_in.
    pose proof (instant_now_spec s) as Hnow. destruct (instant_now s) as [t s1].
    destruct Hnow as (Hi & Hs & Hw1 & Ho1 & Hn1 & Hclock). destruct (Hclock Htk) as [-> Ht1].
    set (deadline := if now s + timeout <=? last_instant then Some (now s + timeout) else None).
    destruct (proj2 (Hm deadline) Ha s1 a out inn rest) as (s2 & Hrun & Hs2 & Hi2 & HT2);
      [|by rewrite Hi|done|].
    { unfold timely. rewrite Hw1, Ho1, Hn1. subst deadline.
      repeat split; try done. by destruct (Z.leb_spec (now s + timeout) last_instant); [lia|]. }
    exists s2. rewrite Hs2, Hs. repeat split; try done; apply HT2.
Qed.

(** A packet on the wire: a dollar sign, the text, a number sign, and the sum
    of its bytes modulo 256 in two digits. *)
Definition byte_sum (bytes : list byte) : Z := foldr (fun b n => byte_val b + n) 0 bytes mod 256.
Definition packet_of (payload : string) : list byte :=
  x24 :: bytes_of_string payload ++ x23 :: hex_bytes 2 (byte_sum (bytes_of_string payload)).

Lemma checksum_sum bytes : checksum bytes = byte_sum bytes.
Proof.
  assert (Hgen : forall n, fold_left (fun sum b => wrapping_add 8 sum (byte_val b)) bytes (n mod 256) =
    (n + foldr (fun b n => byte_val b + n) 0 bytes) mod 256).
  { induction bytes as [|b bytes IH]; intros n; cbn [fold_left foldr]; [by rewrite Z.add_0_r|].
    unfold wrapping_add at 2. change (2 ^ 8) with 256. rewrite Zplus_mod_idemp_l, IH. by rewrite Z.add_assoc. }
  apply (Hgen 0).
Qed.

Lemma frame_packet payload : frame payload = packet_of payload.
Proof.
  unfold frame, packet_of. rewrite checksum_sum.
  assert (Hv : 0 <= byte_sum (bytes_of_string payload) < 256) by (apply Z.mod_pos_bound; lia).
  revert Hv. generalize (byte_sum (bytes_of_string payload)) as v. intros v Hv.
  assert (Happ : forall a b, bytes_of_string (a +:+ b) = bytes_of_string a ++ bytes_of_string b).
  { intros a b. rewrite <- (bytes_of_string_of_bytes (bytes_of_string a ++ bytes_of_string b)).
    by rewrite string_of_bytes_app, !string_of_bytes_of_string. }
  rewrite !Happ. cbn [app]. do 2 f_equal.
  assert (Hall : forallb (fun n => bool_decide (bytes_of_string (hex_pair (Z.of_nat n)) = hex_bytes 2 (Z.of_nat n)))
    (seq 0 256) = true) by (vm_compute; reflexivity).
  rewrite forallb_forall in Hall. specialize (Hall (Z.to_nat v)). rewrite Z2Nat.id in Hall by lia.
  change (bytes_of_string "$") with [x24]. change (bytes_of_string "#") with [x23].
  cbn [app]. do 3 f_equal. eapply bool_decide_eq_true_1, Hall. apply in_seq. lia.
Qed.

(** What a peer sends to answer with [r]: an acknowledgement, anything up to
    a dollar sign, the packet, two digits of its checksum. *)
Definition reply (r : string) (inn : list byte) : Prop :=
  exists junk digits, inn = x2b :: junk ++ x24 :: bytes_of_string r ++ x23 :: digits /\
    (x24 ∉ junk) /\ (x23 ∉ bytes_of_string r) /\ length digits = 2%nat /\
    Utf8.from_utf8 digits = Ok tt /\
    ParseInt.from_str_radix 8 16 (string_of_bytes digits) = Ok (byte_sum (bytes_of_string r)) /\
    zlen (bytes_of_string r) <= GDB_PACKET_CAPACITY /\ Utf8.from_utf8 (bytes_of_string r) = Ok tt /\
    starts_with (bytes_of_string r) [x45] = false.

Definition exchange (payload r : string) (out inn : list byte) : Prop :=
  out = packet_of payload ++ [x2b] /\ reply r inn.

Lemma speaks_utf8 T bytes : speaks T (lift (map_err (fun e => Backend (Utf8.display e)) (Utf8.from_utf8 bytes)))
  (fun _ out inn => Utf8.from_utf8 bytes = Ok tt /\ out = [] /\ inn = []).
Proof.
  eapply speaks_iff; [apply (speaks_lift _ (fun _ => Utf8.from_utf8 bytes = Ok tt))|done].
  - intros [] Hr. by apply map_err_Ok in Hr.
  - by intros _ [] ->.
Qed.

Lemma command_exchange `{Clock} timeout payload : 0 < timeout ->
  speaks calm (command timeout payload) (exchange payload).
Proof.
  intros Ht. apply speaks_deadline; [done|]. intros deadline.
  unfold exchange_packet.
  eapply speaks_iff.
  { apply speaks_bind; [apply speaks_write|intros ?].
    apply speaks_bind; [apply speaks_byte|intros ack].
    apply speaks_if; [apply speaks_fail|].
    apply speaks_bind; [apply speaks_start|intros ?].
    apply speaks_bind; [apply speaks_payload|intros response].
    apply speaks_bind; [apply speaks_read; lia|intros digits].
    apply speaks_bind; [apply speaks_utf8|intros ?].
    apply speaks_bind; [apply (speaks_lift _ (fun v =>
      ParseInt.from_str_radix 8 16 (string_of_bytes digits) = Ok v))|intros expected].
    { intros v Hv. by apply map_err_Ok in Hv. }
    { by intros _ v ->. }
    apply speaks_if; [apply speaks_fail|].
    apply speaks_bind; [apply speaks_write|intros ?].
    apply speaks_bind; [apply speaks_utf8|intros ?].
    apply speaks_if; [apply speaks_fail|apply speaks_ret]. }
  intros r out inn. unfold exchange, reply. cbn beta. split.
  - intros ([] & ? & o2 & ? & i2 & -> & -> & (-> & ->) & ack & ? & o3 & ? & i3 & -> & -> & (-> & ->) & Hrest).
    destruct (bool_decide (ack = x2b)) eqn:Hack; cbn [negb] in Hrest; [|done].
    apply bool_decide_eq_true in Hack as ->.
    destruct Hrest as ([] & ? & o4 & ? & i4 & -> & -> & (-> & junk & -> & Hj) & response & ? & o5 & ? & i5 & -> & -> & (-> & -> & Hr & Hl) & digits & ? & o6 & ? & i6 & -> & -> & (-> & -> & Hd) & Hrest).
    destruct Hrest as ([] & ? & o7 & ? & i7 & -> & -> & (Hu & -> & ->) & expected & ? & o8 & ? & i8 & -> & -> & (He & -> & ->) & Hrest).
    destruct (expected =? checksum response) eqn:Hc; cbn [negb] in Hrest; [|done]. apply Z.eqb_eq in Hc as ->.
    rewrite checksum_sum in He. rewrite frame_packet.
    destruct Hrest as ([] & ? & o9 & ? & i9 & -> & -> & (-> & ->) & [] & ? & o10 & ? & i10 & -> & -> & (Hu2 & -> & ->) & Hrest).
    destruct (starts_with response [x45]) eqn:Hs; [done|].
    destruct Hrest as (-> & -> & ->). rewrite !app_nil_r. split; [done|].
    rewrite bytes_of_string_of_bytes. exists junk, digits. cbn. rewrite <- ?app_assoc. cbn. rewrite <- ?app_assoc. done.
  - intros (-> & junk & digits & -> & Hj & Hr & Hd & Hu & He & Hl & Hu2 & Hs).
    rewrite <- frame_packet. exists tt, (frame payload), [x2b], [], (x2b :: junk ++ x24 :: bytes_of_string r ++ x23 :: digits). split; [done|]. split; [done|]. split; [done|].
    exists x2b, [], [x2b], [x2b], (junk ++ x24 :: bytes_of_string r ++ x23 :: digits). do 3 (split; [done|]).
    rewrite bool_decide_eq_true_2 by done. cbn [negb].
    exists tt, [], [x2b], (junk ++ [x24]), (bytes_of_string r ++ x23 :: digits). split; [done|].
    split; [by rewrite <- app_assoc|]. split; [split; [done|]; by exists junk|].
    exists (bytes_of_string r), [], [x2b], (bytes_of_string r ++ [x23]), digits. split; [done|].
    split; [by rewrite <- app_assoc|]. split; [done|].
    exists digits, [], [x2b], digits, []. split; [done|]. split; [by rewrite app_nil_r|]. split; [done|].
    exists tt, [], [x2b], [], []. do 3 (split; [done|]).
    exists (byte_sum (bytes_of_string r)), [], [x2b], [], []. do 3 (split; [done|]).
    rewrite checksum_sum, Z.eqb_refl. cbn [negb]. exists tt, [x2b], [], [], []. do 3 (split; [done|]).
    exists tt, [], [], [], []. do 3 (split; [done|]).
    rewrite Hs. by rewrite string_of_bytes_of_string.
Qed.
End client.

(** ** Register text *)

(** The bytes that pairs of hexadecimal digits spell. *)
Fixpoint spelled (text : list byte) : option (list byte) :=
  match text with
  | [] => Some []
  | high_byte :: low_byte :: rest =>
      match hex_nibble high_byte, hex_nibble low_byte, spelled rest with
      | Some high, Some low, Some more => Some (byte_of (16 * high + low) :: more)
      | _, _, _ => None
      end
  | _ => None
  end.

Lemma hex_nibble_range b d : hex_nibble b = Some d -> 0 <= d < 16.
Proof.
  unfold hex_nibble. intros Hd.
  repeat match type of Hd with context [if ?c then _ else _] => destruct c eqn:?; [injection Hd as <-; lia|] end.
  done.
Qed.

Lemma hex_nibble_char d : 0 <= d < 16 -> hex_nibble (nibble_char d) = Some d.
Proof.
  intros Hd. assert (Hall : forallb (fun n => bool_decide (hex_nibble (nibble_char (Z.of_nat n)) = Some (Z.of_nat n)))
    (seq 0 16) = true) by (vm_compute; reflexivity).
  rewrite forallb_forall in Hall. specialize (Hall (Z.to_nat d)). rewrite Z2Nat.id in Hall by lia.
  apply bool_decide_eq_true in Hall; [done|]. apply in_seq. lia.
Qed.

Lemma pair_value high low : 0 <= high < 16 -> 0 <= low < 16 ->
  Z.lor (Z.shiftl high 4 mod 2 ^ 8) low = 16 * high + low.
Proof.
  intros Hh Hl. rewrite Z.shiftl_mul_pow2, Z.mod_small by lia.
  rewrite (lor_add _ _ 4) by (try lia; rewrite Z.mod_mul; lia). lia.
Qed.

Lemma le_val_zeros bs k : le_val (bs ++ replicate k x00) = le_val bs.
Proof.
  induction bs as [|b bs IH]; cbn [app le_val]; [|by rewrite IH].
  induction k as [|k IH]; [done|]. cbn [replicate le_val]. rewrite IH. done.
Qed.

Lemma decode_pairs_spec slots index encoded bytes :
  0 <= index -> index + Z.of_nat slots <= 2 ^ 32 -> (length encoded <= 2 * slots)%nat -> Nat.Even (length encoded) ->
  decode_pairs slots index encoded = Ok bytes <->
  exists bs, spelled encoded = Some bs /\ bytes = bs ++ replicate (slots - length bs) x00.
Proof.
  revert index encoded bytes. induction slots as [|slots IH]; intros index encoded bytes Hi Hb Hl He.
  { destruct encoded; [|cbn in Hl; lia]. cbn. split; [intros [= <-]; by exists []|]. by intros (bs & [= <-] & ->). }
  destruct encoded as [|high_byte [|low_byte rest]].
  - cbn [decode_pairs spelled]. split; [intros [= <-]; by exists []|]. by intros (bs & [= <-] & ->).
  - exfalso. destruct He as [k Hk]. cbn in Hk. lia.
  - cbn [decode_pairs spelled]. unfold checked_mul. destruct (Z.ltb_spec (index * 2) (2 ^ 64)); [|lia].
    cbn [ok_or mbind result_bind].
    destruct (hex_nibble high_byte) as [high|] eqn:Hh; [|split; [done|by intros (? & ? & _)]].
    destruct (hex_nibble low_byte) as [low|] eqn:Hlo; [|split; [done|by intros (? & ? & _)]].
    rewrite pair_value by eauto using hex_nibble_range.
    assert (He' : Nat.Even (length rest)) by (destruct He as [k Hk]; exists (k - 1)%nat; cbn in Hk; lia).
    specialize (IH (index + 1) rest). rewrite bind_Ok. split.
    + intros (more & Hm & [= <-]). apply IH in Hm as (bs & -> & ->); [|cbn in Hl; lia..|done].
      by exists (byte_of (16 * high + low) :: bs).
    + intros (bs & Hs & ->). destruct (spelled rest) as [more|]; [|done]. injection Hs as <-.
      exists (more ++ replicate (slots - length more) x00). split; [|done].
      apply IH; [cbn in Hl; lia..|done|]. by exists more.
Qed.

Lemma spelled_length text bs : spelled text = Some bs -> length text = (2 * length bs)%nat.
Proof.
  revert text. induction bs as [|b bs IH]; intros [|high_byte [|low_byte rest]] Hs; cbn [spelled] in Hs; try done;
    repeat case_match; simplify_eq; cbn; try done. rewrite (IH rest) by done. lia.
Qed.

Lemma take_le_bytes k n z : (k <= n)%nat -> take k (le_bytes n z) = le_bytes k z.
Proof.
  revert n z. induction k as [|k IH]; intros [|n] z Hk; [done|done|lia|]. cbn. by rewrite IH by lia.
Qed.

Lemma spelled_digits bs :
  spelled (flat_map (fun b => [nibble_char (Z.shiftr (byte_val b) 4); nibble_char (Z.land (byte_val b) 0xf)]) bs) = Some bs.
Proof.
  induction bs as [|b bs IH]; cbn [flat_map app spelled]; [done|].
  pose proof (byte_val_range b).
  assert (H1 : Z.shiftr (byte_val b) 4 = byte_val b / 16) by (by rewrite Z.shiftr_div_pow2).
  assert (H2 : Z.land (byte_val b) 0xf = byte_val b mod 16) by exact (Z.land_ones (byte_val b) 4 ltac:(lia)).
  rewrite H1, H2, !hex_nibble_char, IH by (Z.div_mod_to_equations; lia).
  rewrite <- Z.div_mod by lia. by rewrite byte_of_val.
Qed.

(** Registers survive their text.  A value that fits its width is
    encoded, and decodes to itself; and decoding accepts exactly the texts
    of two hexadecimal digits for each byte of the width, at most eight,
    giving the little-endian integer of the bytes they spell. *)
Theorem gdb_hex_roundtrip `{Allocator} (width : Z) (Hwidth : 0 <= width) :
  (forall value, width <= 8 -> in_width (8 * width) value -> ample ->
     exists text, encode_little_hex value width = Ok text /\ decode_little_hex text width = Ok value) /\
  (forall text value, decode_little_hex text width = Ok value <->
     width <= 8 /\ exists bs, spelled (bytes_of_string text) = Some bs /\ zlen bs = width /\ value = le_val bs).
Proof.
  assert (Hdecode : forall text value, decode_little_hex text width = Ok value <->
     width <= 8 /\ exists bs, spelled (bytes_of_string text) = Some bs /\ zlen bs = width /\ value = le_val bs).
  { intros text value. unfold decode_little_hex, checked_mul.
    assert (Hlen : Z.of_nat (String.length text) = zlen (bytes_of_string text)).
    { unfold zlen. by rewrite length_bytes_of_string. }
    rewrite Hlen. unfold zlen. destruct (Z.ltb_spec 8 width); cbn [orb].
    { split; [done|]. intros [? _]. lia. }
    destruct (Z.ltb_spec (width * 2) (2 ^ 64)); [|lia].
    case_bool_decide as E; cbn [negb].
    - injection E as E. rewrite bind_Ok. split.
      + intros (bytes & Hd & [= <-]). split; [done|].
        apply decode_pairs_spec in Hd as (bs & Hs & ->); [|lia..|exists (Z.to_nat width); lia].
        exists bs. rewrite le_val_zeros. split; [done|]. split; [|done].
        apply spelled_length in Hs. unfold zlen. lia.
      + intros (_ & bs & Hs & Hl & ->). exists (bs ++ replicate (8 - length bs) x00).
        split; [|by rewrite le_val_zeros].
        apply decode_pairs_spec; [lia..|exists (Z.to_nat width); lia|]. by exists bs.
    - split; [done|]. intros (_ & bs & Hs & Hl & _). apply spelled_length in Hs. destruct E.
      f_equal. unfold zlen in Hl. lia. }
  split; [|exact Hdecode].
  intros value H8 Hv Ha. unfold encode_little_hex. destruct (Z.ltb_spec 8 width); [lia|].
  rewrite checked_mul_fits by lia. cbn [ok_or mbind result_bind].
  rewrite reserve_ample by (done || unfold isize_max; lia). cbn [map_err mbind result_bind].
  eexists. split; [done|]. apply Hdecode. split; [done|].
  exists (take (Z.to_nat width) (le_bytes 8 value)). rewrite bytes_of_string_of_bytes, spelled_digits.
  assert (Hl : length (take (Z.to_nat width) (le_bytes 8 value)) = Z.to_nat width)
    by (rewrite length_take, length_le_bytes; lia).
  split; [done|]. split; [unfold zlen; lia|].
  rewrite take_le_bytes by lia. rewrite le_val_bytes, Z2Nat.id by lia. symmetry. apply Z.mod_small. exact Hv.
Qed.

Lemma gdb_hex_roundtrip_witness :
  @encode_little_hex ample_allocator 0x246 4 = Ok "46020000"%string /\
  decode_little_hex "46020000" 4 = Ok 0x246.
Proof.
  destruct (@gdb_hex_roundtrip ample_allocator 4 ltac:(lia)) as [Hround _].
  destruct (Hround 0x246 ltac:(lia) ltac:(split; [discriminate|reflexivity]) ample_ample) as (text & He & Hd).
  assert (Htext : Ok (E := VmiError.t) text = Ok "46020000"%string) by (rewrite <- He; vm_compute; reflexivity).
  injection Htext as ->. split; assumption.
Defined.

(** C38: a GDB command is one exchange of packets.  If it returns a response,
    it has sent exactly its payload framed with its checksum and the final
    acknowledgement, and has taken from the peer an acknowledgement, bytes
    before a dollar sign, and a packet of that response with a matching
    checksum, UTF-8, no error, within the capacity; nothing more and nothing
    less.  A peer that answers so before the deadline on a connection that
    does not fail makes it return that response.  Its loops end: no run
    takes more rounds than bytes and events are to come. *)
Theorem gdb_command_exact `{Allocator, Clock} (timeout : Z) (payload : string) (Htimeout : 0 < timeout) :
  (forall s r s', command timeout payload s = (Ok r, s') -> exists inn,
     sent s' = sent s ++ packet_of payload ++ [x2b] /\
     avail (incoming s) = inn ++ avail (incoming s') /\ reply r inn) /\
  (ample -> forall s r inn rest, calm s -> avail (incoming s) = inn ++ rest -> reply r inn ->
     exists s', command timeout payload s = (Ok r, s') /\
       sent s' = sent s ++ packet_of payload ++ [x2b] /\ avail (incoming s') = rest /\ calm s') /\
  (forall deadline response s fuel, (rounds s <= fuel)%nat ->
     await_start fuel deadline s = await_start (rounds s) deadline s /\
     read_payload fuel deadline response s = read_payload (rounds s) deadline response s).
Proof.
  destruct (command_exchange timeout payload Htimeout) as [Hs Hc]. split; [|split].
  - intros s r s' Hrun. destruct (Hs s r s' Hrun) as (out & inn & Ho & Hi & -> & Hr). by exists inn.
  - intros Ha s r inn rest Hcalm Hin Hr.
    by destruct (Hc Ha s r _ inn rest Hcalm Hin (conj eq_refl Hr)) as (s' & Hrun & ?); exists s'.
  - intros deadline response s fuel Hfuel. unfold rounds in *.
    split; [apply await_start_fuel|apply read_payload_fuel]; lia.
Qed.

(** A server that acknowledges, repeats a stray byte and answers [OK]. *)
Definition ok_server : Socket :=
  MkSocket [Delivered [x2b]; Interrupts; Delivered (x2b :: bytes_of_string "$OK#9a")] [] [] [] 0 [].

Lemma gdb_command_exact_witness :
  exists s', @command ample_allocator {| last_instant := 2 ^ 62 |} 1000 "Hg1" ok_server = (Ok "OK"%string, s') /\
    string_of_bytes (sent s') = "$Hg1#e0+"%string.
Proof.
  destruct (@gdb_command_exact ample_allocator {| last_instant := 2 ^ 62 |} 1000 "Hg1" ltac:(lia)) as (_ & Hc & _).
  destruct (Hc ample_ample ok_server "OK"%string (avail (incoming ok_server)) []) as (s' & Hrun & Hsent & _).
  - repeat split; constructor.
  - by rewrite app_nil_r.
  - exists [x2b], (bytes_of_string "9a"). repeat split; try (vm_compute; (reflexivity || discriminate));
      apply (bool_decide_unpack _); vm_compute; reflexivity.
  - exists s'. split; [exact Hrun|]. rewrite Hsent. vm_compute. reflexivity.
Defined.
