(* ===== verification/Qmp.v ===== *)
(** * The QMP client of the QEMU provider ([crates/vmi-driver-qemu])

    [QmpClient]: lines of JSON over a buffered socket, commands with
    identifiers, and the events that arrive between their replies. *)

From S2P Require Import Prelude.
From S2P Require Import Types.
From S2P Require Import DriverApi.
From S2P Require Import Host.
From S2P Require Import Socket.
From S2P Require Import Gdb.

Definition EVENT_QUEUE_CAPACITY : Z := 1024.
Definition QMP_MESSAGE_CAPACITY : Z := 16 * 1024 * 1024.

(** ** JSON

    What the client uses of [serde_json] beyond the accessors: parsing a
    line, printing a value, and the values of the [json!] macro. *)
Class QmpJson := {
  #[global] qmp_serde :: SerdeJson;
  from_slice : list byte -> result string Value;
  to_string : Value -> string;
  null_value : Value;
  bool_value : bool -> Value;
  u64_value : Z -> Value;
  string_value : string -> Value;
  object_value : list (string * Value) -> Value;
}.

Section json.
Context `{QmpJson}.

(** [Value::get]. *)
Definition get (value : Value) (name : string) : option Value :=
  match as_object value with Some fields => map_get fields name | None => None end.

(** [value.get(name).or_else(|| value.get(other))]. *)
Definition get_either (value : Value) (name other : string) : option Value :=
  match get value name with Some v => Some v | None => get value other end.

(** [take_qmp_return]. *)
Definition take_qmp_return (response : Value) : Value :=
  from_option (fun v => v) null_value (get response "return").

Definition qmp_event `{Allocator} (value : Value) : Result (option VmiEvent) :=
  match (match get value "event" with Some v => as_str v | None => None end) with
  | None => Ok None
  | Some kind =>
      let? _ := map_err (fun error => Backend ("failed to allocate QMP event kind: " +:+ error))
        (try_reserve "QMP event kind" (Z.of_nat (String.length kind))) in
      let data := get value "data" in
      let number (name other : string) : option Z :=
        match data with
        | Some data => match get_either data name other with Some v => as_u64 v | None => None end
        | None => None
        end in
      let vcpu := match number "cpu-index" "vcpu" with Some n => try_width 32 n | None => None end in
      let address := Gpa.new <$> number "address" "addr" in
      Ok (Some (MkVmiEvent kind vcpu address))
  end.
End json.

(** ** The client *)

Module QmpClient.
(** The buffered socket is the socket and the bytes read ahead from it. *)
Record t : Type := mk {
  socket : Socket;
  buffered : list byte;
  next_id : option Z;
  events : list VmiEvent;
}.

Definition set_socket (c : t) (s : Socket) (buffered : list byte) : t :=
  mk s buffered (next_id c) (events c).

Definition enqueue_event `{Allocator} (queue : list VmiEvent) (event : VmiEvent) : Result (list VmiEvent) :=
  if zlen queue =? EVENT_QUEUE_CAPACITY then
    Err (Backend ("QMP event queue capacity " +:+ dec EVENT_QUEUE_CAPACITY +:+ " exceeded"))
  else
    let? _ := map_err (fun error => Backend ("failed to grow QMP event queue: " +:+ error))
      (try_reserve "QMP event queue" (zlen queue + 1)) in
    Ok (queue ++ [event]).

Section client.
Context `{Allocator, Clock, QmpJson}.

Abbreviation M := (stateful t VmiError.t).

Definition on_socket {A} (op : Socket -> result string A * Socket) : M A :=
  fun c => let '(r, s) := op (socket c) in (map_err Backend r, set_socket c s (buffered c)).

Definition clock_now : t -> Z * t :=
  fun c => let '(n, s) := instant_now (socket c) in (n, set_socket c s (buffered c)).

Definition qmp_read_error (error : socket_error) : VmiError.t :=
  if is_timeout error then VmiError.Timeout "QMP read" else Backend (socket_text error).

Definition interrupted_error : socket_error :=
  MkSocketError false "Interrupted system call (os error 4)".

(** [BufReader::fill_buf], with its buffer of 8 KiB; it does not retry. *)
Definition fill_buf : M (list byte) :=
  fun c =>
    if bool_decide (buffered c = []) then
      match read 8192 (incoming (socket c)) with
      | (Some (Ok bytes), input) => (Ok bytes, set_socket c (set_incoming (socket c) input) bytes)
      | (Some (Err error), input) => (Err (qmp_read_error error), set_socket c (set_incoming (socket c) input) [])
      | (None, input) => (Err (qmp_read_error interrupted_error), set_socket c (set_incoming (socket c) input) [])
      end
    else (Ok (buffered c), c).

Definition consume (count : nat) : M unit :=
  fun c => (Ok tt, set_socket c (socket c) (drop count (buffered c))).

(** The length of the line at the front, its line feed included. *)
Fixpoint line_length (bytes : list byte) : option nat :=
  match bytes with
  | [] => None
  | b :: rest => if bool_decide (b = x0a) then Some 1%nat else S <$> line_length rest
  end.

(** One round of [read_json_with_capacity]. *)
Definition read_line_step (capacity : Z) (line : list byte) : M (list byte * bool) :=
  let? available := fill_buf in
  if bool_decide (available = []) then
    if bool_decide (line = []) then fail (Backend "QMP connection closed")
    else fail (Backend ("QMP message exceeds " +:+ dec capacity +:+ " bytes"))
  else
    let consumed := from_option (fun n => n) (length available) (line_length available) in
    let? total := lift (ok_or (checked_add 64 (zlen line) (Z.of_nat consumed))
      (Backend "QMP message length overflow")) in
    if capacity <? total then fail (Backend ("QMP message exceeds " +:+ dec capacity +:+ " bytes"))
    else
      let? _ := lift (map_err (fun error => Backend ("failed to grow QMP message buffer: " +:+ error))
        (try_reserve "QMP message buffer" total)) in
      let chunk := take consumed available in
      let? _ := consume consumed in
      mret (line ++ chunk, bool_decide (last chunk = Some x0a)).

(** How much is left to read: bytes ahead, bytes and events to come. *)
Definition rounds (c : t) : nat := S (length (buffered c) + input_weight (incoming (socket c))).

Fixpoint read_line (fuel : nat) (capacity : Z) (line : list byte) : M (list byte) :=
  match fuel with
  | O => fail (Backend "model fuel exhausted")
  | S fuel' =>
      let? ' (line, complete) := read_line_step capacity line in
      if complete : bool then mret line else read_line fuel' capacity line
  end.

Definition read_json_with_capacity (capacity : Z) : M Value :=
  let? line := fun c => read_line (rounds c) capacity [] c in
  lift (map_err (fun error => Backend ("invalid QMP JSON: " +:+ error)) (from_slice line)).

Definition read_json : M Value := read_json_with_capacity QMP_MESSAGE_CAPACITY.

Definition take_request_id : M Z :=
  fun c =>
    match next_id c with
    | None => (Err (Backend "QMP request ID space exhausted"), c)
    | Some id => (Ok id, mk (socket c) (buffered c) (checked_add 64 id 1) (events c))
    end.

Definition push_event (event : VmiEvent) : M unit :=
  fun c =>
    match enqueue_event (events c) event with
    | Err e => (Err e, c)
    | Ok events => (Ok tt, mk (socket c) (buffered c) (next_id c) events)
    end.

(** The request of a command, a line. *)
Definition request (command : string) (id : Z) (arguments : option Value) : list byte :=
  let fields := [("execute"%string, string_value command); ("id"%string, u64_value id)] ++
    match arguments with Some a => [("arguments"%string, a)] | None => [] end in
  bytes_of_string (to_string (object_value fields)) ++ [x0a].

(** What is left until the deadline, set as the read timeout. *)
Definition wait_until (deadline : option Z) (expired : VmiError.t) : M unit :=
  fun c =>
    let '(n, c) := clock_now c in
    match deadline with
    | Some d =>
        if d <=? n then (Err expired, c)
        else on_socket (set_read_timeout (bounded_socket_timeout (d - n))) c
    | None => on_socket (set_read_timeout MAX_SOCKET_WAIT) c
    end.

Definition is_read_timeout (e : VmiError.t) : bool :=
  match e with VmiError.Timeout operation => bool_decide (operation = "QMP read"%string) | _ => false end.

(** One round of the loop of [execute]: the reply, or on. *)
Definition reply_step (command : string) (id : Z) (deadline : option Z) : M (option Value) :=
  let? _ := wait_until deadline (VmiError.Timeout "QMP command") in
  let? response := fun c =>
    match read_json c with
    | (Err e, c) => (Err (if is_read_timeout e then VmiError.Timeout "QMP command" else e), c)
    | r => r
    end in
  let? event := lift (qmp_event response) in
  match event with
  | Some event => let? _ := push_event event in mret None
  | None =>
      if negb (bool_decide ((match get response "id" with Some v => as_u64 v | None => None end) = Some id)) then mret None
      else
        match get response "error" with
        | Some error => fail (Backend ("QMP " +:+ command +:+ " failed: " +:+ to_string error))
        | None => mret (Some (take_qmp_return response))
        end
  end.

Fixpoint await_reply (fuel : nat) (command : string) (id : Z) (deadline : option Z) : M Value :=
  match fuel with
  | O => fail (Backend "model fuel exhausted")
  | S fuel' =>
      let? reply := reply_step command id deadline in
      match reply with Some v => mret v | None => await_reply fuel' command id deadline end
  end.

Definition await_replies (command : string) (id : Z) (deadline : option Z) : M Value :=
  fun c => await_reply (rounds c) command id deadline c.

(** [execute], after the deadline is set. *)
Definition send_request (command : string) (arguments : option Value) (deadline : option Z) : M Value :=
  let? id := take_request_id in
  let? _ := on_socket (write_all (request command id arguments)) in
  await_replies command id deadline.

Definition execute (timeout : Z) (command : string) (arguments : option Value) : M Value :=
  fun c =>
    let '(deadline, s) := deadline_in timeout (socket c) in
    send_request command arguments deadline (set_socket c s (buffered c)).

(** One round of the loop of [next_event]: an answer, or on. *)
Definition event_step (deadline : option Z) : M (option (option VmiEvent)) :=
  fun c =>
    let '(n, c) := clock_now c in
    if match deadline with Some d => d <=? n | None => false end then (Ok (Some None), c)
    else
      let remaining := match deadline with Some d => bounded_socket_timeout (d - n) | None => MAX_SOCKET_WAIT end in
      match on_socket (set_read_timeout remaining) c with
      | (Err e, c) => (Err e, c)
      | (Ok _, c) =>
          match read_json c with
          | (Ok value, c) => (match qmp_event value with
                              | Err e => Err e
                              | Ok (Some event) => Ok (Some (Some event))
                              | Ok None => Ok None
                              end, c)
          | (Err e, c) =>
              if is_read_timeout e then (Ok (match deadline with Some _ => Some None | None => None end), c)
              else (Err e, c)
          end
      end.

Fixpoint await_event (fuel : nat) (deadline : option Z) : M (option VmiEvent) :=
  match fuel with
  | O => fail (Backend "model fuel exhausted")
  | S fuel' =>
      let? answer := event_step deadline in
      match answer with Some a => mret a | None => await_event fuel' deadline end
  end.

Definition next_event (timeout : Z) : M (option VmiEvent) :=
  fun c =>
    match events c with
    | event :: rest => (Ok (Some event), mk (socket c) (buffered c) (next_id c) rest)
    | [] =>
        if timeout =? 0 then (Ok None, c)
        else
          let '(deadline, s) := deadline_in timeout (socket c) in
          let c := set_socket c s (buffered c) in
          await_event (rounds c) deadline c
    end.

Definition hmp (timeout : Z) (command : string) : M Value :=
  execute timeout "human-monitor-command"
    (Some (object_value [("command-line"%string, string_value command)])).

(** [initialize], on a connected socket. *)
Definition initialize (timeout : Z) (s : Socket) : Result unit * t :=
  let c := mk s [] (Some 1) [] in
  (let? _ := lift (map_err (fun error => Backend ("failed to allocate QMP event queue: " +:+ error))
     (try_reserve "QMP event queue" EVENT_QUEUE_CAPACITY)) in
   let? greeting := read_json in
   match get greeting "QMP" with
   | None => fail (Backend "QMP greeting was not received")
   | Some _ => let? _ := execute timeout "qmp_capabilities" None in mret tt
   end) c.
End client.
End QmpClient.
