(* ===== verification/QmpFacts.v ===== *)
(** * What the QMP client guarantees ([crates/vmi-driver-qemu])

    Messages are whole lines; a command's reply is the first message with
    its identifier that is not an event, and no event before it is lost. *)

From S2P Require Import Prelude.
From S2P Require Import Types.
From S2P Require Import DriverApi.
From S2P Require Import Host.
From S2P Require Import ArtifactFilesFacts.
From S2P Require Import Socket.
From S2P Require Import Gdb.
From S2P Require Import GdbFacts.
From S2P Require Import Qmp.

Import QmpClient.

(** ** Lines *)

Definition is_line (line : list byte) : Prop := exists body, line = body ++ [x0a] /\ x0a ∉ body.

Lemma line_length_spec bytes :
  match line_length bytes with
  | Some n => is_line (take n bytes) /\ (1 <= n <= length bytes)%nat
  | None => x0a ∉ bytes
  end.
Proof.
  induction bytes as [|b bytes IH]; cbn [line_length]; [apply not_elem_of_nil|].
  case_bool_decide as E.
  - subst b. split; [exists []; split; [done|apply not_elem_of_nil]|cbn; lia].
  - destruct (line_length bytes) as [n|]; cbn [fmap option_fmap option_map].
    + destruct IH as [(body & Hb & Hn) ?]. split; [|cbn; lia]. exists (b :: body). cbn [take]. rewrite Hb.
      split; [done|]. rewrite elem_of_cons. by intros [|].
    + rewrite elem_of_cons. by intros [|].
Qed.

Lemma line_split body x a rest : x0a ∉ body -> is_line a -> (body ++ [x0a]) ++ x = a ++ rest ->
  body ++ [x0a] = a /\ x = rest.
Proof.
  intros Hb (body' & -> & Hb') Heq. rewrite <- !app_assoc in Heq. cbn in Heq.
  revert body' Hb' Heq. induction body as [|b body IH]; intros [|b' body'] Hb' Heq; cbn in *.
  - by injection Heq as ->.
  - injection Heq as <- _. destruct Hb'. apply elem_of_cons. by left.
  - injection Heq as -> _. destruct Hb. apply elem_of_cons. by left.
  - injection Heq as -> Heq. rewrite elem_of_cons in Hb, Hb'.
    destruct (IH ltac:(tauto) body' ltac:(tauto) Heq) as [-> ->]. done.
Qed.

Lemma line_unique a x b y : is_line a -> is_line b -> a ++ x = b ++ y -> a = b /\ x = y.
Proof. intros (body & -> & Hb) Hl Heq. by apply line_split. Qed.

Lemma is_line_last line : is_line line -> last line = Some x0a.
Proof. intros (body & -> & _). by rewrite last_snoc. Qed.

Lemma is_line_nonempty line : is_line line -> (1 <= length line)%nat.
Proof. intros (body & -> & _). rewrite length_app. cbn. lia. Qed.

(** ** What is still to be read *)

(** The bytes a peer delivers without a silence, an interruption or an end. *)
Fixpoint plain (input : list socket_event) : list byte :=
  match input with
  | Delivered [] :: _ => []
  | Delivered bytes :: rest => bytes ++ plain rest
  | _ => []
  end.

Lemma plain_deliver bytes rest : plain (deliver bytes rest) = bytes ++ plain rest.
Proof. unfold deliver. case_bool_decide; [by subst|]. by destruct bytes. Qed.

Definition ahead (c : t) : list byte := buffered c ++ plain (incoming (socket c)).
Definition weight (c : t) : nat := (length (buffered c) + input_weight (incoming (socket c)))%nat.

(** The client after some more of its peer was read. *)
Definition moved (c : t) (input : list socket_event) (bytes : list byte) : t :=
  set_socket c (set_incoming (socket c) input) bytes.

Definition moves (c c' : t) : Prop := exists input bytes, c' = moved c input bytes.

Lemma moves_refl c : moves c c.
Proof. exists (incoming (socket c)), (buffered c). by destruct c as [[] ? ? ?]. Qed.

Lemma moves_trans c1 c2 c3 : moves c1 c2 -> moves c2 c3 -> moves c1 c3.
Proof. intros (i & b & ->) (i' & b' & ->). by exists i', b'. Qed.

Section reading.
Context `{Allocator}.

Lemma fill_buf_spec c :
  match fill_buf c with
  | (Ok bytes, c') => moves c c' /\ buffered c' = bytes /\ (weight c' <= weight c)%nat /\
      (if bool_decide (bytes = []) then ahead c = [] else ahead c' = ahead c)
  | (Err _, c') => moves c c' /\ ahead c = [] /\ (weight c' < weight c)%nat
  end.
Proof.
  unfold fill_buf. case_bool_decide as E.
  - unfold ahead, weight, input_weight. rewrite E. cbn [app length].
    destruct (incoming (socket c)) as [|[bytes| |error|error] rest]; cbn [read plain];
      try (split; [by eexists _, _|]; cbn; (split; [done|]; lia)).
    + repeat split; [by eexists _, _|cbn; lia].
    + split; [by eexists _, _|]. split; [done|]. assert (Hk : (0 < Z.to_nat 8192)%nat) by lia.
      generalize dependent (Z.to_nat 8192). intros k Hk.
      pose proof (weight_deliver (drop k bytes) rest) as Hw.
      assert (Hlen : (length (take k bytes) + length (drop k bytes) = length bytes)%nat)
        by (rewrite length_take, length_drop; lia).
      split; [unfold input_weight in Hw; cbn; lia|].
      destruct bytes as [|b bytes]; [by rewrite take_nil|]. rewrite bool_decide_eq_false_2 by (by destruct k; [lia|]).
      cbn [buffered incoming socket set_socket set_incoming].
      by rewrite plain_deliver, app_assoc, take_drop.
  - split; [apply moves_refl|]. split; [done|]. split; [lia|]. by rewrite bool_decide_eq_false_2.
Qed.

(** A round takes some bytes, up to the first line feed. *)
Lemma read_line_step_sound capacity line c line' complete c1 :
  read_line_step capacity line c = (Ok (line', complete), c1) ->
  exists chunk, line' = line ++ chunk /\ chunk <> [] /\ ahead c = chunk ++ ahead c1 /\ moves c c1 /\
    (weight c1 < weight c)%nat /\ zlen line' <= capacity /\
    (if complete : bool then is_line chunk else x0a ∉ chunk).
Proof.
  intros Hstep. unfold read_line_step, mbind, stateful_bind in Hstep. pose proof (fill_buf_spec c) as Hf.
  destruct (fill_buf c) as [[available|e] c0]; [|done]. destruct Hf as (Hm & Hb & Hw & Ha).
  destruct (bool_decide (available = [])) eqn:E; [by destruct (bool_decide (line = []))|].
  apply bool_decide_eq_false in E. pose proof (line_length_spec available) as Hl.
  set (consumed := from_option (fun n => n) (length available) (line_length available)) in *.
  assert (Hn : (1 <= consumed <= length available)%nat).
  { unfold consumed. destruct (line_length available); cbn; [by destruct Hl|]. destruct available; [done|cbn; lia]. }
  unfold lift in Hstep. destruct (ok_or _ _) as [total|] eqn:Ht; [|done]. apply ok_or_Ok, checked_add_Some in Ht as [-> _].
  destruct (Z.ltb_spec capacity (zlen line + Z.of_nat consumed)); [done|].
  destruct (map_err _ _); [|done]. unfold consume in Hstep. cbn in Hstep. injection Hstep as <- <- <-.
  exists (take consumed available). split; [done|]. split; [intros E0; apply (f_equal length) in E0; rewrite length_take in E0; cbn in E0; lia|].
  split; [|split; [|split; [|split]]].
  - rewrite <- Ha. unfold ahead. cbn. rewrite Hb, app_assoc. by rewrite take_drop.
  - eapply moves_trans; [exact Hm|]. exists (incoming (socket c0)), (drop consumed (buffered c0)). by destruct c0 as [[] ? ? ?].
  - unfold weight in *. cbn. rewrite length_drop, Hb in *. lia.
  - unfold zlen in *. rewrite length_app, length_take. lia.
  - unfold consumed. destruct (line_length available) as [n|]; cbn.
    + destruct Hl as [Hl _]. rewrite bool_decide_eq_true_2; [done|]. by apply is_line_last.
    + rewrite take_ge by lia. rewrite bool_decide_eq_false_2; [done|].
      intros Hlast. apply Hl. apply last_Some in Hlast as [l ->]. rewrite elem_of_app. right. by apply list_elem_of_singleton.
Qed.

(** A line is read whole: what was read before it, and no more. *)
Lemma read_line_sound fuel capacity line c r c' :
  read_line fuel capacity line c = (Ok r, c') -> exists more, r = line ++ more /\ is_line more /\
    ahead c = more ++ ahead c' /\ zlen r <= capacity /\ moves c c' /\ (weight c' < weight c)%nat.
Proof.
  revert line c. induction fuel as [|fuel IH]; intros line c Hrun; [done|]. cbn [read_line] in Hrun.
  unfold mbind, stateful_bind in Hrun. destruct (read_line_step capacity line c) as [[[line' complete]|e] c1] eqn:Hstep; [|done].
  destruct (read_line_step_sound _ _ _ _ _ _ Hstep) as (chunk & -> & Hne & Ha & Hm & Hw & Hc & Hcomplete).
  destruct complete.
  - injection Hrun as <- <-. by exists chunk.
  - destruct (IH _ _ Hrun) as (more & -> & (body & -> & Hbody) & Ha2 & Hc2 & Hm2 & Hw2).
    exists (chunk ++ body ++ [x0a]). split; [by rewrite <- app_assoc|]. split; [|split; [|split; [done|split; [|lia]]]].
    + exists (chunk ++ body). rewrite app_assoc. split; [done|]. rewrite elem_of_app. tauto.
    + by rewrite Ha, Ha2, <- !app_assoc.
    + by eapply moves_trans.
Qed.

Lemma read_line_complete fuel capacity line c more rest :
  ample -> ahead c = more ++ rest -> is_line more -> zlen (line ++ more) <= capacity ->
  capacity <= isize_max -> (weight c < fuel)%nat ->
  exists c', read_line fuel capacity line c = (Ok (line ++ more), c') /\ ahead c' = rest /\ moves c c'.
Proof.
  intros Ha. revert line c more. induction fuel as [|fuel IH]; intros line c more Hin Hline Hcap Hmax Hfuel; [lia|].
  cbn [read_line]. unfold mbind, stateful_bind, read_line_step, mbind, stateful_bind.
  pose proof (is_line_nonempty _ Hline) as Hne. pose proof (fill_buf_spec c) as Hf.
  destruct (fill_buf c) as [[available|e] c0].
  2: { destruct Hf as (_ & He & _). rewrite He in Hin. apply (f_equal length) in Hin. rewrite length_app in Hin. cbn in Hin. lia. }
  destruct Hf as (Hm & Hb & Hw & Hah). case_bool_decide as E.
  { rewrite Hah in Hin. apply (f_equal length) in Hin. rewrite length_app in Hin. cbn in Hin. lia. }
  rewrite Hin in Hah. unfold ahead in Hah. rewrite Hb in Hah.
  pose proof (line_length_spec available) as Hl.
  set (consumed := from_option (fun n => n) (length available) (line_length available)).
  assert (Hn : (1 <= consumed <= length available)%nat).
  { unfold consumed. destruct (line_length available); cbn; [by destruct Hl|]. destruct available; [done|cbn; lia]. }
  assert (Hsplit : exists more', more = take consumed available ++ more' /\
    drop consumed available ++ plain (incoming (socket c0)) = more' ++ rest /\
    if bool_decide (last (take consumed available) = Some x0a) then more' = [] else is_line more').
  { unfold consumed. destruct (line_length available) as [n|]; cbn.
    - destruct Hl as [Hl _]. rewrite <- (take_drop n available), <- app_assoc in Hah at 1.
      destruct (line_unique _ _ _ _ Hl Hline Hah) as [<- Hrest]. exists []. rewrite app_nil_r.
      rewrite bool_decide_eq_true_2 by (by apply is_line_last). done.
    - rewrite take_ge, drop_ge by lia. rewrite bool_decide_eq_false_2.
      2: { intros Hlast. apply Hl. apply last_Some in Hlast as [l ->]. rewrite elem_of_app. right. by apply list_elem_of_singleton. }
      destruct Hline as (body & -> & Hbody). clear -Hah Hl Hbody E. revert body Hbody Hah.
      induction available as [|b available IHa]; intros body Hbody Hah; [done|].
      destruct body as [|b' body]; cbn in Hah; injection Hah as -> Hah.
      { destruct Hl. apply elem_of_cons. by left. }
      rewrite elem_of_cons in Hl, Hbody. destruct available as [|b2 available].
      + exists (body ++ [x0a]). split; [done|]. split; [done|]. exists body. split; [done|tauto].
      + destruct (IHa ltac:(done) ltac:(tauto) body ltac:(tauto) Hah) as (more' & Hmore & ? & ?).
        exists more'. split; [by rewrite <- app_comm_cons, Hmore|done]. }
  destruct Hsplit as (more' & -> & Hrest & Hlast).
  rewrite !zlen_app in Hcap. pose proof (zlen_nonneg more').
  assert (Hzc : zlen (take consumed available) = Z.of_nat consumed) by (unfold zlen; rewrite length_take; lia).
  unfold lift. rewrite checked_add_fits by (unfold isize_max in *; lia). cbn [ok_or].
  destruct (Z.ltb_spec capacity (zlen line + Z.of_nat consumed)); [lia|].
  rewrite reserve_ample by (done || lia). cbn [map_err]. unfold consume. cbn.
  set (c1 := set_socket c0 (socket c0) (drop consumed (buffered c0))).
  assert (Hm1 : moves c c1).
  { eapply moves_trans; [exact Hm|]. exists (incoming (socket c0)), (drop consumed (buffered c0)). by destruct c0 as [[] ? ? ?]. }
  assert (Hah1 : ahead c1 = more' ++ rest) by (unfold ahead, c1; cbn; by rewrite Hb).
  case_bool_decide as El.
  - subst more'. rewrite app_nil_r. by exists c1.
  - destruct (IH (line ++ take consumed available) c1 more') as (c2 & Hrun & Hr2 & Hm2); try done.
    + rewrite !zlen_app. lia.
    + unfold weight, c1 in *. cbn. rewrite length_drop, Hb in *. lia.
    + exists c2. rewrite app_assoc. split; [done|]. split; [done|]. by eapply moves_trans.
Qed.

Context `{QmpJson}.

(** A message: a line within the capacity that parses. *)
Definition message (line : list byte) (v : Value) : Prop :=
  is_line line /\ zlen line <= QMP_MESSAGE_CAPACITY /\ from_slice line = Ok v.

Lemma weight_rounds c : (weight c < rounds c)%nat.
Proof. unfold weight, rounds. lia. Qed.

Lemma read_json_sound c v c' : read_json c = (Ok v, c') ->
  exists line, message line v /\ ahead c = line ++ ahead c' /\ moves c c' /\ (weight c' < weight c)%nat.
Proof.
  unfold read_json, read_json_with_capacity, mbind, stateful_bind. intros Hrun.
  destruct (read_line _ _ _ c) as [[line|e] c1] eqn:Hl; [|done]. unfold lift in Hrun.
  destruct (from_slice line) as [v'|] eqn:Hv; [|done]. injection Hrun as <- <-.
  destruct (read_line_sound _ _ _ _ _ _ Hl) as (more & -> & Hline & Ha & Hc & Hm & Hw).
  exists more. by repeat split.
Qed.

Lemma read_json_complete c line v rest : ample -> ahead c = line ++ rest -> message line v ->
  exists c', read_json c = (Ok v, c') /\ ahead c' = rest /\ moves c c'.
Proof.
  intros Ha Hin (Hline & Hcap & Hv). unfold read_json, read_json_with_capacity, mbind, stateful_bind.
  destruct (read_line_complete (rounds c) QMP_MESSAGE_CAPACITY [] c line rest) as (c' & Hrun & Hr & Hm);
    try done; [apply weight_rounds|]. rewrite Hrun. cbn [app]. unfold lift. rewrite Hv. by exists c'.
Qed.

(** ** Replies *)

Definition message_id (v : Value) : option Z := match get v "id" with Some i => as_u64 i | None => None end.

(** The messages up to the reply to a request, with the events among them
    and what the reply returns. *)
Inductive replies (id : Z) : list byte -> list VmiEvent -> Value -> Prop :=
| replies_here line v :
    message line v -> qmp_event v = Ok None -> message_id v = Some id -> get v "error" = None ->
    replies id line [] (take_qmp_return v)
| replies_event line v event inn events r :
    message line v -> qmp_event v = Ok (Some event) -> replies id inn events r ->
    replies id (line ++ inn) (event :: events) r
| replies_other line v inn events r :
    message line v -> qmp_event v = Ok None -> message_id v <> Some id -> replies id inn events r ->
    replies id (line ++ inn) events r.

(** Only the clock and the faults to come may differ. *)
Definition steady (c c' : t) : Prop :=
  ahead c' = ahead c /\ sent (socket c') = sent (socket c) /\ next_id c' = next_id c /\
  events c' = events c /\ weight c' = weight c.

Lemma moves_same c c' : moves c c' -> sent (socket c') = sent (socket c) /\ next_id c' = next_id c /\
  events c' = events c /\ (forall d, timely d (socket c) -> timely d (socket c')).
Proof. intros (input & bytes & ->). repeat split; apply H1. Qed.

Lemma wait_until_spec deadline expired c :
  (forall u c', wait_until deadline expired c = (Ok u, c') -> steady c c') /\
  (timely deadline (socket c) -> exists c', wait_until deadline expired c = (Ok tt, c') /\ steady c c' /\
     timely deadline (socket c')).
Proof.
  assert (Hsock : forall s, incoming s = incoming (socket c) -> sent s = sent (socket c) ->
    steady c (set_socket c s (buffered c))).
  { intros s Hi Hs. unfold steady, ahead, weight. cbn. by rewrite Hi. }
  unfold wait_until, clock_now, on_socket, set_read_timeout. pose proof (instant_now_spec (socket c)) as Hnow.
  destruct (instant_now (socket c)) as [n s1]. cbn. destruct Hnow as (Hi & Hs & Hw1 & Ho1 & Hn1 & Hclock). split.
  - intros u c' Hrun. destruct deadline as [d|]; [destruct (d <=? n); [done|]|].
    all: destruct (_ =? 0); cbn in Hrun; [done|]; destruct (from_option _ None (head (option_faults s1))); [done|];
      injection Hrun as _ <-; by apply Hsock.
  - intros (Hw & Ho & Ht & Hd). destruct (Hclock Ht) as [-> Ht1].
    assert (Hhead : from_option (fun f => f) None (head (option_faults s1)) = None).
    { rewrite Ho1. destruct (option_faults (socket c)); [done|]. by apply Forall_cons in Ho as [-> _]. }
    assert (Hcalm : match deadline with Some d => now s1 < d | None => True end ->
      timely deadline (MkSocket (incoming s1) (sent s1) (write_faults s1) (tail (option_faults s1)) (now s1) (ticks s1))).
    { intros Hd1. unfold timely. cbn. rewrite Hw1. repeat split; try done. rewrite Ho1.
      destruct (option_faults (socket c)); [done|]. by apply Forall_cons in Ho as [_ ?]. }
    destruct deadline as [d|]; [destruct (Z.leb_spec d (now (socket c))); [lia|]|].
    all: match goal with |- context [?x =? 0] => destruct (Z.eqb_spec x 0) as [Ez|] end;
      [exfalso; revert Ez; unfold bounded_socket_timeout, MAX_SOCKET_WAIT; lia|].
    all: rewrite Hhead; cbn; eexists; split; [done|]; split; [by apply Hsock|apply Hcalm; rewrite ?Hn1; done].
Qed.

Lemma steady_trans_moves c c1 c2 : steady c c1 -> moves c1 c2 ->
  sent (socket c2) = sent (socket c) /\ next_id c2 = next_id c /\ events c2 = events c.
Proof.
  intros (_ & Hs & Hn & He & _) Hm. apply moves_same in Hm as (Hs2 & Hn2 & He2 & _). by rewrite Hs2, Hn2, He2.
Qed.

Lemma enqueue_event_Ok queue event queue' : enqueue_event queue event = Ok queue' ->
  queue' = queue ++ [event] /\ zlen queue <> EVENT_QUEUE_CAPACITY.
Proof.
  unfold enqueue_event. destruct (Z.eqb_spec (zlen queue) EVENT_QUEUE_CAPACITY); [done|]. intros Hq.
  by inv_ok.
Qed.

Lemma await_reply_sound fuel command id deadline c v c' :
  await_reply fuel command id deadline c = (Ok v, c') -> exists inn evs,
    replies id inn evs v /\ ahead c = inn ++ ahead c' /\ events c' = events c ++ evs /\
    sent (socket c') = sent (socket c) /\ next_id c' = next_id c /\
    (zlen (events c) <= EVENT_QUEUE_CAPACITY -> zlen (events c') <= EVENT_QUEUE_CAPACITY).
Proof.
  revert c. induction fuel as [|fuel IH]; intros c Hrun; [done|]. cbn [await_reply] in Hrun.
  unfold mbind, stateful_bind in Hrun. unfold reply_step at 1, mbind, stateful_bind in Hrun.
  destruct (wait_until deadline _ c) as [[[]|e] c1] eqn:Hwait; [|done].
  apply (proj1 (wait_until_spec _ _ _)) in Hwait.
  destruct (read_json c1) as [[response|e] c2] eqn:Hread; [|done].
  destruct (read_json_sound _ _ _ Hread) as (line & Hmsg & Ha & Hm & _).
  destruct (steady_trans_moves _ _ _ Hwait Hm) as (Hs2 & Hn2 & He2).
  destruct Hwait as (Hahead & _). rewrite Hahead in Ha. unfold lift in Hrun.
  destruct (qmp_event response) as [[event|]|e] eqn:Hevent; [| |done].
  - unfold push_event in Hrun. destruct (enqueue_event (events c2) event) as [queue|e] eqn:Hq; [|done].
    apply enqueue_event_Ok in Hq as [-> Hcap]. cbn in Hrun.
    destruct (IH _ Hrun) as (inn & evs & Hr & Ha2 & He & Hs & Hn & Hl). cbn in *.
    exists (line ++ inn), (event :: evs). split; [by eapply replies_event|].
    rewrite Ha. unfold ahead in Ha2. cbn in Ha2. unfold ahead. rewrite Ha2, He, He2, Hs, Hn, <- !app_assoc.
    repeat split; try done. intros Hc. rewrite He, He2, <- app_assoc in Hl. apply Hl.
    rewrite zlen_app, zlen_cons, zlen_nil. rewrite He2 in Hcap. lia.
  - destruct (bool_decide _) eqn:Eid; cbn [negb] in Hrun.
    + apply bool_decide_eq_true in Eid. destruct (get response "error") eqn:Herr; [done|]. injection Hrun as <- <-.
      exists line, []. rewrite app_nil_r, He2. split; [by apply replies_here|]. done.
    + apply bool_decide_eq_false in Eid. cbn in Hrun.
      destruct (IH _ Hrun) as (inn & evs & Hr & Ha2 & He & Hs & Hn & Hl).
      exists (line ++ inn), evs. split; [by eapply replies_other|].
      rewrite Ha, Ha2, He, He2, Hs, Hn, <- app_assoc. rewrite He2 in Hl. rewrite He, He2 in Hl. done.
Qed.

Lemma await_reply_complete fuel command id deadline c inn evs v rest :
  ample -> replies id inn evs v -> timely deadline (socket c) -> ahead c = inn ++ rest ->
  zlen (events c ++ evs) <= EVENT_QUEUE_CAPACITY -> (weight c < fuel)%nat ->
  exists c', await_reply fuel command id deadline c = (Ok v, c') /\ ahead c' = rest /\
    events c' = events c ++ evs /\ timely deadline (socket c').
Proof.
  intros Ha Hr. revert fuel c. induction Hr as [line v Hmsg Hev Hid Herr|line v event inn evs r Hmsg Hev Hr IH
    |line v inn evs r Hmsg Hev Hid Hr IH]; intros [|fuel] c Ht Hin Hcap Hfuel; try lia.
  all: cbn [await_reply]; unfold mbind, stateful_bind; unfold reply_step at 1, mbind, stateful_bind.
  all: destruct (proj2 (wait_until_spec deadline (VmiError.Timeout "QMP command") c) Ht) as (c1 & Hwait & Hsteady & Ht1);
    rewrite Hwait.
  all: pose proof Hsteady as (Ha1 & _ & _ & He1 & Hw1).
  all: rewrite <- ?app_assoc in Hin; rewrite <- Ha1 in Hin.
  all: destruct (read_json_complete c1 line v _ Ha Hin Hmsg) as (c2 & Hread & Ha2 & Hm2); rewrite Hread.
  all: destruct (read_json_sound _ _ _ Hread) as (_ & _ & _ & _ & Hw2).
  all: apply moves_same in Hm2 as (_ & _ & He2 & Ht2); specialize (Ht2 _ Ht1).
  all: unfold lift; rewrite Hev.
  - rewrite bool_decide_eq_true_2 by done. cbn [negb]. rewrite Herr. exists c2. by rewrite He2, He1, app_nil_r.
  - unfold push_event, enqueue_event. rewrite He2, He1. pose proof (zlen_nonneg evs).
    rewrite zlen_app, zlen_cons in Hcap. destruct (Z.eqb_spec (zlen (events c)) EVENT_QUEUE_CAPACITY); [lia|].
    rewrite reserve_ample by (done || unfold isize_max, EVENT_QUEUE_CAPACITY in *; lia).
    cbn [map_err mbind result_bind mret stateful_ret].
    destruct (IH fuel (mk (socket c2) (buffered c2) (next_id c2) (events c ++ [event]))) as (c3 & Hrun & Ha3 & He3 & Ht3);
      [done|done|..].
    + cbn. rewrite <- app_assoc. cbn. by rewrite zlen_app, zlen_cons.
    + change (weight c2 < fuel)%nat. lia.
    + exists c3. cbn in He3. by rewrite He3, <- app_assoc.
  - rewrite bool_decide_eq_false_2 by done. cbn [negb mret stateful_ret].
    destruct (IH fuel c2) as (c3 & Hrun & Ha3 & He3 & Ht3); [done|done|by rewrite He2, He1|lia|].
    exists c3. by rewrite He3, He2, He1.
Qed.

(** ** Fuel *)

Lemma read_line_fuel capacity m n line c : (weight c < m)%nat -> (weight c < n)%nat ->
  read_line m capacity line c = read_line n capacity line c.
Proof.
  revert n line c. induction m as [|m IH]; intros [|n] line c Hm Hn; [lia..|]. cbn [read_line].
  unfold mbind, stateful_bind. destruct (read_line_step capacity line c) as [[[line' []]|e] c1] eqn:Hs; [done| |done].
  apply read_line_step_sound in Hs as (? & _ & _ & _ & _ & Hw & _). apply IH; lia.
Qed.

Lemma reply_step_weight command id deadline c r c' :
  reply_step command id deadline c = (Ok r, c') -> (weight c' < weight c)%nat.
Proof.
  unfold reply_step, mbind, stateful_bind. intros Hrun.
  destruct (wait_until deadline _ c) as [[[]|e] c1] eqn:Hwait; [|done].
  apply (proj1 (wait_until_spec _ _ _)) in Hwait as (_ & _ & _ & _ & Hw).
  destruct (read_json c1) as [[response|e] c2] eqn:Hread; [|done].
  destruct (read_json_sound _ _ _ Hread) as (_ & _ & _ & _ & Hw2). unfold lift in Hrun.
  destruct (qmp_event response) as [[event|]|e]; [| |done].
  - unfold push_event in Hrun. destruct (enqueue_event _ _); [|done]. injection Hrun as _ <-.
    change (weight c2 < weight c)%nat. lia.
  - destruct (negb _); [injection Hrun as _ <-; lia|].
    destruct (get response "error"); [done|]. injection Hrun as _ <-. lia.
Qed.

Lemma await_reply_fuel command id deadline m n c : (weight c < m)%nat -> (weight c < n)%nat ->
  await_reply m command id deadline c = await_reply n command id deadline c.
Proof.
  revert n c. induction m as [|m IH]; intros [|n] c Hm Hn; [lia..|]. cbn [await_reply].
  unfold mbind, stateful_bind. destruct (reply_step command id deadline c) as [[[v|]|e] c1] eqn:Hs; [done| |done].
  apply reply_step_weight in Hs. apply IH; lia.
Qed.
End reading.

Section execute.
Context `{Allocator, Clock, QmpJson}.

Lemma execute_sound timeout command arguments c v c' :
  execute timeout command arguments c = (Ok v, c') -> exists id inn evs,
     next_id c = Some id /\ next_id c' = checked_add 64 id 1 /\
     sent (socket c') = sent (socket c) ++ request command id arguments /\
     replies id inn evs v /\ ahead c = inn ++ ahead c' /\ events c' = events c ++ evs /\
     (zlen (events c) <= EVENT_QUEUE_CAPACITY -> zlen (events c') <= EVENT_QUEUE_CAPACITY).
Proof.
  intros Hrun. unfold execute, deadline_in in Hrun. pose proof (instant_now_spec (socket c)) as Hnow.
  destruct (instant_now (socket c)) as [n s1]. destruct Hnow as (Hi & Hs & _).
  unfold send_request, mbind, stateful_bind, take_request_id in Hrun. cbn [set_socket next_id] in Hrun.
  destruct (next_id c) as [id|] eqn:Hid; [|done]. unfold on_socket at 1, write_all in Hrun. cbn [socket set_socket] in Hrun.
  destruct (from_option _ None (head (write_faults s1))) as [[? ?]|]; [done|].
  cbn [map_err] in Hrun. unfold await_replies in Hrun.
  destruct (await_reply_sound _ _ _ _ _ _ _ Hrun) as (inn & evs & Hr & Ha & He & Hsent & Hn & Hl).
  exists id, inn, evs. unfold ahead in *. cbn in *. rewrite <- Hs, <- Hi. done.
Qed.

Lemma execute_complete timeout command arguments c id inn evs v rest :
  0 < timeout -> ample -> calm (socket c) -> next_id c = Some id -> replies id inn evs v ->
  ahead c = inn ++ rest -> zlen (events c ++ evs) <= EVENT_QUEUE_CAPACITY ->
  exists c', execute timeout command arguments c = (Ok v, c') /\ ahead c' = rest /\
    events c' = events c ++ evs /\ sent (socket c') = sent (socket c) ++ request command id arguments /\
    next_id c' = checked_add 64 id 1 /\ calm (socket c').
Proof.
  intros Htimeout Ha (Hw & Ho & Ht & _) Hid Hr Hin Hcap. unfold execute, deadline_in.
  pose proof (instant_now_spec (socket c)) as Hnow.
  destruct (instant_now (socket c)) as [n s1]. destruct Hnow as (Hi & Hs & Hw1 & Ho1 & Hn1 & Hclock).
  destruct (Hclock Ht) as [-> Ht1].
  unfold send_request, mbind, stateful_bind, take_request_id. cbn [set_socket next_id]. rewrite Hid.
  unfold on_socket at 1, write_all. cbn [socket set_socket].
  assert (Hhead : from_option (fun f => f) None (head (write_faults s1)) = None).
  { rewrite Hw1. destruct (write_faults (socket c)); [done|]. by apply Forall_cons in Hw as [-> _]. }
  rewrite Hhead. cbn [map_err]. unfold await_replies.
  match goal with |- context [await_reply _ command id ?d ?k] =>
    destruct (await_reply_complete (rounds k) command id d k inn evs v rest Ha Hr)
      as (c2 & Hrun & Ha2 & He2 & Hcalm) end.
  + unfold timely. cbn. rewrite Ho1, Hw1. split; [destruct (write_faults (socket c)); [done|]; by apply Forall_cons in Hw as [_ ?]|].
    repeat split; try done. destruct (Z.leb_spec (now (socket c) + timeout) last_instant); [lia|done].
  + unfold ahead in *. cbn. by rewrite Hi.
  + done.
  + apply weight_rounds.
  + exists c2. split; [exact Hrun|]. split; [done|]. split; [done|].
  destruct (await_reply_sound _ _ _ _ _ _ _ Hrun) as (_ & _ & _ & _ & _ & Hsent & Hn & _).
  rewrite Hsent, Hn. cbn. rewrite Hs. split; [done|]. split; [done|].
  by destruct Hcalm as (? & ? & ? & _).
Qed.
End execute.

(** C37: a QMP command returns its own reply and loses no event.  If it
    returns a value, the client has drawn the next identifier, sent exactly
    the request line with it, and taken from the peer whole messages of
    which the last alone has that identifier and is neither an event nor an
    error, and the value is what it returns; the events among them were
    appended to the queue in order, which stays within its capacity.  A
    peer that sends such messages before the deadline makes it return that
    value.  Its loops end: no run takes more rounds than bytes and events
    are to come. *)
Theorem qmp_execute_exact `{Allocator, Clock, QmpJson} (timeout : Z) (command : string)
    (arguments : option Value) (Htimeout : 0 < timeout) :
  (forall c v c', execute timeout command arguments c = (Ok v, c') -> exists id inn evs,
     next_id c = Some id /\ next_id c' = checked_add 64 id 1 /\
     sent (socket c') = sent (socket c) ++ request command id arguments /\
     replies id inn evs v /\ ahead c = inn ++ ahead c' /\ events c' = events c ++ evs /\
     (zlen (events c) <= EVENT_QUEUE_CAPACITY -> zlen (events c') <= EVENT_QUEUE_CAPACITY)) /\
  (ample -> forall c id inn evs v rest, calm (socket c) -> next_id c = Some id -> replies id inn evs v ->
     ahead c = inn ++ rest -> zlen (events c ++ evs) <= EVENT_QUEUE_CAPACITY ->
     exists c', execute timeout command arguments c = (Ok v, c') /\ ahead c' = rest /\
       events c' = events c ++ evs) /\
  (forall id deadline capacity line c fuel, (rounds c <= fuel)%nat ->
     await_reply fuel command id deadline c = await_reply (rounds c) command id deadline c /\
     read_line fuel capacity line c = read_line (rounds c) capacity line c).
Proof.
  split; [|split].
  - apply execute_sound.
  - intros Ha c id inn evs v rest Hcalm Hid Hr Hin Hcap.
    destruct (execute_complete timeout command arguments c id inn evs v rest) as (c' & ? & ? & ? & _); try done.
    by exists c'.
  - intros id deadline capacity line c fuel Hfuel. pose proof (weight_rounds c).
    split; [apply await_reply_fuel|apply read_line_fuel]; lia.
Qed.

(** Messages for the examples: [E] is an event, [R] and a byte a reply to the
    request of that number. *)
Definition example_qmp_saying (said : string) : QmpJson := {|
  qmp_serde := example_json;
  from_slice := fun bytes =>
    match bytes with
    | [x45; x0a] => Ok (EObject [("event"%string, EText "STOP")])
    | [x52; n; x0a] => Ok (EObject [("id"%string, ENumber (Byte.to_N n)); ("return"%string, EText said)])
    | _ => Err "expected value"%string
    end;
  to_string := fun _ => "request"%string;
  null_value := ENumber 0;
  bool_value := fun _ => ENumber 0;
  u64_value := fun n => ENumber (Z.to_N n);
  string_value := EText;
  object_value := EObject;
|}.

Definition example_qmp : QmpJson := example_qmp_saying "done".

Definition example_client (input : list socket_event) : t := mk (MkSocket input [] [] [] 0 []) [] (Some 1) [].

Lemma qmp_execute_exact_witness :
  exists c', @execute ample_allocator {| last_instant := 2 ^ 62 |} example_qmp 1000 "stop" None
      (example_client [Delivered [x52; x07; x0a; x45]; Delivered [x0a; x52; x01; x0a]]) = (Ok (EText "done"), c') /\
    events c' = [MkVmiEvent "STOP" None None].
Proof.
  destruct (@qmp_execute_exact ample_allocator {| last_instant := 2 ^ 62 |} example_qmp 1000 "stop" None
    ltac:(lia)) as (_ & Hc & _).
  assert (Hline : forall l, bool_decide (last l = Some x0a /\ x0a ∉ removelast l) = true -> is_line l).
  { intros l Hl. apply bool_decide_eq_true in Hl as [Hlast Hin]. exists (removelast l). split; [|done].
    apply last_Some in Hlast as [l' ->]. by rewrite removelast_last. }
  assert (Hmsg : forall l v, bool_decide (last l = Some x0a /\ x0a ∉ removelast l) = true ->
    zlen l <= QMP_MESSAGE_CAPACITY -> @from_slice example_qmp l = Ok v -> @message example_qmp l v)
    by (intros l v Hl ? ?; split; [by apply Hline|done]).
  destruct (Hc ample_ample (example_client [Delivered [x52; x07; x0a; x45]; Delivered [x0a; x52; x01; x0a]]) 1
    ([x52; x07; x0a] ++ [x45; x0a] ++ [x52; x01; x0a]) [MkVmiEvent "STOP" None None] (EText "done") [])
    as (c' & Hrun & _ & He).
  - repeat split; constructor.
  - done.
  - eapply (@replies_other ample_allocator example_qmp); [by apply Hmsg|done|done|].
    eapply (@replies_event ample_allocator example_qmp); [by apply Hmsg|done|].
    change (EText "done") with (@take_qmp_return example_qmp (EObject [("id"%string, ENumber 1); ("return"%string, EText "done")])).
    apply (@replies_here ample_allocator example_qmp); [by apply Hmsg|done..].
  - done.
  - vm_compute. discriminate.
  - exists c'. split; [exact Hrun|exact He].
Defined.

(** ** A message cut by a timeout *)

Section cut.
Context `{Allocator, Clock, QmpJson}.

Lemma line_length_None bytes : x0a ∉ bytes -> line_length bytes = None.
Proof.
  induction bytes as [|b bytes IH]; [done|]. rewrite elem_of_cons. intros Hb. cbn.
  rewrite bool_decide_eq_false_2 by (intros ->; tauto). by rewrite IH by tauto.
Qed.

Lemma read_json_cut c front error rest : ample -> buffered c = [] ->
  incoming (socket c) = Delivered front :: TimesOut error :: rest -> front <> [] -> (x0a ∉ front) ->
  zlen front <= 8192 -> read_json c = (Err (VmiError.Timeout "QMP read"), moved c rest []).
Proof.
  intros Ha Hb Hin Hne Hfront Hlen. unfold zlen in Hlen.
  unfold read_json, read_json_with_capacity, mbind, stateful_bind.
  assert (Hround : exists k, rounds c = S (S k)) by (unfold rounds; rewrite Hin; cbn; eauto).
  destruct Hround as [k ->]. cbn [read_line]. unfold mbind, stateful_bind.
  unfold read_line_step at 1, mbind, stateful_bind. unfold fill_buf at 1. rewrite bool_decide_eq_true_2, Hin by done.
  cbn [read]. rewrite take_ge, drop_ge by lia. rewrite bool_decide_eq_false_2 by done.
  rewrite line_length_None by done. cbn [from_option]. unfold lift, zlen.
  rewrite checked_add_fits by (cbn [length]; lia). cbn [ok_or].
  destruct (Z.ltb_spec QMP_MESSAGE_CAPACITY (Z.of_nat (length (@nil byte)) + Z.of_nat (length front)));
    [unfold QMP_MESSAGE_CAPACITY in *; cbn [length] in *; lia|].
  rewrite reserve_ample by (done || (unfold isize_max; cbn [length]; lia)). cbn [map_err].
  unfold consume. cbn [mret stateful_ret]. rewrite (take_ge front) by lia.
  rewrite bool_decide_eq_false_2.
  2: { intros Hlast. apply Hfront. apply last_Some in Hlast as [l ->]. rewrite elem_of_app. right. by apply list_elem_of_singleton. }
  unfold read_line_step at 1, mbind, stateful_bind. unfold fill_buf at 1. cbn [buffered set_socket].
  rewrite drop_ge by lia. rewrite bool_decide_eq_true_2 by done. done.
Qed.

Lemma read_json_bad c line rest text : ample -> ahead c = line ++ rest -> is_line line ->
  zlen line <= QMP_MESSAGE_CAPACITY -> from_slice line = Err text ->
  exists c', read_json c = (Err (Backend ("invalid QMP JSON: " +:+ text)), c').
Proof.
  intros Ha Hin Hline Hcap Hbad. unfold read_json, read_json_with_capacity, mbind, stateful_bind.
  destruct (read_line_complete (rounds c) QMP_MESSAGE_CAPACITY [] c line rest) as (c' & Hrun & _);
    try done; [apply weight_rounds|]. rewrite Hrun. cbn [app]. unfold lift. rewrite Hbad. by exists c'.
Qed.

(** On a calm socket a call of [next_event] with an empty queue reads a
    message, from a client that only the clock's reading may have changed. *)
Lemma next_event_calm timeout c : 0 < timeout -> now (socket c) + timeout <= last_instant ->
  calm (socket c) -> events c = [] ->
  exists s d k, incoming s = incoming (socket c) /\ calm s /\ now s = now (socket c) /\
    next_event timeout c = match read_json (set_socket c s (buffered c)) with
      | (Ok value, c') => match qmp_event value with
                          | Err e => (Err e, c')
                          | Ok (Some event) => (Ok (Some event), c')
                          | Ok None => await_event k d c'
                          end
      | (Err e, c') => if is_read_timeout e then (Ok None, c') else (Err e, c')
      end.
Proof.
  intros Ht Hlast (Hw & Ho & Htk & _) He. unfold next_event. rewrite He.
  destruct (Z.eqb_spec timeout 0); [lia|]. unfold deadline_in.
  pose proof (instant_now_spec (socket c)) as Hnow. destruct (instant_now (socket c)) as [n1 s1].
  destruct Hnow as (Hi & Hs & Hw1 & Ho1 & Hn1 & Hclock). destruct (Hclock Htk) as [-> Htk1].
  destruct (Z.leb_spec (now (socket c) + timeout) last_instant); [|lia].
  unfold rounds. cbn [await_event]. unfold mbind, stateful_bind. unfold event_step at 1, clock_now. cbn [socket set_socket].
  pose proof (instant_now_spec s1) as Hnow. destruct (instant_now s1) as [n2 s2].
  destruct Hnow as (Hi2 & Hs2 & Hw2 & Ho2 & Hn2 & Hclock2). destruct (Hclock2 Htk1) as [-> Htk2].
  destruct (Z.leb_spec (now (socket c) + timeout) (now s1)); [lia|].
  unfold on_socket at 1, set_read_timeout. cbn [socket set_socket].
  destruct (Z.eqb_spec (bounded_socket_timeout (now (socket c) + timeout - now s1)) 0) as [Ez|_];
    [exfalso; revert Ez; unfold bounded_socket_timeout, MAX_SOCKET_WAIT; lia|].
  assert (Hhead : from_option (fun f => f) None (head (option_faults s2)) = None).
  { rewrite Ho2, Ho1. destruct (option_faults (socket c)); [done|]. by apply Forall_cons in Ho as [-> _]. }
  rewrite Hhead. cbn [map_err].
  exists (MkSocket (incoming s2) (sent s2) (write_faults s2) (tail (option_faults s2)) (now s2) (ticks s2)),
    (Some (now (socket c) + timeout)), (length (buffered c) + input_weight (incoming s1))%nat.
  split; [cbn; by rewrite Hi2, Hi|]. split; [|split; [cbn; by rewrite Hn2|]].
  - unfold calm, timely. cbn. rewrite Hw2, Hw1. repeat split; try done. rewrite Ho2, Ho1.
    destruct (option_faults (socket c)); [done|]. by apply Forall_cons in Ho as [_ ?].
  - unfold set_socket at 2. cbn [buffered next_id events set_socket].
    destruct (read_json _) as [[value|e] c']; [by destruct (qmp_event value) as [[]|]|by destruct (is_read_timeout e)].
Qed.
End cut.

(** C40: a timeout in the middle of a message loses it and breaks the next
    one.  When a peer has delivered the front of a line as a wait for an
    event times out, the wait reports no event and forgets that front; the
    rest of the line is then taken for a message, and the next wait fails
    with the parser's error instead of delivering the event. *)
Theorem qmp_timeout_drops_partial_message `{Allocator, Clock, QmpJson} (timeout : Z) (c : t)
    (front back : list byte) (error text : string) (Hample : ample)
    (Htimeout : 0 < timeout) (Hlast : now (socket c) + timeout <= last_instant)
    (Hcalm : calm (socket c)) (Hevents : events c = []) (Hbuffer : buffered c = [])
    (Hin : incoming (socket c) = [Delivered front; TimesOut error; Delivered back])
    (Hfront : front <> [] /\ (x0a ∉ front) /\ zlen front <= 8192)
    (Hback : is_line back /\ zlen back <= QMP_MESSAGE_CAPACITY /\ from_slice back = Err text) :
  exists c', next_event timeout c = (Ok None, c') /\
    fst (next_event timeout c') = Err (Backend ("invalid QMP JSON: " +:+ text)).
Proof.
  destruct (next_event_calm timeout c Htimeout Hlast Hcalm Hevents) as (s & d & k & Hi & Hs & Hn & ->).
  destruct Hfront as (Hne & Hf & Hl). destruct Hback as (Hline & Hcap & Hbad).
  rewrite (read_json_cut _ front error [Delivered back]) by (done || (cbn; by rewrite ?Hi)).
  cbn [is_read_timeout]. rewrite bool_decide_eq_true_2 by done. eexists. split; [reflexivity|].
  match goal with |- fst (next_event _ ?k) = _ => set (c1 := k) end.
  destruct (next_event_calm timeout c1 Htimeout) as (s1 & d1 & k1 & Hi1 & _ & _ & ->);
    [subst c1; cbn; lia|exact Hs|done|].
  destruct (read_json_bad (set_socket c1 s1 (buffered c1)) back [] text) as (c2 & ->); try done.
  unfold ahead. cbn. rewrite Hi1. cbn. by destruct back.
Qed.

Lemma qmp_timeout_drops_partial_message_witness :
  exists c', @next_event ample_allocator {| last_instant := 2 ^ 62 |} example_qmp 1000
      (example_client [Delivered [x45]; TimesOut "timed out"; Delivered [x0a]]) = (Ok None, c') /\
    fst (@next_event ample_allocator {| last_instant := 2 ^ 62 |} example_qmp 1000 c')
      = Err (Backend "invalid QMP JSON: expected value").
Proof.
  apply (@qmp_timeout_drops_partial_message ample_allocator {| last_instant := 2 ^ 62 |} example_qmp 1000 _
    [x45] [x0a] "timed out" "expected value" ample_ample); try (vm_compute; (reflexivity || discriminate)).
  - repeat split; constructor.
  - split; [done|]. split; [|vm_compute; discriminate]. apply (bool_decide_unpack _). vm_compute. reflexivity.
  - split; [exists []; split; [done|apply not_elem_of_nil]|]. split; [vm_compute; discriminate|reflexivity].
Defined.
