(* ===== verification/Live.v ===== *)
(** * What the live providers share

    The small functions that [crates/vmi-driver-virtualbox], [-xen], [-qemu]
    and [-libvirt] each have a copy of: owned texts, names that may be given
    to a command, the attach gate. *)

From S2P Require Import Prelude.
From S2P Require Import Types.
From S2P Require Import Text.
From S2P Require Import Host.
From S2P Require Import HostFs.
From S2P Require Import Sequence.
From S2P Require Import Publication.
From S2P Require Import Artifact.

Section live.
Context `{Allocator, Bitflags}.

Definition try_owned_text (value description : string) : Result string :=
  let? _ := allocate description (slen value) in Ok value.

(** Names that a command line or a monitor takes as one operand. *)
Definition has_control (text : string) : bool := existsb is_control (chars text).

Definition plain_operand (text : string) : bool :=
  negb (bool_decide (text = ""%string)) && negb (starts_with (bytes_of_string text) [x2d]) &&
  negb (has_control text).

Definition validate_target_name (target description : string) : Result unit :=
  if plain_operand target then Ok tt else Err (Backend ("invalid " +:+ description +:+ " target name")).

(** [register.is_empty() || !register.chars().all(is_ascii_alphanumeric)],
    negated. *)
Definition is_register_name (register : string) : bool :=
  negb (bool_decide (register = ""%string)) && forallb is_ascii_alphanumeric (chars register).

Definition try_decimal_u32 (value : Z) (description : string) : Result string :=
  let? _ := allocate description 10 in Ok (dec value).

(** The copies of the arguments a command is given. *)
Definition owned_arguments (vendor : string) (arguments : list string) : Result (list string) :=
  let? _ := allocate (vendor +:+ " arguments") (zlen arguments) in
  let fix go (rest : list string) : Result (list string) :=
    match rest with
    | [] => Ok []
    | argument :: rest =>
        let? _ := allocate (vendor +:+ " argument") (slen argument) in
        let? owned := go rest in
        Ok (argument :: owned)
    end in
  go arguments.

(** A request is refused for the capabilities a provider does not offer,
    then for a target of another name. *)
Definition require_capabilities (provider_id description : string) (required capabilities : Z) : Result unit :=
  let missing := CapabilitySet.difference_of required capabilities in
  if CapabilitySet.is_empty missing then Ok tt
  else
    let? provider := try_owned_text provider_id description in
    Err (VmiError.AttachRejected provider missing).

Definition require_target (kind id : string) (selector : TargetSelector.t) : Result unit :=
  match selector with
  | TargetSelector.Named expected =>
      if bool_decide (expected <> id) then
        Err (Backend (kind +:+ " " +:+ expected +:+ " does not match " +:+ id))
      else Ok tt
  | TargetSelector.Any => Ok tt
  end.
End live.

(** ** Providers that run a command

    A command acts on the world it runs in and on the disk.  Beside them a
    provider has two shared counters, the system's clock (what
    [SystemTime::now] gives, nothing before the epoch), and the faults of the
    file operations to come, a list for each program. *)
Section machine.
Context {W : Type}.

Record Machine : Type := mk_machine {
  disk : Disk;
  world : W;
  core_sequence : Z;
  range_sequence : Z;
  clock : list (option Z);
  faults : list (list (option Fault));
}.

Definition Transport : Type := list string -> Disk -> W -> Result string * Disk * W.

Abbreviation M := (stateful Machine VmiError.t).

(** A program over the disk, to its end. *)
Definition run_files {A} (p : prog (Result A)) : M A :=
  fun m =>
    let '(r, d) := run_prog (from_option (fun fs => fs) [] (head (faults m))) p (disk m) in
    (r, mk_machine d (world m) (core_sequence m) (range_sequence m) (clock m) (tail (faults m))).

Definition run_command (transport : Transport) (arguments : list string) : M string :=
  fun m =>
    let '(r, d, w) := transport arguments (disk m) (world m) in
    (r, mk_machine d w (core_sequence m) (range_sequence m) (clock m) (faults m)).

Definition draw_core (description : string) : M Z :=
  fun m =>
    let '(r, next) := next_sequence description (core_sequence m) in
    (r, mk_machine (disk m) (world m) next (range_sequence m) (clock m) (faults m)).

Definition draw_range (description : string) : M Z :=
  fun m =>
    let '(r, next) := next_sequence description (range_sequence m) in
    (r, mk_machine (disk m) (world m) (core_sequence m) next (clock m) (faults m)).

(** [SystemTime::now().duration_since(UNIX_EPOCH)]. *)
Definition since_epoch : M (option Z) :=
  fun m =>
    (Ok (from_option (fun t => t) None (head (clock m))),
     mk_machine (disk m) (world m) (core_sequence m) (range_sequence m) (tail (clock m)) (faults m)).

Context `{Allocator}.

(** The copies of the arguments, then the command. *)
Definition execute (vendor : string) (transport : Transport) (arguments : list string) : M string :=
  let? owned := lift (owned_arguments vendor arguments) in run_command transport owned.

(** [try_with_extension]. *)
Definition try_with_extension (destination : Path) (extension description : string) : Result Path :=
  let? capacity := joined_capacity (path_display destination) extension (description +:+ " path length overflow") in
  let? _ := allocate (description +:+ " path") capacity in
  Ok (set_extension destination extension).

(** [temporary_core_path]. *)
Definition temporary_core_path (vendor : string) (process_id : Z) (destination : Path) : M Path :=
  let? since := since_epoch in
  let nonce := from_option (fun n => n) 0 since in
  let? sequence := draw_core (vendor +:+ " temporary core") in
  let? _ := lift (allocate (vendor +:+ " core extension") 73) in
  lift (try_with_extension destination
    ("vmi-" +:+ dec process_id +:+ "-" +:+ dec nonce +:+ "-" +:+ dec sequence +:+ ".core")
    (vendor +:+ " temporary core")).

(** [publish_range], drawing its number when the path has a file name and
    nothing is there. *)
Definition publish_range_file (vendor : string) (process_id : Z) (path : Path) (bytes : list byte) : M unit :=
  fun m =>
    let fs := from_option (fun fs => fs) [] (head (faults m)) in
    let drawn :=
      match fst (run_op (from_option (fun f => f) None (head fs)) (Exists path) (disk m)), file_name path with
      | false, Some _ => next_sequence (vendor +:+ " range publication") (range_sequence m)
      | _, _ => (Ok 0, range_sequence m)
      end in
    let '(r, d) := run_prog fs (publish_range vendor process_id (fst drawn) path bytes) (disk m) in
    (r, mk_machine d (world m) (core_sequence m) (snd drawn) (clock m) (tail (faults m))).

(** Reading a range out of a core on the disk. *)
Definition read_core (load : FileSystem -> string -> Result SnapshotBundle.t) (core : Path) (start : Gpa.t)
    (buffer : list byte) (d : Disk) : Result unit * list byte :=
  match load (disk_files d) (path_display core) with
  | Err e => (Err e, buffer)
  | Ok bundle => SnapshotBundle.read_into bundle start buffer
  end.

(** The closure of [save_physical_range]: load the core, allocate, read,
    publish. *)
Definition extract_range (vendor : string) (process_id : Z)
    (load : FileSystem -> string -> Result SnapshotBundle.t) (core path : Path) (start : Gpa.t) (length : Z)
    : M unit :=
  fun m =>
    match
      (let? bundle := load (disk_files (disk m)) (path_display core) in
       let? _ := map_err (fun error =>
           Backend ("failed to allocate " +:+ dec length +:+ "-byte " +:+ vendor +:+ " acquisition buffer: " +:+ error))
         (try_reserve (vendor +:+ " acquisition buffer") length) in
       match SnapshotBundle.read_into bundle start (replicate (Z.to_nat length) x00) with
       | (Ok _, bytes) => Ok bytes
       | (Err e, _) => Err e
       end)
    with
    | Err e => (Err e, m)
    | Ok bytes => publish_range_file vendor process_id path bytes m
    end.

(** Whatever came of it, the core is removed. *)
Definition extract_and_finish (vendor : string) (process_id : Z)
    (load : FileSystem -> string -> Result SnapshotBundle.t) (core path : Path) (start : Gpa.t) (length : Z)
    : M unit :=
  fun m =>
    let '(result, m) := extract_range vendor process_id load core path start length m in
    run_files (finish_temporary_core vendor core result) m.

(** [save_physical_range] of the VirtualBox and Xen providers, given how a
    core is dumped and loaded. *)
Definition save_range_via_core (vendor : string) (process_id : Z) (dump : Path -> M unit)
    (load : FileSystem -> string -> Result SnapshotBundle.t) (path : Path) (start : Gpa.t) (length : Z) : M unit :=
  if length =? 0 then fail (Backend (vendor +:+ " acquisition length must be non-zero"))
  else
    let? _ := lift (ok_or (checked_add 64 (Gpa.raw start) length)
      (Backend (vendor +:+ " acquisition physical range overflows"))) in
    let? length := lift (ok_or (try_width 64 length) (Backend ("requested " +:+ vendor +:+ " range is too large"))) in
    let? core := temporary_core_path vendor process_id path in
    let? _ := dump core in
    extract_and_finish vendor process_id load core path start length.
End machine.
Arguments Machine W : clear implicits.
Arguments Transport W : clear implicits.
