(* ===== verification/Qemu.v ===== *)
(** * The QEMU provider ([crates/vmi-driver-qemu])

    Its connector and session over the QMP and GDB clients: memory through
    the monitor's [xp], registers through GDB or [info registers], control,
    events and acquisition through QMP. *)

From S2P Require Import Prelude.
From S2P Require Import Types.
From S2P Require Import DriverApi.
From S2P Require Import Text.
From S2P Require Import Host.
From S2P Require Import HostFs.
From S2P Require Import Publication.
From S2P Require Import Socket.
From S2P Require Import Gdb.
From S2P Require Import Qmp.
From S2P Require Import Live.

(** ** Monitor output *)

Section parsing.
Context `{Allocator}.

(** The value of one token of a memory dump. *)
Definition hmp_byte (token : string) : option Z :=
  let token := trim_end_matches x2c token in
  match (match strip_prefix "0x" token with Some hex => Some hex | None => strip_prefix "0X" token end) with
  | None => None
  | Some hex =>
      if negb (String.length hex =? 2)%nat then None
      else match ParseInt.from_str_radix 8 16 hex with Ok v => Some v | Err _ => None end
  end.

(** The tokens of a line, each a byte more. *)
Fixpoint hmp_tokens (failed : VmiError.t) (expected : Z) (tokens : list string) (bytes : list byte)
    : Result (list byte) :=
  match tokens with
  | [] => Ok bytes
  | token :: rest =>
      match hmp_byte token with
      | None => Err failed
      | Some v =>
          if zlen bytes =? expected then Err failed
          else hmp_tokens failed expected rest (bytes ++ [byte_of v])
      end
  end.

Fixpoint hmp_lines (failed : VmiError.t) (expected : Z) (lines : list string) (bytes : list byte)
    : Result (list byte) :=
  match lines with
  | [] => Ok bytes
  | line :: rest =>
      if bool_decide (trim line = ""%string) then hmp_lines failed expected rest bytes
      else
        let? ' (_, values) := ok_or (split_once x3a line) failed in
        let? bytes := hmp_tokens failed expected (split_whitespace values) bytes in
        hmp_lines failed expected rest bytes
  end.

Definition parse_hmp_memory (text : string) (address expected : Z) : Result (list byte) :=
  let? _ := allocate "QEMU memory response" expected in
  let failed := VmiError.ReadFailed address expected in
  let? bytes := hmp_lines failed expected (lines text) [] in
  if zlen bytes =? expected then Ok bytes else Err failed.

Definition hmp_aliases (register : string) : list string :=
  if bool_decide (register = "RIP"%string) then ["RIP"; "EIP"]%string
  else if bool_decide (register = "RFLAGS"%string) then ["RFLAGS"; "EFLAGS"; "EFL"]%string
  else [register].

(** The first token [name=value] of an alias with a value that parses. *)
Definition hmp_register_token (register token : string) : option Z :=
  match split_once x3d token with
  | None => None
  | Some (name, value) =>
      if existsb (eq_ignore_ascii_case name) (hmp_aliases register) then
        match ParseInt.from_str_radix 64 16 (strip_hex_prefix value) with Ok v => Some v | Err _ => None end
      else None
  end.

Fixpoint find_map {A B} (f : A -> option B) (l : list A) : option B :=
  match l with
  | [] => None
  | a :: rest => match f a with Some b => Some b | None => find_map f rest end
  end.

Definition parse_hmp_register (text register : string) : option Z :=
  find_map (hmp_register_token register) (split_whitespace text).
End parsing.

(** How a string is printed with [{:?}], whose table of printable characters
    is not modelled. *)
Class StrDebug := { str_debug : string -> string }.

Section names.
Context `{Allocator, StrDebug}.

Definition register_name (register : string) : Result string :=
  if negb (is_register_name register) then Err (Backend ("invalid register name " +:+ str_debug register))
  else
    let? _ := allocate "normalized register name" (slen register) in
    Ok (string_of_bytes (upper_byte <$> bytes_of_string register)).

(** ** Monitor paths *)

(** [try_escape_monitor_path]: backslashes and quotes are escaped. *)
Definition is_escaped (b : byte) : bool := bool_decide (b = x5c) || bool_decide (b = x22).

Definition try_escape_monitor_path (path : string) : Result string :=
  let bytes := bytes_of_string path in
  let extra := zlen (List.filter is_escaped bytes) in
  let? capacity := ok_or (checked_add 64 (zlen bytes) extra) (Backend "QEMU monitor path length overflow") in
  let? _ := allocate "escaped QEMU monitor path" capacity in
  Ok (string_of_bytes (flat_map (fun b => if is_escaped b then [x5c; b] else [b]) bytes)).

Definition try_owned_path (path : Path) (description : string) : Result Path :=
  let? _ := allocate (description +:+ " path") (slen (path_display path)) in Ok path.

Definition try_join_path (parent child : Path) (description : string) : Result Path :=
  let? capacity := joined_capacity (path_display parent) (path_display child)
    (description +:+ " path length overflow") in
  let? _ := allocate (description +:+ " path") capacity in
  Ok (join parent child).

(** [Path::to_str]. *)
Definition to_str (path : Path) : option string :=
  match Utf8.from_utf8 (bytes_of_string (path_display path)) with Ok _ => Some (path_display path) | Err _ => None end.

(** [monitor_path], given what [std::env::current_dir] answers. *)
Definition monitor_path (current_dir : result string Path) (path : Path) : Result string :=
  let? resolved :=
    if is_absolute path then try_owned_path path "QEMU acquisition"
    else
      let? current := map_err (fun error => Backend ("failed to resolve QEMU acquisition path: " +:+ error)) current_dir in
      try_join_path current path "QEMU acquisition" in
  let? resolved := ok_or (to_str resolved) (Backend "QEMU acquisition path is not UTF-8") in
  let? _ := allocate "QEMU acquisition path" (slen resolved) in
  let normalized := string_of_bytes
    ((fun b => if bool_decide (b = x5c) then x2f else b) <$> bytes_of_string resolved) in
  if has_control normalized then Err (Backend "QEMU acquisition path contains control characters")
  else Ok normalized.
End names.

(** ** The session *)

Module QemuSession.
Section session.
Context `{Allocator, Clock, QmpJson, StrDebug, Bitflags}.

Record t : Type := mk {
  descriptor : ProviderDescriptor.t;
  target : TargetDescriptor.t;
  timeout : Z;
}.

(** The clients behind their locks, and the disk acquisitions look at, with
    what the system answers about it. *)
Record state : Type := mk_state {
  client : Mutex QmpClient.t;
  gdb : option (Mutex Socket);
  disk : Disk;
  fault : option Fault;
  current_dir : result string Path;
}.

Abbreviation M := (stateful state VmiError.t).

Definition with_client {A} (m : stateful QmpClient.t VmiError.t A) : M A :=
  fun s =>
    match lock (client s) with
    | Err error => (Err (Backend error), s)
    | Ok c =>
        let '(r, c) := m c in
        (r, mk_state (store (client s) c) (gdb s) (disk s) (fault s) (current_dir s))
    end.

Definition with_gdb {A} (g : Mutex Socket) (m : stateful Socket VmiError.t A) : M A :=
  fun s =>
    match lock g with
    | Err error => (Err (Backend error), s)
    | Ok socket =>
        let '(r, socket) := m socket in
        (r, mk_state (client s) (Some (store g socket)) (disk s) (fault s) (current_dir s))
    end.

(** *** Registers *)

(** [read_register], of a normalized name. *)
Definition read_named_register (q : t) (vcpu : Z) (register : string) : M Z :=
  fun s =>
    match gdb s, amd64_register register with
    | Some g, Some (number, width) =>
        with_gdb g (let? _ := GdbClient.select_vcpu (timeout q) vcpu in
                    GdbClient.read_register (timeout q) number width) s
    | _, _ =>
        with_client
          (let? command := lift (try_format_command 14 ("cpu " +:+ dec vcpu) "QEMU CPU selection") in
           let? _ := QmpClient.hmp (timeout q) command in
           let? command := lift (try_owned_text "info registers" "QEMU HMP command") in
           let? response := QmpClient.hmp (timeout q) command in
           let? text := lift (ok_or (as_str response) (Backend "QEMU register response was not text")) in
           match parse_hmp_register text register with
           | Some value => mret value
           | None => fail (Backend ("register " +:+ register +:+ " was not reported for vCPU " +:+ dec vcpu))
           end) s
    end.

Definition read_register (q : t) (vcpu : Z) (register : string) : M Z :=
  let? register := lift (register_name register) in read_named_register q vcpu register.

Definition write_register (q : t) (vcpu : Z) (register : string) (value : Z) : M unit :=
  fun s =>
    match amd64_register register with
    | None =>
        (let? provider := lift (try_owned_text (ProviderDescriptor.id (descriptor q)) "QEMU provider ID") in
         fail (VmiError.UnsupportedOperation provider "GDB register mapping")) s
    | Some (number, width) =>
        match gdb s with
        | None =>
            (let? provider := lift (try_owned_text (ProviderDescriptor.id (descriptor q)) "QEMU provider ID") in
             fail (VmiError.CapabilityMissing provider Capability.RegisterWrite)) s
        | Some g =>
            with_gdb g
              (let? _ := GdbClient.select_vcpu (timeout q) vcpu in
               let? _ := GdbClient.write_register (timeout q) number width value in
               let? actual := GdbClient.read_register (timeout q) number width in
               if negb (actual =? value) then
                 fail (Backend ("GDB register write verification failed: expected " +:+ hex value
                   +:+ ", got " +:+ hex actual))
               else mret tt) s
        end
    end.

(** *** Memory *)

Definition CHUNK_SIZE : nat := 256.

(** [chunks_mut]. *)
Fixpoint chunks_go (fuel : nat) (bytes : list byte) : list (list byte) :=
  match fuel, bytes with
  | S fuel', _ :: _ => take CHUNK_SIZE bytes :: chunks_go fuel' (drop CHUNK_SIZE bytes)
  | _, _ => []
  end.

Definition xp_command (length address : Z) : string := "xp /" +:+ dec length +:+ "bx " +:+ hex address.

(** One chunk of a read. *)
Definition read_chunk (q : t) (address total index length : Z) : M (list byte) :=
  let failed := VmiError.ReadFailed address total in
  let? offset := lift (ok_or (match checked_mul 64 index (Z.of_nat CHUNK_SIZE) with
                              | Some offset => try_width 64 offset
                              | None => None
                              end) failed) in
  let? chunk_address := lift (ok_or (checked_add 64 address offset) failed) in
  let? command := lift (try_format_command 45 (xp_command length chunk_address) "QEMU physical-memory read") in
  let? response := with_client (QmpClient.hmp (timeout q) command) in
  let? text := lift (ok_or (as_str response) (Backend "QEMU physical-memory response was not text")) in
  lift (parse_hmp_memory text chunk_address length).

(** The loop over the chunks: what the buffer holds afterwards, too. *)
Fixpoint read_chunks (q : t) (address total index : Z) (chunks : list (list byte)) (s : state)
    : Result unit * list byte * state :=
  match chunks with
  | [] => (Ok tt, [], s)
  | output :: rest =>
      match read_chunk q address total index (zlen output) s with
      | (Err e, s) => (Err e, output ++ concat rest, s)
      | (Ok bytes, s) =>
          let '(r, more, s) := read_chunks q address total (index + 1) rest s in
          (r, bytes ++ more, s)
      end
  end.

Definition read_into (q : t) (address : Gpa.t) (buffer : list byte) (s : state)
    : Result unit * list byte * state :=
  read_chunks q (Gpa.raw address) (zlen buffer) 0 (chunks_go (length buffer) buffer) s.

(** *** Control and events *)

Definition qmp_state (value : Value) : ExecutionState.t :=
  match (match get value "status" with Some v => as_str v | None => None end) with
  | Some status =>
      if bool_decide (status = "running"%string) then ExecutionState.Running
      else if one_of status ["paused"; "prelaunch"; "suspended"]%string then ExecutionState.Paused
      else if bool_decide (status = "shutdown"%string) then ExecutionState.Shutdown
      else ExecutionState.Unknown
  | None => ExecutionState.Unknown
  end.

Definition execution_state (q : t) : M ExecutionState.t :=
  let? value := with_client (QmpClient.execute (timeout q) "query-status" None) in
  mret (qmp_state value).

Definition pause (q : t) : M unit :=
  let? _ := with_client (QmpClient.execute (timeout q) "stop" None) in mret tt.

Definition resume (q : t) : M unit :=
  let? _ := with_client (QmpClient.execute (timeout q) "cont" None) in mret tt.

Definition next_event (duration : Z) : M (option VmiEvent) := with_client (QmpClient.next_event duration).

(** *** Acquisition *)

(** [monitor_destination]. *)
Definition monitor_destination (path : Path) : M string :=
  fun s =>
    let '(r, d) := run_prog [fault s] (ensure_output_absent path "QEMU acquisition") (disk s) in
    let s := mk_state (client s) (gdb s) d (fault s) (current_dir s) in
    match r with
    | Err e => (Err e, s)
    | Ok _ => (monitor_path (current_dir s) path, s)
    end.

Definition save_physical_range (q : t) (path : string) (start : Gpa.t) (length : Z) : M unit :=
  if length =? 0 then fail (Backend "acquisition length must be non-zero")
  else
    let? _ := lift (ok_or (checked_add 64 (Gpa.raw start) length)
      (Backend "QEMU acquisition physical range overflows")) in
    let? path := monitor_destination (parse_path path) in
    let? escaped_path := lift (try_escape_monitor_path path) in
    let? capacity := lift (ok_or (checked_add 64 (slen escaped_path) 53)
      (Backend "QEMU acquisition command length overflow")) in
    let? command := lift (try_format_command capacity
      ("pmemsave " +:+ dec (Gpa.raw start) +:+ " " +:+ dec length +:+ " " +:+
         string_of_bytes [x22] +:+ escaped_path +:+ string_of_bytes [x22]) "QEMU acquisition") in
    let? _ := with_client (QmpClient.hmp (timeout q) command) in
    mret tt.

Definition save_snapshot (q : t) (path : string) : M unit :=
  let? path := monitor_destination (parse_path path) in
  let? capacity := lift (ok_or (checked_add 64 (slen path) 5) (Backend "QEMU dump protocol length overflow")) in
  let? protocol := lift (try_format_command capacity ("file:" +:+ path) "QEMU dump protocol") in
  let? _ := with_client (QmpClient.execute (timeout q) "dump-guest-memory"
    (Some (object_value [("paging"%string, bool_value false); ("protocol"%string, string_value protocol)]))) in
  mret tt.
End session.
End QemuSession.

(** ** The connector *)

Inductive QmpEndpoint : Type := Tcp (address : string) | Unix (path : Path).

Module QemuConnector.
Record t : Type := mk {
  endpoint : QmpEndpoint;
  gdb_address : option string;
  descriptor : ProviderDescriptor.t;
  timeout : Z;
}.

Section connector.
Context `{Allocator, Clock, QmpJson, StrDebug, Bitflags}.

Definition tcp (address : string) : t :=
  mk (Tcp address) None
    (ProviderDescriptor.new "qemu-qmp" "QEMU QMP" ProviderMaturity.Preview
       (CapabilitySet.from_caps [Capability.MemoryRead; Capability.RegisterRead; Capability.Control;
          Capability.Acquisition; Capability.Events]))
    (10 * 1000000000).

Definition unix (path : Path) : t :=
  let c := tcp "" in mk (Unix path) (gdb_address c) (descriptor c) (timeout c).

Definition with_timeout (c : t) (duration : Z) : Result t :=
  if duration =? 0 then Err (Backend "QMP timeout must be non-zero")
  else Ok (mk (endpoint c) (gdb_address c) (descriptor c) (bounded_socket_timeout duration)).

Definition with_gdb (c : t) (address : string) : t :=
  let d := descriptor c in
  mk (endpoint c) (Some address)
    (ProviderDescriptor.mk (ProviderDescriptor.id d) (ProviderDescriptor.display_name d)
       (ProviderDescriptor.version d) (ProviderDescriptor.maturity d)
       (CapabilitySet.insert_capability (ProviderDescriptor.capabilities d) Capability.RegisterWrite))
    (timeout c).

Definition validate_endpoint_text (value description : string) : Result unit :=
  if bool_decide (value = ""%string) || has_control value then Err (Backend ("invalid " +:+ description))
  else Ok tt.

Definition try_endpoint_text (value description : string) : Result string :=
  let? _ := validate_endpoint_text value description in try_owned_text value description.

Definition try_name (e : QmpEndpoint) : Result string :=
  match e with
  | Tcp address => try_endpoint_text address "QMP TCP target"
  | Unix path =>
      let? rendered := ok_or (to_str path) (Backend "QMP Unix target is not UTF-8") in
      try_endpoint_text rendered "QMP Unix target"
  end.

(** Both timeouts of a connected socket. *)
Definition set_timeouts (duration : Z) (s : Socket) : Result Socket :=
  match GdbClient.io (set_read_timeout duration) s with
  | (Err e, _) => Err e
  | (Ok _, s) =>
      match GdbClient.io (set_read_timeout duration) s with
      | (Err e, _) => Err e
      | (Ok _, s) => Ok s
      end
  end.

(** The clients' own [connect]s, given what connecting the socket answers:
    over TCP or a Unix socket for QMP, over TCP for GDB. *)
Definition connect_qmp (timeout : Z) (dialed : result string Socket) : Result QmpClient.t :=
  let? stream := map_err Backend dialed in
  let? stream := set_timeouts (bounded_socket_timeout timeout) stream in
  let '(initialized, client) := QmpClient.initialize timeout stream in
  let? _ := initialized in
  Ok client.

Definition connect_qmp_unix (timeout : Z) (dialed : result string Socket) : Result QmpClient.t :=
  let? stream := map_err Backend dialed in
  let? stream := set_timeouts (bounded_socket_timeout timeout) stream in
  let '(initialized, client) := QmpClient.initialize timeout stream in
  let? _ := initialized in
  Ok client.

Definition connect_gdb (timeout : Z) (dialed : result string Socket) : Result Socket :=
  let? stream := map_err Backend dialed in
  set_timeouts (bounded_socket_timeout timeout) stream.

(** [connect], given what connecting each socket answers and the disk. *)
Definition connect (c : t) (request : AttachRequest.t) (qmp gdb : result string Socket)
    (disk : Disk) (fault : option Fault) (current_dir : result string Path)
    : Result (QemuSession.t * QemuSession.state) :=
  let? _ := require_capabilities (ProviderDescriptor.id (descriptor c)) "QEMU provider ID"
    (AttachRequest.required_capabilities request) (ProviderDescriptor.capabilities (descriptor c)) in
  let? target := try_name (endpoint c) in
  let? _ :=
    match AttachRequest.selector request with
    | TargetSelector.Named expected =>
        if bool_decide (expected <> target) then Err (Backend ("QMP target " +:+ expected +:+ " not found"))
        else Ok tt
    | TargetSelector.Any => Ok tt
    end in
  let? display_name := try_owned_text target "QMP target display name" in
  let? _ :=
    match gdb_address c with
    | Some address => validate_endpoint_text address "QEMU GDB target"
    | None => Ok tt
    end in
  let? client :=
    match endpoint c with
    | Tcp _ => connect_qmp (timeout c) qmp
    | Unix _ => connect_qmp_unix (timeout c) qmp
    end in
  let? gdb_stream :=
    match gdb_address c with
    | Some _ => let? stream := connect_gdb (timeout c) gdb in Ok (Some (mutex_new stream))
    | None => Ok None
    end in
  Ok (QemuSession.mk (descriptor c)
        (TargetDescriptor.new target (Some display_name) GuestArchitecture.Amd64 ConsistencyMode.LiveBestEffort)
        (timeout c),
      QemuSession.mk_state (mutex_new client) gdb_stream disk fault current_dir).
End connector.
End QemuConnector.
