(* ===== verification/QemuFacts.v ===== *)
(** * What the QEMU provider guarantees ([crates/vmi-driver-qemu])

    Memory dumps of the monitor are read as they were printed; a read of
    physical memory asks for each of its chunks once, in order, and returns
    what the replies print; a register write that succeeds was read back. *)

From S2P Require Import Prelude.
From S2P Require Import Types.
From S2P Require Import DriverApi.
From S2P Require Import Text.
From S2P Require Import TextFacts.
From S2P Require Import AsciiFacts.
From S2P Require Import Host.
From S2P Require Import ArtifactFilesFacts.
From S2P Require Import HostFs.
From S2P Require Import Publication.
From S2P Require Import Socket.
From S2P Require Import Gdb.
From S2P Require Import GdbFacts.
From S2P Require Import Qmp.
From S2P Require Import QmpFacts.
From S2P Require Import Live.
From S2P Require Import Qemu.

Import QemuSession.

(** ** Memory dumps *)

(** What [xp /nbx] prints: rows of a label and bytes as [0x] and two digits. *)
Definition dump_token (b : byte) : list byte :=
  [x30; x78; hex_byte (byte_val b / 16); hex_byte (byte_val b mod 16)].

Definition dump_row (row : list byte * list byte) : list byte :=
  fst row ++ x3a :: flat_map (fun w => x20 :: w) (dump_token <$> snd row).

Definition dump (rows : list (list byte * list byte)) : string :=
  string_of_bytes (concat ((fun row => row ++ [x0d; x0a]) <$> (dump_row <$> rows))).

Definition plain_label (label : list byte) : Prop :=
  label <> [] /\ Forall graphic label /\ (x3a ∉ label).

Lemma nibbles b : 0 <= byte_val b / 16 < 16 /\ 0 <= byte_val b mod 16 < 16.
Proof. pose proof (byte_val_range b). Z.div_mod_to_equations. lia. Qed.

Lemma hex_byte_graphic d : 0 <= d < 16 -> graphic (hex_byte d) /\ hex_byte d <> x2c /\ hex_byte d <> x2b /\ hex_byte d <> x2d.
Proof. intros Hd. pattern (hex_byte d). apply hex_byte_cases; [done|by vm_compute..]. Qed.

Lemma dump_token_graphic b : Forall graphic (dump_token b) /\ dump_token b <> [].
Proof.
  pose proof (nibbles b) as [H1 H2]. split; [|done]. unfold dump_token.
  repeat (apply Forall_cons; split); try (by apply hex_byte_graphic); by vm_compute.
Qed.

Lemma hmp_byte_token b : hmp_byte (string_of_bytes (dump_token b)) = Some (byte_val b).
Proof.
  pose proof (nibbles b) as [H1 H2]. unfold hmp_byte, trim_end_matches. rewrite bytes_of_string_of_bytes.
  unfold dump_token. cbn [reverse rev_append]. unfold reverse. cbn [rev_append drop_byte].
  destruct (hex_byte_graphic _ H2) as (_ & Hc & _ & _). rewrite bool_decide_eq_false_2 by done.
  cbn [rev_append]. unfold strip_prefix. rewrite bytes_of_string_of_bytes.
  set (h := hex_byte (byte_val b / 16)). set (l := hex_byte (byte_val b mod 16)).
  assert (Hpre : starts_with [x30; x78; h; l] (bytes_of_string "0x") = true) by (by apply bool_decide_eq_true_2).
  rewrite Hpre. change (drop (length (bytes_of_string "0x")) [x30; x78; h; l]) with [h; l].
  rewrite <- length_bytes_of_string, bytes_of_string_of_bytes. cbn [length Nat.eqb negb].
  unfold ParseInt.from_str_radix. rewrite bytes_of_string_of_bytes.
  destruct (hex_byte_graphic _ H1) as (_ & _ & Hp & Hm). fold h in Hp, Hm.
  rewrite (bool_decide_eq_false_2 _ Hp), (bool_decide_eq_false_2 _ Hm). cbn [andb ParseInt.digits].
  unfold h, l. rewrite !hex_byte_digit by done.
  pose proof (byte_val_range b) as Hb. pose proof (Z.div_mod (byte_val b) 16 ltac:(lia)).
  unfold checked_mul, checked_add. change (0 * 16 <? 2 ^ 8) with true. cbv iota.
  destruct (Z.ltb_spec (0 * 16 + byte_val b / 16) (2 ^ 8)); [|lia].
  destruct (Z.ltb_spec ((0 * 16 + byte_val b / 16) * 16) (2 ^ 8)); [|lia].
  destruct (Z.ltb_spec ((0 * 16 + byte_val b / 16) * 16 + byte_val b mod 16) (2 ^ 8)); [|lia].
  f_equal. lia.
Qed.

Lemma hmp_tokens_dump failed expected bs acc : zlen acc + zlen bs <= expected ->
  hmp_tokens failed expected (string_of_bytes <$> (dump_token <$> bs)) acc = Ok (acc ++ bs).
Proof.
  revert acc. induction bs as [|b bs IH]; intros acc Hl; cbn [fmap list_fmap hmp_tokens]; [by rewrite app_nil_r|].
  rewrite hmp_byte_token. rewrite zlen_cons in Hl. pose proof (zlen_nonneg bs).
  destruct (Z.eqb_spec (zlen acc) expected); [lia|]. rewrite byte_of_val, IH.
  - by rewrite <- app_assoc.
  - rewrite zlen_app, zlen_cons, zlen_nil. lia.
Qed.

Lemma Forall_dump_row (P : byte -> Prop) label bs : Forall P label -> P x3a -> P x20 ->
  (forall b, graphic b -> P b) -> Forall P (dump_row (label, bs)).
Proof.
  intros Hl Hc Hs Hg. unfold dump_row. cbn [fst snd]. apply Forall_app. split; [done|].
  apply Forall_cons. split; [done|]. induction bs as [|b bs IH]; cbn [fmap list_fmap flat_map]; [constructor|].
  apply Forall_app. split; [|exact IH]. apply Forall_cons. split; [done|].
  eapply Forall_impl; [apply dump_token_graphic|exact Hg].
Qed.

Lemma dump_row_last label bs : exists mid b, dump_row (label, bs) = label ++ mid ++ [b] /\ graphic b.
Proof.
  unfold dump_row. cbn [fst snd]. destruct (decide (bs = [])) as [->|Hne].
  - exists [], x3a. split; [done|by vm_compute].
  - destruct (exists_last Hne) as (init & b & ->). rewrite fmap_app, flat_map_app. cbn.
    exists (x3a :: flat_map (fun w => x20 :: w) (dump_token <$> init) ++ [x20; x30; x78; hex_byte (byte_val b / 16)]),
      (hex_byte (byte_val b mod 16)). split; [cbn; by rewrite <- !app_assoc|]. apply hex_byte_graphic, nibbles.
Qed.

(** A row as the parser's line: not blank, the label up to the colon. *)
Lemma dump_row_line row : plain_label (fst row) ->
  let line := string_of_bytes (dump_row row) in
  trim line = line /\ line <> ""%string /\
  split_once x3a line = Some (string_of_bytes (fst row),
    string_of_bytes (flat_map (fun w => x20 :: w) (dump_token <$> snd row))).
Proof.
  destruct row as [label bs]. cbn [fst snd]. intros (Hne & Hg & Hc).
  assert (Hascii : Forall ascii (dump_row (label, bs))).
  { apply Forall_dump_row; [|by vm_compute|by vm_compute|apply graphic_ascii].
    eapply Forall_impl; [exact Hg|apply graphic_ascii]. }
  split; [|split].
  - destruct (dump_row_last label bs) as (mid & b & Hrow & Hb). rewrite Hrow in Hascii |- *.
    destruct label as [|b1 label]; [done|]. apply Forall_cons in Hg as [Hb1 _].
    rewrite <- app_comm_cons, app_assoc in Hascii |- *. apply trim_graphic; [done|done|].
    apply Forall_cons in Hascii as [_ Ha]. by apply Forall_app in Ha as [? _].
  - destruct label as [|b1 label]; [done|]. unfold dump_row. cbn. done.
  - by apply split_once_spec.
Qed.

Lemma hmp_lines_dump failed expected rows acc :
  Forall (fun row => plain_label (fst row)) rows -> zlen acc + zlen (concat rows.*2) <= expected ->
  hmp_lines failed expected (string_of_bytes <$> (dump_row <$> rows)) acc = Ok (acc ++ concat rows.*2).
Proof.
  intros Hall. revert acc. induction Hall as [|[label bs] rows Hrow _ IH]; intros acc Hl.
  { cbn. by rewrite app_nil_r. }
  cbn [fmap list_fmap hmp_lines concat]. destruct (dump_row_line (label, bs) Hrow) as (Ht & Hne & Hs). cbv zeta in *.
  rewrite Ht, bool_decide_eq_false_2, Hs by done. cbn [ok_or mbind result_bind snd].
  cbn [fmap list_fmap concat snd] in Hl. rewrite zlen_app in Hl. pose proof (zlen_nonneg (concat rows.*2)).
  rewrite split_words. 2: { apply Forall_fmap, Forall_forall. intros b _. apply dump_token_graphic. }
  rewrite hmp_tokens_dump by lia. cbn [mbind result_bind]. rewrite IH by (rewrite zlen_app; lia).
  cbn. by rewrite <- app_assoc.
Qed.

Lemma parse_dump `{Allocator} rows address expected :
  ample -> Forall (fun row => plain_label (fst row)) rows -> zlen (concat rows.*2) = expected ->
  expected <= isize_max -> parse_hmp_memory (dump rows) address expected = Ok (concat rows.*2).
Proof.
  intros Ha Hall <- Hmax. unfold parse_hmp_memory, allocate. rewrite reserve_ample by done.
  cbn [map_err mbind result_bind]. unfold dump. rewrite lines_rows.
  - rewrite hmp_lines_dump by (done || rewrite zlen_nil; lia). cbn [mbind result_bind app].
    by rewrite Z.eqb_refl.
  - apply Forall_fmap, Forall_forall. intros [label bs] Hin. rewrite Forall_forall in Hall.
    destruct (Hall _ Hin) as (_ & Hg & _). cbn [fst] in Hg. split.
    + intros Hnl. assert (HP : Forall (fun b => b <> x0a) (dump_row (label, bs))).
      { apply Forall_dump_row; [|done|done|]; [eapply Forall_impl; [exact Hg|]|];
          intros b Hb ->; revert Hb; by apply (bool_decide_eq_false_1 (graphic _)). }
      rewrite Forall_forall in HP. by apply (HP _ Hnl).
    + destruct (dump_row_last label bs) as (mid & b & -> & Hb). rewrite app_assoc, last_snoc.
      intros [= ->]. revert Hb. by apply (bool_decide_eq_false_1 (graphic _)).
Qed.

(** ** Reads of physical memory *)

Section reading.
Context `{Allocator, Clock, QmpJson, StrDebug, Bitflags}.

(** The request of a chunk. *)
Definition xp_request (id length address : Z) : list byte :=
  QmpClient.request "human-monitor-command" id
    (Some (object_value [("command-line"%string, string_value (xp_command length address))])).

(** A range of [n] bytes at [a], chunk by chunk: what is sent, the messages
    that answer, the events among them, and the bytes the replies say. *)
Inductive served (says : string -> Z -> list byte -> Prop)
    : Z -> Z -> Z -> list byte -> list byte -> list VmiEvent -> list byte -> Prop :=
| served_done a id : served says a 0 id [] [] [] []
| served_chunk a n id chunk text v inn evs out' inn' evs' rest :
    0 < n -> zlen chunk = Z.min (Z.of_nat CHUNK_SIZE) n ->
    replies id inn evs v -> as_str v = Some text -> says text a chunk ->
    served says (a + Z.of_nat CHUNK_SIZE) (n - zlen chunk) (id + 1) out' inn' evs' rest ->
    served says a n id (xp_request id (zlen chunk) a ++ out') (inn ++ inn') (evs ++ evs') (chunk ++ rest).

(** The bytes as the provider parses them, and as the monitor prints them. *)
Definition parsed (text : string) (a : Z) (chunk : list byte) : Prop :=
  parse_hmp_memory text a (zlen chunk) = Ok chunk.
Definition dumped (text : string) (a : Z) (chunk : list byte) : Prop :=
  exists rows, text = dump rows /\ Forall (fun row => plain_label (fst row)) rows /\ concat rows.*2 = chunk.

Lemma lock_Ok {A} (m : Mutex A) a : lock m = Ok a <-> poisoned m = false /\ guarded m = a.
Proof. unfold lock. destruct (poisoned m); split; [done|by intros []|by intros [= ->]|by intros [_ ->]]. Qed.

Lemma read_chunk_sound q a0 total index length s chunk s' c :
  lock (client s) = Ok c -> read_chunk q a0 total index length s = (Ok chunk, s') ->
  let a := a0 + index * Z.of_nat CHUNK_SIZE in
  exists c' id inn evs v text, lock (client s') = Ok c' /\ QmpClient.next_id c = Some id /\
    QmpClient.next_id c' = checked_add 64 id 1 /\ replies id inn evs v /\ as_str v = Some text /\
    parse_hmp_memory text a length = Ok chunk /\ ahead c = inn ++ ahead c' /\
    sent (QmpClient.socket c') = sent (QmpClient.socket c) ++ xp_request id length a /\
    QmpClient.events c' = QmpClient.events c ++ evs.
Proof.
  intros Hlock Hrun a. unfold read_chunk, lift, mbind, stateful_bind in Hrun.
  destruct (ok_or _ _) as [offset|] eqn:Ho; [|done]. apply ok_or_Ok in Ho.
  destruct (checked_mul 64 index _) as [o|] eqn:Hmul; [|done].
  apply checked_mul_Some in Hmul as [-> _]. apply try_width_Some in Ho as [-> _].
  destruct (ok_or (checked_add _ _ _) _) as [chunk_address|] eqn:Ha; [|done].
  apply ok_or_Ok, checked_add_Some in Ha as [-> _]. fold a in Hrun.
  destruct (try_format_command _ _ _) as [command|] eqn:Hf; [|done].
  apply bind_Ok in Hf as (_ & _ & Hf). injection Hf as <-.
  unfold with_client at 1 in Hrun. rewrite Hlock in Hrun.
  destruct (QmpClient.hmp _ _ c) as [[v|e] c'] eqn:Hexec; [|done].
  destruct (execute_sound _ _ _ _ _ _ Hexec) as (id & inn & evs & Hid & Hid' & Hsent & Hr & Hin & Hev & _).
  destruct (as_str v) as [text|] eqn:Htext; cbn [ok_or] in Hrun; [|done]. injection Hrun as Hp <-.
  exists c', id, inn, evs, v, text. apply lock_Ok in Hlock as [Hpois _].
  by rewrite lock_Ok.
Qed.

Lemma chunk_length (bytes : list byte) : zlen (take CHUNK_SIZE bytes) = Z.min (Z.of_nat CHUNK_SIZE) (zlen bytes).
Proof. unfold zlen. rewrite length_take. lia. Qed.

Lemma parse_hmp_memory_length text a n bytes : parse_hmp_memory text a n = Ok bytes -> zlen bytes = n.
Proof.
  unfold parse_hmp_memory. intros Hp. apply bind_Ok in Hp as (_ & _ & Hp). apply bind_Ok in Hp as (bs & _ & Hp).
  destruct (Z.eqb_spec (zlen bs) n); [by injection Hp as <-|done].
Qed.

Lemma read_chunks_sound q a0 total fuel buffer index s bytes s' c :
  (length buffer <= fuel)%nat -> lock (client s) = Ok c ->
  read_chunks q a0 total index (chunks_go fuel buffer) s = (Ok tt, bytes, s') ->
  exists c' out inn evs, lock (client s') = Ok c' /\
    served parsed (a0 + index * Z.of_nat CHUNK_SIZE) (zlen buffer) (from_option (fun i => i) 0 (QmpClient.next_id c)) out inn evs bytes /\
    ahead c = inn ++ ahead c' /\
    sent (QmpClient.socket c') = sent (QmpClient.socket c) ++ out /\
    QmpClient.events c' = QmpClient.events c ++ evs /\ (buffer <> [] -> is_Some (QmpClient.next_id c)).
Proof.
  assert (Hnil : forall index s bytes c, lock (client s) = Ok c -> read_chunks q a0 total index [] s = (Ok tt, bytes, s') ->
    exists c' out inn evs, lock (client s') = Ok c' /\
    served parsed (a0 + index * Z.of_nat CHUNK_SIZE) 0 (from_option (fun i => i) 0 (QmpClient.next_id c)) out inn evs bytes /\
    ahead c = inn ++ ahead c' /\ sent (QmpClient.socket c') = sent (QmpClient.socket c) ++ out /\
    QmpClient.events c' = QmpClient.events c ++ evs /\ (@nil byte <> [] -> is_Some (QmpClient.next_id c))).
  { intros index0 s0 bytes0 c0 Hlock [= <- <-]. exists c0, [], [], []. rewrite !app_nil_r.
    repeat split; [done|apply served_done|done]. }
  revert buffer index s bytes c. induction fuel as [|fuel IH]; intros buffer index s bytes c Hfuel Hlock Hrun;
    (destruct buffer as [|b buffer]; [by eapply Hnil|]); [cbn in Hfuel; lia|].
  cbn [chunks_go read_chunks] in Hrun. set (bs := b :: buffer) in *.
  destruct (read_chunk q a0 total index (zlen (take CHUNK_SIZE bs)) s) as [[chunk|e] s1] eqn:Hchunk; [|done].
  destruct (read_chunk_sound _ _ _ _ _ _ _ _ _ Hlock Hchunk) as
    (c1 & id & inn & evs & v & text & Hlock1 & Hid & Hid1 & Hr & Htext & Hp & Hin & Hsent & Hev).
  destruct (read_chunks q a0 total (index + 1) _ s1) as [[r more] s2] eqn:Hrest. injection Hrun as -> <- <-.
  assert (Hlen : zlen chunk = zlen (take CHUNK_SIZE bs)) by (by apply parse_hmp_memory_length in Hp).
  assert (Hl : (length (drop CHUNK_SIZE bs) <= fuel)%nat)
    by (rewrite length_drop; assert (1 <= CHUNK_SIZE)%nat by (unfold CHUNK_SIZE; lia); subst bs; cbn [length] in *; lia).
  destruct (IH _ _ _ _ _ Hl Hlock1 Hrest)
    as (c2 & out & inn2 & evs2 & Hlock2 & Hserved & Hin2 & Hsent2 & Hev2 & Hnext).
  exists c2, (xp_request id (zlen chunk) (a0 + index * Z.of_nat CHUNK_SIZE) ++ out), (inn ++ inn2), (evs ++ evs2).
  rewrite Hin, Hin2, Hsent2, Hsent, Hev2, Hev, Hlen, <- !app_assoc. repeat split; try done.
  rewrite <- Hlen. rewrite Hid. cbn [from_option].
  apply served_chunk with (text := text) (v := v); [unfold bs; rewrite zlen_cons; pose proof (zlen_nonneg buffer); lia
    |by rewrite Hlen, chunk_length|done|done|by unfold parsed; rewrite Hlen|].
  replace (zlen bs - zlen chunk) with (zlen (drop CHUNK_SIZE bs))
    by (rewrite Hlen; unfold zlen; rewrite length_take, length_drop; lia).
  replace (a0 + index * Z.of_nat CHUNK_SIZE + Z.of_nat CHUNK_SIZE) with (a0 + (index + 1) * Z.of_nat CHUNK_SIZE) by lia.
  destruct (decide (drop CHUNK_SIZE bs = [])) as [E|E].
  - rewrite E in Hserved |- *. inversion Hserved; subst; [constructor|]. rewrite zlen_nil in *. lia.
  - specialize (Hnext E). rewrite Hid1 in Hserved, Hnext. unfold checked_add in *.
    destruct (id + 1 <? 2 ^ 64); [exact Hserved|by destruct Hnext].
Qed.

Lemma read_chunk_complete q a0 total index chunk s c id inn evs v text rest :
  let a := a0 + index * Z.of_nat CHUNK_SIZE in
  ample -> 0 < timeout q -> 0 <= a0 -> 0 <= index -> a < 2 ^ 64 -> zlen chunk <= Z.of_nat CHUNK_SIZE ->
  lock (client s) = Ok c -> calm (QmpClient.socket c) -> QmpClient.next_id c = Some id ->
  replies id inn evs v -> as_str v = Some text -> dumped text a chunk ->
  ahead c = inn ++ rest -> zlen (QmpClient.events c ++ evs) <= EVENT_QUEUE_CAPACITY ->
  exists s' c', read_chunk q a0 total index (zlen chunk) s = (Ok chunk, s') /\ lock (client s') = Ok c' /\
    calm (QmpClient.socket c') /\ QmpClient.next_id c' = checked_add 64 id 1 /\ ahead c' = rest /\
    QmpClient.events c' = QmpClient.events c ++ evs.
Proof.
  intros a Ha Ht H0a H0i Hafit Hlen Hlock Hcalm Hid Hr Htext (rows & -> & Hrows & Hchunk) Hin Hcap.
  unfold read_chunk, lift, mbind, stateful_bind.
  rewrite checked_mul_fits by (unfold a, CHUNK_SIZE in *; lia).
  rewrite try_width_fits by (unfold a, CHUNK_SIZE in *; lia). cbn [ok_or].
  rewrite checked_add_fits by exact Hafit. cbn [ok_or]. fold a.
  unfold try_format_command. rewrite reserve_ample by (done || by vm_compute). cbn [map_err mbind result_bind].
  unfold with_client at 1. rewrite Hlock. unfold QmpClient.hmp.
  destruct (execute_complete (timeout q) "human-monitor-command"
    (Some (object_value [("command-line"%string, string_value (xp_command (zlen chunk) a))]))
    c id inn evs v rest Ht Ha Hcalm Hid Hr Hin Hcap) as (c' & Hrun & Hin' & Hev' & _ & Hid' & Hcalm').
  rewrite Hrun, Htext. cbn [ok_or].
  rewrite parse_dump; [|done|done|by rewrite Hchunk|unfold isize_max, CHUNK_SIZE in *; lia].
  rewrite Hchunk. apply lock_Ok in Hlock as [Hp _].
  eexists _, c'. split; [done|]. rewrite lock_Ok. done.
Qed.

Lemma read_chunks_complete q a0 total a n id out inn evs bytes :
  ample -> 0 < timeout q -> 0 <= a0 -> served dumped a n id out inn evs bytes ->
  forall fuel buffer index s c rest, zlen buffer = n -> a = a0 + index * Z.of_nat CHUNK_SIZE -> 0 <= index ->
  (length buffer <= fuel)%nat -> (0 < n -> a + n <= 2 ^ 64) -> id + n <= 2 ^ 64 ->
  lock (client s) = Ok c -> calm (QmpClient.socket c) -> (0 < n -> QmpClient.next_id c = Some id) ->
  ahead c = inn ++ rest -> zlen (QmpClient.events c ++ evs) <= EVENT_QUEUE_CAPACITY ->
  exists s', read_chunks q a0 total index (chunks_go fuel buffer) s = (Ok tt, bytes, s').
Proof.
  intros Ha Ht Hbase Hserved. induction Hserved as [a id|a n id chunk text v inn evs out' inn' evs' more Hn Hlen Hr Htext Hd Hrest IH];
    intros fuel buffer index s c rest Hbuf Haddr Hindex Hfuel Hfit Hids Hlock Hcalm Hid Hin Hcap.
  { apply zlen_0 in Hbuf as ->. destruct fuel; by exists s. }
  destruct buffer as [|b buffer]; [rewrite zlen_nil in Hbuf; lia|]. destruct fuel as [|fuel]; [cbn in Hfuel; lia|].
  specialize (Hfit Hn). cbn [chunks_go read_chunks]. set (bs := b :: buffer) in *.
  assert (Hc : zlen (take CHUNK_SIZE bs) = zlen chunk) by (by rewrite chunk_length, Hbuf, Hlen).
  assert (Hchunk : zlen chunk <= Z.of_nat CHUNK_SIZE) by lia. assert (Hpos : 0 < zlen chunk) by (unfold CHUNK_SIZE in *; lia).
  rewrite app_assoc in Hcap. rewrite <- app_assoc in Hin. rewrite zlen_app in Hcap. pose proof (zlen_nonneg evs').
  destruct (read_chunk_complete q a0 total index chunk s c id inn evs v text (inn' ++ rest))
    as (s1 & c1 & Hrun & Hlock1 & Hcalm1 & Hid1 & Hin1 & Hev1);
    [done|done|done|done|lia|done|done|done|by apply Hid|done|done|by rewrite <- Haddr|done|lia|].
  rewrite Hc, Hrun.
  assert (Hdrop : zlen (drop CHUNK_SIZE bs) = n - zlen chunk).
  { rewrite <- Hc, <- Hbuf. unfold zlen. rewrite length_take, length_drop. lia. }
  destruct (IH fuel (drop CHUNK_SIZE bs) (index + 1) s1 c1 rest) as (s2 & Hrun2); try done; try lia.
  - rewrite length_drop. assert (1 <= CHUNK_SIZE)%nat by (unfold CHUNK_SIZE; lia). subst bs. cbn [length] in *. lia.
  - intros Hmore. rewrite Hid1. apply checked_add_fits. lia.
  - rewrite Hev1, zlen_app. lia.
  - exists s2. by rewrite Hrun2.
Qed.
End reading.

(** ** Registers *)

Section registers.
Context `{Allocator, Clock}.

(** What a run of the GDB client that succeeded sent and took. *)
Definition spoke (s s' : Socket) (out inn : list byte) : Prop :=
  sent s' = sent s ++ out /\ avail (incoming s) = inn ++ avail (incoming s').

Lemma spoke_trans s1 s2 s3 o1 i1 o2 i2 : spoke s1 s2 o1 i1 -> spoke s2 s3 o2 i2 -> spoke s1 s3 (o1 ++ o2) (i1 ++ i2).
Proof. intros [H1 H2] [H3 H4]. split; [by rewrite H3, H1, app_assoc|by rewrite H2, H4, app_assoc]. Qed.

Lemma command_spoke duration payload s r s' : 0 < duration -> GdbClient.command duration payload s = (Ok r, s') ->
  exists inn, spoke s s' (packet_of payload ++ [x2b]) inn /\ reply r inn.
Proof.
  intros Ht Hrun. destruct (proj1 (command_exchange duration payload Ht) s r s' Hrun) as (out & inn & Hs & Hi & -> & Hr).
  by exists inn.
Qed.

Lemma select_vcpu_spoke duration vcpu s u s' : 0 < duration -> GdbClient.select_vcpu duration vcpu s = (Ok u, s') ->
  exists inn, spoke s s' (packet_of ("Hg" +:+ lower_hex (vcpu + 1)) ++ [x2b]) inn /\ reply "OK" inn.
Proof.
  intros Ht Hrun. unfold GdbClient.select_vcpu, lift, mbind, stateful_bind in Hrun.
  destruct (gdb_thread_id vcpu) as [thread|] eqn:Hthread; [|done].
  unfold gdb_thread_id in Hthread. apply bind_Ok in Hthread as (n & Hn & Hthread).
  apply ok_or_Ok, checked_add_Some in Hn as [-> _]. apply bind_Ok in Hthread as (_ & _ & [= <-]).
  destruct (try_format_command _ _ _) as [text|] eqn:Hf; [|done]. apply bind_Ok in Hf as (_ & _ & [= <-]).
  destruct (GdbClient.command _ _ s) as [[r|e] s1] eqn:Hc; [|done].
  case_bool_decide; [|done]. injection Hrun as _ <-. subst r. by apply command_spoke in Hc.
Qed.

Lemma read_register_spoke duration register width s v s' : 0 < duration ->
  GdbClient.read_register duration register width s = (Ok v, s') ->
  exists inn r, spoke s s' (packet_of ("p" +:+ lower_hex register) ++ [x2b]) inn /\ reply r inn /\
    decode_little_hex r width = Ok v.
Proof.
  intros Ht Hrun. unfold GdbClient.read_register, lift, mbind, stateful_bind in Hrun.
  destruct (try_format_command _ _ _) as [text|] eqn:Hf; [|done]. apply bind_Ok in Hf as (_ & _ & [= <-]).
  destruct (GdbClient.command _ _ s) as [[r|e] s1] eqn:Hc; [|done]. injection Hrun as Hd <-.
  apply command_spoke in Hc as (inn & ? & ?); [|done]. by exists inn, r.
Qed.

Lemma write_register_spoke duration register width value s u s' : 0 < duration -> 0 <= width -> in_u64 value ->
  GdbClient.write_register duration register width value s = (Ok u, s') ->
  exists inn text, encode_little_hex value width = Ok text /\ in_width (8 * width) value /\
    spoke s s' (packet_of ("P" +:+ lower_hex register +:+ "=" +:+ text) ++ [x2b]) inn /\ reply "OK" inn.
Proof.
  intros Ht Hw Hv Hrun. unfold GdbClient.write_register, lift, mbind, stateful_bind in Hrun.
  destruct (ok_or _ _) as [bits|] eqn:Hb; [|done]. apply ok_or_Ok, checked_mul_Some in Hb as [-> _].
  destruct (andb _ _) eqn:Hguard; [done|].
  destruct (encode_little_hex value width) as [text|] eqn:Henc; [|done].
  assert (H8 : width <= 8).
  { unfold encode_little_hex in Henc. by destruct (Z.ltb_spec 8 width). }
  assert (Hfit : in_width (8 * width) value).
  { destruct (Z.ltb_spec width 8).
    - cbn [andb] in Hguard. unfold GdbClient.width_limit in Hguard. rewrite try_width_fits in Hguard by lia.
      destruct (Z.ltb_spec (width * 8) 64); [|lia]. apply Z.leb_gt in Hguard.
      rewrite Z.shiftl_mul_pow2 in Hguard by lia. rewrite Z.mod_small in Hguard.
      + unfold in_width in *. rewrite (Z.mul_comm 8). lia.
      + split; [lia|]. rewrite Z.mul_1_l. apply Z.pow_lt_mono_r; lia.
    - by replace (8 * width) with 64 by lia. }
  destruct (ok_or _ _) as [capacity|]; [|done].
  destruct (try_format_command _ _ _) as [command|] eqn:Hf; [|done]. apply bind_Ok in Hf as (_ & _ & [= <-]).
  destruct (GdbClient.command _ _ s) as [[r|e] s1] eqn:Hc; [|done].
  case_bool_decide; [|done]. injection Hrun as _ <-. subst r.
  apply command_spoke in Hc as (inn & ? & ?); [|done]. by exists inn, text.
Qed.

Lemma amd64_register_width register number width : amd64_register register = Some (number, width) -> 0 <= width <= 8.
Proof.
  unfold amd64_register. intros Hr.
  repeat match type of Hr with (if ?c then _ else _) = _ => destruct c; [injection Hr as <- <-; lia|] end. done.
Qed.
End registers.

(** C36: a read of physical memory asks for its range once and returns what
    the monitor prints.  If it succeeds, the requests sent are [xp] commands
    for consecutive chunks of up to 256 bytes from the address to the end of
    the range, each answered before the next by a reply with its identifier
    that parses to its chunk of the bytes returned, and every event that
    arrived meanwhile is queued.  A monitor that answers each request with a
    dump of its chunk, in rows of any length, makes the read succeed with
    exactly those bytes. *)
Theorem qemu_read_exact `{Allocator, Clock, QmpJson, StrDebug, Bitflags} (q : t) (address : Z)
    (buffer : list byte) (s : state) (c : QmpClient.t)
    (Haddress : 0 <= address) (Htimeout : 0 < timeout q) (Hlock : lock (client s) = Ok c) :
  (forall bytes s', read_into q (Gpa.new address) buffer s = (Ok tt, bytes, s') -> exists c' id out inn evs,
     lock (client s') = Ok c' /\ served parsed address (zlen buffer) id out inn evs bytes /\
     ahead c = inn ++ ahead c' /\ sent (QmpClient.socket c') = sent (QmpClient.socket c) ++ out /\
     QmpClient.events c' = QmpClient.events c ++ evs) /\
  (ample -> forall id out inn evs bytes rest, address + zlen buffer <= 2 ^ 64 -> id + zlen buffer <= 2 ^ 64 ->
     calm (QmpClient.socket c) -> QmpClient.next_id c = Some id ->
     served dumped address (zlen buffer) id out inn evs bytes -> ahead c = inn ++ rest ->
     zlen (QmpClient.events c ++ evs) <= EVENT_QUEUE_CAPACITY ->
     exists s', read_into q (Gpa.new address) buffer s = (Ok tt, bytes, s')).
Proof.
  split.
  - intros bytes s' Hrun.
    destruct (read_chunks_sound q address (zlen buffer) (length buffer) buffer 0 s bytes s' c) as
      (c' & out & inn & evs & Hlock' & Hserved & Hin & Hsent & Hev & _); [done|done|exact Hrun|].
    rewrite Z.mul_0_l, Z.add_0_r in Hserved. by exists c', (from_option (fun i => i) 0 (QmpClient.next_id c)), out, inn, evs.
  - intros Ha id out inn evs bytes rest Hfit Hids Hcalm Hid Hserved Hin Hcap.
    apply (read_chunks_complete q address (zlen buffer) address (zlen buffer) id out inn evs bytes Ha Htimeout Haddress
      Hserved (length buffer) buffer 0 s c rest); try done; lia.
Qed.

(** A monitor that answers the first request with a dump of two bytes. *)
Definition example_dump : list (list byte * list byte) :=
  [(bytes_of_string "0000000000001000", [xde]); (bytes_of_string "0000000000001001", [xad])].

Definition example_session : t :=
  mk (ProviderDescriptor.new "qemu-qmp" "QEMU QMP" ProviderMaturity.Preview 0)
    (TargetDescriptor.new "m" None GuestArchitecture.Amd64 ConsistencyMode.LiveBestEffort) 1000.

Definition example_state (gdb : option (Mutex Socket)) : state :=
  mk_state (mutex_new (example_client [Delivered [x52; x01]; Delivered [x0a]])) gdb
    (MkDisk ∅ ∅ 0 ∅) None (Err ""%string).

Lemma qemu_read_exact_witness :
  exists s', @read_into ample_allocator {| last_instant := 2 ^ 62 |} (example_qmp_saying (dump example_dump))
    example_session (Gpa.new 0x1000) [x00; x00] (example_state None) = (Ok tt, [xde; xad], s').
Proof.
  destruct (@qemu_read_exact ample_allocator {| last_instant := 2 ^ 62 |} (example_qmp_saying (dump example_dump))
    {| str_debug := fun s => s |} bitflags_u64 example_session 0x1000 [x00; x00] (example_state None)
    (example_client [Delivered [x52; x01]; Delivered [x0a]]) ltac:(lia) ltac:(reflexivity) ltac:(reflexivity)) as [_ Hc].
  eapply (Hc ample_ample 1 _ _ [] [xde; xad] []); [vm_compute; discriminate|vm_compute; discriminate| |reflexivity| | |vm_compute; discriminate].
  - repeat split; constructor.
  - eapply served_chunk with (chunk := [xde; xad]) (text := dump example_dump) (inn := [x52; x01; x0a])
      (evs := []) (out' := []) (inn' := []) (evs' := []) (rest := []).
    + done.
    + reflexivity.
    + eapply (@replies_here ample_allocator (example_qmp_saying (dump example_dump)) 1 _
        (EObject [("id"%string, ENumber 1); ("return"%string, EText (dump example_dump))])); try reflexivity.
      split; [|split; [vm_compute; discriminate|reflexivity]].
      exists [x52; x01]. split; [done|]. apply (bool_decide_unpack _). vm_compute. reflexivity.
    + reflexivity.
    + exists example_dump. split; [done|]. split; [|done].
      apply (bool_decide_unpack _). vm_compute. reflexivity.
    + apply served_done.
  - reflexivity.
Defined.

(** C39: a register write that succeeds is verified.  The register is one of
    the map's and the value fits its width; the provider has selected the
    vCPU, written the value and read the register, in three exchanges of
    packets answered in this order, and the text of the last reply decodes
    to the value written. *)
Theorem qemu_register_write_verified `{Allocator, Clock, QmpJson, StrDebug, Bitflags} (q : t) (vcpu : Z)
    (register : string) (value : Z) (s s' : state)
    (Htimeout : 0 < timeout q) (Hvalue : in_u64 value)
    (Hrun : write_register q vcpu register value s = (Ok tt, s')) :
  exists number width g g' text r i1 i2 i3, amd64_register register = Some (number, width) /\
    in_width (8 * width) value /\ encode_little_hex value width = Ok text /\
    option_map guarded (gdb s) = Some g /\ option_map guarded (gdb s') = Some g' /\
    spoke g g'
      ((packet_of ("Hg" +:+ lower_hex (vcpu + 1)) ++ [x2b]) ++
       (packet_of ("P" +:+ lower_hex number +:+ "=" +:+ text) ++ [x2b]) ++
       (packet_of ("p" +:+ lower_hex number) ++ [x2b])) (i1 ++ i2 ++ i3) /\
    reply "OK" i1 /\ reply "OK" i2 /\ reply r i3 /\ decode_little_hex r width = Ok value.
Proof.
  unfold write_register in Hrun. destruct (amd64_register register) as [[number width]|] eqn:Hmap.
  2: { unfold lift, mbind, stateful_bind in Hrun. by destruct (try_owned_text _ _). }
  destruct (gdb s) as [m|]; [|unfold lift, mbind, stateful_bind in Hrun; by destruct (try_owned_text _ _)].
  unfold with_gdb in Hrun. destruct (lock m) as [g|e] eqn:Hlock; [|done]. apply lock_Ok in Hlock as [_ <-].
  unfold mbind, stateful_bind in Hrun.
  destruct (GdbClient.select_vcpu _ _ _) as [[u1|e] g1] eqn:H1'; [|done].
  destruct (GdbClient.write_register _ _ _ _ _) as [[u2|e] g2] eqn:H2'; [|done].
  destruct (GdbClient.read_register _ _ _ _) as [[actual|e] g3] eqn:H3'; [|done].
  destruct (Z.eqb_spec actual value) as [->|]; cbn [negb] in Hrun; [|done]. injection Hrun as <-.
  pose proof (amd64_register_width _ _ _ Hmap) as [Hw0 _].
  apply select_vcpu_spoke in H1' as (i1 & Hs1 & Hr1); [|done].
  apply write_register_spoke in H2' as (i2 & text & Henc & Hfit & Hs2 & Hr2); [|done..].
  apply read_register_spoke in H3' as (i3 & r & Hs3 & Hr3 & Hd); [|done].
  exists number, width, (guarded m), g3, text, r, i1, i2, i3.
  do 5 (split; [done|]). split; [|done]. eapply spoke_trans; [exact Hs1|]. by eapply spoke_trans.
Qed.

(** A stub that selects, writes and returns the register. *)
Definition register_server : Socket :=
  MkSocket [Delivered (bytes_of_string "+$OK#9a"); Delivered (bytes_of_string "+$OK#9a");
            Delivered (bytes_of_string "+$0102000000000000#03")] [] [] [] 0 [].

Lemma qemu_register_write_verified_witness :
  exists s', @write_register ample_allocator {| last_instant := 2 ^ 62 |}
      example_session 0 "RAX" 0x201 (example_state (Some (mutex_new register_server))) = (Ok tt, s') /\
    exists number width, amd64_register "RAX" = Some (number, width) /\ in_width (8 * width) 0x201.
Proof.
  destruct (@write_register ample_allocator {| last_instant := 2 ^ 62 |}
    example_session 0 "RAX" 0x201 (example_state (Some (mutex_new register_server)))) as [r s'] eqn:Hrun.
  assert (Hok : r = Ok tt) by (apply (f_equal fst) in Hrun; vm_compute in Hrun; by rewrite <- Hrun).
  subst r. exists s'. split; [reflexivity|].
  destruct (@qemu_register_write_verified ample_allocator {| last_instant := 2 ^ 62 |} example_qmp
    {| str_debug := fun s => s |} bitflags_u64 example_session 0 "RAX" 0x201
    (example_state (Some (mutex_new register_server))) s' ltac:(reflexivity)
    ltac:(split; [discriminate|reflexivity]) Hrun) as (number & width & _ & _ & _ & _ & _ & _ & _ & Hmap & Hfit & _).
  exists number, width. split; [exact Hmap|exact Hfit].
Defined.
