(* ===== verification/VirtualBox.v ===== *)
(** * The VirtualBox provider ([crates/vmi-driver-virtualbox])

    Its connector and session over the VBoxManage command, which is a
    transport given from outside, as the optional memory transport is. *)

From S2P Require Import Prelude.
From S2P Require Import Types.
From S2P Require Import DriverApi.
From S2P Require Import Text.
From S2P Require Import Host.
From S2P Require Import HostFs.
From S2P Require Import Publication.
From S2P Require Import ArtifactFiles.
From S2P Require Import Live.

(** ** Output of VBoxManage *)

(** [find_map] of the first line that begins with a text. *)
Fixpoint first_suffix (pre : string) (lines : list string) : option string :=
  match lines with
  | [] => None
  | line :: rest => match strip_prefix pre line with Some value => Some value | None => first_suffix pre rest end
  end.

Definition parse_state (output : string) : Result ExecutionState.t :=
  let? value := ok_or (trim_matches x22 <$> first_suffix "VMState=" (lines output))
    (Backend "VBoxManage output lacks VMState") in
  Ok (if bool_decide (value = "running"%string) then ExecutionState.Running
      else if bool_decide (value = "paused"%string) then ExecutionState.Paused
      else if one_of value ["poweroff"; "saved"; "aborted"]%string then ExecutionState.Shutdown
      else ExecutionState.Unknown).

Fixpoint register_line (register : string) (lines : list string) : Result Z :=
  match lines with
  | [] => Err (Backend ("VBoxManage output lacks register " +:+ register))
  | line :: rest =>
      match split_once x3d line with
      | None => register_line register rest
      | Some (name, value) =>
          if eq_ignore_ascii_case (trim name) register then
            let value := trim_matches x22 (trim value) in
            map_err (fun error => Backend ("invalid register value: " +:+ ParseInt.display error))
              (ParseInt.from_str_radix 64 16 (strip_hex_prefix value))
          else register_line register rest
      end
  end.

Definition parse_register (output register : string) : Result Z := register_line register (lines output).

Module VirtualBox.
Section provider.
Context {W : Type} `{Allocator, Bitflags} (process_id : Z).

(** How memory is read directly, when the connector was given a way to. *)
Definition MemoryTransport : Type := Gpa.t -> list byte -> W -> Result unit * list byte * W.

(** The connector and its sessions share these. *)
Record t : Type := mk {
  descriptor : ProviderDescriptor.t;
  target : TargetDescriptor.t;
  transport : Transport W;
  memory : option MemoryTransport;
}.

Abbreviation M := (stateful (Machine W) VmiError.t).

Definition with_transport (vm : string) (architecture : GuestArchitecture.t) (transport : Transport W) : t :=
  mk (ProviderDescriptor.new "virtualbox" "VirtualBox Live" ProviderMaturity.Preview
        (CapabilitySet.from_caps [Capability.MemoryRead; Capability.RegisterRead; Capability.Control;
           Capability.Acquisition]))
    (TargetDescriptor.new vm (Some vm) architecture ConsistencyMode.LiveBestEffort) transport None.

Definition with_memory_transport (c : t) (memory : MemoryTransport) : t :=
  mk (descriptor c) (target c) (transport c) (Some memory).

Definition with_register_write (c : t) : t :=
  let d := descriptor c in
  mk (ProviderDescriptor.mk (ProviderDescriptor.id d) (ProviderDescriptor.display_name d)
        (ProviderDescriptor.version d) (ProviderDescriptor.maturity d)
        (CapabilitySet.insert_capability (ProviderDescriptor.capabilities d) Capability.RegisterWrite))
    (target c) (transport c) (memory c).

Definition vm (c : t) : string := TargetDescriptor.id (target c).

Definition vbox (c : t) (arguments : list string) : M string := execute "VBoxManage" (transport c) arguments.

(** *** Control *)

Definition execution_state (c : t) : M ExecutionState.t :=
  let? output := vbox c ["showvminfo"; vm c; "--machinereadable"]%string in
  lift (parse_state output).

Definition pause (c : t) : M unit :=
  let? _ := vbox c ["controlvm"; vm c; "pause"]%string in mret tt.

Definition resume (c : t) : M unit :=
  let? _ := vbox c ["controlvm"; vm c; "resume"]%string in mret tt.

(** *** Registers *)

Definition read_register (c : t) (vcpu : Z) (register : string) : M Z :=
  if negb (is_register_name register) then fail (Backend "invalid VirtualBox register name")
  else
    let? cpu := lift (try_decimal_u32 vcpu "VirtualBox vCPU index") in
    let? output := vbox c ["debugvm"; vm c; "getregisters"; "--cpu"; cpu; register]%string in
    lift (parse_register output register).

Definition try_register_assignment (register : string) (value : Z) : Result string :=
  let? capacity := ok_or (checked_add 64 (slen register) 19)
    (Backend "VirtualBox register assignment length overflow") in
  let? _ := allocate "VirtualBox register assignment" capacity in
  Ok (register +:+ "=0x" +:+ hex_padded 16 value).

Definition write_register (c : t) (vcpu : Z) (register : string) (value : Z) : M unit :=
  if negb (CapabilitySet.contains_capability (ProviderDescriptor.capabilities (descriptor c)) Capability.RegisterWrite) then
    let? provider := lift (try_owned_text (ProviderDescriptor.id (descriptor c)) "VirtualBox provider ID") in
    fail (VmiError.CapabilityMissing provider Capability.RegisterWrite)
  else if negb (is_register_name register) then fail (Backend "invalid VirtualBox register name")
  else
    let? cpu := lift (try_decimal_u32 vcpu "VirtualBox vCPU index") in
    let? assignment := lift (try_register_assignment register value) in
    let? _ := vbox c ["debugvm"; vm c; "setregisters"; "--cpu"; cpu; assignment]%string in
    let? actual := read_register c vcpu register in
    if negb (actual =? value) then
      fail (Backend ("VirtualBox register write verification failed: expected " +:+ hex value
        +:+ ", got " +:+ hex actual))
    else mret tt.

(** *** Acquisition *)

(** The path of a core as VBoxManage is given it. *)
Definition filename_argument (path : Path) : Result string :=
  let? path :=
    (match Utf8.from_utf8 (bytes_of_string (path_display path)) with
     | Ok _ => Ok (path_display path)
     | Err _ => Err (Backend "VirtualBox core path is not UTF-8")
     end) in
  let? capacity := ok_or (checked_add 64 (slen path) 11) (Backend "VirtualBox filename argument length overflow") in
  let? _ := allocate "VirtualBox filename argument" capacity in
  Ok ("--filename=" +:+ path).

Definition save_snapshot_to (c : t) (path : Path) : M unit :=
  let? _ := run_files (ensure_output_absent path "VirtualBox core") in
  let? filename := lift (filename_argument path) in
  let? _ := vbox c ["debugvm"; vm c; "dumpvmcore"; filename]%string in
  mret tt.

Definition save_snapshot (c : t) (path : string) : M unit := save_snapshot_to c (parse_path path).

Definition save_physical_range (c : t) (path : string) (start : Gpa.t) (length : Z) : M unit :=
  save_range_via_core "VirtualBox" process_id (save_snapshot_to c) (fun files => elf_vmcore_file)
    (parse_path path) start length.

(** *** Memory: the buffer as it is left, too. *)

Definition live_core (temp_dir : Path) : M Path :=
  let? live_core := lift (try_child_path temp_dir "virtualbox-live.core" "VirtualBox live core") in
  temporary_core_path "VirtualBox" process_id live_core.

Definition read_into (c : t) (temp_dir : Path) (address : Gpa.t) (buffer : list byte) (m : Machine W)
    : Result unit * list byte * Machine W :=
  if bool_decide (buffer = []) then (Ok tt, buffer, m)
  else
    match memory c with
    | Some read =>
        let '(r, buffer, w) := read address buffer (world m) in
        (r, buffer, mk_machine (disk m) w (core_sequence m) (range_sequence m) (clock m) (faults m))
    | None =>
        match (let? core := live_core temp_dir in
               let? _ := save_snapshot_to c core in mret core) m with
        | (Err e, m) => (Err e, buffer, m)
        | (Ok core, m) =>
            let '(result, buffer) := read_core (fun files => elf_vmcore_file) core address buffer (disk m) in
            let '(r, m) := run_files (finish_temporary_core "VirtualBox" core result) m in
            (r, buffer, m)
        end
    end.

(** *** Connecting *)

Definition connect (c : t) (request : AttachRequest.t) : M t :=
  let? _ := lift (validate_target_name (vm c) "VirtualBox VM") in
  let? _ := lift (require_capabilities (ProviderDescriptor.id (descriptor c)) "VirtualBox provider ID"
    (AttachRequest.required_capabilities request) (ProviderDescriptor.capabilities (descriptor c))) in
  let? _ := lift (require_target "VirtualBox VM" (vm c) (AttachRequest.selector request)) in
  let? _ := execution_state c in
  mret c.
End provider.
End VirtualBox.
