(* ===== verification/Xen.v ===== *)
(** * The Xen provider ([crates/vmi-driver-xen])

    Its connector and session over the [xl] command and optional memory,
    register and event transports; the transports of [xenctx] and of the
    xenctrl library. *)

From S2P Require Import Prelude.
From S2P Require Import Types.
From S2P Require Import DriverApi.
From S2P Require Import Text.
From S2P Require Import Host.
From S2P Require Import HostFs.
From S2P Require Import Publication.
From S2P Require Import ArtifactFiles.
From S2P Require Import Live.

(** ** Output of xl and xenctx *)

Definition contains_char (text : string) (c : byte) : bool := bool_decide (c ∈ bytes_of_string text).

(** The first line after the heading whose first word is the domain. *)
Definition domain_line (output domain : string) : option string :=
  head (filter (fun line => head (split_whitespace line) = Some domain) (drop 1 (lines output))).

Definition parse_state (output domain : string) : Result ExecutionState.t :=
  let? line := ok_or (domain_line output domain)
    (Backend ("xl output does not contain domain " +:+ domain)) in
  let? state := ok_or (split_whitespace line !! 4%nat) (Backend "xl list row lacks state") in
  Ok (if contains_char state x72 then ExecutionState.Running
      else if contains_char state x70 then ExecutionState.Paused
      else if contains_char state x73 || contains_char state x64 || contains_char state x63 then ExecutionState.Shutdown
      else ExecutionState.Unknown).

(** The fields of a line, each with the one before it. *)
Fixpoint register_field (register : string) (previous : option string) (fields : list string) : option (Result Z) :=
  match fields with
  | [] => None
  | field :: rest =>
      if match previous with
         | Some name => eq_ignore_ascii_case (trim_end_matches x3a name) register
         | None => false
         end
      then Some (map_err (fun error => Backend ("invalid xenctx register value: " +:+ ParseInt.display error))
                  (ParseInt.from_str_radix 64 16 (strip_hex_prefix field)))
      else register_field register (Some field) rest
  end.

Fixpoint register_rows (register : string) (lines : list string) : Result Z :=
  match lines with
  | [] => Err (Backend ("xenctx output lacks register " +:+ register))
  | line :: rest =>
      match register_field register None (split_whitespace line) with
      | Some r => r
      | None => register_rows register rest
      end
  end.

Definition parse_xenctx_register (output register : string) : Result Z := register_rows register (lines output).

Definition validate_register (register : string) : Result unit :=
  if is_register_name register then Ok tt else Err (Backend "invalid Xen register name").

(** ** The transports of the crate *)

Module XenCtx.
Section transport.
Context {W : Type} `{Allocator} (domain_id : Z).
Abbreviation M := (stateful W VmiError.t).

(** [XenCtxTransport::read_register]; the command fails or gives its
    standard output as the process transports do. *)
Definition read_register (xenctx : list string -> M string) (vcpu : Z) (register : string) : M Z :=
  let? _ := lift (validate_register register) in
  let? domain := lift (try_decimal_u32 domain_id "Xen domain ID") in
  let? cpu := lift (try_decimal_u32 vcpu "Xen vCPU index") in
  let? text := xenctx [domain; cpu] in
  lift (parse_xenctx_register text register).
End transport.
End XenCtx.

(** Guest pages as the library gives them: its function
    [xc_map_foreign_pages] may be missing from it, mapping a frame (to write,
    or to read only) may fail, and so may [munmap] afterwards. *)
Module XenCtrl.
Section access.
Context {P : Type}.

Record Pages : Type := mk_pages {
  missing : option string;
  map_page : P -> Z -> bool -> option (list byte);
  store_page : P -> Z -> list byte -> P;
  unmap : P -> Z -> bool;
}.

(** One round of the loop of [access]: a chunk within one page. *)
Definition access_step (pages : Pages) (write : bool) (address : Z) (st : Z * list byte * P)
    : Result (Z * list byte) * list byte * P :=
  let '(completed, buffer, p) := st in
  let failed (e : VmiError.t) : Result (Z * list byte) * list byte * P := (Err e, buffer, p) in
  match checked_add 64 address completed with
  | None => failed (Backend "Xen physical address overflow")
  | Some current =>
      let page_offset := Z.land current 0xfff in
      match checked_sub 4096 page_offset with
      | None => failed (Backend "Xen page offset invariant failed")
      | Some page_remaining =>
          match checked_sub (zlen buffer) completed with
          | None => failed (Backend "Xen transfer progress invariant failed")
          | Some buffer_remaining =>
              let length := Z.min page_remaining buffer_remaining in
              match get_range buffer completed (completed + length) with
              | None => failed (Backend "Xen transfer buffer invariant failed")
              | Some chunk =>
                  let frame := Z.shiftr current 12 in
                  match map_page pages p frame write with
                  | None => failed (Backend ("xc_map_foreign_pages failed for GFN " +:+ hex frame))
                  | Some page =>
                      let '(buffer, p) :=
                        if write then
                          (buffer, store_page pages p frame
                             (from_option (fun page => page) page
                                (put_range page page_offset (page_offset + length) chunk)))
                        else
                          (from_option (fun buffer => buffer) buffer
                             (put_range buffer completed (completed + length)
                                (take (Z.to_nat length) (drop (Z.to_nat page_offset) page))), p) in
                      if unmap pages p frame then
                        match checked_add 64 completed length with
                        | None => (Err (Backend "Xen transfer progress overflow"), buffer, p)
                        | Some completed => (Ok (completed, buffer), buffer, p)
                        end
                      else (Err (Backend ("munmap failed after Xen GFN " +:+ hex frame +:+ " access")), buffer, p)
                  end
              end
          end
      end
  end.

(** [access]: every round transfers at least a byte. *)
Fixpoint access_loop (fuel : nat) (pages : Pages) (write : bool) (address completed : Z) (buffer : list byte) (p : P)
    : Result unit * list byte * P :=
  match fuel with
  | O => (Err (Backend "model fuel exhausted"), buffer, p)
  | S fuel' =>
      if negb (completed <? zlen buffer) then (Ok tt, buffer, p)
      else
        match access_step pages write address (completed, buffer, p) with
        | (Err e, buffer, p) => (Err e, buffer, p)
        | (Ok (completed, buffer), _, p) => access_loop fuel' pages write address completed buffer p
        end
  end.

(** The whole of [access], under the lock of the interface. *)
Definition access (pages : Pages) (write : bool) (address : Gpa.t) (buffer : list byte) (m : Mutex P)
    : Result unit * list byte * Mutex P :=
  match missing pages, lock m with
  | Some error, _ => (Err (Backend ("missing xc_map_foreign_pages: " +:+ error)), buffer, m)
  | None, Err _ => (Err (Backend "xenctrl interface lock is poisoned"), buffer, m)
  | None, Ok p =>
      let '(r, buffer, p) := access_loop (S (length buffer)) pages write (Gpa.raw address) 0 buffer p in
      (r, buffer, store m p)
  end.

Definition read_into (pages : Pages) (address : Gpa.t) (buffer : list byte) (m : Mutex P)
    : Result unit * list byte * Mutex P := access pages false address buffer m.

Definition write `{Allocator} (pages : Pages) (address : Gpa.t) (data : list byte) (m : Mutex P)
    : Result unit * Mutex P :=
  match allocate "Xen write buffer" (zlen data) with
  | Err e => (Err e, m)
  | Ok _ => let '(r, _, m) := access pages true address data m in (r, m)
  end.
(** *** The library

    Loading it by name gives its functions, each of which may be missing:
    opening an interface, mapping the pages of a domain, and closing. *)
Record Library : Type := mk_library {
  xc_interface_open : result string (option P);
  xc_map_foreign_pages : Z -> Pages;
  xc_interface_close : result string (P -> P);
}.

(** [XenCtrlMemory], its library and domain behind the mapping. *)
Record Memory : Type := mk_opened { library : Library; interface : Mutex P; domain_id : Z }.

Definition library_names : list string := ["libxenctrl.so.4.19"; "libxenctrl.so.4.18"; "libxenctrl.so"]%string.

Definition open (load : string -> option Library) (domain_id : Z) : Result Memory :=
  let? library := ok_or (head (omap load library_names)) (Backend "unable to load libxenctrl") in
  let? interface := map_err (fun error => Backend ("missing xc_interface_open: " +:+ error))
    (xc_interface_open library) in
  let? interface := ok_or interface (Backend "xc_interface_open failed") in
  Ok (mk_opened library (mutex_new interface) domain_id).

(** [Drop]: the interface is closed unless its lock is poisoned or the
    function is missing. *)
Definition drop_interface (m : Memory) : Mutex P :=
  match lock (interface m), xc_interface_close (library m) with
  | Ok p, Ok close => store (interface m) (close p)
  | _, _ => interface m
  end.

Definition pages_of (m : Memory) : Pages := xc_map_foreign_pages (library m) (domain_id m).
End access.
Arguments Pages P : clear implicits.
Arguments Library P : clear implicits.
Arguments Memory P : clear implicits.
End XenCtrl.

(** ** The provider *)

Module Xen.
Section provider.
Context {W : Type} `{Allocator, Bitflags} (process_id : Z).

Record MemoryTransport : Type := mk_memory {
  memory_read : Gpa.t -> list byte -> W -> Result unit * list byte * W;
  memory_write : Gpa.t -> list byte -> W -> Result unit * W;
}.

Record CpuTransport : Type := mk_cpu {
  cpu_read : Z -> string -> W -> Result Z * W;
  supports_write : bool;
  cpu_write : Z -> string -> Z -> W -> Result unit * W;
}.

Definition EventTransport : Type := Z -> W -> Result (option VmiEvent) * W.

(** The connector and its sessions share these. *)
Record t : Type := mk {
  descriptor : ProviderDescriptor.t;
  target : TargetDescriptor.t;
  transport : Transport W;
  memory : option MemoryTransport;
  cpu : option CpuTransport;
  events : option EventTransport;
}.

Abbreviation M := (stateful (Machine W) VmiError.t).

Definition with_transport (domain : string) (architecture : GuestArchitecture.t) (transport : Transport W) : t :=
  mk (ProviderDescriptor.new "xen-xl" "Xen xl" ProviderMaturity.Preview
        (CapabilitySet.from_caps [Capability.Control; Capability.Acquisition]))
    (TargetDescriptor.new domain (Some domain) architecture ConsistencyMode.LiveBestEffort) transport None None None.

Definition insert (d : ProviderDescriptor.t) (capability : Capability.t) : ProviderDescriptor.t :=
  ProviderDescriptor.mk (ProviderDescriptor.id d) (ProviderDescriptor.display_name d)
    (ProviderDescriptor.version d) (ProviderDescriptor.maturity d)
    (CapabilitySet.insert_capability (ProviderDescriptor.capabilities d) capability).

Definition with_memory_transport (c : t) (memory : MemoryTransport) : t :=
  mk (insert (insert (descriptor c) Capability.MemoryRead) Capability.MemoryWrite)
    (target c) (transport c) (Some memory) (cpu c) (events c).

Definition with_cpu_transport (c : t) (cpu : CpuTransport) : t :=
  let d := insert (descriptor c) Capability.RegisterRead in
  mk (if supports_write cpu then insert d Capability.RegisterWrite else d)
    (target c) (transport c) (memory c) (Some cpu) (events c).

(** [XenCpuTransport::write_register] of a transport that does not write. *)
Definition cpu_write_default (_ : Z) (_ : string) (_ : Z) (w : W) : Result unit * W :=
  (Err (Backend "Xen CPU transport does not support register writes"), w).

Definition with_xenctx (c : t) (xenctx : list string -> stateful W VmiError.t string) (domain_id : Z) : t :=
  mk (insert (descriptor c) Capability.RegisterRead) (target c) (transport c) (memory c)
    (Some (mk_cpu (XenCtx.read_register domain_id xenctx) false cpu_write_default)) (events c).

Definition with_event_transport (c : t) (events : EventTransport) : t :=
  mk (insert (descriptor c) Capability.Events) (target c) (transport c) (memory c) (cpu c) (Some events).

(** [with_xenctrl]: the opened interface is part of the world from then on,
    where [get] and [set] find it. *)
Definition with_xenctrl {P} (load : string -> option (XenCtrl.Library P)) (get : W -> Mutex P) (set : W -> Mutex P -> W)
    (default : Transport W) (domain : string) (domain_id : Z) (architecture : GuestArchitecture.t)
    : stateful W VmiError.t t :=
  fun w =>
    match XenCtrl.open load domain_id with
    | Err e => (Err e, w)
    | Ok memory =>
        let pages := XenCtrl.pages_of memory in
        let transport := mk_memory
          (fun address buffer w =>
             let '(r, buffer, m) := XenCtrl.read_into pages address buffer (get w) in (r, buffer, set w m))
          (fun address data w => let '(r, m) := XenCtrl.write pages address data (get w) in (r, set w m)) in
        (Ok (with_memory_transport (with_transport domain architecture default) transport),
         set w (XenCtrl.interface memory))
    end.

Definition domain (c : t) : string := TargetDescriptor.id (target c).

Definition xl (c : t) (arguments : list string) : M string := execute "xl" (transport c) arguments.

(** *** Facets *)

Definition capability_missing (provider_id : string) (capability : Capability.t) : Result VmiError.t :=
  let? provider := try_owned_text provider_id "Xen provider ID" in
  Ok (VmiError.CapabilityMissing provider capability).

Definition require_transport {A} (transport : option A) (provider_id : string) (capability : Capability.t) : Result A :=
  match transport with
  | Some transport => Ok transport
  | None => let? e := capability_missing provider_id capability in Err e
  end.

(** An operation on the world, given the transport it needs. *)
Definition on_world {A} (op : W -> Result A * W) : M A :=
  fun m =>
    let '(r, w) := op (world m) in
    (r, mk_machine (disk m) w (core_sequence m) (range_sequence m) (clock m) (faults m)).

Definition provider_id (c : t) : string := ProviderDescriptor.id (descriptor c).

(** The accessors [memory], [memory_write], [cpu] and [events]. *)
Definition facet {A} (c : t) (transport : option A) (capability : Capability.t) : Result unit :=
  let? _ := require_transport transport (provider_id c) capability in Ok tt.

(** *** Memory, registers, events *)

Definition read_into (c : t) (address : Gpa.t) (buffer : list byte) (m : Machine W)
    : Result unit * list byte * Machine W :=
  match require_transport (memory c) (provider_id c) Capability.MemoryRead with
  | Err e => (Err e, buffer, m)
  | Ok memory =>
      let '(r, buffer, w) := memory_read memory address buffer (world m) in
      (r, buffer, mk_machine (disk m) w (core_sequence m) (range_sequence m) (clock m) (faults m))
  end.

Definition write (c : t) (address : Gpa.t) (data : list byte) : M unit :=
  let? memory := lift (require_transport (memory c) (provider_id c) Capability.MemoryWrite) in
  on_world (memory_write memory address data).

Definition read_register (c : t) (vcpu : Z) (register : string) : M Z :=
  let? _ := lift (validate_register register) in
  let? cpu := lift (require_transport (cpu c) (provider_id c) Capability.RegisterRead) in
  on_world (cpu_read cpu vcpu register).

Definition write_register (c : t) (vcpu : Z) (register : string) (value : Z) : M unit :=
  let? _ := lift (validate_register register) in
  let? cpu := lift (require_transport (cpu c) (provider_id c) Capability.RegisterWrite) in
  if negb (supports_write cpu) then
    let? e := lift (capability_missing (provider_id c) Capability.RegisterWrite) in fail e
  else on_world (cpu_write cpu vcpu register value).

Definition next_event (c : t) (timeout : Z) : M (option VmiEvent) :=
  let? events := lift (require_transport (events c) (provider_id c) Capability.Events) in
  on_world (events timeout).

(** *** Control *)

Definition execution_state (c : t) : M ExecutionState.t :=
  let? output := xl c ["list"; domain c]%string in
  lift (parse_state output (domain c)).

Definition pause (c : t) : M unit :=
  let? _ := xl c ["pause"; domain c]%string in mret tt.

Definition resume (c : t) : M unit :=
  let? _ := xl c ["unpause"; domain c]%string in mret tt.

(** *** Acquisition *)

Definition dump_core (c : t) (path : Path) : M unit :=
  let? _ := run_files (ensure_output_absent path "Xen core") in
  let? path := lift
    (match Utf8.from_utf8 (bytes_of_string (path_display path)) with
     | Ok _ => Ok (path_display path)
     | Err _ => Err (Backend "Xen core path is not UTF-8")
     end) in
  let? _ := xl c ["dump-core"; domain c; path]%string in
  mret tt.

Definition save_snapshot (c : t) (path : string) : M unit := dump_core c (parse_path path).

Definition save_physical_range (c : t) (path : string) (start : Gpa.t) (length : Z) : M unit :=
  save_range_via_core "Xen" process_id (dump_core c) (fun files => xen_core_file) (parse_path path) start length.

(** *** Connecting *)

Definition connect (c : t) (request : AttachRequest.t) : M t :=
  let? _ := lift (validate_target_name (domain c) "Xen domain") in
  let? _ := lift (require_capabilities (provider_id c) "Xen provider ID"
    (AttachRequest.required_capabilities request) (ProviderDescriptor.capabilities (descriptor c))) in
  let? _ := lift (require_target "Xen domain" (domain c) (AttachRequest.selector request)) in
  let? _ := execution_state c in
  mret c.
End provider.
End Xen.
