(* ===== verification/XenFacts.v ===== *)
(** * Xen: guest pages

    The page loop of the xenctrl transport moves exactly the bytes of its
    range, page by page, and a failure says at which page it stopped. *)

From S2P Require Import Prelude.
From S2P Require Import Types.
From S2P Require Import Text.
From S2P Require Import TextFacts.
From S2P Require Import Xen.
Import XenCtrl.

(** What mapping a guest's frames relies on: a mapped page holds the guest's
    bytes, a store through a writable mapping changes that page alone, and
    which frames can be mapped does not depend on their contents. *)
Class GuestPages {P} (pages : Pages P) (byte_at : P -> Z -> option byte) := {
  pages_found : missing pages = None;
  mapped_page : forall p frame w page, map_page pages p frame w = Some page ->
    zlen page = 4096 /\
    forall x, 4096 * frame <= x < 4096 * frame + 4096 -> byte_at p x = page !! Z.to_nat (x - 4096 * frame);
  stored_page : forall p frame page page', map_page pages p frame true = Some page -> zlen page' = 4096 ->
    forall x, byte_at (store_page pages p frame page') x =
      if (4096 * frame <=? x) && (x <? 4096 * frame + 4096) then page' !! Z.to_nat (x - 4096 * frame)
      else byte_at p x;
  stored_mapping : forall p frame page', is_Some (map_page pages p frame true) ->
    forall f w, map_page pages (store_page pages p frame page') f w = None <-> map_page pages p f w = None;
}.

Section transfers.
Context {P : Type} (pages : Pages P) (byte_at : P -> Z -> option byte) `{!GuestPages pages byte_at}.
Context (write : bool) (address : Z) (buffer : list byte) (start : P).

(** The first [k] bytes are across: written to the guest, or read into the
    buffer; everything else is as it was. *)
Definition transferred (k : Z) (buffer' : list byte) (p : P) : Prop :=
  zlen buffer' = zlen buffer /\
  (forall f w, map_page pages p f w = None <-> map_page pages start f w = None) /\
  if write then
    buffer' = buffer /\ forall x, byte_at p x =
      if (address <=? x) && (x <? address + k) then buffer !! Z.to_nat (x - address) else byte_at start x
  else
    p = start /\ forall i, buffer' !! i =
      if Z.of_nat i <? k then byte_at start (address + Z.of_nat i) else buffer !! i.

(** Why a transfer stops early. *)
Definition stopped_at (e : VmiError.t) : Prop :=
  (e = Backend "Xen physical address overflow" /\ 2 ^ 64 < address + zlen buffer) \/
  exists frame, address <= 4096 * frame + 4095 /\ 4096 * frame < address + zlen buffer /\
    ((map_page pages start frame write = None /\
        e = Backend ("xc_map_foreign_pages failed for GFN " +:+ hex frame)) \/
     ((exists p, unmap pages p frame = false) /\
        e = Backend ("munmap failed after Xen GFN " +:+ hex frame +:+ " access"))).

Lemma transferred_start : transferred 0 buffer start.
Proof.
  split; [done|]. split; [done|]. destruct write; (split; [done|]).
  - intros x. destruct (Z.leb_spec address x), (Z.ltb_spec x (address + 0)); cbn [andb]; (done || lia).
  - intros i. by rewrite (proj2 (Z.ltb_ge (Z.of_nat i) 0)) by lia.
Qed.

(** A chunk inside the page of its first byte. *)
Lemma chunk_page current : 0 <= current ->
  let frame := Z.shiftr current 12 in
  let offset := Z.land current 0xfff in
  0 <= offset < 4096 /\ current = 4096 * frame + offset /\ 0 <= frame.
Proof.
  intros Hc. cbn zeta. change 0xfff with (Z.ones 12). rewrite Z.land_ones, Z.shiftr_div_pow2 by lia.
  change (2 ^ 12) with 4096. pose proof (Z.mod_pos_bound current 4096). pose proof (Z.div_mod current 4096).
  pose proof (Z.div_pos current 4096). lia.
Qed.

(** A store of a page with a chunk of the buffer written over it. *)
Lemma stored_chunk p frame offset length page page' chunk x :
  map_page pages p frame true = Some page -> zlen chunk = length -> 0 <= offset -> offset + length <= 4096 ->
  put_range page offset (offset + length) chunk = Some page' ->
  byte_at (store_page pages p frame page') x =
    if (4096 * frame + offset <=? x) && (x <? 4096 * frame + offset + length)
    then chunk !! Z.to_nat (x - (4096 * frame + offset)) else byte_at p x.
Proof.
  intros Hpage Hchunk Ho Hol Hput. pose proof (zlen_nonneg chunk).
  destruct (mapped_page _ _ _ _ Hpage) as [H4096 Hin].
  destruct (put_range_lookup _ _ _ _ _ Hput ltac:(lia)) as [Hzp Hlk].
  rewrite (stored_page _ _ _ _ Hpage) by lia.
  destruct (Z.leb_spec (4096 * frame) x), (Z.ltb_spec x (4096 * frame + 4096)); cbn [andb];
    [|destruct (Z.leb_spec (4096 * frame + offset) x), (Z.ltb_spec x (4096 * frame + offset + length));
      cbn [andb]; (done || lia)..].
  rewrite Hlk, Z2Nat.id by lia.
  destruct (Z.leb_spec (4096 * frame + offset) x), (Z.ltb_spec x (4096 * frame + offset + length)); cbn [andb].
  - rewrite (proj2 (Z.ltb_ge _ _)), (proj2 (Z.leb_gt _ _)) by lia. cbn [orb]. f_equal. lia.
  - rewrite (proj2 (Z.leb_le (offset + length) _)), orb_true_r by lia. symmetry. by apply Hin.
  - rewrite (proj2 (Z.ltb_lt _ offset)) by lia. symmetry. by apply Hin.
  - lia.
Qed.

Lemma write_chunk k b p frame offset length chunk page page' :
  write = true -> transferred k b p -> 0 <= k -> 0 <= length ->
  address + k = 4096 * frame + offset -> 0 <= offset -> offset + length <= 4096 ->
  get_range b k (k + length) = Some chunk -> map_page pages p frame true = Some page ->
  put_range page offset (offset + length) chunk = Some page' ->
  transferred (k + length) b (store_page pages p frame page').
Proof.
  intros Hw (Hl & Hmap & Hrest) Hk Hlen Hframe Ho Hol Hchunk Hpage Hput. unfold transferred.
  rewrite Hw in *. destruct Hrest as [-> Hbytes]. pose proof (zlen_get_range _ _ _ _ Hchunk) as Hzc.
  split; [done|]. split.
  { intros f w. rewrite stored_mapping by (by eexists). apply Hmap. }
  split; [done|]. intros x.
  rewrite (stored_chunk p frame offset length page page' chunk x Hpage ltac:(lia) Ho Hol Hput), Hbytes, <- Hframe.
  destruct (Z.leb_spec (address + k) x), (Z.ltb_spec x (address + k + length)),
    (Z.leb_spec address x), (Z.ltb_spec x (address + k)), (Z.ltb_spec x (address + (k + length)));
    cbn [andb]; try done; try lia.
  rewrite (lookup_get_range _ _ _ _ _ Hchunk) by (unfold zlen in Hzc; lia). f_equal. lia.
Qed.

Lemma read_chunk k b b' frame offset length page :
  write = false -> transferred k b start -> 0 <= k -> 0 <= length -> k + length <= zlen buffer ->
  address + k = 4096 * frame + offset -> 0 <= offset -> offset + length <= 4096 ->
  map_page pages start frame write = Some page ->
  put_range b k (k + length) (take (Z.to_nat length) (drop (Z.to_nat offset) page)) = Some b' ->
  transferred (k + length) b' start.
Proof.
  intros Hw (Hl & Hmap & Hrest) Hk Hlen Hkl Hframe Ho Hol Hpage Hput. unfold transferred.
  rewrite Hw in *. destruct Hrest as [_ Hbytes].
  destruct (mapped_page _ _ _ _ Hpage) as [H4096 Hin]. unfold zlen in H4096.
  destruct (put_range_lookup _ _ _ _ _ Hput) as [Hzp Hlk].
  { unfold zlen. rewrite length_take, length_drop. lia. }
  split; [lia|]. split; [done|]. split; [done|]. intros i. rewrite Hlk, Hbytes.
  destruct (Z.ltb_spec (Z.of_nat i) k), (Z.leb_spec (k + length) (Z.of_nat i)),
    (Z.ltb_spec (Z.of_nat i) (k + length)); cbn [orb]; try done; try lia.
  rewrite lookup_take_lt, lookup_drop, Hin by lia. f_equal. lia.
Qed.

(** One round: a whole chunk further, or stopped for a reason. *)
Lemma access_step_spec k b p :
  transferred k b p -> in_u64 address -> 0 <= k < zlen buffer -> zlen buffer <= isize_max ->
  match access_step pages write address (k, b, p) with
  | (Ok (k', b'), _, p') => k < k' <= zlen buffer /\ transferred k' b' p'
  | (Err e, b', p') => stopped_at e /\ exists k', k <= k' <= zlen buffer /\ transferred k' b' p'
  end.
Proof.
  intros Ht Ha Hk Hmax. unfold access_step, in_width, isize_max in *.
  destruct (Z.lt_ge_cases (address + k) (2 ^ 64)) as [Hc|Hc].
  2: { unfold checked_add. rewrite (proj2 (Z.ltb_ge _ _)) by lia.
       split; [left; split; [done|lia]|exists k; split; [lia|done]]. }
  rewrite checked_add_fits by lia.
  destruct (chunk_page (address + k) ltac:(lia)) as (Ho & Hframe & Hf).
  set (frame := Z.shiftr (address + k) 12) in *. set (offset := Z.land (address + k) 0xfff) in *.
  pose proof Ht as (Hl & Hmap & Hrest).
  rewrite checked_sub_fits by lia. rewrite checked_sub_fits by lia. rewrite Hl.
  set (length := Z.min (4096 - offset) (zlen buffer - k)).
  assert (Hlen : 0 < length <= 4096 - offset /\ k + length <= zlen buffer) by (unfold length; lia).
  clearbody length. destruct (get_range_fits b k (k + length)) as [chunk Hchunk]; [lia..|]. rewrite Hchunk.
  destruct (map_page pages p frame write) as [page|] eqn:Hpage.
  2: { split; [right; exists frame; split; [lia|split; [lia|left]]|exists k; split; [lia|done]].
       by rewrite <- Hmap. }
  assert (Hnext : exists b' p', (if write
      then (b, store_page pages p frame (from_option (fun page => page) page
              (put_range page offset (offset + length) chunk)))
      else (from_option (fun buffer => buffer) b
              (put_range b k (k + length) (take (Z.to_nat length) (drop (Z.to_nat offset) page))), p)) = (b', p') /\
      transferred (k + length) b' p').
  { destruct (mapped_page _ _ _ _ Hpage) as [H4096 _]. destruct write eqn:Hw.
    - destruct (put_range_fits page offset (offset + length) chunk) as [page' Hput]; [lia..|].
      rewrite Hput. eexists _, _. split; [done|]. eapply write_chunk; (done || lia).
    - destruct Hrest as [-> _].
      destruct (put_range_fits b k (k + length) (take (Z.to_nat length) (drop (Z.to_nat offset) page)))
        as [b' Hput]; [lia..|].
      rewrite Hput. eexists _, _. split; [done|]. rewrite <- Hw in Hpage. eapply read_chunk; (done || lia). }
  destruct Hnext as (b' & p' & -> & Hnext). destruct (unmap pages p' frame) eqn:Hunmap.
  - rewrite checked_add_fits by lia. split; [lia|done].
  - split; [|exists (k + length); split; [lia|done]].
    right. exists frame. split; [lia|]. split; [lia|]. right. split; [by exists p'|done].
Qed.

Lemma access_loop_spec fuel k b p :
  transferred k b p -> in_u64 address -> 0 <= k <= zlen buffer -> zlen buffer <= isize_max ->
  zlen buffer - k < Z.of_nat fuel ->
  let '(r, b', p') := access_loop fuel pages write address k b p in
  exists k', 0 <= k' <= zlen buffer /\ transferred k' b' p' /\
    match r with Ok _ => k' = zlen buffer | Err e => stopped_at e end.
Proof.
  revert k b p. induction fuel as [|fuel IH]; intros k b p Ht Ha Hk Hmax Hf; [lia|]. cbn [access_loop].
  pose proof Ht as [Hl _]. rewrite Hl. destruct (Z.ltb_spec k (zlen buffer)); cbn [negb].
  - pose proof (access_step_spec k b p Ht Ha ltac:(lia) Hmax) as Hs.
    destruct (access_step _ _ _ _) as [[[[k1 b1]|e] bx] p1].
    + destruct Hs as [Hk1 Ht1]. apply IH; (done || lia).
    + destruct Hs as (Hstop & k' & Hk' & Ht'). exists k'. split; [lia|done].
  - exists k. split; [lia|]. split; [done|lia].
Qed.
End transfers.

(** C34: a transfer through xenctrl moves exactly its bytes.  Over any guest
    whose frames the library maps, a read or a write of any range either
    moves all of it, or stops, for the end of the address space, at a frame
    of the range that cannot be mapped, or at a failed unmapping, with a
    prefix moved; a read changes nothing in the guest and no more of the
    buffer, a write changes no byte outside that prefix.  The loop ends and
    the interface's lock is given back. *)
Theorem xenctrl_transfers_exact {P} (pages : Pages P) (byte_at : P -> Z -> option byte)
    `{!GuestPages pages byte_at} (write : bool) (address : Z) (buffer : list byte) (p : P)
    (Haddress : in_u64 address) (Hlength : zlen buffer <= isize_max) :
  let '(r, buffer', m) := access pages write (Gpa.new address) buffer (mutex_new p) in
  exists moved p', m = mutex_new p' /\ 0 <= moved <= zlen buffer /\
    transferred pages byte_at write address buffer p moved buffer' p' /\
    match r with Ok _ => moved = zlen buffer | Err e => stopped_at pages write address buffer p e end.
Proof.
  unfold access. rewrite (pages_found (byte_at := byte_at)). cbn [lock mutex_new poisoned guarded Gpa.raw].
  pose proof (access_loop_spec pages byte_at write address buffer p (S (length buffer)) 0 buffer p
    (transferred_start pages byte_at write address buffer p) Haddress) as Hloop.
  pose proof (zlen_nonneg buffer).
  specialize (Hloop ltac:(lia) Hlength ltac:(unfold zlen; lia)).
  cbn [lock mutex_new poisoned guarded Gpa.raw] in *.
  destruct (access_loop _ _ _ _ _ _ _) as [[r b'] p']. destruct Hloop as (k & Hk & Ht & Hr).
  by exists k, p'.
Qed.

(** A guest of whole pages, each of 4096 bytes. *)
Definition paged_guest : Pages (gmap Z (list byte)) := {|
  missing := None;
  map_page := fun p frame _ => resize 4096 x00 <$> p !! frame;
  store_page := fun p frame page => <[frame := page]> p;
  unmap := fun _ _ => true;
|}.

Definition paged_byte (p : gmap Z (list byte)) (x : Z) : option byte :=
  page ← map_page paged_guest p (x / 4096) false; page !! Z.to_nat (x mod 4096).

#[export] Instance paged_guest_pages : GuestPages paged_guest paged_byte.
Proof.
  assert (Hpage : forall frame x, 4096 * frame <= x < 4096 * frame + 4096 ->
    x / 4096 = frame /\ x mod 4096 = x - 4096 * frame).
  { intros frame x Hx. pose proof (Z.div_mod x 4096). pose proof (Z.mod_pos_bound x 4096). split; [|lia].
    symmetry. apply (Z.div_unique x 4096 frame (x - 4096 * frame)); lia. }
  split; cbn [missing map_page store_page paged_guest].
  - done.
  - intros p frame w page Hp. apply fmap_Some in Hp as (raw & Hraw & ->). split; [unfold zlen; rewrite length_resize; lia|].
    intros x Hx. destruct (Hpage _ _ Hx) as [Hd Hm]. unfold paged_byte. cbn [map_page paged_guest].
    by rewrite Hd, Hm, Hraw.
  - intros p frame page page' _ Hl x. unfold paged_byte. cbn [map_page paged_guest].
    destruct (Z.leb_spec (4096 * frame) x), (Z.ltb_spec x (4096 * frame + 4096)); cbn [andb];
      [destruct (Hpage frame x) as [-> ->]; [lia|]|rewrite lookup_insert_ne; [done|]..].
    + rewrite lookup_insert_eq. cbn. rewrite resize_all_alt; [done|]. unfold zlen in Hl. lia.
    + intros ->. pose proof (Z.div_mod x 4096). pose proof (Z.mod_pos_bound x 4096). lia.
    + intros ->. pose proof (Z.div_mod x 4096). pose proof (Z.mod_pos_bound x 4096). lia.
    + lia.
  - intros p frame page' [page Hp] f w. apply fmap_Some in Hp as (raw & Hraw & _).
    rewrite !fmap_None. destruct (decide (f = frame)) as [->|Hne];
      [rewrite lookup_insert_eq, Hraw; naive_solver|by rewrite lookup_insert_ne].
Qed.

(** Four bytes across the end of frame 1. *)
Lemma xenctrl_transfers_exact_witness :
  let p := {[1 := []; 2 := []]} : gmap Z (list byte) in
  exists p', access paged_guest true (Gpa.new 0x1ffe) [x61; x62; x63; x64] (mutex_new p) =
      (Ok tt, [x61; x62; x63; x64], mutex_new p') /\
    paged_byte p' 0x2000 = Some x63 /\ paged_byte p' 0x2002 = paged_byte p 0x2002.
Proof.
  intros p.
  pose proof (xenctrl_transfers_exact paged_guest paged_byte true 0x1ffe [x61; x62; x63; x64] p
    ltac:(width_const) ltac:(discriminate)) as Hx.
  destruct (access paged_guest true (Gpa.new 0x1ffe) [x61; x62; x63; x64] (mutex_new p)) as [[r b'] m] eqn:E.
  destruct Hx as (moved & p' & -> & _ & (_ & _ & -> & Hbytes) & Hr).
  assert (Hok : r = fst (fst (access paged_guest true (Gpa.new 0x1ffe) [x61; x62; x63; x64] (mutex_new p))))
    by (rewrite E; reflexivity).
  clear E. vm_compute in Hok. subst r moved. exists p'. split; [reflexivity|].
  rewrite !Hbytes. split; vm_compute; reflexivity.
Defined.
