(* ===== verification/Libvirt.v ===== *)
(** * The libvirt provider ([crates/vmi-driver-libvirt])

    Its connector and session over the [virsh] command, which is a transport
    given from outside. *)

From S2P Require Import Prelude.
From S2P Require Import Types.
From S2P Require Import DriverApi.
From S2P Require Import Text.
From S2P Require Import Host.
From S2P Require Import HostFs.
From S2P Require Import Publication.
From S2P Require Import Artifact.
From S2P Require Import ArtifactFiles.
From S2P Require Import Live.

Definition validate_argument (value description : string) : Result unit :=
  if plain_operand value then Ok tt else Err (Backend ("invalid " +:+ description)).

(** [type='kvm'] and the like, in either quotes. *)
Definition quoted (quote : byte) (kind : string) : string :=
  let q := string_of_bytes [quote] in "type=" +:+ q +:+ kind +:+ q.

Definition is_qemu_domain (xml : string) : bool :=
  existsb (contains xml) [quoted x27 "kvm"; quoted x22 "kvm"; quoted x27 "qemu"; quoted x22 "qemu"].

Definition domain_state (output : string) : ExecutionState.t :=
  let state := to_ascii_lowercase (trim output) in
  if one_of state ["running"; "idle"; "blocked"]%string then ExecutionState.Running
  else if one_of state ["paused"; "pmsuspended"]%string then ExecutionState.Paused
  else if one_of state ["shut off"; "shutdown"; "crashed"]%string then ExecutionState.Shutdown
  else ExecutionState.Unknown.

Module Libvirt.
Section provider.
Context {W : Type} `{Allocator, Bitflags} (process_id : Z).

(** The connector and its sessions share these. *)
Record t : Type := mk {
  descriptor : ProviderDescriptor.t;
  target : TargetDescriptor.t;
  transport : Transport W;
  uri : option string;
}.

Abbreviation M := (stateful (Machine W) VmiError.t).

Definition with_transport (domain : string) (architecture : GuestArchitecture.t) (transport : Transport W) : t :=
  mk (ProviderDescriptor.new "libvirt-qemu" "libvirt QEMU/KVM" ProviderMaturity.Experimental
        (CapabilitySet.from_caps [Capability.Control; Capability.Acquisition]))
    (TargetDescriptor.new domain (Some domain) architecture ConsistencyMode.LiveBestEffort) transport None.

Definition with_uri (c : t) (uri : string) : t := mk (descriptor c) (target c) (transport c) (Some uri).

Definition domain (c : t) : string := TargetDescriptor.id (target c).

Definition execute (c : t) (arguments : list string) : M string :=
  let connect := match uri c with Some uri => ["--connect"%string; uri] | None => [] end in
  let? count := lift (ok_or (checked_add 64 (zlen arguments) (zlen connect))
    (Backend "virsh argument count exceeds addressable memory")) in
  let? _ := lift (allocate "virsh arguments" count) in
  run_command (transport c) (connect ++ arguments).

(** *** Control *)

Definition execution_state (c : t) : M ExecutionState.t :=
  let? state := execute c ["domstate"%string; domain c] in
  mret (domain_state state).

Definition pause (c : t) : M unit :=
  let? _ := execute c ["suspend"%string; domain c] in mret tt.

Definition resume (c : t) : M unit :=
  let? _ := execute c ["resume"%string; domain c] in mret tt.

(** *** Acquisition *)

Definition to_str (path message : string) : Result string :=
  match Utf8.from_utf8 (bytes_of_string path) with Ok _ => Ok path | Err _ => Err (Backend message) end.

Definition is_file (path : Path) : prog (Result bool) :=
  let? found := do (IsAFile path) in Ret (Ok found).

Definition save_snapshot_to (c : t) (path : Path) : M unit :=
  let? _ := run_files (ensure_output_absent path "libvirt core") in
  let? destination := lift (to_str (path_display path) "libvirt core path is not UTF-8") in
  let? _ := execute c ["dump"%string; domain c; destination; "--memory-only"%string; "--live"%string;
    "--format"%string; "elf"%string] in
  let? created := run_files (is_file path) in
  if created : bool then mret tt else fail (Backend "virsh reported success without creating the core").

Definition save_snapshot (c : t) (path : string) : M unit := save_snapshot_to c (parse_path path).

Definition draw_temporary : M Z :=
  fun m =>
    let '(drawn, m) := draw_core "libvirt temporary" m in
    (map_err (fun _ => Backend "libvirt temporary sequence exhausted") drawn, m).

Definition temporary_core_path (path : Path) : M Path :=
  let parent := directory_of path in
  let? name := lift
    (match file_name path with
     | Some name => to_str name "libvirt output filename is not UTF-8"
     | None => Err (Backend "libvirt output filename is not UTF-8")
     end) in
  let? sequence := draw_temporary in
  let? since := since_epoch in
  let? nanos := lift (ok_or since
    (Backend "system clock precedes epoch: second time provided was later than self")) in
  mret (join parent (MkPath false
    ["." +:+ name +:+ ".libvirt-" +:+ dec process_id +:+ "-" +:+ dec nanos +:+ "-" +:+ dec sequence +:+ ".core"])).

(** What a range read out of the core at [temporary] holds. *)
Definition core_range (temporary : Path) (start : Gpa.t) (length : Z) (files : FileSystem) : Result (list byte) :=
  let? bundle := elf_vmcore_file (path_display temporary) in
  let? _ := map_err (fun error => Backend ("failed to allocate range: " +:+ error))
    (try_reserve "libvirt range" length) in
  match SnapshotBundle.read_into bundle start (replicate (Z.to_nat length) x00) with
  | (Ok _, bytes) => Ok bytes
  | (Err e, _) => Err e
  end.

Definition read_disk {A} (f : FileSystem -> Result A) : M A := fun m => (f (disk_files (disk m)), m).

Definition acquire_range (c : t) (temporary path : Path) (start : Gpa.t) (length : Z) : M unit :=
  let? _ := save_snapshot_to c temporary in
  let? bytes := read_disk (core_range temporary start length) in
  run_files (publish_new path bytes).

(** The temporary core is removed whatever came of it. *)
Definition remove_core (temporary : Path) (result : Result unit) : prog (Result unit) :=
  let? removed := do (RemoveFile temporary) in
  Ret (match result, removed : io_result unit with
        | Err error, _ => Err error
        | Ok _, Ok _ => Ok tt
        | Ok _, Err error =>
            if bool_decide (error_kind error = NotFound) then Ok tt
            else Err (Backend ("failed to remove temporary libvirt core: " +:+ error_text error))
        end).

Definition acquire_and_remove (c : t) (temporary path : Path) (start : Gpa.t) (length : Z) : M unit :=
  fun m =>
    let '(result, m) := acquire_range c temporary path start length m in
    run_files (remove_core temporary result) m.

Definition save_physical_range (c : t) (path : string) (start : Gpa.t) (length : Z) : M unit :=
  let path := parse_path path in
  if length =? 0 then fail (Backend "libvirt acquisition length must be non-zero")
  else
    let? _ := lift (ok_or (checked_add 64 (Gpa.raw start) length)
      (Backend "libvirt acquisition physical range overflows")) in
    let? length := lift (ok_or (try_width 64 length) (Backend "requested libvirt range is too large")) in
    let? _ := run_files (ensure_output_absent path "libvirt range") in
    let? temporary := temporary_core_path path in
    acquire_and_remove c temporary path start length.

(** *** Connecting *)

Definition validate_uri (uri : option string) : Result unit :=
  match uri with Some uri => validate_argument uri "libvirt URI" | None => Ok tt end.

Definition connect (c : t) (request : AttachRequest.t) : M t :=
  let? _ := lift (validate_argument (domain c) "libvirt domain") in
  let? _ := lift (validate_uri (uri c)) in
  let missing := CapabilitySet.difference_of (AttachRequest.required_capabilities request)
    (ProviderDescriptor.capabilities (descriptor c)) in
  if negb (CapabilitySet.is_empty missing) then
    fail (VmiError.AttachRejected (ProviderDescriptor.id (descriptor c)) missing)
  else
    let? _ := lift (require_target "libvirt domain" (domain c) (AttachRequest.selector request)) in
    let? xml := execute c ["dumpxml"%string; domain c] in
    if negb (is_qemu_domain xml) then fail (Backend "libvirt domain is not a QEMU/KVM domain")
    else
      let? _ := execution_state c in
      mret c.
End provider.
End Libvirt.
