(* ===== verification/Ffi.v ===== *)
(** * The C interface ([crates/vmi-ffi])

    The exported functions over the memory of their caller, the table of
    live snapshots behind its lock, and each thread's last error.

    What a function's safety contract demands of the caller is checked where
    the code relies on it: a call that reads or writes memory the caller did
    not provide has no result.  No function panics, so [guarded] is the
    operation itself; the table is locked for a part of one call at a time,
    and a snapshot is shared, so calls of several threads take effect one
    after the other. *)

From S2P Require Import Prelude.
From S2P Require Import Types.
From S2P Require Import Text.
From S2P Require Import Host.
From S2P Require Import Artifact.
From S2P Require Import ArtifactFiles.

Definition ABI_VERSION : Z := 1.
Definition MAX_PATH_BYTES : Z := 32 * 1024.

Inductive VmiStatus : Type :=
| StatusOk | InvalidArgument | ArtifactError | ReadError | BufferTooSmall | StatusPanic.

#[global] Instance VmiStatus_eq_dec : EqDecision VmiStatus.
Proof. solve_decision. Defined.

(** The numbers C gives the formats and the statuses. *)
Module VmiArtifactFormat.
Inductive t : Type := Raw | ElfVmcore | Lime | Manifest | XenCore | Kdmp.

Definition code (format : t) : Z :=
  match format with Raw => 0 | ElfVmcore => 1 | Lime => 2 | Manifest => 3 | XenCore => 4 | Kdmp => 5 end.
End VmiArtifactFormat.

Definition status_code (status : VmiStatus) : Z :=
  match status with
  | StatusOk => 0
  | InvalidArgument => 1
  | ArtifactError => 2
  | ReadError => 3
  | BufferTooSmall => 4
  | StatusPanic => 255
  end.

Definition vmi_abi_version : Z := ABI_VERSION.

(** ** The caller's memory *)

Abbreviation CMemory := (gmap Z byte).

Fixpoint store_bytes (memory : CMemory) (address : Z) (bytes : list byte) : option CMemory :=
  match bytes with
  | [] => Some memory
  | b :: rest =>
      match memory !! address with
      | Some _ => store_bytes (<[address := b]> memory) (address + 1) rest
      | None => None
      end
  end.

Fixpoint load_bytes (memory : CMemory) (address : Z) (count : nat) : option (list byte) :=
  match count with
  | O => Some []
  | S count =>
      b ← memory !! address; rest ← load_bytes memory (address + 1) count; Some (b :: rest)
  end.

(** [CStr::from_ptr]: the bytes before the first NUL. *)
Fixpoint c_string (fuel : nat) (memory : CMemory) (address : Z) : option (list byte) :=
  match fuel with
  | O => None
  | S fuel =>
      b ← memory !! address;
      if bool_decide (b = x00) then Some []
      else rest ← c_string fuel memory (address + 1); Some (b :: rest)
  end.

(** A pointer-sized or 64-bit object. *)
Definition word_bytes (value : Z) : list byte := le_bytes 8 value.

(** ** State *)

Record State : Type := mk_state {
  memory : CMemory;
  live_snapshots : Mutex (gmap Z SnapshotBundle.t);
  next_snapshot : Z;
  last_error : gmap Z string;
}.

Definition initial (memory : CMemory) : State := mk_state memory (mutex_new ∅) 1 ∅.

(** Calls, made by a thread. *)
Definition call (A : Type) : Type := State -> option (A * State).
#[global] Instance call_ret : MRet call := fun A a s => Some (a, s).
#[global] Instance call_bind : MBind call := fun A B k m s =>
  match m s with Some (a, s) => k a s | None => None end.

Definition set_memory (s : State) (m : CMemory) : State :=
  mk_state m (live_snapshots s) (next_snapshot s) (last_error s).

Definition write_memory (address : Z) (bytes : list byte) : call unit :=
  fun s => m ← store_bytes (memory s) address bytes; Some (tt, set_memory s m).

Definition read_c_string (address : Z) : call (list byte) :=
  fun s => bytes ← c_string (S (size (memory s))) (memory s) address; Some (bytes, s).

Definition set_error (thread : Z) (message : string) : call unit :=
  fun s => Some (tt, mk_state (memory s) (live_snapshots s) (next_snapshot s)
    (<[thread := message]> (last_error s))).

(** [set_error] and return. *)
Definition refuse (thread : Z) (message : string) (status : VmiStatus) : call VmiStatus :=
  let? _ := set_error thread message in mret status.

(** [validate_snapshot]. *)
Definition validate_snapshot (thread snapshot : Z) : call (result VmiStatus SnapshotBundle.t) :=
  fun s =>
    if snapshot =? 0 then
      (let? status := refuse thread "snapshot must not be null" InvalidArgument in mret (Err status)) s
    else
      match lock (live_snapshots s) with
      | Err error =>
          (let? status := refuse thread ("snapshot handle registry failed: " +:+ error) StatusPanic in
           mret (Err status)) s
      | Ok handles =>
          match handles !! snapshot with
          | Some bundle => Some (Ok bundle, s)
          | None =>
              (let? status := refuse thread "snapshot handle is not live" InvalidArgument in
               mret (Err status)) s
          end
      end.

Definition clear_snapshot_output (output : Z) : call unit := write_memory output (word_bytes 0).

(** ** Opening *)

Section open.
Context `{Allocator, Bitflags, FileSystem, Decompressors, SerdeJson}.

(** The loader of a format, nothing for an unknown one. *)
Definition load_artifact (path : string) (format raw_base : Z) : option (Result SnapshotBundle.t) :=
  if format =? 0 then Some (raw_file path (Gpa.new raw_base))
  else if format =? 1 then Some (elf_vmcore_file path)
  else if format =? 2 then Some (lime_file path)
  else if format =? 3 then Some (manifest_file path)
  else if format =? 4 then Some (xen_core_file path)
  else if format =? 5 then Some (kdmp_file path)
  else None.

(** The path given, copied. *)
Definition open_path (thread path out_snapshot : Z) : call (result VmiStatus string) :=
  let refused message status : call (result VmiStatus string) :=
    let? _ := clear_snapshot_output out_snapshot in
    let? status := refuse thread message status in
    mret (Err status) in
  let? bytes := read_c_string path in
  match Utf8.from_utf8 bytes with
  | Err error => refused ("path is not valid UTF-8: " +:+ Utf8.display error) InvalidArgument
  | Ok _ =>
      if bool_decide (bytes = []) then refused "path must not be empty"%string InvalidArgument
      else if MAX_PATH_BYTES <? zlen bytes then
        refused ("path exceeds " +:+ dec MAX_PATH_BYTES +:+ " bytes") InvalidArgument
      else
        match try_reserve "artifact path" (zlen bytes) with
        | Err error => refused ("failed to allocate artifact path: " +:+ error) StatusPanic
        | Ok _ => mret (Ok (string_of_bytes bytes))
        end
  end.

(** [next_snapshot_token], under the lock of the table. *)
Definition next_snapshot_token (counter : Z) : option Z * Z :=
  match checked_add 64 counter 1 with
  | Some next => (Some counter, next)
  | None => (None, counter)
  end.

(** A loaded bundle enters the table. *)
Definition register_snapshot (thread : Z) (bundle : SnapshotBundle.t) (out_snapshot : Z) : call VmiStatus :=
  fun s =>
    match lock (live_snapshots s) with
    | Err error => refuse thread ("snapshot handle registry failed: " +:+ error) StatusPanic s
    | Ok handles =>
        match try_reserve "snapshot handle registry" (Z.of_nat (size handles) + 1) with
        | Err error => refuse thread ("failed to grow snapshot handle registry: " +:+ error) StatusPanic s
        | Ok _ =>
            match next_snapshot_token (next_snapshot s) with
            | (None, _) => refuse thread "snapshot handle space exhausted" StatusPanic s
            | (Some token, next) =>
                (let? _ := write_memory out_snapshot (word_bytes token) in
                 refuse thread "" StatusOk)
                  (mk_state (memory s) (store (live_snapshots s) (<[token := bundle]> handles)) next (last_error s))
            end
        end
    end.

Definition vmi_snapshot_open (thread path format raw_base out_snapshot : Z) : call VmiStatus :=
  if (path =? 0) || (out_snapshot =? 0) then
    refuse thread "path and out_snapshot must not be null" InvalidArgument
  else
    let? owned_path := open_path thread path out_snapshot in
    match owned_path : result VmiStatus string with
    | Err status => mret status
    | Ok owned_path =>
        let? _ := clear_snapshot_output out_snapshot in
        match load_artifact owned_path format raw_base with
        | None => refuse thread ("unknown artifact format " +:+ dec format) InvalidArgument
        | Some (Err error) => refuse thread (VmiError.display error) ArtifactError
        | Some (Ok bundle) => register_snapshot thread bundle out_snapshot
        end
    end.
End open.

(** ** Using a snapshot *)

Section use.
Context `{Bitflags} (thread : Z).

(** An operation on a live snapshot. *)
Definition with_snapshot (snapshot : Z) (k : SnapshotBundle.t -> call VmiStatus) : call VmiStatus :=
  let? handle := validate_snapshot thread snapshot in
  match handle : result VmiStatus SnapshotBundle.t with
  | Err status => mret status
  | Ok bundle => k bundle
  end.

(** The buffer of the caller as a slice, read into and left as [read_into]
    leaves it. *)
Definition read_output (bundle : SnapshotBundle.t) (address output output_length : Z) : call VmiStatus :=
  fun s =>
    buffer ← load_bytes (memory s) output (Z.to_nat output_length);
    let '(r, buffer) := SnapshotBundle.read_into bundle (Gpa.new address) buffer in
    (let? _ := write_memory output buffer in
     match r with
     | Ok _ => refuse thread "" StatusOk
     | Err error => refuse thread (VmiError.display error) ReadError
     end) s.

Definition vmi_snapshot_read (snapshot address output output_length : Z) : call VmiStatus :=
  if (output =? 0) && negb (output_length =? 0) then
    refuse thread "snapshot and non-empty output must not be null" InvalidArgument
  else if isize_max <? output_length then
    refuse thread "snapshot output length exceeds Rust slice limits" InvalidArgument
  else with_snapshot snapshot (fun bundle => read_output bundle address output output_length).

Definition vmi_snapshot_segment_count (snapshot out_count : Z) : call VmiStatus :=
  if out_count =? 0 then refuse thread "snapshot and out_count must not be null" InvalidArgument
  else
    let? _ := write_memory out_count (word_bytes 0) in
    with_snapshot snapshot (fun bundle =>
      let? _ := write_memory out_count (word_bytes (zlen (SnapshotBundle.segments bundle))) in
      refuse thread "" StatusOk).

(** The segment asked for. *)
Definition write_segment (bundle : SnapshotBundle.t) (index out_start out_length : Z) : call VmiStatus :=
  match SnapshotBundle.segments bundle !! Z.to_nat index with
  | None => refuse thread ("segment index " +:+ dec index +:+ " is out of range") InvalidArgument
  | Some segment =>
      let? _ := write_memory out_start (word_bytes (SnapshotSegment.start_raw segment)) in
      let? _ := write_memory out_length (word_bytes (MemoryRange.length (SnapshotSegment.range segment))) in
      refuse thread "" StatusOk
  end.

Definition vmi_snapshot_segment (snapshot index out_start out_length : Z) : call VmiStatus :=
  if (out_start =? 0) || (out_length =? 0) then
    refuse thread "snapshot and segment outputs must not be null" InvalidArgument
  else if out_start =? out_length then
    let? _ := write_memory out_start (word_bytes 0) in
    refuse thread "segment start and length outputs must not alias" InvalidArgument
  else
    let? _ := write_memory out_start (word_bytes 0) in
    let? _ := write_memory out_length (word_bytes 0) in
    with_snapshot snapshot (fun bundle => write_segment bundle index out_start out_length).

Definition vmi_snapshot_close (snapshot : Z) : call unit :=
  fun s =>
    if snapshot =? 0 then set_error thread "" s
    else
      match lock (live_snapshots s) with
      | Err error => set_error thread ("snapshot handle registry failed: " +:+ error) s
      | Ok handles =>
          match handles !! snapshot with
          | None => set_error thread "snapshot handle is not live" s
          | Some _ =>
              set_error thread ""
                (mk_state (memory s) (store (live_snapshots s) (delete snapshot handles)) (next_snapshot s)
                   (last_error s))
          end
      end.

Definition vmi_last_error (output output_length : Z) : call Z :=
  fun s =>
    let error := from_option (fun e => e) ""%string (last_error s !! thread) in
    let required := saturating_add 64 (Z.of_nat (String.length error)) 1 in
    if negb (output =? 0) && (required <=? output_length) then
      (let? _ := write_memory output (bytes_of_string error ++ [x00]) in mret required) s
    else Some (required, s).
End use.
