(* ===== verification/FfiFacts.v ===== *)
(** * What the C interface guarantees

    Handles are never reused and never stand for another snapshot; a call
    on anything else is refused; reads are all or nothing; a call changes
    the caller's memory within its outputs only. *)

From S2P Require Import Prelude.
From S2P Require Import Types.
From S2P Require Import DriverApi.
From S2P Require Import Text.
From S2P Require Import Host.
From S2P Require Import Artifact.
From S2P Require Import ArtifactFiles.
From S2P Require Import ArtifactFilesFacts.
From S2P Require Import Snapshot.
From S2P Require Import Ffi.

(** ** The caller's memory *)

Lemma store_bytes_lookup m a bs m' : store_bytes m a bs = Some m' ->
  forall x, m' !! x = if bool_decide (a <= x < a + zlen bs) then bs !! Z.to_nat (x - a) else m !! x.
Proof.
  revert m a. induction bs as [|b bs IH]; intros m a; cbn [store_bytes].
  - intros [= ->] x. rewrite bool_decide_eq_false_2; [done|]. change (zlen []) with 0. lia.
  - destruct (m !! a); [|done]. intros Hs x. rewrite (IH _ _ Hs), zlen_cons.
    destruct (decide (x = a)) as [->|Hne].
    + rewrite bool_decide_eq_false_2, bool_decide_eq_true_2 by (pose proof (zlen_nonneg bs); lia).
      by rewrite lookup_insert_eq, Z.sub_diag.
    + rewrite lookup_insert_ne by done. case_bool_decide.
      * rewrite bool_decide_eq_true_2 by lia.
        by replace (Z.to_nat (x - a)) with (S (Z.to_nat (x - (a + 1)))) by lia.
      * by rewrite bool_decide_eq_false_2 by lia.
Qed.

Lemma load_bytes_family m a n bs :
  load_bytes m a n = Some bs <-> length bs = n /\ forall i, (i < n)%nat -> m !! (a + Z.of_nat i) = bs !! i.
Proof.
  revert a bs. induction n as [|n IH]; intros a bs; cbn [load_bytes].
  - split; [intros [= <-]; split; [done|lia]|]. intros [Hl _]. by destruct bs.
  - split.
    + intros Hl. destruct (m !! a) as [b|] eqn:Hb; cbn in Hl; [|done].
      destruct (load_bytes m (a + 1) n) as [rest|] eqn:Hr; cbn in Hl; [|done]. injection Hl as <-.
      apply IH in Hr as [Hl Hi]. split; [cbn; lia|]. intros [|i] Hlt; [by rewrite Z.add_0_r|].
      cbn. rewrite <- Hi by lia. f_equal. lia.
    + intros [Hl Hi]. destruct bs as [|b bs]; [done|]. cbn in Hl.
      pose proof (Hi 0%nat ltac:(lia)) as H0. rewrite Z.add_0_r in H0. rewrite H0. cbn.
      rewrite (proj2 (IH (a + 1) bs)); [done|]. split; [lia|]. intros i Hlt.
      replace (a + 1 + Z.of_nat i) with (a + Z.of_nat (S i)) by lia. exact (Hi (S i) ltac:(lia)).
Qed.

(** What was stored is what is loaded. *)
Lemma load_store m a bs m' : store_bytes m a bs = Some m' -> load_bytes m' a (length bs) = Some bs.
Proof.
  intros Hs. apply load_bytes_family. split; [done|]. intros i Hi.
  rewrite (store_bytes_lookup _ _ _ _ Hs), bool_decide_eq_true_2 by (unfold zlen; lia).
  f_equal. lia.
Qed.

(** Memory that can be read can be written. *)
Lemma store_loaded m a bs :
  (forall i, (i < length bs)%nat -> is_Some (m !! (a + Z.of_nat i))) -> is_Some (store_bytes m a bs).
Proof.
  revert m a. induction bs as [|b bs IH]; intros m a Hall; cbn [store_bytes]; [by eexists|].
  destruct (Hall 0%nat) as [x Hx]; [cbn; lia|]. rewrite Z.add_0_r in Hx. rewrite Hx. apply IH.
  intros i Hi. destruct (decide (a + 1 + Z.of_nat i = a)) as [E|Hne]; [lia|].
  rewrite lookup_insert_ne by lia. replace (a + 1 + Z.of_nat i) with (a + Z.of_nat (S i)) by lia.
  apply Hall. cbn. lia.
Qed.

Lemma load_bytes_Some m a n bs i : load_bytes m a n = Some bs -> (i < n)%nat -> is_Some (m !! (a + Z.of_nat i)).
Proof.
  intros [Hl Hi]%load_bytes_family Hlt. rewrite Hi by done. apply lookup_lt_is_Some. lia.
Qed.

(** ** The effects of a call *)

Lemma call_bind_Some {A B} (m : call A) (k : A -> call B) s r :
  mbind k m s = Some r <-> exists a s1, m s = Some (a, s1) /\ k a s1 = Some r.
Proof.
  unfold mbind, call_bind. destruct (m s) as [[a s1]|]; [|naive_solver].
  split; [by eauto|]. by intros (? & ? & [= <- <-] & ?).
Qed.

Definition with_error (thread : Z) (message : string) (s : State) : State :=
  mk_state (memory s) (live_snapshots s) (next_snapshot s) (<[thread := message]> (last_error s)).

Lemma refuse_eq thread message status s :
  refuse thread message status s = Some (status, with_error thread message s).
Proof. done. Qed.

Lemma write_memory_Some a bs s u s' : write_memory a bs s = Some (u, s') ->
  exists m, store_bytes (memory s) a bs = Some m /\ s' = set_memory s m.
Proof.
  unfold write_memory. destruct (store_bytes _ _ _) as [m|]; [|done]. intros [= <- <-]. by exists m.
Qed.

(** Calls that leave the table of snapshots alone. *)
Definition same_table (s s' : State) : Prop :=
  live_snapshots s' = live_snapshots s /\ next_snapshot s' = next_snapshot s.

Definition quiet {A} (m : call A) : Prop := forall s a s', m s = Some (a, s') -> same_table s s'.

Lemma quiet_ret {A} (a : A) : quiet (mret a).
Proof. by intros s ? ? [= <- <-]. Qed.

Lemma quiet_bind {A B} (m : call A) (k : A -> call B) : quiet m -> (forall a, quiet (k a)) -> quiet (mbind k m).
Proof.
  intros Hm Hk s b s' (a & s1 & H1 & H2)%call_bind_Some.
  destruct (Hm _ _ _ H1), (Hk _ _ _ _ H2). split; congruence.
Qed.

Lemma quiet_refuse thread message status : quiet (refuse thread message status).
Proof. by intros s a s' [= <- <-]. Qed.

Lemma quiet_set_error thread message : quiet (set_error thread message).
Proof. by intros s a s' [= <- <-]. Qed.

Lemma quiet_write a bs : quiet (write_memory a bs).
Proof. intros s u s' (m & _ & ->)%write_memory_Some. done. Qed.

Lemma quiet_c_string a : quiet (read_c_string a).
Proof. intros s bs s'. unfold read_c_string. destruct (c_string _ _ _); [|done]. by intros [= <- <-]. Qed.

Create HintDb ffi discriminated.
#[local] Hint Resolve quiet_ret quiet_bind quiet_refuse quiet_set_error quiet_write quiet_c_string : ffi.

Lemma quiet_validate thread snapshot : quiet (validate_snapshot thread snapshot).
Proof.
  intros s a s'. unfold validate_snapshot. destruct (_ =? _); [by intros [= <- <-]|].
  destruct (lock _) as [handles|e]; [|by intros [= <- <-]].
  destruct (handles !! snapshot); by intros [= <- <-].
Qed.

Lemma quiet_with_snapshot thread snapshot k : (forall bundle, quiet (k bundle)) -> quiet (with_snapshot thread snapshot k).
Proof.
  intros Hk. apply quiet_bind; [apply quiet_validate|]. intros [bundle|status]; [apply Hk|apply quiet_ret].
Qed.

(** The formats the header names are those an open knows. *)
Lemma load_artifact_known `{Allocator, FileSystem, Decompressors, SerdeJson} path raw_base format :
  is_Some (load_artifact path format raw_base) <-> exists f, format = VmiArtifactFormat.code f.
Proof.
  unfold load_artifact. split.
  - repeat case_match; intros Hs; try (by destruct Hs); subst;
      [exists VmiArtifactFormat.Raw|exists VmiArtifactFormat.ElfVmcore|exists VmiArtifactFormat.Lime
      |exists VmiArtifactFormat.Manifest|exists VmiArtifactFormat.XenCore|exists VmiArtifactFormat.Kdmp];
      cbn; lia.
  - intros [[] ->]; cbn; eauto.
Qed.

(** The text a C string of the caller's memory spells: its bytes up to the
    first NUL. *)
Definition path_text (m : CMemory) (path : Z) (name : string) : Prop :=
  exists bytes, load_bytes m path (S (length bytes)) = Some (bytes ++ [x00]) /\ (x00 ∉ bytes) /\
    name = string_of_bytes bytes.

Section calls.
Context `{Allocator, Bitflags, FileSystem, Decompressors, SerdeJson} (thread : Z).

Lemma quiet_read_output bundle address output n : quiet (read_output thread bundle address output n).
Proof.
  intros s st s'. unfold read_output. destruct (load_bytes _ _ _) as [buffer|]; [|done]. cbn.
  destruct (SnapshotBundle.read_into _ _ _) as [[u|e] bs]; revert s st s'; intros s st s'; apply quiet_bind; eauto with ffi.
Qed.

Lemma quiet_read snapshot address output n : quiet (vmi_snapshot_read thread snapshot address output n).
Proof.
  unfold vmi_snapshot_read. destruct (_ && _); [eauto with ffi|]. destruct (_ <? _); [eauto with ffi|].
  apply quiet_with_snapshot. intros bundle. apply quiet_read_output.
Qed.

Lemma quiet_segment_count snapshot out : quiet (vmi_snapshot_segment_count thread snapshot out).
Proof.
  unfold vmi_snapshot_segment_count. destruct (_ =? _); [eauto with ffi|].
  apply quiet_bind; [eauto with ffi|]. intros _. apply quiet_with_snapshot. eauto with ffi.
Qed.

Lemma quiet_segment snapshot index out1 out2 : quiet (vmi_snapshot_segment thread snapshot index out1 out2).
Proof.
  unfold vmi_snapshot_segment, write_segment. destruct (_ || _); [eauto with ffi|].
  destruct (_ =? _); [eauto with ffi|]. apply quiet_bind; [eauto with ffi|]. intros _.
  apply quiet_bind; [eauto with ffi|]. intros _. apply quiet_with_snapshot. intros bundle.
  destruct (_ !! _); eauto 6 with ffi.
Qed.

Lemma quiet_last_error output n : quiet (vmi_last_error thread output n).
Proof.
  intros s r s'. unfold vmi_last_error. cbv zeta. destruct (_ && _); [|by intros [= <- <-]].
  apply quiet_bind; eauto with ffi.
Qed.

Lemma quiet_open_path path out : quiet (open_path thread path out).
Proof.
  unfold open_path. cbv zeta. apply quiet_bind; [eauto with ffi|]. intros bytes.
  destruct (Utf8.from_utf8 bytes); [|eauto 6 with ffi]. destruct (bool_decide _); [eauto 6 with ffi|].
  destruct (_ <? _); [eauto 6 with ffi|]. destruct (try_reserve _ _); eauto 6 with ffi.
Qed.

Lemma open_path_refuses path out s status s' :
  open_path thread path out s = Some (Err status, s') -> status <> StatusOk.
Proof.
  unfold open_path. cbv zeta. intros (bytes & s1 & _ & Ho)%call_bind_Some.
  destruct (Utf8.from_utf8 bytes); [destruct (bool_decide _); [|destruct (_ <? _); [|destruct (try_reserve _ _); [done|]]]|].
  all: apply call_bind_Some in Ho as (u & s2 & _ & Ho); cbn in Ho; by injection Ho as <- <-.
Qed.

(** *** Opening and closing *)

Lemma register_snapshot_Some bundle out s st s' :
  register_snapshot thread bundle out s = Some (st, s') ->
  (st <> StatusOk /\ same_table s s') \/
  (st = StatusOk /\ exists handles, lock (live_snapshots s) = Ok handles /\ next_snapshot s + 1 < 2 ^ 64 /\
     live_snapshots s' = store (live_snapshots s) (<[next_snapshot s := bundle]> handles) /\
     next_snapshot s' = next_snapshot s + 1 /\
     load_bytes (memory s') out 8 = Some (word_bytes (next_snapshot s))).
Proof.
  unfold register_snapshot. destruct (lock _) as [handles|e] eqn:Hl; [|by intros [= <- <-]; left].
  destruct (try_reserve _ _); [|by intros [= <- <-]; left].
  unfold next_snapshot_token. destruct (checked_add 64 _ 1) as [next|] eqn:Hc; [|by intros [= <- <-]; left].
  apply checked_add_Some in Hc as [-> Hc].
  intros (u & s1 & (m & Hm & ->)%write_memory_Some & Hr)%call_bind_Some. rewrite refuse_eq in Hr.
  injection Hr as <- <-. right. split; [done|]. exists handles. cbn. repeat (split; [done|]).
  apply load_store in Hm. exact Hm.
Qed.

Lemma c_string_text fuel m a bytes : c_string fuel m a = Some bytes ->
  load_bytes m a (S (length bytes)) = Some (bytes ++ [x00]) /\ (x00 ∉ bytes).
Proof.
  revert a bytes. induction fuel as [|fuel IH]; intros a bytes; cbn [c_string]; [done|].
  destruct (m !! a) as [b|] eqn:Hb; [|done]. cbn [mbind option_bind]. case_bool_decide as Hz.
  - intros [= <-]. subst b. cbn. rewrite Hb. split; [done|apply not_elem_of_nil].
  - destruct (c_string fuel m (a + 1)) as [rest|] eqn:Hr; [|done]. intros [= <-].
    apply IH in Hr as [Hl Hn]. split; [|by apply not_elem_of_cons].
    change (length (b :: rest)) with (S (length rest)). cbn [load_bytes] in *. rewrite Hb. cbn [mbind option_bind] in *.
    by rewrite Hl.
Qed.

Lemma open_path_text path out s name s' : open_path thread path out s = Some (Ok name, s') ->
  path_text (memory s) path name.
Proof.
  unfold open_path. intros (bytes & s1 & Hread & Hp)%call_bind_Some. unfold read_c_string in Hread.
  destruct (c_string _ _ _) as [text|] eqn:Hc; [|done]. injection Hread as <- <-. exists text.
  apply c_string_text in Hc as [? ?]. split; [done|]. split; [done|].
  assert (Hrefused : forall message status,
    (let? _ := clear_snapshot_output out in let? status := refuse thread message status in
     mret (@Err VmiStatus string status)) s <> Some (Ok name, s')).
  { intros message status (u & s2 & _ & Hr)%call_bind_Some. apply call_bind_Some in Hr as (? & ? & _ & Hr). done. }
  destruct (Utf8.from_utf8 text); [|by apply Hrefused in Hp].
  case_bool_decide; [by apply Hrefused in Hp|]. destruct (_ <? _); [by apply Hrefused in Hp|].
  destruct (try_reserve _ _); [|by apply Hrefused in Hp]. by injection Hp.
Qed.

Lemma open_Some path format raw_base out s st s' :
  vmi_snapshot_open thread path format raw_base out s = Some (st, s') ->
  (st <> StatusOk /\ same_table s s') \/
  (st = StatusOk /\ exists name bundle handles, path_text (memory s) path name /\
     load_artifact name format raw_base = Some (Ok bundle) /\
     lock (live_snapshots s) = Ok handles /\ next_snapshot s + 1 < 2 ^ 64 /\
     live_snapshots s' = store (live_snapshots s) (<[next_snapshot s := bundle]> handles) /\
     next_snapshot s' = next_snapshot s + 1 /\
     load_bytes (memory s') out 8 = Some (word_bytes (next_snapshot s))).
Proof.
  unfold vmi_snapshot_open. destruct (_ || _); [by intros [= <- <-]; left|].
  intros (owned & s1 & Hp & Ho)%call_bind_Some. pose proof (quiet_open_path _ _ _ _ _ Hp) as Hq1.
  destruct owned as [name|status].
  2:{ injection Ho as <- <-. left. split; [|done]. by apply open_path_refuses in Hp. }
  apply open_path_text in Hp.
  apply call_bind_Some in Ho as (u & s2 & Hc & Ho). pose proof (quiet_write _ _ _ _ _ Hc) as Hq2.
  destruct Hq1 as [E1 E2], Hq2 as [E3 E4]. rewrite E1 in E3. rewrite E2 in E4.
  destruct (load_artifact _ _ _) as [[bundle|e]|] eqn:Hl.
  - apply register_snapshot_Some in Ho. unfold same_table in *. rewrite E3, E4 in Ho.
    destruct Ho as [[? [? ?]]|[? (handles & ?)]]; [left|right]; [done|]. split; [done|]. by exists name, bundle, handles.
  - injection Ho as <- <-. by left.
  - injection Ho as <- <-. by left.
Qed.

Lemma close_Some snapshot s u s' : vmi_snapshot_close thread snapshot s = Some (u, s') ->
  next_snapshot s' = next_snapshot s /\
  (poisoned (live_snapshots s) = false ->
   live_snapshots s' = store (live_snapshots s) (delete snapshot (guarded (live_snapshots s))) \/ snapshot = 0 /\ live_snapshots s' = live_snapshots s).
Proof.
  unfold vmi_snapshot_close, set_error. destruct (Z.eqb_spec snapshot 0) as [->|Hne].
  { intros [= <- <-]. split; [done|]. intros _. by right. }
  destruct (lock _) as [handles|e] eqn:Hl.
  - unfold lock in Hl. destruct (poisoned (live_snapshots s)) eqn:Hp; [done|]. injection Hl as <-.
    destruct (guarded _ !! snapshot) as [b|] eqn:Hs; intros [= <- <-]; (split; [done|]); intros _; left; [done|].
    cbn. unfold store. rewrite delete_id by done. by destruct (live_snapshots s).
  - unfold lock in Hl. destruct (poisoned (live_snapshots s)) eqn:Hp; [|done]. intros [= <- <-]. split; [done|]. congruence.
Qed.
End calls.

(** ** Runs

    Threads call one after the other; between calls the caller does with its
    memory what it likes. *)

Inductive c_call : Type :=
| COpen (files : FileSystem) (path format raw_base out_snapshot : Z)
| CRead (snapshot address output output_length : Z)
| CSegmentCount (snapshot out_count : Z)
| CSegment (snapshot index out_start out_length : Z)
| CClose (snapshot : Z)
| CLastError (output output_length : Z).

Inductive outcome : Type := Status (status : VmiStatus) | Done | Required (length : Z).

Record action : Type := MkAction { a_memory : CMemory; a_thread : Z; a_call : c_call }.

(** A call with the memory it found, what came of it, and the handle it gave
    its caller. *)
Record event : Type := MkEvent { e_memory : CMemory; e_call : c_call; e_outcome : outcome; e_handle : option Z }.

Section runs.
Context `{Allocator, Bitflags, Decompressors, SerdeJson}.

Definition perform (thread : Z) (c : c_call) : call outcome :=
  match c with
  | COpen files path format raw_base out =>
      let? status := vmi_snapshot_open thread path format raw_base out in mret (Status status)
  | CRead snapshot address output n =>
      let? status := vmi_snapshot_read thread snapshot address output n in mret (Status status)
  | CSegmentCount snapshot out =>
      let? status := vmi_snapshot_segment_count thread snapshot out in mret (Status status)
  | CSegment snapshot index out1 out2 =>
      let? status := vmi_snapshot_segment thread snapshot index out1 out2 in mret (Status status)
  | CClose snapshot => let? _ := vmi_snapshot_close thread snapshot in mret Done
  | CLastError output n => let? required := vmi_last_error thread output n in mret (Required required)
  end.

(** The handle an open that succeeded wrote. *)
Definition given_handle (c : c_call) (o : outcome) (m : CMemory) : option Z :=
  match c, o with
  | COpen _ _ _ _ out, Status StatusOk => le_val <$> load_bytes m out 8
  | _, _ => None
  end.

Definition act (a : action) (s : State) : option (event * State) :=
  match perform (a_thread a) (a_call a) (set_memory s (a_memory a)) with
  | Some (o, s') => Some (MkEvent (a_memory a) (a_call a) o (given_handle (a_call a) o (memory s')), s')
  | None => None
  end.

Fixpoint run (actions : list action) (s : State) : option (list event * State) :=
  match actions with
  | [] => Some ([], s)
  | a :: rest =>
      match act a s with
      | Some (e, s') => match run rest s' with Some (es, s'') => Some (e :: es, s'') | None => None end
      | None => None
      end
  end.

(** *** What the caller knows *)

Definition live_step (live : gset Z) (e : event) : gset Z :=
  match e_handle e, e_call e with
  | Some h, _ => {[h]} ∪ live
  | None, CClose h => live ∖ {[h]}
  | None, _ => live
  end.

(** The handles given and not closed since. *)
Definition live_handles (es : list event) : gset Z := foldl live_step ∅ es.

Definition handles_given (es : list event) : list Z := omap e_handle es.

(** The snapshot an open stands for: what the loader of its format makes of
    the file its path argument named at the call. *)
Definition opened_as (e : event) (bundle : SnapshotBundle.t) : Prop :=
  match e_call e with
  | COpen files path format raw_base _ =>
      exists name, path_text (e_memory e) path name /\ load_artifact name format raw_base = Some (Ok bundle)
  | _ => False
  end.

Definition table (s : State) : gmap Z SnapshotBundle.t := guarded (live_snapshots s).

Record ffi_inv (es : list event) (s : State) : Prop := {
  inv_lock : poisoned (live_snapshots s) = false;
  inv_next : 1 <= next_snapshot s < 2 ^ 64;
  inv_given : Forall (fun h => 0 < h < next_snapshot s) (handles_given es);
  inv_nodup : NoDup (handles_given es);
  inv_live : dom (table s) = live_handles es;
  inv_table : forall h bundle, table s !! h = Some bundle ->
    0 < h < next_snapshot s /\ exists e, e ∈ es /\ e_handle e = Some h /\ opened_as e bundle;
}.

Lemma ffi_inv_initial m : ffi_inv [] (initial m).
Proof.
  split; cbn; try done. all: first [by constructor|by rewrite dom_empty_L].
Qed.

Lemma live_handles_snoc es e : live_handles (es ++ [e]) = live_step (live_handles es) e.
Proof. unfold live_handles. by rewrite foldl_app. Qed.

Lemma handles_given_snoc es e : handles_given (es ++ [e]) = handles_given es ++ option_list (e_handle e).
Proof. unfold handles_given. rewrite omap_app. cbn. by destruct (e_handle e). Qed.

(** A call that gives nothing and closes nothing. *)
Lemma ffi_inv_quiet es s s' e :
  ffi_inv es s -> same_table s s' -> e_handle e = None -> live_step (live_handles es) e = live_handles es ->
  ffi_inv (es ++ [e]) s'.
Proof.
  intros [Hl Hn Hg Hd Hlive Ht] [E1 E2] He Hs.
  split; unfold table; rewrite ?E1, ?E2, ?handles_given_snoc, ?live_handles_snoc, ?He, ?app_nil_r, ?Hs; try done.
  intros h b Hb. destruct (Ht h b Hb) as (? & e' & Hin & ?). split; [done|]. exists e'.
  rewrite elem_of_app. auto.
Qed.

Lemma ffi_inv_open es s s' e bundle :
  ffi_inv es s -> next_snapshot s + 1 < 2 ^ 64 ->
  live_snapshots s' = store (live_snapshots s) (<[next_snapshot s := bundle]> (table s)) ->
  next_snapshot s' = next_snapshot s + 1 -> e_handle e = Some (next_snapshot s) -> opened_as e bundle ->
  ffi_inv (es ++ [e]) s'.
Proof.
  intros [Hl Hn Hg Hd Hlive Ht] Hmax E1 E2 He Ho.
  split; unfold table; rewrite ?E1, ?E2, ?handles_given_snoc, ?live_handles_snoc, ?He; cbn [option_list poisoned store guarded].
  - done.
  - lia.
  - apply Forall_app. split; [|apply Forall_singleton; lia]. eapply Forall_impl; [exact Hg|]. cbn. lia.
  - apply NoDup_app. split; [done|]. split; [|apply NoDup_singleton].
    intros h Hh ->%list_elem_of_singleton. rewrite Forall_forall in Hg. specialize (Hg _ Hh). cbn in Hg. lia.
  - unfold live_step. rewrite He, dom_insert_L. by rewrite <- Hlive.
  - intros h b. destruct (decide (h = next_snapshot s)) as [->|Hne].
    + rewrite lookup_insert_eq. intros [= <-]. split; [lia|]. exists e. rewrite elem_of_app, list_elem_of_singleton. auto.
    + rewrite lookup_insert_ne by done. intros Hb. destruct (Ht h b Hb) as (? & e' & Hin & ?).
      split; [lia|]. exists e'. rewrite elem_of_app. auto.
Qed.

Lemma ffi_inv_close es s s' e h :
  ffi_inv es s -> e_call e = CClose h -> e_handle e = None -> next_snapshot s' = next_snapshot s ->
  live_snapshots s' = store (live_snapshots s) (delete h (table s)) -> ffi_inv (es ++ [e]) s'.
Proof.
  intros [Hl Hn Hg Hd Hlive Ht] Hc He E2 E1.
  split; unfold table; rewrite ?E1, ?E2, ?handles_given_snoc, ?live_handles_snoc, ?He, ?app_nil_r; cbn [poisoned store guarded]; try done.
  - unfold live_step. rewrite He, Hc, dom_delete_L. by rewrite <- Hlive.
  - intros h' b [_ Hb]%lookup_delete_Some. destruct (Ht h' b Hb) as (? & e' & Hin & ?).
    split; [done|]. exists e'. rewrite elem_of_app. auto.
Qed.

Lemma ffi_inv_memory es s m : ffi_inv es s -> ffi_inv es (set_memory s m).
Proof. by intros [? ? ? ? ? ?]. Qed.

Lemma ffi_inv_act es s a e s' : ffi_inv es s -> act a s = Some (e, s') -> ffi_inv (es ++ [e]) s'.
Proof.
  intros Hinv%(ffi_inv_memory _ _ (a_memory a)). unfold act. destruct a as [m thread c]. cbn [a_memory a_thread a_call] in *.
  set (s1 := set_memory s m) in *. assert (Hm : memory s1 = m) by done. clearbody s1.
  destruct (perform thread c s1) as [[o s2]|] eqn:Hp; [|done]. intros [= <- <-].
  destruct c as [files path format raw_base out|h address output n|h out|h index out1 out2|h|output n];
    cbn [perform] in Hp; apply call_bind_Some in Hp as (r & s3 & Hc & Hr); cbn in Hr; injection Hr as <- <-.
  2-4,6: eapply ffi_inv_quiet; [exact Hinv| |done|done];
    first [by eapply quiet_read|by eapply quiet_segment_count|by eapply quiet_segment|by eapply quiet_last_error].
  - apply open_Some in Hc as [[Hne Hq]|(-> & name & bundle & handles & Hname & Hl & Hlock & Hmax & E1 & E2 & Hb)].
    + eapply ffi_inv_quiet; [exact Hinv|exact Hq|by destruct r|by destruct r].
    + unfold lock in Hlock. rewrite (inv_lock _ _ Hinv) in Hlock. injection Hlock as <-.
      eapply ffi_inv_open; [exact Hinv|exact Hmax|exact E1|exact E2| |by exists name; rewrite <- Hm].
      cbn [e_handle given_handle]. rewrite Hb. cbn [fmap option_fmap option_map]. f_equal. unfold word_bytes. rewrite le_val_bytes.
      apply Z.mod_small. pose proof (inv_next _ _ Hinv). cbn. lia.
  - apply close_Some in Hc as [E2 E1]. destruct (E1 (inv_lock _ _ Hinv)) as [E|[-> E]].
    + by eapply ffi_inv_close.
    + eapply ffi_inv_close; [exact Hinv|done..|]. rewrite E.
      rewrite delete_id; [unfold table; by destruct (live_snapshots s1)|].
      destruct (table s1 !! 0) as [b|] eqn:Hb; [|done]. destruct (inv_table _ _ Hinv 0 b Hb) as [? _]. lia.
Qed.

Lemma ffi_inv_run es actions s es' s' : ffi_inv es s -> run actions s = Some (es', s') -> ffi_inv (es ++ es') s'.
Proof.
  revert es s es'. induction actions as [|a actions IH]; intros es s es' Hinv; cbn [run].
  - intros [= <- <-]. by rewrite app_nil_r.
  - destruct (act a s) as [[e s1]|] eqn:Ha; [|done]. destruct (run actions s1) as [[es1 s2]|] eqn:Hr; [|done].
    intros [= <- <-]. rewrite cons_middle, app_assoc. eapply IH; [|exact Hr]. by eapply ffi_inv_act.
Qed.

Lemma reached m actions es s : run actions (initial m) = Some (es, s) -> ffi_inv es s.
Proof. intros Hr. change es with ([] ++ es). eapply ffi_inv_run; [apply ffi_inv_initial|exact Hr]. Qed.

Lemma not_live_refused es s thread h : ffi_inv es s -> h ∉ live_handles es ->
  exists message, message <> ""%string /\
    validate_snapshot thread h s = Some (Err InvalidArgument, with_error thread message s).
Proof.
  intros Hinv Hh. unfold validate_snapshot. destruct (_ =? _); [eexists; split; [|reflexivity]; discriminate|].
  unfold lock. rewrite (inv_lock _ _ Hinv). fold (table s).
  replace (table s !! h) with (@None SnapshotBundle.t); [eexists; split; [|reflexivity]; discriminate|].
  symmetry. apply not_elem_of_dom. by rewrite (inv_live _ _ Hinv).
Qed.

Lemma live_validated es s thread h bundle : ffi_inv es s -> table s !! h = Some bundle ->
  validate_snapshot thread h s = Some (Ok bundle, s).
Proof.
  intros Hinv Hb. unfold validate_snapshot. destruct (inv_table _ _ Hinv h bundle Hb) as [Hh _].
  rewrite (proj2 (Z.eqb_neq h 0)) by lia. unfold lock. rewrite (inv_lock _ _ Hinv). fold (table s). by rewrite Hb.
Qed.

(** The base of a raw image is a 64-bit number. *)
Definition base_typed (e : event) : Prop :=
  match e_call e with COpen _ _ _ raw_base _ => in_u64 raw_base | _ => True end.

Lemma opened_loaded_bundle e bundle : base_typed e -> opened_as e bundle -> loaded bundle.
Proof.
  unfold base_typed, opened_as. destruct (e_call e) as [files path format raw_base out|?|?|?|?|?]; [|done..].
  intros Hbase (name & _ & Hl). unfold load_artifact in Hl.
  destruct (format =? 0); [injection Hl as Hl; eapply raw_file_loaded; [|exact Hl]; exact Hbase|].
  destruct (format =? 1); [injection Hl as Hl; eapply elf_file_loaded; by left|].
  destruct (format =? 2); [injection Hl as Hl; by eapply lime_file_loaded|].
  destruct (format =? 3); [injection Hl as Hl; by eapply manifest_loaded|].
  destruct (format =? 4); [injection Hl as Hl; eapply elf_file_loaded; by right|].
  destruct (format =? 5); [injection Hl as Hl; by eapply kdmp_file_loaded|done].
Qed.

Lemma table_memory es s h bundle : ffi_inv es s -> Forall base_typed es -> table s !! h = Some bundle ->
  ByteMemory (SnapshotBundle.read_into bundle) (BundleSpec.byte_at (SnapshotBundle.segments bundle)).
Proof.
  intros Hinv Htyped Hb. destruct (inv_table _ _ Hinv h bundle Hb) as (_ & e & Hin & _ & Ho).
  rewrite Forall_forall in Htyped. destruct (opened_loaded_bundle e bundle (Htyped e Hin) Ho).
  by apply bundle_byte_memory.
Qed.
End runs.

(** * Properties *)

(** A caller's memory: a path at 16, an output word at 32, a buffer at 48.
    Two opens, a close of the first handle, a read through it. *)
Definition caller_memory : CMemory :=
  list_to_map (zip (seqZ 16 2) [x6d; x00] ++ zip (seqZ 32 8) (replicate 8 xff) ++ zip (seqZ 48 4) (replicate 4 xee)).

Definition sample_run : list action :=
  let does thread c := MkAction caller_memory thread c in
  let opening := COpen (example_files [x61; x62; x63; x64]) 16 0 0x1000 32 in
  [does 1 opening; does 2 opening; does 1 (CClose 1); does 2 (CRead 1 0x1000 48 4); does 1 (CRead 2 0x1001 48 2)].

Definition sample_result : option (list event * State) :=
  @run ample_allocator bitflags_u64 no_decompressors example_json sample_run (initial ∅).

Example sample_outcomes :
  (fun r : list event * State => e_outcome <$> r.1) <$> sample_result =
    Some [Status StatusOk; Status StatusOk; Done; Status InvalidArgument; Status StatusOk].
Proof. vm_compute. reflexivity. Qed.

(** C29: C handles are sound.  Over any run of calls by any threads, the
    handles given are non-null and never given twice; the table holds
    exactly the handles given and not closed since, each with the snapshot
    the open that gave it loaded from the file its path argument named; and a read through anything else is
    refused as an invalid argument, with nothing else changed. *)
Theorem ffi_handles_sound `{Allocator, Bitflags, Decompressors, SerdeJson} (m : CMemory)
    (actions : list action) (es : list event) (s : State)
    (Hrun : run actions (initial m) = Some (es, s)) :
  NoDup (handles_given es) /\ Forall (fun h => 0 < h < 2 ^ 64) (handles_given es) /\
  dom (table s) = live_handles es /\
  (forall h bundle, table s !! h = Some bundle ->
     exists e, e ∈ es /\ e_handle e = Some h /\ opened_as e bundle) /\
  (forall thread h address output n status s', h ∉ live_handles es ->
     vmi_snapshot_read thread h address output n s = Some (status, s') ->
     status = InvalidArgument /\ memory s' = memory s /\ same_table s s').
Proof.
  pose proof (reached _ _ _ _ Hrun) as Hinv. pose proof (inv_next _ _ Hinv) as Hn.
  split; [apply Hinv|]. split.
  { eapply Forall_impl; [apply (inv_given _ _ Hinv)|]. cbn. lia. }
  split; [apply Hinv|]. split; [intros h b Hb; apply (inv_table _ _ Hinv h b Hb)|].
  intros thread h address output n status s' Hh. unfold vmi_snapshot_read.
  destruct (_ && _); [by intros [= <- <-]|]. destruct (_ <? _); [by intros [= <- <-]|].
  destruct (not_live_refused es s thread h Hinv Hh) as (message & _ & Hv).
  unfold with_snapshot, mbind, call_bind. rewrite Hv. by intros [= <- <-].
Qed.

Lemma ffi_handles_sound_witness :
  exists es s, sample_result = Some (es, s) /\ handles_given es = [1; 2] /\ NoDup (handles_given es) /\
    dom (table s) = live_handles es.
Proof.
  destruct sample_result as [[es s]|] eqn:E; [|vm_compute in E; discriminate].
  pose proof E as Hrun. unfold sample_result in Hrun.
  destruct (@ffi_handles_sound ample_allocator bitflags_u64 no_decompressors example_json _ sample_run es s Hrun)
    as (Hd & _ & Hl & _).
  exists es, s. split; [reflexivity|]. split; [|split; [exact Hd|exact Hl]].
  assert (Hes : Some (handles_given es) = (fun r : list event * State => handles_given r.1) <$> sample_result)
    by (rewrite E; reflexivity).
  clear - Hes. vm_compute in Hes. injection Hes as Hes. exact Hes.
Defined.

Section reads.
Context `{Allocator, Bitflags, Decompressors, SerdeJson}.

(** A read of a live snapshot is one of its bundle into the buffer. *)
Lemma read_live es s thread h address output n bundle owned :
  ffi_inv es s -> table s !! h = Some bundle -> 0 <= n <= isize_max -> output <> 0 \/ n = 0 ->
  load_bytes (memory s) output (Z.to_nat n) = Some owned ->
  vmi_snapshot_read thread h address output n s =
    (let '(r, bytes) := SnapshotBundle.read_into bundle (Gpa.new address) owned in
     m ← store_bytes (memory s) output bytes;
     match r with
     | Ok _ => Some (StatusOk, with_error thread "" (set_memory s m))
     | Err error => Some (ReadError, with_error thread (VmiError.display error) (set_memory s m))
     end).
Proof.
  intros Hinv Hlive Hn Ho Hm. unfold vmi_snapshot_read.
  replace ((output =? 0) && negb (n =? 0)) with false by lia.
  rewrite (proj2 (Z.ltb_ge isize_max n)) by lia. unfold with_snapshot.
  unfold mbind at 1, call_bind. rewrite (live_validated es) with (bundle := bundle) by done.
  unfold read_output. rewrite Hm. cbn [mbind option_bind].
  destruct (SnapshotBundle.read_into _ _ _) as [[u|e] bytes]; unfold mbind, call_bind, write_memory;
    by destruct (store_bytes _ _ _).
Qed.

Lemma store_same m a bs : load_bytes m a (length bs) = Some bs -> store_bytes m a bs = Some m.
Proof.
  intros Hl. destruct (store_loaded m a bs) as [m' Hs].
  { intros i Hi. by eapply load_bytes_Some. }
  rewrite Hs. f_equal. apply map_eq. intros x. rewrite (store_bytes_lookup _ _ _ _ Hs).
  case_bool_decide; [|done]. apply load_bytes_family in Hl as [_ Hl].
  unfold zlen in *. rewrite <- Hl by lia. f_equal. lia.
Qed.
End reads.

(** C30: a read through a C handle is all or nothing.  After any run, a read
    of a live handle into memory the caller owns fills the output with the
    snapshot's bytes when it has all of them, changing nothing else of the
    caller's memory; otherwise the memory is as it was and the status and
    the thread's last error name the failure.  The table and the other
    threads' errors stay, and the call always returns. *)
Theorem ffi_read_exact `{Allocator, Bitflags, Decompressors, SerdeJson} (m : CMemory)
    (actions : list action) (es : list event) (s : State) (thread h address output n : Z)
    (bundle : SnapshotBundle.t) (owned : list byte)
    (Hrun : run actions (initial m) = Some (es, s)) (Htyped : Forall base_typed es)
    (Hlive : table s !! h = Some bundle) (Hn : 0 <= n <= isize_max) (Houtput : output <> 0 \/ n = 0)
    (Hmemory : load_bytes (memory s) output (Z.to_nat n) = Some owned) :
  let byte_at i := BundleSpec.byte_at (SnapshotBundle.segments bundle) (address + Z.of_nat i) in
  let available := forall i, (i < Z.to_nat n)%nat -> is_Some (byte_at i) in
  let result status message s' :=
    vmi_snapshot_read thread h address output n s = Some (status, s') /\
    live_snapshots s' = live_snapshots s /\ last_error s' = <[thread := message]> (last_error s) in
  (available -> exists s', result StatusOk ""%string s' /\
     (forall i, (i < Z.to_nat n)%nat -> memory s' !! (output + Z.of_nat i) = byte_at i) /\
     forall x, ~ (output <= x < output + n) -> memory s' !! x = memory s !! x) /\
  (~ available -> exists s',
     result ReadError (VmiError.display (VmiError.ReadFailed address n)) s' /\ memory s' = memory s).
Proof.
  intros byte_at available result. unfold result.
  pose proof (reached _ _ _ _ Hrun) as Hinv.
  rewrite (read_live es s thread h address output n bundle owned) by done.
  pose proof (table_memory _ _ _ _ Hinv Htyped Hlive) as Hbundle.
  pose proof Hmemory as [Hlen Howned]%load_bytes_family. split.
  - intros Hall. destruct (list_of_family _ _ Hall) as (bytes & Hl & Hb).
    rewrite (byte_memory_read _ _ bytes) by (unfold zlen in *; rewrite ?Hl, ?Hlen; try lia; intros i Hi; apply Hb; lia).
    destruct (store_loaded (memory s) output bytes) as [m' Hs].
    { intros i Hi. eapply load_bytes_Some; [exact Hmemory|lia]. }
    rewrite Hs. cbn [mbind option_bind]. eexists. split; [done|]. cbn [memory with_error set_memory].
    pose proof (store_bytes_lookup _ _ _ _ Hs) as Hlk. unfold zlen in Hlk. rewrite Hl in Hlk. split.
    + intros i Hi. rewrite Hlk, bool_decide_eq_true_2 by lia. rewrite Hb by done. f_equal. lia.
    + intros x Hx. by rewrite Hlk, bool_decide_eq_false_2 by lia.
  - intros Hno. destruct (inv_table _ _ Hinv h bundle Hlive) as (_ & e & Hin & _ & Hopen).
    rewrite Forall_forall in Htyped. destruct (opened_loaded_bundle e bundle (Htyped e Hin) Hopen) as [Hwf Hs].
    rewrite read_into_refused by (done || (intros Hall; apply Hno; intros i Hi; apply Hall; lia)).
    rewrite store_same by (by rewrite Hlen). cbn [mbind option_bind]. eexists. unfold zlen. rewrite Hlen, Z2Nat.id by lia.
    by split.
Qed.

Lemma ffi_read_exact_witness :
  exists es s s', sample_result = Some (es, s) /\
    @vmi_snapshot_read bitflags_u64 1 2 0x1001 48 2 s = Some (StatusOk, s') /\ memory s' !! 49 = Some x63.
Proof.
  destruct sample_result as [[es s]|] eqn:E; [|vm_compute in E; discriminate].
  assert (Hes : Some (es, s) = sample_result) by (symmetry; exact E). vm_compute in Hes. injection Hes as Hes Hs.
  pose proof E as Hrun. unfold sample_result in Hrun.
  set (bundle := ArtifactFormats.from_raw "m" (Gpa.new 0x1000) [x61; x62; x63; x64]).
  destruct (@ffi_read_exact ample_allocator bitflags_u64 no_decompressors example_json _ sample_run es s
    1 2 0x1001 48 2 bundle [x62; x63] Hrun) as [Hok _].
  - rewrite Hes. unfold base_typed.
    repeat (apply Forall_cons_2; [cbn [e_call]; first [exact Logic.I|width_const]|]). apply Forall_nil_2.
  - rewrite Hs. vm_compute. reflexivity.
  - vm_compute. split; discriminate.
  - left. discriminate.
  - rewrite Hs. vm_compute. reflexivity.
  - destruct Hok as (s' & (Hread & _) & Hbytes & _).
    { intros [|[|i]] Hi; [by eexists|by eexists|vm_compute in Hi; lia]. }
    exists es, s, s'. split; [reflexivity|]. split; [exact Hread|].
    exact (Hbytes 1%nat ltac:(vm_compute; lia)).
Defined.
