(* ===== verification/LiveFacts.v ===== *)
(** * What the live providers guarantee

    A range saved by way of a temporary core, of VirtualBox, Xen or libvirt,
    is exactly the range of the core the command dumped, whole or not at all;
    nothing else on the disk changes and the core is removed. *)

From S2P Require Import Prelude.
From S2P Require Import Types.
From S2P Require Import DriverApi.
From S2P Require Import Text.
From S2P Require Import Host.
From S2P Require Import HostFs.
From S2P Require Import Sequence.
From S2P Require Import Publication.
From S2P Require Import PublicationFacts.
From S2P Require Import Artifact.
From S2P Require Import ArtifactFiles.
From S2P Require Import Snapshot.
From S2P Require Import Live.
From S2P Require Import VirtualBox.
From S2P Require Import Xen.
From S2P Require Import Libvirt.

(** ** A publication alone *)

(** The disk after a file is created whole under a name. *)
Definition with_file (path : Path) (bytes : list byte) (d d' : Disk) : Prop :=
  names d' = <[path := IsFile (next_inode d)]> (names d) /\
  forall i, content d' i = if decide (i = next_inode d) then bytes else content d i.

Section alone.
Context `{Allocator}.

Lemma run_publish_Ok errors temp dest bytes fs d d' :
  run_prog fs (publish errors temp dest bytes) d = (Ok tt, d') ->
  names d !! dest = None /\ with_file dest bytes d d'.
Proof.
  unfold publish, publish_body, with_file. cbn. intros Hr.
  repeat (case_match; simplify_eq/=).
  repeat match goal with Hl : <[temp := _]> _ !! temp = _ |- _ => rewrite lookup_insert_eq in Hl end.
  assert (Hne : temp <> dest) by (intros ->; by simplify_map_eq). simplify_map_eq. split; [done|]. split.
  - apply map_eq. intros p. rewrite lookup_delete, !lookup_insert.
    repeat case_decide; subst; try done. all: congruence.
  - intros i. unfold content. cbn [inodes]. rewrite !lookup_insert.
    repeat case_decide; subst; by rewrite ?decide_True.
Qed.

Lemma run_publish_clear errors temp dest bytes d :
  temp <> dest -> names d !! temp = None -> names d !! dest = None ->
  fst (run_prog [] (publish errors temp dest bytes) d) = Ok tt.
Proof.
  intros Hne Ht Hd. unfold publish, publish_body. cbn. rewrite Ht. cbn. rewrite lookup_insert_eq. cbn.
  rewrite lookup_insert_ne, Hd by done. cbn. by rewrite lookup_insert_ne, lookup_insert_eq by done.
Qed.

Lemma run_publish_range_Ok vendor pid sequence path bytes fs d d' :
  run_prog fs (publish_range vendor pid sequence path bytes) d = (Ok tt, d') ->
  names d !! path = None /\ with_file path bytes d d'.
Proof.
  unfold publish_range. cbn [mbind prog_bind run_prog do]. intros Hr.
  destruct (run_op _ (Exists path) d) as [existing d1] eqn:E. cbn in E. injection E as E1 <-.
  destruct existing; [done|]. destruct (range_temporary vendor pid sequence path) as [temp|e]; [|done].
  by eapply run_publish_Ok.
Qed.

Lemma run_publish_range_clear vendor pid n path temp bytes d :
  range_temporary vendor pid (Ok n) path = Ok temp -> temp <> path ->
  names d !! temp = None -> names d !! path = None ->
  fst (run_prog [] (publish_range vendor pid (Ok n) path bytes) d) = Ok tt.
Proof.
  intros Htemp Hne Ht Hd. unfold publish_range. cbn [mbind prog_bind run_prog do head from_option].
  cbn [run_op]. rewrite Hd, Htemp. cbn -[publish range_errors]. by apply run_publish_clear.
Qed.

(** The file at a name removed. *)
Definition without_file (path : Path) (d d' : Disk) : Prop :=
  names d' = delete path (names d) /\ forall i, content d' i = content d i.

Lemma run_finish_Ok vendor core result fs d d' :
  run_prog fs (finish_temporary_core vendor core result) d = (Ok tt, d') ->
  result = Ok tt /\ without_file core d d'.
Proof.
  unfold finish_temporary_core, without_file. cbn. intros Hr.
  repeat (case_match; simplify_eq/=). by destruct a.
Qed.

(** The same of libvirt's own publication and removal.  A file that is there
    stays only when its removal is told, wrongly, that it is not. *)
Lemma run_publish_new_Ok path bytes fs d d' :
  run_prog fs (publish_new path bytes) d = (Ok tt, d') ->
  names d !! path = None /\ with_file path bytes d d'.
Proof.
  unfold publish_new, with_file. cbn. intros Hr. repeat (case_match; simplify_eq/=).
  split; [done|]. split; [done|]. intros i. unfold append, content. cbn [inodes].
  rewrite !lookup_insert. repeat case_decide; subst; by rewrite ?decide_True.
Qed.

Lemma run_publish_new_clear path bytes d : names d !! path = None ->
  fst (run_prog [] (publish_new path bytes) d) = Ok tt.
Proof. intros Hp. unfold publish_new. cbn. by rewrite Hp. Qed.

Definition denies (fs : list (option Fault)) : Prop :=
  exists f, head fs = Some (Some f) /\ error_kind (f_error f) = NotFound.

Lemma run_remove_core_Ok core result fs d d' :
  run_prog fs (Libvirt.remove_core core result) d = (Ok tt, d') ->
  result = Ok tt /\ (without_file core d d' \/ denies fs /\ d' = d).
Proof.
  unfold Libvirt.remove_core, without_file, denies.
  destruct result as [[]|e]; destruct fs as [|[f|] fs]; cbn; try (destruct (names d !! core) as [[]|] eqn:E);
    cbn; intros Hr; repeat (case_match; simplify_eq/=); split; try done; try by left.
  all: first [injection Hr as <-; by left | left; by rewrite delete_id
             | right; split; [eexists; split; [done|by eapply bool_decide_eq_true_1]|done]].
Qed.

Lemma run_remove_core_Err core e fs d : fst (run_prog fs (Libvirt.remove_core core (Err e)) d) = Err e.
Proof. unfold Libvirt.remove_core. cbn [mbind prog_bind do run_prog]. by destruct (run_op _ _ d). Qed.

Lemma run_finish_clear vendor core d i : names d !! core = Some (IsFile i) ->
  fst (run_prog [] (finish_temporary_core vendor core (Ok tt)) d) = Ok tt.
Proof. intros Hi. unfold finish_temporary_core. cbn. by rewrite Hi. Qed.
End alone.

(** ** A range by way of a core *)

Section machine.
Context {W : Type} `{Allocator} (vendor : string) (process_id : Z).

Lemma run_files_eq {A} (p : prog (Result A)) (m : Machine W) :
  let '(r, m') := run_files p m in
  run_prog (from_option (fun fs => fs) [] (head (faults m))) p (disk m) = (r, disk m').
Proof. unfold run_files. by destruct (run_prog _ _ _). Qed.

Lemma run_files_faults {A} (p : prog (Result A)) (m : Machine W) : faults (snd (run_files p m)) = tail (faults m).
Proof. unfold run_files. by destruct (run_prog _ _ _). Qed.

Lemma publish_range_file_Ok path bytes (m m' : Machine W) :
  publish_range_file vendor process_id path bytes m = (Ok tt, m') ->
  names (disk m) !! path = None /\ with_file path bytes (disk m) (disk m').
Proof.
  unfold publish_range_file. cbv zeta. destruct (run_prog _ _ _) as [r d] eqn:E.
  intros [= -> <-]. by eapply run_publish_range_Ok.
Qed.

Lemma extract_range_Ok load core path start length (m m' : Machine W) :
  extract_range vendor process_id load core path start length m = (Ok tt, m') ->
  exists bundle bytes,
    load (disk_files (disk m)) (path_display core) = Ok bundle /\
    SnapshotBundle.read_into bundle start (replicate (Z.to_nat length) x00) = (Ok tt, bytes) /\
    names (disk m) !! path = None /\ with_file path bytes (disk m) (disk m').
Proof.
  unfold extract_range. destruct (mbind _ _) as [bytes|e] eqn:E; [|done].
  intros Hp%publish_range_file_Ok. inv_ok.
  destruct (SnapshotBundle.read_into v start _) as [[[]|e] bs] eqn:Hr; inv_ok. subst. by exists v, bytes.
Qed.

Lemma extract_and_finish_Ok load core path start length (m m' : Machine W) :
  extract_and_finish vendor process_id load core path start length m = (Ok tt, m') ->
  exists bundle bytes d,
    load (disk_files (disk m)) (path_display core) = Ok bundle /\
    SnapshotBundle.read_into bundle start (replicate (Z.to_nat length) x00) = (Ok tt, bytes) /\
    names (disk m) !! path = None /\ with_file path bytes (disk m) d /\ without_file core d (disk m').
Proof.
  unfold extract_and_finish. destruct (extract_range _ _ _ _ _ _ _ _) as [r m1] eqn:E.
  pose proof (run_files_eq (finish_temporary_core vendor core r) m1) as Hrun.
  intros Hf. rewrite Hf in Hrun. apply run_finish_Ok in Hrun as [-> Hw].
  apply extract_range_Ok in E as (bundle & bytes & Hl & Hr & Hn & Hp). by exists bundle, bytes, (disk m1).
Qed.

(** The other way: where no operation fails and the names are free. *)
Record clear (path core : Path) (m : Machine W) : Prop := {
  clear_faults : faults m = [];
  clear_path : names (disk m) !! path = None;
  clear_core : exists i, names (disk m) !! core = Some (IsFile i);
  clear_temporary : exists n next temp,
    next_sequence (vendor +:+ " range publication") (range_sequence m) = (Ok n, next) /\
    range_temporary vendor process_id (Ok n) path = Ok temp /\
    temp <> path /\ names (disk m) !! temp = None;
}.

Lemma publish_range_file_clear path core bytes (m : Machine W) : clear path core m ->
  exists m', publish_range_file vendor process_id path bytes m = (Ok tt, m') /\ faults m' = [].
Proof.
  intros [Hf Hp _ (n & next & temp & Hn & Ht & Hne & Hfree)].
  assert (exists name, file_name path = Some name) as [name Hname].
  { unfold range_temporary in Ht. inv_ok. by eexists. }
  pose proof (run_publish_range_clear vendor process_id n path temp bytes (disk m) Ht Hne Hfree Hp) as Hrun.
  unfold publish_range_file. rewrite Hf, Hname. cbn [head from_option run_op fst tail]. rewrite Hp.
  replace (bool_decide _) with false by (symmetry; apply bool_decide_eq_false_2; by intros []).
  rewrite Hn. cbn [fst snd]. destruct (run_prog _ _ _) as [r d] eqn:E. cbn in Hrun. subst r. by eexists.
Qed.

Lemma extract_and_finish_clear load core path start length bundle bytes (m : Machine W) :
  clear path core m -> load (disk_files (disk m)) (path_display core) = Ok bundle ->
  try_reserve (vendor +:+ " acquisition buffer") length = Ok tt ->
  SnapshotBundle.read_into bundle start (replicate (Z.to_nat length) x00) = (Ok tt, bytes) ->
  fst (extract_and_finish vendor process_id load core path start length m) = Ok tt.
Proof.
  intros Hc Hl Hr Hread. unfold extract_and_finish, extract_range. cbv zeta.
  rewrite Hl. cbn [mbind result_bind]. rewrite Hr. cbn [map_err]. rewrite Hread. cbn [mbind result_bind].
  destruct (publish_range_file_clear path core bytes m Hc) as (m1 & Hp & Hf). rewrite Hp.
  apply publish_range_file_Ok in Hp as (Hpath & Hn & _). destruct (clear_core _ _ _ Hc) as [i Hi].
  assert (Hi1 : names (disk m1) !! core = Some (IsFile i)).
  { rewrite Hn, lookup_insert_ne; [done|]. intros <-. congruence. }
  pose proof (run_finish_clear vendor core (disk m1) i Hi1) as Hrun.
  unfold run_files. rewrite Hf. cbn [head from_option]. by destruct (run_prog _ _ _).
Qed.
End machine.

(** What libvirt's closure does with a core, and its removal. *)
Section virsh.
Context {W : Type} `{Allocator}.

Definition virsh_finish (core path : Path) (start : Gpa.t) (length : Z) : stateful (Machine W) VmiError.t unit :=
  fun m =>
    let '(result, m) :=
      (let? bytes := Libvirt.read_disk (Libvirt.core_range core start length) in
       run_files (publish_new path bytes)) m in
    run_files (Libvirt.remove_core core result) m.

Definition next_faults (m : Machine W) : list (option Fault) := from_option (fun fs => fs) [] (head (faults m)).

Definition load_vmcore (files : FileSystem) (path : string) : Result SnapshotBundle.t := elf_vmcore_file path.

(** No removal is told that a file that is there is not. *)
Definition honest (m : Machine W) : Prop := forall fs, fs ∈ faults m -> ~ denies fs.

Lemma virsh_finish_Ok core path start length (m m' : Machine W) :
  virsh_finish core path start length m = (Ok tt, m') ->
  exists bundle bytes d,
    load_vmcore (disk_files (disk m)) (path_display core) = Ok bundle /\
    SnapshotBundle.read_into bundle start (replicate (Z.to_nat length) x00) = (Ok tt, bytes) /\
    names (disk m) !! path = None /\ with_file path bytes (disk m) d /\
    (without_file core d (disk m') \/ ~ honest m /\ disk m' = d).
Proof.
  unfold virsh_finish, Libvirt.read_disk, mbind, stateful_bind.
  destruct (Libvirt.core_range _ _ _ _) as [bytes|e] eqn:Hb; cycle 1.
  { pose proof (run_files_eq (Libvirt.remove_core core (Err e)) m) as Hrun. intros Hf. rewrite Hf in Hrun.
    by apply run_remove_core_Ok in Hrun as [[=] _]. }
  destruct (run_files (publish_new path bytes) m) as [r m1] eqn:E.
  pose proof (run_files_eq (publish_new path bytes) m) as Hp. rewrite E in Hp.
  pose proof (run_files_eq (Libvirt.remove_core core r) m1) as Hrun. intros Hf. rewrite Hf in Hrun.
  apply run_remove_core_Ok in Hrun as [-> Hw]. apply run_publish_new_Ok in Hp as [Hn Hp].
  unfold Libvirt.core_range in Hb. inv_ok.
  destruct (SnapshotBundle.read_into v start _) as [[[]|e] bs] eqn:Hr; inv_ok. subst.
  exists v, bytes, (disk m1). split; [done|]. split; [done|]. split; [done|]. split; [done|].
  destruct Hw as [Hw|[Hw ->]]; [by left|right]. split; [|done]. intros Hh. apply (Hh (next_faults m1)); [|done].
  pose proof (run_files_faults (publish_new path bytes) m) as Hfs. rewrite E in Hfs. cbn [snd] in Hfs.
  unfold next_faults. destruct (faults m1) as [|fs rest] eqn:Hm1; [by destruct Hw as (f & [=] & _)|].
  cbn. destruct (faults m) as [|fs' ?]; [done|]. cbn in Hfs. subst. apply list_elem_of_further, list_elem_of_here.
Qed.

Lemma virsh_finish_clear core path start length bundle bytes i (m : Machine W) :
  faults m = [] -> names (disk m) !! path = None -> names (disk m) !! core = Some (IsFile i) ->
  load_vmcore (disk_files (disk m)) (path_display core) = Ok bundle ->
  try_reserve "libvirt range" length = Ok tt ->
  SnapshotBundle.read_into bundle start (replicate (Z.to_nat length) x00) = (Ok tt, bytes) ->
  fst (virsh_finish core path start length m) = Ok tt.
Proof.
  intros Hf Hp Hc Hl Hr Hread. unfold virsh_finish, Libvirt.read_disk, Libvirt.core_range, mbind, stateful_bind.
  unfold load_vmcore in Hl. rewrite Hl. cbn [mbind result_bind]. rewrite Hr. cbn [map_err mbind result_bind].
  rewrite Hread. pose proof (run_publish_new_clear path bytes (disk m) Hp) as Hpub.
  pose proof (run_files_eq (publish_new path bytes) m) as Hrun.
  pose proof (run_files_faults (publish_new path bytes) m) as Hfs. rewrite Hf in Hrun, Hfs.
  destruct (run_files _ m) as [r m1]. cbn [head from_option snd tail] in Hrun, Hfs. rewrite Hrun in Hpub.
  cbn in Hpub. subst r. apply run_publish_new_Ok in Hrun as [_ [Hn _]].
  unfold run_files, Libvirt.remove_core. rewrite Hfs. cbn.
  rewrite Hn, lookup_insert_ne by congruence. by rewrite Hc.
Qed.
End virsh.

(** The providers that acquire a range by way of a core. *)
Inductive CoreProvider (W : Type) : Type :=
| ByVBoxManage (c : @VirtualBox.t W)
| ByXl (c : @Xen.t W)
| ByVirsh (c : @Libvirt.t W).
Arguments ByVBoxManage {W} c.
Arguments ByXl {W} c.
Arguments ByVirsh {W} c.

Section provider.
Context {W : Type} `{Allocator} (process_id : Z).

Abbreviation M := (stateful (Machine W) VmiError.t).

Definition vendor_of (p : CoreProvider W) : string :=
  match p with ByVBoxManage _ => "VirtualBox" | ByXl _ => "Xen" | ByVirsh _ => "libvirt" end.

(** Choosing the temporary path of the core. *)
Definition core_path_of (p : CoreProvider W) (path : Path) : M Path :=
  match p with
  | ByVirsh _ =>
      let? _ := run_files (ensure_output_absent path "libvirt range") in
      Libvirt.temporary_core_path process_id path
  | _ => temporary_core_path (vendor_of p) process_id path
  end.

Definition dump_of (p : CoreProvider W) : Path -> M unit :=
  match p with
  | ByVBoxManage c => VirtualBox.save_snapshot_to c
  | ByXl c => Xen.dump_core c
  | ByVirsh c => Libvirt.save_snapshot_to c
  end.

Definition load_of (p : CoreProvider W) (files : FileSystem) (path : string) : Result SnapshotBundle.t :=
  match p with ByXl _ => xen_core_file path | _ => elf_vmcore_file path end.

Definition save_of (p : CoreProvider W) (path : string) (start : Gpa.t) (length : Z) : M unit :=
  match p with
  | ByVBoxManage c => VirtualBox.save_physical_range process_id c path start length
  | ByXl c => Xen.save_physical_range process_id c path start length
  | ByVirsh c => Libvirt.save_physical_range process_id c path start length
  end.

(** What follows the dump. *)
Definition finish_of (p : CoreProvider W) (core path : Path) (start : Gpa.t) (length : Z) : M unit :=
  match p with
  | ByVirsh _ => virsh_finish core path start length
  | _ => extract_and_finish (vendor_of p) process_id (load_of p) core path start length
  end.

(** The disk is usable and the names are free. *)
Definition clear_of (p : CoreProvider W) (path core : Path) (m : Machine W) : Prop :=
  match p with
  | ByVirsh _ =>
      faults m = [] /\ names (disk m) !! path = None /\ exists i, names (disk m) !! core = Some (IsFile i)
  | _ => clear (vendor_of p) process_id path core m
  end.

(** The condition under which a removal that was told nothing was there is
    right: only libvirt takes it for a success. *)
Definition removal_honest (p : CoreProvider W) (m : Machine W) : Prop :=
  match p with ByVirsh _ => honest m | _ => True end.

Lemma load_of_memory p files path bundle : load_of p files path = Ok bundle ->
  ByteMemory (SnapshotBundle.read_into bundle) (BundleSpec.byte_at (SnapshotBundle.segments bundle)).
Proof.
  intros Hb. assert (Hl : loaded bundle) by (apply (elf_file_loaded path); destruct p; [by left|by right|by left]).
  destruct Hl. by apply bundle_byte_memory.
Qed.

(** The gates of [save_physical_range], and the dump. *)
Lemma save_of_dump p path start length core (m m1 : Machine W) :
  length <> 0 -> in_u64 length -> Gpa.raw start + length < 2 ^ 64 ->
  core_path_of p (parse_path path) m = (Ok core, m1) ->
  match dump_of p core m1 with
  | (Ok _, m2) => save_of p path start length m = finish_of p core (parse_path path) start length m2
  | (Err e, _) => fst (save_of p path start length m) = Err e
  end.
Proof.
  intros Hne Hl Hend Hcore. destruct (dump_of p core m1) as [r m2] eqn:Hd.
  assert (Hw : (length <? 2 ^ 64) = true) by (apply Z.ltb_lt, Hl).
  destruct p as [c|c|c]; cbn [save_of core_path_of dump_of] in *.
  1,2: unfold VirtualBox.save_physical_range, Xen.save_physical_range, save_range_via_core;
    rewrite (proj2 (Z.eqb_neq _ _)) by done; rewrite checked_add_fits by lia; unfold try_width; rewrite Hw;
    unfold mbind, stateful_bind, lift; cbn [ok_or vendor_of] in *; rewrite Hcore, Hd; by destruct r as [[]|].
  unfold Libvirt.save_physical_range. cbv zeta. rewrite (proj2 (Z.eqb_neq _ _)) by done.
  rewrite checked_add_fits by lia. unfold try_width. rewrite Hw.
  unfold mbind, stateful_bind, lift in *. cbn [ok_or] in *.
  destruct (run_files (ensure_output_absent _ _) m) as [[u|e] m0]; [|done]. rewrite Hcore.
  unfold Libvirt.acquire_and_remove, Libvirt.acquire_range, mbind, stateful_bind. rewrite Hd.
  destruct r as [u'|e]; [done|]. pose proof (run_files_eq (Libvirt.remove_core core (Err e)) m2) as Hrun.
  pose proof (run_remove_core_Err core e (next_faults m2) (disk m2)) as Herr. unfold next_faults in Herr.
  destruct (run_files _ m2) as [r m3]. by rewrite Hrun in Herr.
Qed.

Lemma save_of_gates p path start length (m m' : Machine W) :
  save_of p path start length m = (Ok tt, m') -> length <> 0 /\ Gpa.raw start + length < 2 ^ 64.
Proof.
  destruct p; cbn [save_of];
    unfold VirtualBox.save_physical_range, Xen.save_physical_range, Libvirt.save_physical_range,
      save_range_via_core; cbv zeta; destruct (Z.eqb_spec length 0); try done;
    unfold checked_add; destruct (Z.ltb_spec (Gpa.raw start + length) (2 ^ 64)); (done || by cbn).
Qed.

Lemma finish_of_Ok p core path start length (m m' : Machine W) :
  finish_of p core path start length m = (Ok tt, m') ->
  exists bundle bytes d,
    load_of p (disk_files (disk m)) (path_display core) = Ok bundle /\
    SnapshotBundle.read_into bundle start (replicate (Z.to_nat length) x00) = (Ok tt, bytes) /\
    names (disk m) !! path = None /\ with_file path bytes (disk m) d /\
    (without_file core d (disk m') \/ ~ removal_honest p m /\ disk m' = d).
Proof.
  destruct p as [c|c|c]; cbn [finish_of load_of removal_honest];
    [| |intros (bundle & bytes & d & ? & ? & ? & ? & ?)%virsh_finish_Ok; exists bundle, bytes, d; tauto].
  all: intros (bundle & bytes & d & ? & ? & ? & ? & ?)%extract_and_finish_Ok; exists bundle, bytes, d; tauto.
Qed.

Lemma finish_of_clear p core path start length bundle bytes (m : Machine W) :
  ample -> 0 <= length <= isize_max -> clear_of p path core m ->
  load_of p (disk_files (disk m)) (path_display core) = Ok bundle ->
  SnapshotBundle.read_into bundle start (replicate (Z.to_nat length) x00) = (Ok tt, bytes) ->
  fst (finish_of p core path start length m) = Ok tt.
Proof.
  intros Hample Hlen Hc Hl Hr. destruct p as [c|c|c]; cbn [finish_of clear_of] in *.
  3: { destruct Hc as (Hf & Hp & i & Hi). eapply virsh_finish_clear;
      [exact Hf|exact Hp|exact Hi|exact Hl|apply reserve_ample; [done|lia]|exact Hr]. }
  all: eapply extract_and_finish_clear; [exact Hc|exact Hl|apply reserve_ample; [done|lia]|exact Hr].
Qed.
End provider.

Lemma zlen_zeros n : 0 <= n -> zlen (replicate (Z.to_nat n) x00) = n.
Proof. intros Hn. unfold zlen. rewrite length_replicate. lia. Qed.

(** libvirt removes the temporary path even when [save_snapshot] refused it
    for being there, so a file of that name is lost. *)
Lemma libvirt_taken_core_removed `{Allocator} {W} (c : @Libvirt.t W) core path start length i (m m' : Machine W) r :
  faults m = [] -> names (disk m) !! core = Some (IsFile i) ->
  Libvirt.acquire_and_remove c core path start length m = (r, m') ->
  (exists e, r = Err e) /\ names (disk m') !! core = None.
Proof.
  intros Hf Hc. unfold Libvirt.acquire_and_remove, Libvirt.acquire_range, Libvirt.save_snapshot_to, mbind, stateful_bind.
  unfold run_files, ensure_output_absent, Libvirt.remove_core. cbn. rewrite Hf. cbn. rewrite Hc. cbn. rewrite Hc. cbn.
  intros [= <- <-]. split; [by eexists|apply lookup_delete_eq].
Qed.

(** * Properties *)

(** C28: a range saved through VBoxManage, xl or virsh is exact.  When
    saving succeeds, the command dumped a core at the temporary path, the
    core loads, nothing was at the destination, and the disk is the one the
    dump left but for the core and for the destination, a new file that
    holds the bytes the core has at the range, all of them; the core is gone,
    for libvirt unless the system denied that it was there.  Saving does
    succeed whenever the dump does and leaves a core that covers the range,
    the names are free and no operation of the system fails; when the dump
    fails, saving fails with its error. *)
Theorem core_range_exact `{Allocator} {W} (process_id : Z) (p : CoreProvider W) (path : string)
    (start : Gpa.t) (length : Z) (m m1 : Machine W) (core : Path)
    (Hstart : in_u64 (Gpa.raw start)) (Hlength : 0 <= length <= isize_max)
    (Hcore : core_path_of process_id p (parse_path path) m = (Ok core, m1))
    (Hother : core <> parse_path path) :
  let destination := parse_path path in
  let core_byte bundle i := BundleSpec.byte_at (SnapshotBundle.segments bundle) (Gpa.raw start + Z.of_nat i) in
  (forall m', save_of process_id p path start length m = (Ok tt, m') ->
     exists m2 bundle bytes,
       dump_of p core m1 = (Ok tt, m2) /\
       load_of p (disk_files (disk m2)) (path_display core) = Ok bundle /\
       zlen bytes = length /\ (forall i, (i < Z.to_nat length)%nat -> core_byte bundle i = bytes !! i) /\
       names (disk m2) !! destination = None /\
       let new := next_inode (disk m2) in
       (forall q, q <> core -> names (disk m') !! q = <[destination := IsFile new]> (names (disk m2)) !! q) /\
       (removal_honest p m2 -> names (disk m') !! core = None) /\
       content (disk m') new = bytes /\
       forall i, i <> new -> content (disk m') i = content (disk m2) i) /\
  (0 < length -> Gpa.raw start + length < 2 ^ 64 ->
     (forall e m2, dump_of p core m1 = (Err e, m2) -> fst (save_of process_id p path start length m) = Err e) /\
     (forall m2 bundle, ample -> dump_of p core m1 = (Ok tt, m2) -> clear_of process_id p destination core m2 ->
        load_of p (disk_files (disk m2)) (path_display core) = Ok bundle ->
        (forall i, (i < Z.to_nat length)%nat -> is_Some (core_byte bundle i)) ->
        fst (save_of process_id p path start length m) = Ok tt)).
Proof.
  intros destination core_byte. pose proof (zlen_zeros length ltac:(lia)) as Hz.
  assert (Hu : in_u64 length) by (unfold in_width, isize_max in *; lia).
  pose proof (save_of_dump process_id p path start length core m m1) as Hsave. split.
  - intros m' Hok. destruct (save_of_gates _ _ _ _ _ _ _ Hok) as [Hne Hend].
    specialize (Hsave Hne Hu Hend Hcore).
    destruct (dump_of p core m1) as [[[]|e] m2]; [|by rewrite Hok in Hsave].
    rewrite Hok in Hsave. symmetry in Hsave.
    apply finish_of_Ok in Hsave as (bundle & bytes & d & Hl & Hr & Hp & [Hn Hc] & Hw).
    exists m2, bundle, bytes. split; [done|]. split; [done|].
    pose proof (load_of_memory _ _ _ _ Hl). apply byte_memory_ok in Hr as [Hlen Hr]; [|lia].
    rewrite length_replicate in *. split; [unfold zlen in *; rewrite Hlen; by rewrite length_replicate in Hz|].
    split; [done|]. split; [done|]. cbv zeta. unfold destination. rewrite <- Hn.
    assert (Hc' : forall i, content (disk m') i = content d i) by (destruct Hw as [[_ Hw]|[_ ->]]; done).
    split; [|split; [|split]].
    + intros q Hq. destruct Hw as [[-> _]|[_ ->]]; [by rewrite lookup_delete_ne|done].
    + intros Hh. destruct Hw as [[-> _]|[Hw _]]; [apply lookup_delete_eq|done].
    + by rewrite Hc', Hc, decide_True.
    + intros i Hi. by rewrite Hc', Hc, decide_False.
  - intros Hpos Hend. specialize (Hsave ltac:(lia) Hu Hend Hcore). split.
    + intros e m2 Hd. by rewrite Hd in Hsave.
    + intros m2 bundle Hample Hd Hclear Hl Hall. rewrite Hd in Hsave. rewrite Hsave.
      pose proof (load_of_memory _ _ _ _ Hl) as Hmem.
      destruct (list_of_family _ _ Hall) as (bytes & Hlen & Hb).
      eapply (finish_of_clear _ _ _ _ _ _ _ bytes); [done|done|exact Hclear|exact Hl|].
      apply byte_memory_read; [by rewrite length_replicate|lia|]. intros i Hi. apply Hb. lia.
Qed.

(** A machine whose VBoxManage dumps a core of four bytes at 0x3000. *)
Definition small_core : list byte :=
  [x7f; x45; x4c; x46; x02; x01] ++ replicate 26 x00 ++ le_bytes 8 64 ++ replicate 14 x00 ++
  le_bytes 2 56 ++ le_bytes 2 1 ++ replicate 6 x00 ++
  le_bytes 4 1 ++ replicate 4 x00 ++ le_bytes 8 128 ++ replicate 8 x00 ++ le_bytes 8 0x3000 ++
  le_bytes 8 4 ++ le_bytes 8 4 ++ replicate 16 x00 ++ [x11; x22; x33; x44].

Definition write_core (path : string) (d : Disk) : Disk :=
  MkDisk (<[parse_path path := IsFile (next_inode d)]> (names d)) (<[next_inode d := small_core]> (inodes d))
    (next_inode d + 1) (births d).

Definition dumping_vboxmanage (arguments : list string) (d : Disk) (w : unit) : Result string * Disk * unit :=
  match arguments with
  | [_; _; _; filename] =>
      match strip_prefix "--filename=" filename with
      | Some path => (Ok ""%string, write_core path d, w)
      | None => (Err (Backend "unexpected"), d, w)
      end
  | _ => (Err (Backend "unexpected"), d, w)
  end.

Definition example_vm : CoreProvider unit :=
  ByVBoxManage (@VirtualBox.with_transport unit bitflags_u64 "vm" GuestArchitecture.Amd64 dumping_vboxmanage).

Definition example_machine : Machine unit := mk_machine empty_disk tt 0 0 [Some 5] [].
Definition example_after : Result unit * Machine unit :=
  @save_of unit ample_allocator 7 example_vm "/dumps/range.bin" (Gpa.new 0x3001) 2 example_machine.

Example saves_example : fst example_after = Ok tt.
Proof. vm_compute. reflexivity. Qed.

Lemma core_range_exact_witness :
  exists new, names (disk (snd example_after)) !! parse_path "/dumps/range.bin" = Some (IsFile new) /\
    zlen (content (disk (snd example_after)) new) = 2.
Proof.
  pose proof saves_example as Hok. destruct example_after as [r m'] eqn:E. cbn in Hok. subst r.
  destruct (@core_path_of unit ample_allocator 7 example_vm (parse_path "/dumps/range.bin")
    example_machine) as [[core|e] m1] eqn:Hcore; [|vm_compute in Hcore; discriminate].
  assert (Hne : core <> parse_path "/dumps/range.bin").
  { vm_compute in Hcore. injection Hcore as <- _. vm_compute. discriminate. }
  destruct (@core_range_exact ample_allocator unit 7 example_vm "/dumps/range.bin" (Gpa.new 0x3001) 2
    example_machine m1 core ltac:(width_const) ltac:(vm_compute; split; discriminate) Hcore Hne) as [Hsound _].
  destruct (Hsound m' E) as (m2 & bundle & bytes & _ & _ & Hlen & _ & _ & Hn & _ & Hc & _).
  exists (next_inode (disk m2)). cbn [snd]. rewrite Hc. split; [|exact Hlen].
  rewrite Hn by (intros E'; by apply Hne). apply lookup_insert_eq.
Defined.
