(* ===== verification/Cli.v ===== *)
(** * The command line ([crates/vmi-cli])

    Every command as a composition of the crates it uses: arguments and
    their limits, the offline readers and profile queries, the live
    providers' commands, and what each prints.

    A command runs on its standard output and the machine it is started on;
    the environment gives it variables, the executables behind a name, the
    sockets behind an address, and the working directory. *)

From S2P Require Import Prelude.
From S2P Require Import Types.
From S2P Require Import DriverApi.
From S2P Require Import Amd64.
From S2P Require Import Session.
From S2P Require Import Text.
From S2P Require Import Host.
From S2P Require Import HostFs.
From S2P Require Import Artifact.
From S2P Require Import ArtifactFiles.
From S2P Require Import SessionGuest.
From S2P Require Import Snapshot.
From S2P Require Import Profile.
From S2P Require Import Linux.
From S2P Require Import Windows.
From S2P Require Import Socket.
From S2P Require Import Qmp.
From S2P Require Import Live.
From S2P Require Import Qemu.
From S2P Require Import VirtualBox.
From S2P Require Import Libvirt.

Definition MAX_ARGUMENT_COUNT : Z := 64.
Definition MAX_ARGUMENT_BYTES : Z := 32 * 1024.

(** ** Numbers and arguments *)

Definition parse_number (value : string) : result string Z :=
  map_err (fun error => "invalid number " +:+ value +:+ ": " +:+ ParseInt.display error)
    (match (match strip_prefix "0x" value with Some hex => Some hex | None => strip_prefix "0X" value end) with
     | Some hex => ParseInt.from_str_radix 64 16 hex
     | None => ParseInt.from_str_radix 64 10 value
     end).

(** [usize::try_from] of a number given, with the message of its command. *)
Definition parse_within (w : Z) (message value : string) : result string Z :=
  let? number := parse_number value in ok_or (try_width w number) message.

Definition parse_length (value : string) : result string Z :=
  parse_within 64 "length does not fit this platform" value.

Section arguments.
Context `{Allocator}.

(** [collect_args], the arguments as the system gives them. *)
Fixpoint collect_from (index : Z) (arguments : list (list byte)) : result string (list string) :=
  match arguments with
  | [] => Ok []
  | argument :: rest =>
      if MAX_ARGUMENT_COUNT <=? index then
        Err ("CLI argument count exceeds the limit of " +:+ dec MAX_ARGUMENT_COUNT)
      else
        let? text :=
          (match Utf8.from_utf8 argument with
           | Ok _ => Ok (string_of_bytes argument)
           | Err _ => Err ("CLI argument " +:+ dec index +:+ " is not valid Unicode")
           end) in
        if MAX_ARGUMENT_BYTES <? zlen argument then
          Err ("CLI argument " +:+ dec index +:+ " exceeds the limit of " +:+ dec MAX_ARGUMENT_BYTES +:+ " bytes")
        else
          let? _ := map_err (fun error => "failed to grow CLI argument list: " +:+ error)
            (try_reserve "CLI argument list" (index + 1)) in
          let? rest := collect_from (index + 1) rest in
          Ok (text :: rest)
  end.

Definition collect_args (arguments : list (list byte)) : result string (list string) := collect_from 0 arguments.
End arguments.

(** ** A running command *)

Section commands.
Context {W : Type}.

Record Process : Type := mk_process { stdout : string; machine : Machine W }.

Record Environment : Type := mk_environment {
  variable : string -> option string;
  executable : string -> Transport W;
  process_id : Z;
  dial : QmpEndpoint -> result string Socket;
  dial_gdb : string -> result string Socket;
  disk_fault : option Fault;
  current_dir : result string Path;
}.

Abbreviation Cli := (stateful Process string).

Definition newline : string := string_of_bytes [x0a].

Definition print (text : string) : Cli unit :=
  fun p => (Ok tt, mk_process (stdout p +:+ text) (machine p)).

Definition println (text : string) : Cli unit := print (text +:+ newline).

(** [map_err(|error| error.to_string())?]. *)
Definition vmi `{Bitflags} {A} (r : Result A) : Cli A := lift (map_err VmiError.display r).

Definition on_machine `{Bitflags} {A} (m : stateful (Machine W) VmiError.t A) : Cli A :=
  fun p =>
    let '(r, m) := m (machine p) in
    (map_err VmiError.display r, mk_process (stdout p) m).

Definition arg (args : list string) (i : nat) : string := from_option (fun a => a) ""%string (args !! i).

(** [{:#018x}], [{:02x}] and [{:>6}]. *)
Definition hex18 (value : Z) : string := "0x" +:+ hex_padded 16 value.
Definition hex2 (b : byte) : string := hex_padded 2 (byte_val b).
Definition pad6 (text : string) : string :=
  string_of_bytes (replicate (6 - String.length text) x20) +:+ text.

Definition to_ascii_uppercase (text : string) : string := string_of_bytes (upper_byte <$> bytes_of_string text).

Definition state_debug (state : ExecutionState.t) : string :=
  match state with
  | ExecutionState.Running => "Running"
  | ExecutionState.Paused => "Paused"
  | ExecutionState.Shutdown => "Shutdown"
  | ExecutionState.Unknown => "Unknown"
  end.

(** *** [print_bytes]: sixteen bytes to a line. *)

Definition line_address (address index : Z) : result string Z :=
  let? index := ok_or (try_width 64 index) "hex-dump line offset overflow"%string in
  let? offset := ok_or (checked_mul 64 index 16) "hex-dump line offset overflow"%string in
  ok_or (checked_add 64 address offset) "hex-dump address overflow"%string.

Definition dump_line (address : Z) (chunk : list byte) : string :=
  hex_padded 16 address +:+ ":" +:+ foldr (fun b text => " " +:+ hex2 b +:+ text) ""%string chunk.

Fixpoint print_lines (fuel : nat) (address index : Z) (bytes : list byte) : Cli unit :=
  match fuel, bytes with
  | _, [] => mret tt
  | O, _ => fail "model fuel exhausted"%string
  | S fuel, _ =>
      let? line := lift (line_address address index) in
      let? _ := println (dump_line line (take 16 bytes)) in
      print_lines fuel address (index + 1) (drop 16 bytes)
  end.

Definition print_bytes (address : Z) (bytes : list byte) : Cli unit :=
  print_lines (length bytes) address 0 bytes.

(** ** Offline commands *)

Section offline.
Context `{Allocator, Bitflags, FileSystem, Decompressors, SerdeJson, Pdb}.

(** An image attached for reading. *)
Definition attach_dump (bundle : SnapshotBundle.t) : Cli (Session SnapshotBundle.t * VmiSession.state SnapshotBundle.t) :=
  vmi (VmiSession.attach (DumpConnector.connector (DumpConnector.new bundle GuestArchitecture.Amd64))
    (AttachRequest.any (CapabilitySet.from_caps [Capability.MemoryRead]))).

Definition read_session (session : Session SnapshotBundle.t * VmiSession.state SnapshotBundle.t)
    (address length : Z) : Cli unit :=
  let? bytes := vmi (fst (VmiSession.read_bytes (fst session) (Gpa.new address) length (snd session))) in
  print_bytes address bytes.

(** [read_raw], [read_elf], [read_xen_core], [read_kdmp], [read_lime] and
    [read_manifest], given what they load. *)
Definition read_dump (load : string -> Result SnapshotBundle.t) (args : list string) : Cli unit :=
  let? address := lift (parse_number (arg args 3)) in
  let? length := lift (parse_length (arg args 4)) in
  let? bundle := vmi (load (arg args 2)) in
  let? session := attach_dump bundle in
  read_session session address length.

Definition read_raw : list string -> Cli unit := read_dump (fun path => raw_file path (Gpa.new 0)).
Definition read_elf : list string -> Cli unit := read_dump elf_vmcore_file.
Definition read_xen_core : list string -> Cli unit := read_dump xen_core_file.
Definition read_kdmp : list string -> Cli unit := read_dump kdmp_file.
Definition read_lime : list string -> Cli unit := read_dump lime_file.
Definition read_manifest : list string -> Cli unit := read_dump manifest_file.

Definition read_snapshot_connector (connector : SnapshotConnector.t) (address length : Z) : Cli unit :=
  let? session := vmi (VmiSession.attach (SnapshotConnector.connector connector)
    (AttachRequest.any (CapabilitySet.from_caps [Capability.MemoryRead]))) in
  read_session session address length.

Definition read_vmware_vmem (args : list string) : Cli unit :=
  let? physical_base := lift (parse_number (arg args 3)) in
  let? address := lift (parse_number (arg args 4)) in
  let? length := lift (parse_length (arg args 5)) in
  let? connector := vmi (SnapshotConnector.open_vmware_vmem GuestArchitecture.Amd64 (arg args 2)
    (Gpa.new physical_base)) in
  read_snapshot_connector connector address length.

Definition read_vmware_core (args : list string) : Cli unit :=
  let? address := lift (parse_number (arg args 3)) in
  let? length := lift (parse_length (arg args 4)) in
  let? connector := vmi (SnapshotConnector.open_vmware_converted_core GuestArchitecture.Amd64 (arg args 2)) in
  read_snapshot_connector connector address length.

(** *** Profiles *)

Definition require_symbol (table : SymbolTable.t) (name : string) : Cli Symbol.t :=
  lift (ok_or (SymbolTable.symbol table name) ("symbol " +:+ name +:+ " not found")).

Definition profile_symbol (args : list string) : Cli unit :=
  let? table := vmi (SymbolTable.from_system_map_file (arg args 2)) in
  let? symbol := require_symbol table (arg args 3) in
  println (from_option (fun kind => kind) "?"%string (Symbol.kind symbol) +:+ " " +:+ hex18 (Symbol.address symbol)
    +:+ " " +:+ Symbol.name symbol).

Definition profile_nearest (args : list string) : Cli unit :=
  let? address := lift (parse_number (arg args 3)) in
  let? table := vmi (SymbolTable.from_system_map_file (arg args 2)) in
  let? ' (symbol, offset) := lift (ok_or (SymbolTable.nearest_symbol table address)
    ("no symbol at or below " +:+ hex address)) in
  println (hex18 address +:+ " = " +:+ Symbol.name symbol +:+ "+" +:+ hex offset).

Definition print_symbol (symbol : Symbol.t) : Cli unit :=
  println (Symbol.name symbol +:+ "=" +:+ hex18 (Symbol.address symbol)).

Definition print_offset (profile : Profile.t) (name : string) : Cli unit :=
  let? offset := vmi (Profile.require_offset profile name) in
  println (name +:+ "=" +:+ hex offset).

Definition profile_json_symbol (args : list string) : Cli unit :=
  let? profile := vmi (Profile.from_json_file (arg args 2)) in
  let? symbol := require_symbol (Profile.symbols profile) (arg args 3) in
  print_symbol symbol.

Definition profile_json_offset (args : list string) : Cli unit :=
  let? profile := vmi (Profile.from_json_file (arg args 2)) in
  print_offset profile (arg args 3).

Definition profile_pdb_symbol (args : list string) : Cli unit :=
  let? image_base := lift (parse_number (arg args 3)) in
  let? table := vmi (SymbolTable.from_pdb_file (arg args 2) image_base) in
  let? symbol := require_symbol table (arg args 4) in
  print_symbol symbol.

Definition profile_pdb_offset (args : list string) : Cli unit :=
  let? image_base := lift (parse_number (arg args 3)) in
  let? profile := vmi (Profile.from_pdb_file (arg args 2) image_base) in
  print_offset profile (arg args 4).
End offline.

(** *** Processes of an image *)

Section introspection.
Context `{Allocator, Bitflags, FileSystem, Decompressors, SerdeJson, Pdb}.

(** A traversal over a session's state, to its result. *)
Definition traverse {S A} (state : S) (m : stateful S VmiError.t A) : Cli A := vmi (fst (m state)).

Fixpoint print_each {A} (show : A -> string) (items : list A) : Cli unit :=
  match items with
  | [] => mret tt
  | item :: rest => let? _ := println (show item) in print_each show rest
  end.

Definition show_linux (process : LinuxProcess.t) : string :=
  pad6 (dec (LinuxProcess.pid process)) +:+ " " +:+ LinuxProcess.command process +:+ " task="
    +:+ gva_display (LinuxProcess.task process).

Definition linux_processes_elf (args : list string) : Cli unit :=
  let? bundle := vmi (elf_vmcore_file (arg args 2)) in
  let? ' (session, state) := attach_dump bundle in
  let? profile := vmi (SymbolTable.from_system_map_file (arg args 3)) in
  let? root := lift (parse_number (arg args 4)) in
  let? tasks := lift (parse_number (arg args 5)) in
  let? pid := lift (parse_number (arg args 6)) in
  let? comm := lift (parse_number (arg args 7)) in
  let? comm_length := lift (parse_within 64 "comm length is too large" (arg args 8)) in
  let? limit := lift (parse_within 64 "process limit is too large" (arg args 9)) in
  let? processes := traverse state (@LinuxIntrospector.processes _ _
    (session_guest session Amd64.Amd64Translator (TranslationRoot.new root))
    (LinuxIntrospector.new profile (LinuxTaskOffsets.mk tasks pid comm comm_length)) limit) in
  print_each show_linux processes.

Definition show_windows (process : WindowsProcess.t) : string :=
  pad6 (dec (WindowsProcess.pid process)) +:+ " " +:+ WindowsProcess.image process +:+ " eprocess="
    +:+ gva_display (WindowsProcess.eprocess process) +:+ " dtb=" +:+ hex (WindowsProcess.directory_table_base process).

Definition windows_processes_elf (args : list string) : Cli unit :=
  let? bundle := vmi (elf_vmcore_file (arg args 2)) in
  let? ' (session, state) := attach_dump bundle in
  let? profile := vmi (SymbolTable.from_system_map_file (arg args 3)) in
  let? links := lift (parse_number (arg args 5)) in
  let? pid := lift (parse_number (arg args 6)) in
  let? image := lift (parse_number (arg args 7)) in
  let? image_length := lift (parse_within 64 "image length is too large" (arg args 8)) in
  let? dtb := lift (parse_number (arg args 9)) in
  let? limit := lift (parse_within 64 "process limit is too large" (arg args 10)) in
  let? root := lift (parse_number (arg args 4)) in
  let? processes := traverse state (@WindowsIntrospector.processes _ _
    (session_guest session Amd64.Amd64Translator (TranslationRoot.new root))
    (WindowsIntrospector.new profile (WindowsProcessOffsets.mk links pid image image_length dtb)) limit) in
  print_each show_windows processes.
End introspection.

(** ** Live commands *)

Section live.
Context `{Allocator, Bitflags, FileSystem, Clock, QmpJson, StrDebug} (env : Environment).

Definition request (capabilities : list Capability.t) : AttachRequest.t :=
  AttachRequest.any (CapabilitySet.from_caps capabilities).

(** [VmiSession::attach] of a live provider: its session, and a cache no
    command uses. *)
Definition attach_live {A} (connect : stateful (Machine W) VmiError.t A) : Cli A :=
  on_machine (let? session := connect in let? _ := lift (TranslationCache.new 4096) in mret session).

Definition print_state (state : ExecutionState.t) : Cli unit := println (state_debug state).

(** *** libvirt *)

Definition libvirt_session (domain : string) (capability : Capability.t) : Cli (@Libvirt.t W) :=
  let program := from_option (fun v => v) "virsh"%string (variable env "VIRSH") in
  let connector := Libvirt.with_transport domain GuestArchitecture.Amd64 (executable env program) in
  let connector :=
    match variable env "LIBVIRT_DEFAULT_URI" with
    | Some uri => Libvirt.with_uri connector uri
    | None => connector
    end in
  attach_live (Libvirt.connect connector (request [capability])).

Definition libvirt_control (domain operation : string) : Cli unit :=
  let? session := libvirt_session domain Capability.Control in
  let? _ :=
    (if bool_decide (operation = "pause"%string) then on_machine (Libvirt.pause session)
     else if bool_decide (operation = "resume"%string) then on_machine (Libvirt.resume session)
     else if bool_decide (operation = "status"%string) then mret tt
     else fail "unsupported libvirt control operation"%string) in
  let? state := on_machine (Libvirt.execution_state session) in
  print_state state.

Definition libvirt_dump (args : list string) : Cli unit :=
  let? session := libvirt_session (arg args 2) Capability.Acquisition in
  let? _ := on_machine (Libvirt.save_snapshot session (arg args 3)) in
  println ("saved libvirt ELF VM core to " +:+ arg args 3).

Definition libvirt_acquire (args : list string) : Cli unit :=
  let? start := lift (parse_number (arg args 4)) in
  let? length := lift (parse_number (arg args 5)) in
  let? session := libvirt_session (arg args 2) Capability.Acquisition in
  let? _ := on_machine (Libvirt.save_physical_range (process_id env) session (arg args 3) (Gpa.new start) length) in
  println ("saved " +:+ dec length +:+ " bytes from GPA " +:+ hex start +:+ " to " +:+ arg args 3).

(** *** VirtualBox *)

Definition vbox_session (vm : string) (capability : Capability.t) : Cli (@VirtualBox.t W) :=
  let program := from_option (fun v => v) "VBoxManage"%string (variable env "VBOXMANAGE") in
  let connector := VirtualBox.with_transport vm GuestArchitecture.Amd64 (executable env program) in
  let connector :=
    if bool_decide (capability = Capability.RegisterWrite) then VirtualBox.with_register_write connector
    else connector in
  attach_live (VirtualBox.connect connector (request [capability])).

Definition vbox_status (vm : string) : Cli unit :=
  let? session := vbox_session vm Capability.Control in
  let? state := on_machine (VirtualBox.execution_state session) in
  print_state state.

Definition print_register (vcpu : Z) (register : string) (value : Z) : Cli unit :=
  println ("vCPU " +:+ dec vcpu +:+ " " +:+ to_ascii_uppercase register +:+ "=" +:+ hex18 value).

(** [u32::try_from] of the vCPU index. *)
Definition parse_vcpu (value : string) : result string Z := parse_within 32 "vCPU index is too large" value.

Definition vbox_register (args : list string) (write : bool) : Cli unit :=
  let? vcpu := lift (parse_vcpu (arg args 3)) in
  let? session := vbox_session (arg args 2)
    (if write then Capability.RegisterWrite else Capability.RegisterRead) in
  let? _ :=
    (if write then
       let? value := lift (parse_number (arg args 5)) in
       on_machine (VirtualBox.write_register session vcpu (arg args 4) value)
     else mret tt) in
  let? value := on_machine (VirtualBox.read_register session vcpu (arg args 4)) in
  print_register vcpu (arg args 4) value.

(** *** QEMU: the sockets of the session are the command's own. *)

Definition qemu_connector (endpoint : string) : result string QemuConnector.t :=
  match strip_prefix "unix:" endpoint with
  | Some path =>
      if bool_decide (path = ""%string) then Err "QMP Unix socket path must not be empty"%string
      else Ok (QemuConnector.unix (parse_path path))
  | None => Ok (QemuConnector.tcp endpoint)
  end.

Definition attach_qemu (connector : QemuConnector.t) (capabilities : list Capability.t)
    : Cli (QemuSession.t * QemuSession.state) :=
  fun p =>
    vmi (let? session := QemuConnector.connect connector (request capabilities)
           (dial env (QemuConnector.endpoint connector))
           (match QemuConnector.gdb_address connector with
            | Some address => dial_gdb env address
            | None => Err ""%string
            end)
           (disk (machine p)) (disk_fault env) (current_dir env) in
         let? _ := TranslationCache.new 4096 in
         Ok session) p.

Definition qemu_session (address : string) (capability : Capability.t)
    : Cli (QemuSession.t * QemuSession.state) :=
  let? connector := lift (qemu_connector address) in attach_qemu connector [capability].

(** [VmiSession::read_bytes] through the monitor. *)
Definition qemu_read_bytes (q : QemuSession.t) (address length : Z) (s : QemuSession.state) : Result (list byte) :=
  let? buffer := allocate_read_buffer length in
  match QemuSession.read_into q (Gpa.new address) buffer s with
  | (Ok _, bytes, _) => Ok bytes
  | (Err e, _, _) => Err e
  end.

Definition qemu_read (args : list string) : Cli unit :=
  let? address := lift (parse_number (arg args 3)) in
  let? length := lift (parse_length (arg args 4)) in
  let? ' (q, s) := qemu_session (arg args 2) Capability.MemoryRead in
  let? bytes := vmi (qemu_read_bytes q address length s) in
  print_bytes address bytes.

Definition qemu_register (args : list string) : Cli unit :=
  let? vcpu := lift (parse_vcpu (arg args 3)) in
  let? ' (q, s) := qemu_session (arg args 2) Capability.RegisterRead in
  let? value := traverse s (QemuSession.read_register q vcpu (arg args 4)) in
  print_register vcpu (arg args 4) value.

Definition show_event (event : VmiEvent) : string :=
  "event=" +:+ ev_kind event +:+ " vcpu=" +:+ from_option dec "-"%string (ev_vcpu event) +:+ " address="
    +:+ from_option (fun address => hex (Gpa.raw address)) "-"%string (ev_address event).

(** The trigger, when one is given, then the event. *)
Definition trigger_event (q : QemuSession.t) (operation : option string) (timeout : Z)
    : stateful QemuSession.state string (option VmiEvent) :=
  let told {A} (m : stateful QemuSession.state VmiError.t A) : stateful QemuSession.state string A :=
    fun s => let '(r, s) := m s in (map_err VmiError.display r, s) in
  let? _ :=
    (match operation with
     | None => mret tt
     | Some operation =>
         if bool_decide (operation = "pause"%string) then told (QemuSession.pause q)
         else if bool_decide (operation = "resume"%string) then told (QemuSession.resume q)
         else fail "event trigger must be pause or resume"%string
     end) in
  told (QemuSession.next_event timeout).

Definition qemu_event (args : list string) : Cli unit :=
  let? milliseconds := lift (parse_number (arg args 3)) in
  let? ' (q, s) := qemu_session (arg args 2) Capability.Events in
  let? event := lift (fst (trigger_event q (args !! 4%nat) (milliseconds * 1000000) s)) in
  println (from_option show_event "timeout"%string event).

Definition write_then_read (q : QemuSession.t) (vcpu : Z) (register : string) (value : Z)
    : stateful QemuSession.state VmiError.t Z :=
  let? _ := QemuSession.write_register q vcpu register value in
  QemuSession.read_register q vcpu register.

Definition qemu_gdb_register_write (args : list string) : Cli unit :=
  let? ' (vcpu, register_index, value_index) :=
    lift (if Nat.eqb (length args) 7 then
            let? vcpu := parse_vcpu (arg args 4) in Ok (vcpu, 5%nat, 6%nat)
          else Ok (0, 4%nat, 5%nat)) in
  let? connector := lift (qemu_connector (arg args 2)) in
  let? ' (q, s) := attach_qemu (QemuConnector.with_gdb connector (arg args 3))
    [Capability.RegisterRead; Capability.RegisterWrite] in
  let? value := lift (parse_number (arg args value_index)) in
  let? actual := traverse s (write_then_read q vcpu (arg args register_index) value) in
  print_register vcpu (arg args register_index) actual.

Definition qemu_control (address operation : string) : Cli unit :=
  let? ' (q, s) := qemu_session address Capability.Control in
  let? state := traverse s
    (let? _ := (if bool_decide (operation = "pause"%string) then QemuSession.pause q else mret tt) in
     let? _ := (if bool_decide (operation = "resume"%string) then QemuSession.resume q else mret tt) in
     QemuSession.execution_state q) in
  print_state state.

(** An output path, made absolute. *)
Definition output_path (text : string) : result string Path :=
  let path := parse_path text in
  if is_absolute path then Ok path
  else let? dir := current_dir env in Ok (join dir path).

Definition qemu_acquire (args : list string) : Cli unit :=
  let? start := lift (parse_number (arg args 4)) in
  let? length := lift (parse_number (arg args 5)) in
  let? path := lift (output_path (arg args 3)) in
  let? ' (q, s) := qemu_session (arg args 2) Capability.Acquisition in
  let? _ := traverse s (QemuSession.save_physical_range q (path_display path) (Gpa.new start) length) in
  println ("saved " +:+ dec length +:+ " bytes from GPA " +:+ hex start +:+ " to " +:+ path_display path).

Definition qemu_dump (args : list string) : Cli unit :=
  let? path := lift (output_path (arg args 3)) in
  let? ' (q, s) := qemu_session (arg args 2) Capability.Acquisition in
  let? _ := traverse s (QemuSession.save_snapshot q (path_display path)) in
  println ("saved QEMU ELF VM core to " +:+ path_display path).
End live.

(** ** Dispatch *)

Definition usage_lines : list string :=
  ["read-raw|read-elf|read-xen-core|read-kdmp|read-lime|read-manifest <file> <gpa> <length>";
   "read-vmware-vmem <file.vmem> <physical-base> <gpa> <length>";
   "read-vmware-core <vmss2core-output> <gpa> <length>";
   "libvirt-status|libvirt-pause|libvirt-resume <domain>";
   "libvirt-dump <domain> <output.elf>";
   "libvirt-acquire <domain> <output> <gpa> <length>";
   "qemu-status|qemu-pause|qemu-resume <host:port>";
   "qemu-read <host:port> <gpa> <length>";
   "qemu-reg-read <host:port> <vcpu> <register>";
   "qemu-event <host:port> <timeout-ms> [event-kind]";
   "qemu-gdb-reg-write <qmp-host:port> <gdb-host:port> [vcpu] <register> <value>";
   "qemu-acquire <host:port> <output> <gpa> <length>";
   "qemu-dump <host:port> <output.elf>";
   "vbox-status <vm>";
   "vbox-reg-read <vm> <vcpu> <register>";
   "vbox-reg-write <vm> <vcpu> <register> <value>";
   "profile-symbol|profile-nearest <System.map> <name-or-address>";
   "profile-json-symbol|profile-json-offset <profile.json> <name>";
   "profile-pdb-symbol|profile-pdb-offset <file.pdb> <image-base> <name>";
   "linux-processes-elf <vmcore> <System.map> <cr3> <tasks_off> <pid_off> <comm_off> <comm_len> <limit>";
   "windows-processes-elf <vmcore> <symbols> <cr3> <links_off> <pid_off> <image_off> <image_len> <dtb_off> <limit>"]%string.

Definition usage (program : string) : string :=
  "usage:" +:+ foldr (fun line text => newline +:+ "  " +:+ program +:+ " " +:+ line +:+ text) ""%string usage_lines.

(** A command and the numbers of arguments it takes, the program's name
    among them. *)
Record CommandEntry : Type := mk_entry { entry_name : string; entry_counts : list nat; entry_run : list string -> Cli unit }.

Section dispatch.
Context `{Allocator, Bitflags, FileSystem, Decompressors, Pdb, Clock, QmpJson, StrDebug} (env : Environment).

(** The arms of [run_args], in order. *)
Definition command_table : list CommandEntry :=
  [mk_entry "read-raw" [5%nat] read_raw;
   mk_entry "read-elf" [5%nat] read_elf;
   mk_entry "read-xen-core" [5%nat] read_xen_core;
   mk_entry "read-kdmp" [5%nat] read_kdmp;
   mk_entry "read-lime" [5%nat] read_lime;
   mk_entry "read-manifest" [5%nat] read_manifest;
   mk_entry "read-vmware-vmem" [6%nat] read_vmware_vmem;
   mk_entry "read-vmware-core" [5%nat] read_vmware_core;
   mk_entry "libvirt-status" [3%nat] (fun args => libvirt_control env (arg args 2) "status");
   mk_entry "libvirt-pause" [3%nat] (fun args => libvirt_control env (arg args 2) "pause");
   mk_entry "libvirt-resume" [3%nat] (fun args => libvirt_control env (arg args 2) "resume");
   mk_entry "libvirt-dump" [4%nat] (libvirt_dump env);
   mk_entry "libvirt-acquire" [6%nat] (libvirt_acquire env);
   mk_entry "qemu-status" [3%nat] (fun args => qemu_control env (arg args 2) "status");
   mk_entry "qemu-pause" [3%nat] (fun args => qemu_control env (arg args 2) "pause");
   mk_entry "qemu-resume" [3%nat] (fun args => qemu_control env (arg args 2) "resume");
   mk_entry "qemu-read" [5%nat] (qemu_read env);
   mk_entry "qemu-reg-read" [5%nat] (qemu_register env);
   mk_entry "qemu-event" [4%nat; 5%nat] (qemu_event env);
   mk_entry "qemu-gdb-reg-write" [6%nat; 7%nat] (qemu_gdb_register_write env);
   mk_entry "qemu-acquire" [6%nat] (qemu_acquire env);
   mk_entry "qemu-dump" [4%nat] (qemu_dump env);
   mk_entry "vbox-status" [3%nat] (fun args => vbox_status env (arg args 2));
   mk_entry "vbox-reg-read" [5%nat] (fun args => vbox_register env args false);
   mk_entry "vbox-reg-write" [6%nat] (fun args => vbox_register env args true);
   mk_entry "profile-symbol" [4%nat] profile_symbol;
   mk_entry "profile-nearest" [4%nat] profile_nearest;
   mk_entry "profile-json-symbol" [4%nat] profile_json_symbol;
   mk_entry "profile-json-offset" [4%nat] profile_json_offset;
   mk_entry "profile-pdb-symbol" [5%nat] profile_pdb_symbol;
   mk_entry "profile-pdb-offset" [5%nat] profile_pdb_offset;
   mk_entry "linux-processes-elf" [10%nat] linux_processes_elf;
   mk_entry "windows-processes-elf" [11%nat] windows_processes_elf].

Definition entry_matches (args : list string) (entry : CommandEntry) : bool :=
  bool_decide (args !! 1%nat = Some (entry_name entry)) && bool_decide (length args ∈ entry_counts entry).

(** The first arm that matches. *)
Fixpoint find_entry (args : list string) (entries : list CommandEntry) : option CommandEntry :=
  match entries with
  | [] => None
  | entry :: rest => if entry_matches args entry then Some entry else find_entry args rest
  end.

Definition run_args (args : list string) : Cli unit :=
  match find_entry args command_table with
  | Some entry => entry_run entry args
  | None => fail (usage (from_option (fun program => program) "vmi-cli"%string (head args)))
  end.

Definition run (arguments : list (list byte)) : Cli unit :=
  let? args := lift (collect_args arguments) in run_args args.

(** [main]: the exit status, 0 or 1, and what goes to standard error. *)
Definition main (arguments : list (list byte)) (p : Process) : Z * string * Process :=
  match run arguments p with
  | (Ok _, p) => (0, ""%string, p)
  | (Err error, p) => (1, "error: " +:+ error +:+ newline, p)
  end.
End dispatch.
End commands.
