(* ===== verification/CliFacts.v ===== *)
(** * What the command line prints

    The offline readers print exactly the bytes of the image, sixteen to a
    line, and their text can be read back. *)

From S2P Require Import Prelude.
From S2P Require Import Types.
From S2P Require Import DriverApi.
From S2P Require Import Session.
From S2P Require Import Text.
From S2P Require Import TextFacts.
From S2P Require Import AsciiFacts.
From S2P Require Import Host.
From S2P Require Import HostFs.
From S2P Require Import Artifact.
From S2P Require Import ArtifactFormats.
From S2P Require Import ArtifactFiles.
From S2P Require Import ArtifactFilesFacts.
From S2P Require Import Snapshot.
From S2P Require Import Profile.
From S2P Require Import Socket.
From S2P Require Import Qmp.
From S2P Require Import Qemu.
From S2P Require Import Live.
From S2P Require Import ProfileFacts.
From S2P Require Import QmpFacts.
From S2P Require Import Cli.

(** ** The text of a dump *)

Definition dump_row (address : Z) (chunk : list byte) : list byte :=
  hex_bytes 16 address ++ x3a :: flat_map (fun w => x20 :: w) ((fun b => hex_bytes 2 (byte_val b)) <$> chunk).

Fixpoint dump_rows (fuel : nat) (address : Z) (bytes : list byte) : list (list byte) :=
  match fuel, bytes with
  | S fuel, _ :: _ => dump_row address (take 16 bytes) :: dump_rows fuel (address + 16) (drop 16 bytes)
  | _, _ => []
  end.

Definition dump_text (address : Z) (bytes : list byte) : string :=
  string_of_bytes (concat ((fun row => row ++ [x0a]) <$> dump_rows (length bytes) address bytes)).

Lemma dump_line_row address chunk : dump_line address chunk = string_of_bytes (dump_row address chunk).
Proof.
  unfold dump_line, dump_row, hex_padded. rewrite string_of_bytes_app. f_equal.
  change (x3a :: ?l) with ([x3a] ++ l). rewrite string_of_bytes_app. f_equal.
  induction chunk as [|b chunk IH]; [done|]. cbn [foldr fmap list_fmap flat_map].
  change (x20 :: ?l) with ([x20] ++ l). rewrite <- app_assoc, !string_of_bytes_app, IH. done.
Qed.

(** *** Reading it back: each byte with its address. *)

Definition byte_word (word : string) : option byte :=
  match ParseInt.from_str_radix 64 16 word with
  | Ok v => if v <? 256 then Some (byte_of v) else None
  | Err _ => None
  end.

Definition located (address : Z) (bytes : list byte) : list (Z * byte) :=
  imap (fun i b => (address + Z.of_nat i, b)) bytes.

Definition dump_entry (line : string) : option (list (Z * byte)) :=
  match split_once x3a line with
  | Some (label, words) =>
      match ParseInt.from_str_radix 64 16 label with
      | Ok address => located address <$> mapM byte_word (split_whitespace words)
      | Err _ => None
      end
  | None => None
  end.

Definition read_dump_text (text : string) : option (list (Z * byte)) := (fun entries => concat entries) <$> mapM dump_entry (lines text).

Lemma byte_word_hex b : byte_word (string_of_bytes (hex_bytes 2 (byte_val b))) = Some b.
Proof.
  pose proof (byte_val_range b) as Hb. unfold byte_word.
  pose proof (parse_hex_padded 2 (byte_val b) ltac:(lia)) as Hp. unfold hex_padded in Hp.
  rewrite Hp by (change (16 ^ Z.of_nat 2) with 256; lia).
  rewrite (proj2 (Z.ltb_lt (byte_val b) 256)) by lia. by rewrite byte_of_val.
Qed.

Lemma hexadecimal_not (c : byte) n v : ~ hexadecimal c -> c ∉ hex_bytes n v.
Proof. intros Hc Hin. pose proof (hex_bytes_all n v) as Hall. rewrite Forall_forall in Hall. by apply Hc, Hall. Qed.

Lemma dump_words chunk :
  split_whitespace (string_of_bytes (flat_map (fun w => x20 :: w) ((fun b => hex_bytes 2 (byte_val b)) <$> chunk))) =
  (fun b => string_of_bytes (hex_bytes 2 (byte_val b))) <$> chunk.
Proof.
  rewrite split_words; [by rewrite <- list_fmap_compose|].
  apply Forall_fmap, Forall_true. intros b. cbn [compose]. split.
  - eapply Forall_impl; [apply hex_bytes_all|]. by intros ? [? _].
  - intros E. pose proof (length_hex_bytes 2 (byte_val b)) as Hl. by rewrite E in Hl.
Qed.

Lemma read_words chunk : mapM byte_word ((fun b => string_of_bytes (hex_bytes 2 (byte_val b))) <$> chunk) = Some chunk.
Proof.
  induction chunk as [|b chunk IH]; [done|]. cbn [fmap list_fmap mapM]. rewrite byte_word_hex.
  cbn [mbind option_bind]. by rewrite IH.
Qed.

Lemma dump_entry_row address chunk : in_u64 address ->
  dump_entry (string_of_bytes (dump_row address chunk)) = Some (located address chunk).
Proof.
  intros Ha. unfold dump_entry, dump_row.
  rewrite split_once_spec by (apply hexadecimal_not; intros (_ & _ & _ & _ & _ & N); by apply N).
  pose proof (parse_hex_padded 16 address ltac:(lia)) as Hp. unfold hex_padded in Hp.
  rewrite Hp by (change (16 ^ Z.of_nat 16) with (2 ^ 64); apply Ha).
  by rewrite dump_words, read_words.
Qed.

Lemma dump_rows_more fuel address bytes : bytes <> [] ->
  dump_rows (S fuel) address bytes =
  dump_row address (take 16 bytes) :: dump_rows fuel (address + 16) (drop 16 bytes).
Proof. by destruct bytes. Qed.

Lemma dump_row_graphic address chunk : Forall (fun b => graphic b \/ b = x20) (dump_row address chunk).
Proof.
  unfold dump_row. apply Forall_app. split.
  { eapply Forall_impl; [apply hex_bytes_all|]. intros b [Hb _]. by left. }
  apply Forall_cons. split; [left; by vm_compute|].
  induction chunk as [|b chunk IH]; [constructor|]. cbn [fmap list_fmap flat_map].
  apply Forall_cons. split; [by right|]. apply Forall_app. split; [|exact IH].
  eapply Forall_impl; [apply hex_bytes_all|]. intros c [Hc _]. by left.
Qed.

Lemma dump_row_is_line address chunk : (x0a ∉ dump_row address chunk) /\ last (dump_row address chunk) <> Some x0d.
Proof.
  pose proof (dump_row_graphic address chunk) as Hall. rewrite Forall_forall in Hall.
  assert (Hno : forall b, ~ graphic b -> b <> x20 -> b ∉ dump_row address chunk).
  { intros b Hg Hs Hb. by destruct (Hall b Hb). }
  assert (Ha : ~ graphic x0a) by (intros [Hlow _]; by vm_compute in Hlow).
  assert (Hd : ~ graphic x0d) by (intros [Hlow _]; by vm_compute in Hlow).
  split; [by apply Hno|].
  intros Hl%last_Some_elem_of. revert Hl. by apply Hno.
Qed.

Lemma dump_rows_lines fuel address bytes :
  Forall (fun row => (x0a ∉ row) /\ last row <> Some x0d) (dump_rows fuel address bytes).
Proof.
  revert address bytes. induction fuel as [|fuel IH]; intros address [|b bytes]; cbn [dump_rows]; try constructor.
  - apply dump_row_is_line.
  - apply IH.
Qed.

Lemma located_take_drop address n bytes :
  located address (take n bytes) ++ located (address + Z.of_nat n) (drop n bytes) = located address bytes.
Proof.
  unfold located. destruct (decide (n <= length bytes)%nat) as [Hn|Hn].
  - rewrite <- (take_drop n bytes) at 3. rewrite imap_app, length_take_le by done.
    f_equal. apply imap_ext. intros i b _. cbn. f_equal. lia.
  - rewrite take_ge, drop_ge by lia. apply app_nil_r.
Qed.

Lemma read_dump_rows fuel address bytes :
  (length bytes <= fuel)%nat -> 0 <= address -> address + zlen bytes <= 2 ^ 64 ->
  (fun entries => concat entries) <$> mapM dump_entry (string_of_bytes <$> dump_rows fuel address bytes) =
  Some (located address bytes).
Proof.
  revert address bytes. induction fuel as [|fuel IH]; intros address [|b bytes] Hf Ha He;
    try (cbn in Hf; lia); try done.
  rewrite dump_rows_more by done. assert (Hlen : (0 < length (b :: bytes))%nat) by (cbn; lia).
  revert Hlen Hf He. generalize (b :: bytes) as all. intros all Hlen Hf He.
  cbn [fmap list_fmap mapM]. unfold zlen in He. rewrite dump_entry_row by (unfold in_width; lia).
  cbn [mbind option_bind].
  destruct (decide (length all <= 16)%nat) as [Hshort|Hlong].
  - rewrite drop_ge, take_ge by lia. destruct fuel; cbn; by rewrite app_nil_r.
  - assert (Hrest : (length (drop 16 all) <= fuel)%nat) by (rewrite length_drop; lia).
    assert (Hend : address + 16 + zlen (drop 16 all) <= 2 ^ 64) by (unfold zlen; rewrite length_drop; lia).
    specialize (IH (address + 16) (drop 16 all) Hrest ltac:(lia) Hend).
    destruct (mapM dump_entry _) as [entries|]; [|done]. cbn in IH |- *. injection IH as IH. rewrite IH.
    f_equal. apply (located_take_drop address 16).
Qed.

(** The text of a dump reads back as its bytes, each with its address. *)
Lemma read_dump_text_exact address bytes : 0 <= address -> address + zlen bytes <= 2 ^ 64 ->
  read_dump_text (dump_text address bytes) = Some (located address bytes).
Proof.
  intros Ha He. unfold read_dump_text, dump_text. rewrite lines_unix by apply dump_rows_lines.
  by apply read_dump_rows.
Qed.

(** *** The printer prints it. *)

Section printed.
Context {W : Type}.

Lemma line_address_Ok address index : 0 <= index -> 0 <= address -> address + 16 * index < 2 ^ 64 ->
  line_address address index = Ok (address + 16 * index).
Proof.
  intros Hi Ha He. unfold line_address. rewrite try_width_fits by lia.
  cbn [ok_or mbind result_bind]. rewrite (checked_mul_fits 64 index 16) by lia. cbn [ok_or mbind result_bind].
  rewrite (checked_add_fits 64 address (index * 16)) by lia. cbn [ok_or]. f_equal. lia.
Qed.

Lemma print_lines_Ok fuel address index bytes (p : @Process W) :
  (length bytes <= fuel)%nat -> 0 <= index -> 0 <= address -> address + 16 * index + zlen bytes <= 2 ^ 64 ->
  print_lines fuel address index bytes p =
  (Ok tt, mk_process (stdout p +:+ string_of_bytes
     (concat ((fun row => row ++ [x0a]) <$> dump_rows fuel (address + 16 * index) bytes))) (machine p)).
Proof.
  revert index bytes p. induction fuel as [|fuel IH]; intros index [|b bytes] p Hf Hi Ha He;
    try (cbn in Hf; lia); try (destruct p; cbn; by rewrite string_app_nil_r).
  rewrite dump_rows_more by done. assert (Hlen : (0 < length (b :: bytes))%nat) by (cbn; lia).
  unfold zlen in He.
  change (print_lines (S fuel) address index (b :: bytes) p) with
    ((let? line := lift (line_address address index) in
      let? _ := println (dump_line line (take 16 (b :: bytes))) in
      print_lines fuel address (index + 1) (drop 16 (b :: bytes))) p).
  revert Hlen Hf He. generalize (b :: bytes) as all. intros all Hlen Hf He.
  unfold mbind, stateful_bind, lift. rewrite line_address_Ok by lia. cbn [println print].
  unfold println, print. cbn [stdout machine].
  cbn [fmap list_fmap concat]. rewrite dump_line_row, string_of_bytes_app, string_of_bytes_app.
  change (string_of_bytes [x0a]) with newline.
  destruct (decide (length all <= 16)%nat) as [Hshort|Hlong].
  - rewrite drop_ge by lia. destruct fuel; cbn [print_lines dump_rows fmap list_fmap concat];
      change (string_of_bytes []) with ""%string; by rewrite string_app_nil_r.
  - rewrite IH by (rewrite ?length_drop; unfold zlen; rewrite ?length_drop; lia).
    cbn [stdout machine]. rewrite string_app_assoc.
    by replace (address + 16 * (index + 1)) with (address + 16 * index + 16) by lia.
Qed.

Lemma print_bytes_Ok address bytes (p : @Process W) : 0 <= address -> address + zlen bytes <= 2 ^ 64 ->
  print_bytes address bytes p = (Ok tt, mk_process (stdout p +:+ dump_text address bytes) (machine p)).
Proof.
  intros Ha He. unfold print_bytes. rewrite print_lines_Ok by lia. unfold dump_text.
  by replace (address + 16 * 0) with address by lia.
Qed.
End printed.

(** ** The offline readers *)

Section readers.
Context `{Allocator, Bitflags, FileSystem, Decompressors, Pdb, Clock, QmpJson, StrDebug} {W : Type}.

(** The readers of a file, an address and a length, each with its decoder. *)
Definition image_readers : list (string * (string -> Result SnapshotBundle.t)) :=
  [("read-raw"%string, fun path => raw_file path (Gpa.new 0)); ("read-elf"%string, elf_vmcore_file);
   ("read-xen-core"%string, xen_core_file); ("read-kdmp"%string, kdmp_file); ("read-lime"%string, lime_file);
   ("read-manifest"%string, manifest_file); ("read-vmware-core"%string, converted_core_file)].

Definition decoded_image {E} (r : result E SnapshotBundle.t) : option SnapshotBundle.t :=
  match r with Ok b => Some b | Err _ => None end.

(** The command lines of all offline readers: which arguments are the
    address and the length, and the image the others name, if they do. *)
Inductive image_command : list string -> string -> string -> option SnapshotBundle.t -> Prop :=
| reader_command name load file gpa len : (name, load) ∈ image_readers ->
    image_command [name; file; gpa; len] gpa len (decoded_image (load file))
| vmem_command file base gpa len :
    image_command ["read-vmware-vmem"%string; file; base; gpa; len] gpa len
      (physical ← match parse_number base with Ok physical => Some physical | Err _ => None end;
       decoded_image (raw_file file (Gpa.new physical))).

(** The bytes of a bundle from an address on. *)
Definition bytes_from (bundle : SnapshotBundle.t) (address : Z) (bytes : list byte) : Prop :=
  forall i, (i < length bytes)%nat ->
    BundleSpec.byte_at (SnapshotBundle.segments bundle) (address + Z.of_nat i) = bytes !! i.

Lemma reader_loaded name load file bundle :
  (name, load) ∈ image_readers -> load file = Ok bundle -> loaded bundle.
Proof.
  intros Hin Hload. unfold image_readers in Hin. rewrite !elem_of_cons in Hin.
  destruct_or! Hin; try (by apply not_elem_of_nil in Hin); injection Hin as _ ->.
  - by apply raw_file_loaded in Hload.
  - by apply (elf_file_loaded file); left.
  - by apply (elf_file_loaded file); right.
  - by apply kdmp_file_loaded in Hload.
  - by apply lime_file_loaded in Hload.
  - by apply manifest_loaded in Hload.
  - by apply converted_core_loaded in Hload.
Qed.

Lemma parse_number_range value v : parse_number value = Ok v -> in_u64 v.
Proof.
  unfold parse_number. intros Hv. inv_ok. destruct (strip_prefix "0x" value); [|destruct (strip_prefix "0X" value)].
  all: by apply from_str_radix_range in Hv.
Qed.

Lemma parse_length_range value v : parse_length value = Ok v -> in_u64 v.
Proof.
  unfold parse_length, parse_within. intros Hv. inv_ok. apply try_width_Some in Hv as [-> ?].
  by eapply parse_number_range.
Qed.

(** Attaching to a connector that gives a bundle. *)
Lemma attach_offline (c : Connector SnapshotBundle.t) request d t bundle :
  connect c request = Ok (offline_session d t, bundle) ->
  let r := VmiSession.attach c request in
  (forall session state, r = Ok (session, state) ->
    memory session = Ok bundle_memory /\ VmiSession.backend state = bundle) /\ (ample -> is_ok r = true).
Proof.
  intros Hc. unfold VmiSession.attach. rewrite Hc. cbn [mbind result_bind]. split.
  - intros session state Hs. inv_ok. simplify_eq. done.
  - intros Hample. destruct (TranslationCache.new 4096) as [cache|e] eqn:E; [done|].
    exfalso. revert E. unfold TranslationCache.new.
    rewrite (checked_add_fits 64 4096 1) by lia. cbn [Z.eqb ok_or mbind result_bind].
    by rewrite !reserve_ample by (done || unfold isize_max; lia).
Qed.

(** What attaching to a bundle does to a command that has room for it. *)
Definition attaches (attach : stateful (@Process W) string (Session SnapshotBundle.t * VmiSession.state SnapshotBundle.t))
    (bundle : SnapshotBundle.t) (room : Prop) : Prop :=
  forall p p' r, attach p = (r, p') ->
    p' = p /\ (forall session state, r = Ok (session, state) ->
      memory session = Ok bundle_memory /\ VmiSession.backend state = bundle) /\ (ample -> room -> is_ok r = true).

Lemma attach_dump_attaches bundle : attaches (attach_dump bundle) bundle True.
Proof.
  intros p p' r. unfold attach_dump, vmi, lift. intros [= <- <-]. split; [done|].
  pose proof (dump_connect bundle GuestArchitecture.Amd64 TargetSelector.Any [Capability.MemoryRead]) as Hc.
  cbn zeta in Hc. destruct Hc as [(Hc & _)|[_ Hc]]; [|destruct Hc; split; [by repeat constructor|done]].
  destruct (attach_offline (DumpConnector.connector (DumpConnector.new bundle GuestArchitecture.Amd64))
    (AttachRequest.any (CapabilitySet.from_caps [Capability.MemoryRead])) _ _ _ Hc) as [Hs Hok].
  cbn zeta in *. destruct (VmiSession.attach _ _); cbn [map_err]; [split|]; auto.
  - intros session state [= ->]. by apply Hs.
  - split; [done|]. intros Ha _. by apply Hok in Ha.
Qed.

Lemma attaches_room attach bundle room room' : (room' -> room) -> attaches attach bundle room -> attaches attach bundle room'.
Proof. intros Hroom Ha p p' r Hr. destruct (Ha p p' r Hr) as (? & ? & ?). auto. Qed.

Lemma attach_dump_state bundle (p p' : @Process W) r : attach_dump bundle p = (r, p') ->
  p' = p /\ (forall session state, r = Ok (session, state) ->
    memory session = Ok bundle_memory /\ VmiSession.backend state = bundle) /\ (ample -> is_ok r = true).
Proof. intros Ha. destruct (attach_dump_attaches bundle _ _ _ Ha) as (? & ? & Hok). auto. Qed.

(** A snapshot connector made of a bundle, then attached to. *)
Definition attach_snapshot (id name : string) (bundle : SnapshotBundle.t)
    : stateful (@Process W) string (Session SnapshotBundle.t * VmiSession.state SnapshotBundle.t) :=
  let? connector := vmi (SnapshotConnector.new id name GuestArchitecture.Amd64 bundle) in
  vmi (VmiSession.attach (SnapshotConnector.connector connector)
    (AttachRequest.any (CapabilitySet.from_caps [Capability.MemoryRead]))).

(** The texts a target is named by are short. *)
Definition named_shortly (bundle : SnapshotBundle.t) : Prop :=
  Z.of_nat (String.length (ArtifactProvenance.source (SnapshotBundle.provenance bundle))) <= MAX_ARGUMENT_BYTES /\
  (String.length (ArtifactProvenance.format (SnapshotBundle.provenance bundle)) <= 32)%nat.

Lemma snapshot_new_Ok id name bundle : id <> ""%string -> name <> ""%string -> ample -> named_shortly bundle ->
  is_ok (SnapshotConnector.new id name GuestArchitecture.Amd64 bundle) = true.
Proof.
  intros Hid Hname Hample [Hsource Hformat]. unfold MAX_ARGUMENT_BYTES in Hsource.
  unfold SnapshotConnector.new. rewrite !bool_decide_eq_false_2 by done. cbn [orb].
  unfold SnapshotConnector.try_owned_text, owned_text, SnapshotConnector.try_snapshot_target_name.
  rewrite reserve_ample by (done || unfold isize_max; lia). cbn [map_err mbind result_bind].
  rewrite checked_add_fits by lia. rewrite checked_add_fits by lia. cbn [ok_or mbind result_bind].
  by rewrite reserve_ample by (done || unfold isize_max; lia).
Qed.

Lemma attach_snapshot_attaches id name bundle : id <> ""%string -> name <> ""%string ->
  attaches (attach_snapshot id name bundle) bundle (named_shortly bundle).
Proof.
  intros Hid Hname p p' r. unfold attach_snapshot, vmi, lift, mbind, stateful_bind.
  destruct (SnapshotConnector.new id name GuestArchitecture.Amd64 bundle) as [c|e] eqn:Hnew; cbn [map_err].
  2:{ intros [= <- <-]. split; [done|]. split; [done|]. intros Hample Hroom.
      pose proof (snapshot_new_Ok id name bundle Hid Hname Hample Hroom) as Hok. by rewrite Hnew in Hok. }
  intros [= <- <-]. split; [done|].
  pose proof (snapshot_connect _ _ _ _ _ TargetSelector.Any [Capability.MemoryRead] Hnew) as Hc.
  cbn zeta in Hc. destruct Hc as [(Hc & _)|[_ Hc]]; [|destruct Hc; split; [by repeat constructor|done]].
  destruct (attach_offline (SnapshotConnector.connector c)
    (AttachRequest.any (CapabilitySet.from_caps [Capability.MemoryRead])) _ _ _ Hc) as [Hs Hok].
  cbn zeta in *. destruct (VmiSession.attach _ _); cbn [map_err]; (split; [|by auto]); [|done].
  intros session state [= ->]. by apply Hs.
Qed.

(** A read of an attached bundle returns exactly its bytes. *)
Lemma session_read session (state : VmiSession.state SnapshotBundle.t) bundle address n :
  memory session = Ok bundle_memory -> VmiSession.backend state = bundle -> loaded bundle -> 0 <= n ->
  let r := fst (VmiSession.read_bytes session (Gpa.new address) n state) in
  (forall bytes, r = Ok bytes -> zlen bytes = n /\ bytes_from bundle address bytes) /\
  (forall bytes, ample -> n <= isize_max -> zlen bytes = n -> bytes_from bundle address bytes -> r = Ok bytes).
Proof.
  intros Hm <- [Hwf Hs] Hn. pose proof (bundle_byte_memory _ Hwf Hs) as Hmem.
  cbn zeta. unfold VmiSession.read_bytes. rewrite Hm. cbn [mbind result_bind fst].
  unfold DriverApi.read_bytes. split.
  - intros bytes Hr. inv_ok. apply allocate_read_buffer_Ok in Hm0 as [-> Hmax].
    destruct (read_into _ _ _) as [[u|e] buffer] eqn:E in Hr; [|done]. injection Hr as <-. destruct u.
    apply (byte_memory_ok (ByteMemory := Hmem)) in E as [Hl Hb];
      [|unfold zlen; rewrite length_replicate; lia].
    rewrite length_replicate in Hl, Hb. unfold zlen. split; [lia|]. intros i Hi. apply Hb. lia.
  - intros bytes Ha Hmax Hl Hb. unfold allocate_read_buffer. rewrite reserve_ample by done.
    cbn [map_err mbind result_bind]. unfold zlen in *.
    rewrite (byte_memory_read _ _ bytes); [done|..]; rewrite ?length_replicate; [lia| |done].
    unfold zlen. rewrite length_replicate. lia.
Qed.

Lemma bytes_from_end bundle address bytes : in_u64 address -> bytes_from bundle address bytes ->
  address + zlen bytes <= 2 ^ 64.
Proof.
  intros Ha Hb. unfold zlen. destruct (length bytes) as [|k] eqn:E; [unfold in_width in Ha; lia|].
  destruct (lookup_lt_is_Some_2 bytes k ltac:(lia)) as [x Hx].
  pose proof (Hb k ltac:(lia)) as Hk. rewrite Hx in Hk.
  assert (Hs : is_Some (BundleSpec.byte_at (SnapshotBundle.segments bundle) (address + Z.of_nat k))) by by eexists.
  apply is_Some_byte_at in Hs as [? _]. lia.
Qed.

Lemma provenance_elf path data format max bundle :
  from_elf_with_limits path data format max = Ok bundle ->
  SnapshotBundle.provenance bundle = ArtifactProvenance.mk format path.
Proof.
  unfold from_elf_with_limits. intros Hb. destruct (_ =? 0); [done|]. destruct (_ || _); [done|]. inv_ok.
  destruct (_ <? 56); [done|]. apply bind_Ok in Hb as ([total segs] & _ & Hb). destruct (_ =? 0); [done|].
  inv_ok. by subst.
Qed.

Lemma provenance_kdmp path data bundle : from_kdmp path data = Ok bundle ->
  ArtifactProvenance.source (SnapshotBundle.provenance bundle) = path /\
  (String.length (ArtifactProvenance.format (SnapshotBundle.provenance bundle)) <= 32)%nat.
Proof.
  unfold from_kdmp, from_bitmap_kdmp, from_rdmp_kdmp. intros Hb. destruct (_ || _); [done|]. destruct (_ || _).
  { destruct (negb _); [done|]. inv_ok. destruct (_ || _); [done|]. inv_ok. destruct (_ <? _); [done|].
    apply bind_Ok in Hb as ([[payload found] segs] & _ & Hb). destruct (negb _); [done|]. inv_ok.
    subst. cbn. split; [done|lia]. }
  inv_ok. destruct (_ && _).
  { destruct (negb _); [done|]. inv_ok. destruct v2; cbn [negb] in Hb; [|done]. inv_ok. destruct (zlen data <? _); [done|].
    apply bind_Ok in Hb as ([payload segs] & _ & Hb). destruct (zlen segs =? 0); [done|]. inv_ok.
    subst. cbn. split; [done|lia]. }
  inv_ok. destruct (negb _); [done|]. inv_ok. destruct (_ || _); [done|]. inv_ok.
  destruct v5 as [[payload pages] segs]. destruct (negb _); [done|]. inv_ok. subst. cbn. split; [done|lia].
Qed.

Definition argument_fits (argument : string) : Prop := Z.of_nat (String.length argument) <= MAX_ARGUMENT_BYTES.

Lemma raw_named file base bundle : argument_fits file -> raw_file file base = Ok bundle -> named_shortly bundle.
Proof.
  unfold raw_file, raw_file_with_limit, try_from_raw. intros Hfile Hb. inv_ok. destruct (_ <? _); [done|].
  inv_ok. subst. split; cbn; [done|lia].
Qed.

Lemma converted_named file bundle : argument_fits file -> converted_core_file file = Ok bundle -> named_shortly bundle.
Proof.
  unfold converted_core_file. intros Hfile Hb. apply bind_Ok in Hb as (prefix & _ & Hb). destruct (starts_with prefix elf_magic).
  - unfold elf_vmcore_file, elf_vmcore_file_with_limits in Hb. inv_ok. apply provenance_elf in Hb.
    unfold named_shortly. rewrite Hb. cbn. split; [done|lia].
  - destruct (_ || _); [|done]. unfold kdmp_file, kdmp_file_with_limit in Hb. destruct (_ =? 0); [done|]. inv_ok.
    apply provenance_kdmp in Hb as [Hs ?]. unfold named_shortly. by rewrite Hs.
Qed.

(** ** The commands, step by step *)

Lemma numbers_read (load : Result SnapshotBundle.t) gpa len
    (k : Z -> Z -> SnapshotBundle.t -> stateful (@Process W) string unit) (p : @Process W) :
  (let? address := lift (parse_number gpa) in
   let? length := lift (parse_length len) in
   let? bundle := vmi load in k address length bundle) p =
  match parse_number gpa, parse_length len, load with
  | Ok address, Ok n, Ok bundle => k address n bundle p
  | Err e, _, _ | Ok _, Err e, _ => (Err e, p)
  | Ok _, Ok _, Err e => (Err (VmiError.display e), p)
  end.
Proof.
  unfold vmi, lift, mbind, stateful_bind. destruct (parse_number gpa); [|done].
  destruct (parse_length len); [|done]. by destruct load.
Qed.

(** What a reader does: it attaches to the image its arguments name and reads
    there, or fails because they name none. *)
Definition reads_image (gpa len : string) (image : option SnapshotBundle.t) (room : Prop)
    (m : stateful (@Process W) string unit) : Prop :=
  forall p,
  (exists address n bundle attach, parse_number gpa = Ok address /\ parse_length len = Ok n /\ image = Some bundle /\
     loaded bundle /\ attaches attach bundle room /\
     m p = (let? session := attach in read_session session address n) p) \/
  ((forall address n bundle, ~ (parse_number gpa = Ok address /\ parse_length len = Ok n /\ image = Some bundle)) /\
   exists e, m p = (Err e, p)).

Lemma reads_image_numbers gpa len (load : Result SnapshotBundle.t) (room : Prop) attach :
  (forall bundle, load = Ok bundle -> loaded bundle /\ attaches (attach bundle) bundle room) ->
  reads_image gpa len (decoded_image load) room
    (let? address := lift (parse_number gpa) in
     let? length := lift (parse_length len) in
     let? bundle := vmi load in
     let? session := attach bundle in read_session session address length).
Proof.
  intros Hload p. rewrite numbers_read.
  destruct (parse_number gpa) as [address|e]; [|right; split; [naive_solver|by eexists]].
  destruct (parse_length len) as [n|e]; [|right; split; [naive_solver|by eexists]].
  destruct load as [bundle|e]; [|right; split; [naive_solver|by eexists]]. left.
  destruct (Hload bundle eq_refl). by exists address, n, bundle, (attach bundle).
Qed.

(** A reader's steps once its arguments are numbers and its file is loaded. *)
Lemma read_loaded attach address n bundle room (p : @Process W) :
  attaches attach bundle room -> loaded bundle -> in_u64 address -> in_u64 n ->
  let outcome := (let? session := attach in read_session session address n) p in
  (forall p', outcome = (Ok tt, p') -> exists bytes, zlen bytes = n /\ bytes_from bundle address bytes /\
     p' = mk_process (stdout p +:+ dump_text address bytes) (machine p)) /\
  (forall error p', outcome = (Err error, p') -> p' = p) /\
  (forall bytes, ample -> room -> n <= isize_max -> zlen bytes = n -> bytes_from bundle address bytes ->
     is_ok (fst outcome) = true).
Proof.
  intros Hattach Hload Ha Hn outcome. subst outcome. unfold mbind at 1 2 3, stateful_bind.
  destruct (attach p) as [[[session state]|e] q] eqn:E; apply Hattach in E as (-> & Hs & Hok).
  2: { split; [done|]. split; [by intros ? ? [= _ ->]|]. intros. by discriminate Hok. }
  destruct (Hs session state eq_refl) as [Hm Hb].
  destruct (session_read session state bundle address n Hm Hb Hload ltac:(unfold in_width in Hn; lia)) as [Hread Hall].
  unfold read_session, vmi, lift, mbind, stateful_bind. cbn [fst snd].
  destruct (fst (VmiSession.read_bytes session (Gpa.new address) n state)) as [bytes|e]; cbn [map_err].
  - destruct (Hread bytes eq_refl) as [Hl Hfrom]. pose proof (bytes_from_end _ _ _ Ha Hfrom) as Hend.
    rewrite print_bytes_Ok by (done || unfold in_width in Ha; lia).
    split; [|done]. intros p' [= <-]. by exists bytes.
  - split; [done|]. split; [by intros ? ? [= _ ->]|]. intros bytes ? ? ? ? Hf. by discriminate (Hall bytes).
Qed.

Lemma reads_image_ext gpa len image room m m' :
  (forall p, m p = m' p) -> reads_image gpa len image room m' -> reads_image gpa len image room m.
Proof. intros Heq Hm p. specialize (Hm p). by rewrite Heq. Qed.

Lemma dump_command_reads load program name file gpa len room :
  (forall bundle, load file = Ok bundle -> loaded bundle) ->
  reads_image gpa len (decoded_image (load file)) room (read_dump load [program; name; file; gpa; len]).
Proof.
  intros Hload. apply (reads_image_numbers gpa len (load file) room attach_dump). intros bundle Hb.
  split; [by apply Hload|]. by eapply attaches_room, attach_dump_attaches.
Qed.

(** A snapshot opened and read is its bundle loaded, attached to and read. *)
Lemma snapshot_connector_reads load id name gpa len room :
  id <> ""%string -> name <> ""%string -> (forall bundle, load = Ok bundle -> loaded bundle) ->
  (room -> forall bundle, load = Ok bundle -> named_shortly bundle) ->
  reads_image gpa len (decoded_image load) room
    (let? address := lift (parse_number gpa) in
     let? length := lift (parse_length len) in
     let? connector := vmi (let? bundle := load in SnapshotConnector.new id name GuestArchitecture.Amd64 bundle) in
     read_snapshot_connector connector address length).
Proof.
  intros Hid Hname Hload Hnamed.
  eapply reads_image_ext; [|apply (reads_image_numbers gpa len load room (attach_snapshot id name)); intros bundle Hb].
  - intros p. unfold read_snapshot_connector, attach_snapshot, vmi, lift, mbind, stateful_bind.
    destruct (parse_number gpa); [|done]. destruct (parse_length len); [|done]. destruct load; [|done].
    cbn [map_err result_bind]. destruct (SnapshotConnector.new _ _ _ _); [|done]. cbn [map_err].
    by destruct (VmiSession.attach _ _).
  - split; [by apply Hload|]. eapply attaches_room, attach_snapshot_attaches; [|done|done].
    intros Hroom. by apply Hnamed.
Qed.

Lemma run_image_command (env : Environment) program arguments gpa len image :
  image_command arguments gpa len image ->
  reads_image gpa len image (Forall argument_fits arguments) (run_args env (program :: arguments)).
Proof.
  intros Hc. destruct Hc as [name load file gpa len Hin|file base gpa len].
  - assert (Hload : forall bundle, load file = Ok bundle -> loaded bundle) by (intros; by eapply reader_loaded).
    pose proof (dump_command_reads load program name file gpa len (Forall argument_fits [name; file; gpa; len]) Hload) as Hdump.
    unfold image_readers in Hin. rewrite !elem_of_cons in Hin.
    destruct_or! Hin; try (by apply not_elem_of_nil in Hin); injection Hin as -> ->.
    7: { apply snapshot_connector_reads; [done|done|done|].
         intros [_ [Hfile _]%Forall_cons]%Forall_cons bundle. by apply converted_named. }
    all: exact Hdump.
  - intros p. change (run_args env [program; "read-vmware-vmem"%string; file; base; gpa; len] p)
      with (read_vmware_vmem [program; "read-vmware-vmem"%string; file; base; gpa; len] p).
    unfold read_vmware_vmem, arg, lift at 1. cbn [lookup list_lookup from_option mbind option_bind].
    destruct (parse_number base) as [physical|e] eqn:Hbase; [|right; split; [naive_solver|by eexists]].
    apply (snapshot_connector_reads (raw_file file (Gpa.new physical))); [done|done|..].
    + intros bundle. apply raw_file_loaded. by eapply parse_number_range.
    + intros [_ [Hfile _]%Forall_cons]%Forall_cons bundle. by apply raw_named.
Qed.
End readers.

(** C31: the offline readers print exactly the image's bytes.  For every
    command that reads an image file (a raw image, an ELF or Xen core, a
    crash dump, a LiME image or a manifest, a VMware memory file at the base
    given, a core converted from VMware's): when it succeeds, its arguments
    are numbers, the file decodes, every byte asked for is in the image, and
    what it adds to its output is the hex dump of those bytes, which reads
    back as each byte with its address; when it fails it prints nothing; and
    it succeeds whenever the bytes are there, the arguments are within their
    limit and memory suffices.  (A read of a live machine, [qemu-read], prints
    what its provider answers, by the same printer.) *)
Theorem cli_read_exact `{Allocator, Bitflags, FileSystem, Decompressors, Pdb, Clock, QmpJson, StrDebug}
    {W : Type} (env : Environment) (program : string) (arguments : list string) (gpa len : string)
    (image : option SnapshotBundle.t) (p : @Process W)
    (Hcommand : image_command arguments gpa len image) :
  let outcome := run_args env (program :: arguments) p in
  let serves address bytes := exists bundle,
    parse_number gpa = Ok address /\ parse_length len = Ok (zlen bytes) /\ image = Some bundle /\
    bytes_from bundle address bytes in
  (forall p', outcome = (Ok tt, p') -> exists address bytes,
     serves address bytes /\
     p' = mk_process (stdout p +:+ dump_text address bytes) (machine p) /\
     read_dump_text (dump_text address bytes) = Some (located address bytes)) /\
  (forall error p', outcome = (Err error, p') -> p' = p) /\
  (forall address bytes, ample -> Forall argument_fits arguments -> zlen bytes <= isize_max ->
     serves address bytes -> is_ok (fst outcome) = true).
Proof.
  intros outcome serves. subst outcome serves. cbv beta.
  destruct (run_image_command env program arguments gpa len image Hcommand p)
    as [(address & n & bundle & attach & Ea & En & -> & Hload & Hattach & ->)|[Hnone (e & ->)]].
  2: { split; [done|]. split; [by intros ? ? [= _ ->]|].
       intros address bytes _ _ _ (bundle & ? & ? & ? & _). by destruct (Hnone address (zlen bytes) bundle). }
  pose proof (parse_number_range _ _ Ea) as Ha. pose proof (parse_length_range _ _ En) as Hn.
  destruct (read_loaded attach address n bundle _ p Hattach Hload Ha Hn) as (Hok & Herr & Hall).
  split; [|split; [exact Herr|]].
  - intros p' Hp. destruct (Hok p' Hp) as (bytes & <- & Hfrom & ->). exists address, bytes.
    split; [by eexists|]. split; [done|]. apply read_dump_text_exact; [apply Ha|by eapply bytes_from_end].
  - intros address' bytes Hample Hfits Hmax (bundle' & Ea' & En' & [= <-] & Hfrom).
    rewrite Ea in Ea'. rewrite En in En'. injection Ea' as <-. injection En' as ->. by apply (Hall bytes).
Qed.

(** Two bytes of a VMware memory file that starts at 0x1000, from its second. *)
Definition example_environment : @Environment unit :=
  mk_environment (fun _ => None) (fun _ _ d w => (Err (VmiError.Backend "unavailable"), d, w)) 1
    (fun _ => Err "refused"%string) (fun _ => Err "refused"%string) None (Ok (MkPath true [])).

Definition example_process : @Process unit := mk_process "" (mk_machine (MkDisk ∅ ∅ 0 ∅) tt 0 0 [] []).

Definition example_read : result string unit * @Process unit :=
  @run_args unit ample_allocator bitflags_u64 (example_files [x61; x62; x63]) no_decompressors example_pdb
    {| last_instant := 0 |} example_qmp {| str_debug := fun s => s |} example_environment
    ["vmi"; "read-vmware-vmem"; "a.vmem"; "0x1000"; "0x1001"; "2"]%string example_process.

Lemma cli_read_exact_witness :
  exists p', example_read = (Ok tt, p') /\ stdout p' = "0000000000001001: 62 63" +:+ newline /\
    exists address bytes, p' = mk_process (dump_text address bytes) (machine p') /\
      read_dump_text (dump_text address bytes) = Some (located address bytes).
Proof.
  destruct example_read as [[u|e] p'] eqn:E; [|vm_compute in E; discriminate]. destruct u.
  pose proof E as Hrun. unfold example_read in Hrun.
  destruct (@cli_read_exact ample_allocator bitflags_u64 (example_files [x61; x62; x63]) no_decompressors example_pdb
    {| last_instant := 0 |} example_qmp {| str_debug := fun s => s |} unit example_environment
    "vmi" ["read-vmware-vmem"; "a.vmem"; "0x1000"; "0x1001"; "2"]%string "0x1001" "2" _
    example_process (vmem_command "a.vmem" "0x1000" "0x1001" "2")) as (Hok & _ & _).
  destruct (Hok p' Hrun) as (address & bytes & _ & Hp & Hread).
  exists p'. split; [reflexivity|]. split.
  - assert (Hout : stdout p' = stdout (snd example_read)) by (rewrite E; reflexivity).
    rewrite Hout. vm_compute. reflexivity.
  - exists address, bytes. split; [|exact Hread]. rewrite Hp at 1. rewrite Hp. reflexivity.
Defined.
