(* ===== verification/EndToEnd.v ===== *)
(** * The whole stack over a snapshot

    A snapshot file, its decoder, an offline provider, a session with its
    cache, a translator and an introspector, put together: what a user reads
    out of a saved machine is what the architecture and the operating system
    say the bytes of the file mean. *)

From S2P Require Import Prelude.
From S2P Require Import Types.
From S2P Require Import DriverApi.
From S2P Require Import Arch.
From S2P Require Import Amd64.
From S2P Require Import Aarch64.
From S2P Require Import Session.
From S2P Require Import SessionFacts.
From S2P Require Import Host.
From S2P Require Import Artifact.
From S2P Require Import ArtifactFacts.
From S2P Require Import ArtifactFiles.
From S2P Require Import ArtifactFilesFacts.
From S2P Require Import Snapshot.
From S2P Require Import ImageFacts.
From S2P Require Import Guest.
From S2P Require Import GuestFacts.
From S2P Require Import SessionGuest.
From S2P Require Import Profile.
From S2P Require Import Linux.
From S2P Require Import LinuxFacts.
From S2P Require Import Windows.
From S2P Require Import WindowsProcessFacts.

(** ** The translators of the workspace, and what they refine *)

Inductive Paging : Type :=
| Amd64FourLevel
| Amd64FiveLevel
| Aarch64With (t : Aarch64.Aarch64Translator).

Section paging.
Context `{Allocator}.

Definition supported (p : Paging) : Prop :=
  match p with Aarch64With t => Aarch64Spec.valid t | _ => True end.

Definition translator_of (p : Paging) : AddressTranslator :=
  match p with
  | Amd64FourLevel => Amd64.Amd64Translator
  | Amd64FiveLevel => Amd64.Amd64La57Translator
  | Aarch64With t => Aarch64.translator t
  end.

(** The walk of the architecture's manual. *)
Definition reference_walk (p : Paging) (memory : Reader) (root : TranslationRoot.t) (va : Z)
    : Result Translation.t :=
  match p with
  | Amd64FourLevel => Amd64Spec.translate memory 48 4 root (Gva.new va)
  | Amd64FiveLevel => Amd64Spec.translate memory 57 5 root (Gva.new va)
  | Aarch64With t => Aarch64Spec.translate t memory root (Gva.new va)
  end.

Lemma translator_of_spec p memory root va : supported p -> in_u64 va ->
  Arch.translate (translator_of p) memory root (Gva.new va) = reference_walk p memory root va.
Proof.
  intros Hp Hva. destruct p as [| |t]; cbn [translator_of reference_walk].
  - cbn [Arch.translate Amd64.Amd64Translator]. change [39; 30; 21; 12] with (level_shifts 4).
    apply translate_levels_spec; [lia|done|lia].
  - cbn [Arch.translate Amd64.Amd64La57Translator]. change [48; 39; 30; 21; 12] with (level_shifts 5).
    apply translate_levels_spec; [lia|done|lia].
  - cbn [Arch.translate Aarch64.translator]. by apply translate_spec.
Qed.

Lemma translator_of_linear p : supported p -> PageLinear (translator_of p).
Proof. destruct p; cbn; [apply _..|by apply aarch64_page_linear]. Qed.

(** No two of them share a cache tag. *)
Lemma translator_of_tag p q : supported p -> supported q ->
  cache_tag (translator_of q) = cache_tag (translator_of p) -> q = p.
Proof.
  intros Hp Hq. destruct p as [| |t], q as [| |t']; cbn [translator_of supported] in *; try done; intros Htag.
  - by destruct (proj2 (proj2 (aarch64_new_and_tag Aarch64.KiB4 0 t' t' ltac:(lia))) Hq _).
  - by destruct (proj2 (proj2 (aarch64_new_and_tag Aarch64.KiB4 0 t' t' ltac:(lia))) Hq _).
  - by destruct (proj2 (proj2 (aarch64_new_and_tag Aarch64.KiB4 0 t t ltac:(lia))) Hp _).
  - by destruct (proj2 (proj2 (aarch64_new_and_tag Aarch64.KiB4 0 t t ltac:(lia))) Hp _).
  - f_equal. by apply (aarch64_new_and_tag Aarch64.KiB4 0 t' t ltac:(lia)).
Qed.

(** An operation of a session that uses a translator of the workspace, if any. *)
Definition from_workspace (o : SessionRun.op) : Prop :=
  forall tr, SessionRun.op_translator o = Some tr -> exists q, supported q /\ tr = translator_of q.

Lemma workspace_tagged_apart p o : supported p -> from_workspace o -> SessionRun.tagged_apart (translator_of p) o.
Proof.
  intros Hp Ho tr Htr Htag memory root va. destruct (Ho tr Htr) as (q & Hq & ->).
  by rewrite (translator_of_tag p q Hp Hq Htag).
Qed.
End paging.

(** ** Sessions that cannot write *)

Section read_only.
Context `{Allocator} {S : Type} (session : Session S).
Context (Hread_only : is_ok (memory_write session) = false).
Import VmiSession.

Lemma translate_backend tr root va (st : state S) : backend (snd (translate session tr root va st)) = backend st.
Proof.
  unfold translate. destruct (ok_or _ _) as [o|]; [|done]. destruct (map_err _ _) as [cache|]; [|done].
  destruct (TranslationCache.get _ _); [done|]. destruct (mbind _ _) as [value|]; [|done].
  destruct (TranslationCache.insert _ _ _) as [[u|] cache']; done.
Qed.

Lemma read_virtual_backend tr root va n (st : state S) :
  backend (snd (read_virtual session tr root va n st)) = backend st.
Proof.
  unfold read_virtual. destruct (map_err _ _); [|done]. destruct (memory session) as [m|]; [|done].
  unfold run_loop.
  pose proof (loop_pos_inv (fun ls => backend ls.2 = backend st)
    (fun r : Result (list byte) * state S => backend r.2 = backend st)
    (read_virtual_step session tr root va n m)
    (Z.to_pos (n + 1)) (replicate (Z.to_nat n) x00, 0, st)) as Hloop.
  destruct (loop_pos _ _ _); apply Hloop; (done || clear Hloop).
  all: intros [[output completed] st0] Hst0; cbn in Hst0; unfold read_virtual_step.
  all: destruct (negb _); [done|]; destruct (mbind _ _) as [[[current chunk_end] chunk]|e]; [|done].
  all: pose proof (translate_backend tr root (Gva.new current) st0) as Hb.
  all: destruct (translate _ _ _ _ _) as [[t|] st']; cbn in Hb |- *; [|congruence].
  all: destruct (read_into _ _ _ _) as [[|] ?]; [|cbn; congruence]; destruct (put_range _ _ _ _); cbn; congruence.
Qed.

Lemma clear_backend (st : state S) : backend (snd (clear_translation_cache st)) = backend st.
Proof. unfold clear_translation_cache. by destruct (map_err _ _). Qed.

Lemma step_backend st o : backend (SessionRun.step session st o) = backend st.
Proof.
  destruct o; cbn; [done|done|apply translate_backend|apply read_virtual_backend|apply clear_backend|..].
  - unfold write_bytes. by destruct (memory_write session).
  - unfold write_virtual, then_invalidate, write_virtual_body. destruct (memory_write session); [done|].
    pose proof (clear_backend st). by destruct (clear_translation_cache st).
Qed.

Lemma run_backend ops st : backend (foldl (SessionRun.step session) st ops) = backend st.
Proof. revert st. induction ops as [|o ops IH]; intros st; cbn; [done|]. by rewrite IH, step_backend. Qed.
End read_only.

(** ** A session on a snapshot is a guest memory of the file's bytes *)

Lemma bytes_from_ext f g a n :
  (forall i, (i < n)%nat -> f (a + Z.of_nat i) = g (a + Z.of_nat i)) -> bytes_from f a n = bytes_from g a n.
Proof.
  revert a. induction n as [|n IH]; intros a Hfg; cbn; [done|].
  pose proof (Hfg 0%nat ltac:(lia)) as H0. rewrite Z.add_0_r in H0. rewrite H0, (IH (a + 1)); [done|].
  intros i Hi. replace (a + 1 + Z.of_nat i) with (a + Z.of_nat (Datatypes.S i)) by lia. apply Hfg. lia.
Qed.

Lemma guest_memory_ext {St} `{Allocator, Guest St} f g (I : St -> Prop) :
  (forall a, in_u64 a -> f a = g a) -> GuestMemory f I -> GuestMemory g I.
Proof.
  intros Hfg Hf a n st Ha Hn Hst.
  assert (bytes_at f a n = bytes_at g a n) as Heq.
  { unfold bytes_at. destruct (Z.leb_spec (a + n) (2 ^ 64)); [|done]. apply bytes_from_ext.
    intros i Hi. apply Hfg. unfold in_width in *. lia. }
  specialize (Hf a n st Ha Hn Hst). by rewrite Heq in Hf.
Qed.

Section stack.
Context `{Allocator, Bitflags, FileSystem, Decompressors, SerdeJson}.

(** The byte of the image at a physical address, and at a linear one. *)
Definition physical (b : SnapshotBundle.t) : Z -> option byte := BundleSpec.byte_at (SnapshotBundle.segments b).

Definition linear (p : Paging) (b : SnapshotBundle.t) (root : TranslationRoot.t) (va : Z) : option byte :=
  match reference_walk p (SnapshotBundle.read_into b) root va with
  | Ok t => physical b (Gpa.raw (Translation.physical_address t))
  | Err _ => None
  end.

Definition holds (session : Session SnapshotBundle.t) (p : Paging) (b : SnapshotBundle.t)
    (st : VmiSession.state SnapshotBundle.t) : Prop :=
  ready bundle_memory (translator_of p) st /\ VmiSession.backend st = b.

Lemma attached_snapshot c request session st :
  VmiSession.attach (SnapshotConnector.connector c) request = Ok (session, st) ->
  memory session = Ok bundle_memory /\ is_ok (memory_write session) = false /\
  VmiSession.backend st = SnapshotConnector.bundle c.
Proof.
  unfold VmiSession.attach. cbn [SnapshotConnector.connector connect]. unfold SnapshotConnector.connect.
  intros Ha. apply bind_Ok in Ha as ([s b] & Hc & Ha). apply bind_Ok in Ha as (cache & _ & [= <- <-]).
  destruct (negb _); [inv_ok; done|]. apply bind_Ok in Hc as (u & _ & [= <- <-]).
  split; [done|]. split; [apply default_facet_Err|done].
Qed.

Lemma snapshot_run_holds c request session st p ops :
  VmiSession.attach (SnapshotConnector.connector c) request = Ok (session, st) -> supported p ->
  Forall from_workspace ops ->
  holds session p (SnapshotConnector.bundle c) (foldl (SessionRun.step session) st ops).
Proof.
  intros Ha Hp Hops. destruct (attached_snapshot _ _ _ _ Ha) as (Hm & Hw & Hb).
  pose proof (translator_of_linear p Hp). split.
  - eapply run_ready; [done| |by eapply attach_ready].
    eapply Forall_impl; [exact Hops|]. intros o. by apply workspace_tagged_apart.
  - by rewrite run_backend.
Qed.

(** Whatever session serves a decoded bundle. *)
Lemma bundle_guest_memory session b p root :
  memory session = Ok bundle_memory -> loaded b -> supported p ->
  @GuestMemory _ _ (session_guest session (translator_of p) root) (linear p b root) (holds session p b).
Proof.
  intros Hm [Hwf Hs] Hp.
  pose proof (bundle_byte_memory _ Hwf Hs) as Hmem. pose proof (translator_of_linear p Hp) as Hlin.
  pose proof (session_guest_memory session bundle_memory (translator_of p)
    (SnapshotBundle.read_into b) (physical b) root Hm) as Hg.
  eapply guest_memory_ext in Hg; [|intros a Hv; unfold virtual_byte; rewrite translator_of_spec by done; reflexivity].
  intros a n st0 Hv Hn [Hready Hback]. specialize (Hg a n st0 Hv Hn).
  assert (Hread : read_into bundle_memory (VmiSession.backend st0) = SnapshotBundle.read_into b) by by rewrite Hback.
  specialize (Hg (conj Hready Hread)).
  pose proof (read_virtual_backend session (translator_of p) root (Gva.new a) n st0) as Hkeep.
  unfold read_virtual, session_guest in *. destruct (VmiSession.read_virtual _ _ _ _ _ _) as [r st'].
  cbn [snd] in Hkeep. destruct Hg as [[Hready' _] Hg]. split; [|exact Hg]. split; [done|congruence].
Qed.
End stack.

(** A run of what [reads] describes. *)
Lemma reads_run {St} `{Allocator} {I : St -> Prop} {A} (m : stateful St VmiError.t A) (P : A -> Prop) st :
  I st -> reads (I := I) m P ->
  (forall a, fst (m st) = Ok a -> P a) /\ (ample -> forall a, P a -> fst (m st) = Ok a).
Proof.
  intros Hst Hm. specialize (Hm st Hst). destruct (m st) as [r st']. destruct Hm as (_ & Hok & Hall). by split.
Qed.

Lemma reads_exact {St} `{Allocator} {I : St -> Prop} {A} (m : stateful St VmiError.t A) (P : A -> Prop) st a :
  ample -> I st -> reads (I := I) m P -> fst (m st) = Ok a <-> P a.
Proof.
  intros Hample Hst Hm. destruct (reads_run m P st Hst Hm) as [Hok Hall]. split; [apply Hok|by apply Hall].
Qed.

Lemma read_bytes_memory `{Allocator} (memory : Reader) (byte_at : Z -> option byte)
    `{!ByteMemory memory byte_at} a n bs : ample -> 0 <= n ->
  DriverApi.read_bytes memory (Gpa.new a) n = Ok bs <->
  n <= isize_max /\ bytes_from byte_at a (Z.to_nat n) = Some bs.
Proof.
  intros Hample Hn. unfold DriverApi.read_bytes.
  assert (Hz : zlen (replicate (Z.to_nat n) x00) = n) by (unfold zlen; rewrite length_replicate; lia). split.
  - intros Hr. apply bind_Ok in Hr as (buffer & [-> Hle]%allocate_read_buffer_Ok & Hr).
    destruct (memory (Gpa.new a) _) as [[[]|e] out] eqn:E; [|done]. injection Hr as <-. split; [done|].
    apply byte_memory_ok in E as [Hlen Hb]; [|lia]. rewrite length_replicate in *. by apply bytes_from_Some.
  - intros [Hle [Hlen Hb]%bytes_from_Some]. unfold allocate_read_buffer, try_reserve. rewrite Hample by done.
    cbn [map_err mbind result_bind]. erewrite byte_memory_read; [reflexivity|by rewrite length_replicate|lia|].
    intros i Hi. apply Hb. lia.
Qed.

(** * Properties *)


(** A file of 32 bytes at 0x1000: its first word makes the page its own page
    table at every level, so linear page 0 is the page itself, and at 0x10
    there is a task that is alone in its list. *)
Definition whole_file : list byte :=
  le_bytes 8 0x1001 ++ le_bytes 8 0 ++ le_bytes 8 0x10 ++ le_bytes 4 7 ++ [x69; x6e; x69; x74].

Definition whole_snapshot : SnapshotConnector.t :=
  SnapshotConnector.mk
    (ProviderDescriptor.new "vmware" "VMware VMEM Snapshot" ProviderMaturity.Preview 1)
    (TargetDescriptor.new "a.raw" (Some "a.raw (raw)"%string) GuestArchitecture.Amd64
       ConsistencyMode.ImmutableSnapshot)
    (SnapshotBundle.mk (ArtifactProvenance.mk "raw" "a.raw") [SnapshotSegment.new (Gpa.new 0x1000) whole_file]).

Definition whole_introspector : LinuxIntrospector.t :=
  LinuxIntrospector.new
    (SymbolTable.mk {["init_task"%string := Symbol.mk "init_task" 0x10 None]} ∅)
    (LinuxTaskOffsets.mk 0 8 12 4).

Definition whole_opened : Result SnapshotConnector.t :=
  @SnapshotConnector.open_vmware_vmem ample_allocator bitflags_u64 (example_files whole_file)
    GuestArchitecture.Amd64 "a.raw" (Gpa.new 0x1000).

Example whole_opens : whole_opened = Ok whole_snapshot.
Proof. vm_compute. reflexivity. Qed.

Definition whole_attached : Result (Session SnapshotBundle.t * VmiSession.state SnapshotBundle.t) :=
  @VmiSession.attach ample_allocator _ (@SnapshotConnector.connector ample_allocator bitflags_u64 whole_snapshot)
    (AttachRequest.any 1).

Example whole_attaches : is_ok whole_attached = true.
Proof. vm_compute. reflexivity. Qed.

Lemma whole_process_described :
  linux_processes_described (@linear ample_allocator Amd64FourLevel (SnapshotConnector.bundle whole_snapshot)
    (TranslationRoot.new 0x1000)) whole_introspector 5 [LinuxProcess.mk (Gva.new 0x10) 7 "init"].
Proof.
  split; [reflexivity|]. split; [vm_compute; intuition discriminate|].
  exists (Symbol.mk "init_task" 0x10 None), [0x10]. split; [reflexivity|].
  split; [|split; [apply (bool_decide_unpack _); vm_compute; exact Logic.I|split; vm_compute; discriminate]].
  apply task_last; [|vm_compute; reflexivity].
  split; [reflexivity|]. split; [vm_compute; reflexivity|]. eexists. split; vm_compute; reflexivity.
Qed.

(** The operations before: the page is translated through five levels and
    through four, read, a refused write clears the cache, and the page is
    translated through the wrong number of levels and as AArch64 again. *)
Definition whole_ops : list SessionRun.op :=
  [SessionRun.Translate (@Amd64.Amd64La57Translator ample_allocator) (TranslationRoot.new 0x1000) 0x18;
   SessionRun.Translate (@Amd64.Amd64Translator ample_allocator) (TranslationRoot.new 0x1000) 0x18;
   SessionRun.ReadVirtual (@Amd64.Amd64Translator ample_allocator) (TranslationRoot.new 0x1000) 0 32;
   SessionRun.WriteVirtual (@Amd64.Amd64Translator ample_allocator) (TranslationRoot.new 0x1000) 0 [x00];
   SessionRun.Translate (@Amd64.Amd64La57Translator ample_allocator) (TranslationRoot.new 0x1000) 0x18;
   SessionRun.ReadVirtual (@Aarch64.translator ample_allocator (Aarch64.MkAarch64Translator Aarch64.KiB4 48))
     (TranslationRoot.new 0x1000) 0 8].

Lemma whole_ops_workspace : Forall (@from_workspace ample_allocator) whole_ops.
Proof.
  repeat constructor; intros tr [= <-].
  - by exists Amd64FiveLevel.
  - by exists Amd64FourLevel.
  - by exists Amd64FourLevel.
  - by exists Amd64FourLevel.
  - by exists Amd64FiveLevel.
  - exists (Aarch64With (Aarch64.MkAarch64Translator Aarch64.KiB4 48)). split; [split; cbn; lia|done].
Qed.

