(* ===== verification/CliProcessFacts.v ===== *)
(** * What the process listings print

    [linux-processes-elf] and [windows-processes-elf] from the text of their
    arguments and the bytes of their files to the lines they print. *)

From S2P Require Import Prelude.
From S2P Require Import Types.
From S2P Require Import DriverApi.
From S2P Require Import Amd64.
From S2P Require Import Session.
From S2P Require Import SessionFacts.
From S2P Require Import SessionGuest.
From S2P Require Import Text.
From S2P Require Import TextFacts.
From S2P Require Import Host.
From S2P Require Import HostFs.
From S2P Require Import Artifact.
From S2P Require Import ArtifactFiles.
From S2P Require Import ArtifactFilesFacts.
From S2P Require Import Snapshot.
From S2P Require Import Profile.
From S2P Require Import Socket.
From S2P Require Import Qmp.
From S2P Require Import Qemu.
From S2P Require Import Live.
From S2P Require Import Guest.
From S2P Require Import GuestFacts.
From S2P Require Import Linux.
From S2P Require Import LinuxFacts.
From S2P Require Import Windows.
From S2P Require Import WindowsProcessFacts.
From S2P Require Import ProfileFacts.
From S2P Require Import QmpFacts.
From S2P Require Import Cli.
From S2P Require Import CliFacts.
From S2P Require Import EndToEnd.

(** ** A System.map gives 64-bit addresses *)

Section system_map.
Context `{Allocator}.

Definition addressed (table : SymbolTable.t) : Prop :=
  forall name s, SymbolTable.symbol table name = Some s -> in_u64 (Symbol.address s).

Lemma insert_addressed table s table' : addressed table -> in_u64 (Symbol.address s) ->
  SymbolTable.insert table s = Ok table' -> addressed table'.
Proof.
  intros Ht Hs Hi name s'. unfold SymbolTable.insert in Hi.
  destruct (SymbolTable.by_name table !! Symbol.name s) eqn:Hfresh; [done|].
  unfold try_clone_profile_string in Hi. inv_ok. subst.
  unfold SymbolTable.symbol. cbn [SymbolTable.by_name].
  match goal with |- context [<[?k := s]> _ !! name] => destruct (decide (k = name)) as [<-|Hne] end.
  - rewrite lookup_insert_eq. by intros [= <-].
  - rewrite lookup_insert_ne by done. apply Ht.
Qed.

Lemma line_addressed table index line table' : addressed table ->
  SymbolTable.system_map_line table index line = Ok table' -> addressed table'.
Proof.
  intros Ht Hl. unfold SymbolTable.system_map_line in Hl. inv_ok.
  destruct (_ || _); [by simplify_eq|]. destruct (_ =? _); [done|].
  destruct (split_whitespace _) as [|address_text [|kind_text [|name more]]]; try done.
  destruct (_ || _); [done|]. inv_ok.
  match goal with Hp : ParseInt.from_str_radix _ _ _ = Ok _ |- _ => apply from_str_radix_range in Hp; [|lia] end.
  by eapply insert_addressed; [exact Ht| |exact Hl].
Qed.

Lemma lines_addressed text table index table' : addressed table ->
  SymbolTable.system_map_lines table index text = Ok table' -> addressed table'.
Proof.
  revert table index. induction text as [|line text IH]; intros table index Ht; cbn; [by intros [= <-]|].
  intros Hl. apply bind_Ok in Hl as (table1 & H1 & Hl). eapply IH; [|exact Hl]. by eapply line_addressed.
Qed.

Lemma system_map_addressed `{FileSystem} path table :
  SymbolTable.from_system_map_file path = Ok table -> addressed table.
Proof.
  unfold SymbolTable.from_system_map_file, SymbolTable.from_system_map. intros Hf. inv_ok.
  destruct (bool_decide _); [done|]. simplify_eq.
  eapply lines_addressed; [|done]. intros name s. unfold SymbolTable.symbol, SymbolTable.default. cbn. by rewrite lookup_empty.
Qed.
End system_map.

(** ** The listing *)

Section listing.
Context `{Allocator, Bitflags, FileSystem, Decompressors, SerdeJson, Pdb} {W : Type}.

Definition listing {A} (show : A -> string) (items : list A) : string :=
  foldr (fun item text => (show item +:+ newline) +:+ text) ""%string items.

Lemma print_each_Ok {A} (show : A -> string) items (p : @Process W) :
  print_each show items p = (Ok tt, mk_process (stdout p +:+ listing show items) (machine p)).
Proof.
  revert p. induction items as [|item items IH]; intros p; cbn [print_each listing foldr].
  - unfold mret, stateful_ret. rewrite string_app_nil_r. by destruct p.
  - unfold mbind, stateful_bind. cbn [println print]. rewrite IH. cbn [stdout machine].
    by rewrite string_app_assoc.
Qed.

(** A command that lists what [P] describes: what it prints, and when. *)
Definition lists {A} (show : A -> string) (P : list A -> Prop) (outcome : result string unit * @Process W)
    (p : @Process W) : Prop :=
  (forall p', outcome = (Ok tt, p') -> exists items,
     P items /\ p' = mk_process (stdout p +:+ listing show items) (machine p)) /\
  (forall error p', outcome = (Err error, p') -> p' = p) /\
  (ample -> forall items, P items -> is_ok (fst outcome) = true).

Lemma lists_error {A} (show : A -> string) (P : list A -> Prop) error p :
  (forall items, ~ P items) -> lists show P (Err error, p) p.
Proof. intros HP. split; [done|]. split; [by intros ? ? [= _ ->]|]. intros _ items Hi. by destruct (HP items). Qed.

Lemma traverse_lists {S A} (show : A -> string) (P Q : list A -> Prop) (state : S)
    (m : stateful S VmiError.t (list A)) p :
  (forall items, fst (m state) = Ok items -> P items) /\ (ample -> forall items, P items -> fst (m state) = Ok items) ->
  (forall items, P items <-> Q items) ->
  lists show Q ((let? items := traverse state m in print_each show items) p) p.
Proof.
  intros [Hok Hall] HPQ. unfold traverse, vmi, lift, mbind, stateful_bind. destruct (fst (m state)) as [items|e] eqn:E; cbn [map_err].
  - rewrite print_each_Ok. split; [|done]. intros p' [= <-]. exists items. split; [by apply HPQ, Hok|done].
  - split; [done|]. split; [by intros ? ? [= _ ->]|]. intros Ha items Hi%HPQ.
    by discriminate (Hall Ha items Hi).
Qed.

Lemma attach_dump_holds bundle (p : @Process W) session state q : 
  attach_dump bundle p = (Ok (session, state), q) ->
  memory session = Ok bundle_memory /\ holds session Amd64FourLevel bundle state.
Proof.
  intros Ha. pose proof (attach_dump_state bundle p q _ Ha) as (_ & Hs & _).
  destruct (Hs session state eq_refl) as [Hm Hb]. split; [done|]. split; [|done].
  unfold attach_dump, vmi, lift in Ha. injection Ha as Ha _.
  destruct (VmiSession.attach _ _) as [[session' state']|e] eqn:E in Ha; [|done]. injection Ha as -> ->.
  by eapply attach_ready.
Qed.

Lemma parse_within_u64 message value : parse_within 64 message value = parse_number value.
Proof.
  unfold parse_within. destruct (parse_number value) as [v|e] eqn:E; [|done]. cbn [mbind result_bind].
  apply parse_number_range in E. unfold try_width. by rewrite (proj2 (Z.ltb_lt _ _)) by apply E.
Qed.

(** The numbers a listing is given, as their texts. *)
Definition numbers (texts : list string) (values : list Z) : Prop :=
  Forall2 (fun text value => parse_number text = Ok value) texts values.

(** What [linux-processes-elf] lists: the processes described in the linear
    memory of the core's image, by the layout and limit of its arguments. *)
Definition linux_listed (core map : string) (texts : list string) (ps : list LinuxProcess.t) : Prop :=
  exists bundle profile root tasks pid comm comm_length limit,
    elf_vmcore_file core = Ok bundle /\ SymbolTable.from_system_map_file map = Ok profile /\
    numbers texts [root; tasks; pid; comm; comm_length; limit] /\
    linux_processes_described (linear Amd64FourLevel bundle (TranslationRoot.new root))
      (LinuxIntrospector.new profile (LinuxTaskOffsets.mk tasks pid comm comm_length)) limit ps.

Definition windows_listed (core map : string) (texts : list string) (ps : list WindowsProcess.t) : Prop :=
  exists bundle profile root links pid image image_length dtb limit,
    elf_vmcore_file core = Ok bundle /\ SymbolTable.from_system_map_file map = Ok profile /\
    numbers texts [root; links; pid; image; image_length; dtb; limit] /\
    windows_processes_described (linear Amd64FourLevel bundle (TranslationRoot.new root))
      (WindowsIntrospector.new profile (WindowsProcessOffsets.mk links pid image image_length dtb)) limit ps.

(** An argument or a file that does not decode. *)
Ltac refuse :=
  apply lists_error; intros items Hi; unfold linux_listed, windows_listed, numbers in Hi;
  repeat match type of Hi with ex _ => destruct Hi as [? Hi] end; destruct_and! Hi; decompose_Forall_hyps; congruence.

(** Two results of the same computation are one. *)
Ltac same_results :=
  repeat match goal with
  | H1 : ?t = Ok ?x, H2 : ?t = Ok ?y |- _ => rewrite H1 in H2; injection H2 as H2; try subst y; try subst x
  end.

(** The core and its session come first in both commands. *)
Lemma dump_lists {A} (show : A -> string) (Q : list A -> Prop) core
    (k : Session SnapshotBundle.t * VmiSession.state SnapshotBundle.t -> stateful Process string unit) (p : @Process W) :
  (forall items, Q items -> exists bundle, elf_vmcore_file core = Ok bundle) ->
  (forall bundle session state, elf_vmcore_file core = Ok bundle ->
     holds session Amd64FourLevel bundle state ->
     (forall root, @GuestMemory _ _ (session_guest session Amd64.Amd64Translator root)
        (linear Amd64FourLevel bundle root) (holds session Amd64FourLevel bundle)) ->
     lists show Q (k (session, state) p) p) ->
  lists show Q ((let? bundle := vmi (elf_vmcore_file core) in let? session := attach_dump bundle in k session) p) p.
Proof.
  intros HQ Hk. unfold vmi, lift, mbind, stateful_bind.
  destruct (elf_vmcore_file core) as [bundle|e] eqn:Ec; cbn [map_err]; cycle 1.
  { apply lists_error. intros items Hi. by destruct (HQ items Hi) as [? [=]]. }
  destruct (attach_dump bundle p) as [[[session state]|e] q] eqn:Ha; cycle 1.
  { apply attach_dump_state in Ha as (-> & _ & Hok). split; [done|]. split; [by intros ? ? [= _ ->]|].
    intros Hample. by discriminate (Hok Hample). }
  pose proof (attach_dump_state _ _ _ _ Ha) as (-> & _ & _). apply attach_dump_holds in Ha as [Hm Hst].
  apply (Hk bundle); [done|done|]. intros root.
  apply (bundle_guest_memory session bundle Amd64FourLevel root Hm); [|done].
  by apply (elf_file_loaded core); left.
Qed.

(** The next argument is a number, or there is nothing to list. *)
Ltac next_number :=
  match goal with
  | |- context [match parse_number ?text with _ => _ end] =>
      let v := fresh "v" in destruct (parse_number text) as [v|] eqn:?; [|refuse]
  end.

Ltac in_range := first [by eapply parse_number_range | cbn; by eapply parse_number_range].

Ltac described :=
  intros Hi; repeat match type of Hi with ex _ => destruct Hi as [? Hi] end;
  unfold numbers in Hi; destruct_and! Hi; decompose_Forall_hyps; same_results; done.

Lemma linux_lists program command core map root a b c d limit (p : @Process W) :
  lists show_linux (linux_listed core map [root; a; b; c; d; limit])
    (linux_processes_elf [program; command; core; map; root; a; b; c; d; limit] p) p.
Proof.
  unfold linux_processes_elf, arg. cbn [lookup list_lookup from_option]. rewrite !parse_within_u64.
  apply dump_lists; [by intros items (bundle & ? & ? & ? & ? & ? & ? & ? & Hc & _); exists bundle|].
  intros bundle session state Hc Hst Hg. unfold vmi, lift, mbind, stateful_bind.
  destruct (SymbolTable.from_system_map_file map) as [profile|] eqn:Hm; cbn [map_err]; [|refuse].
  do 6 next_number. eapply traverse_lists.
  - eapply reads_run; [exact Hst|]. eapply reads_processes; [apply Hg|in_range|].
    do 4 (split; [in_range|]). by apply (system_map_addressed map).
  - intros items. split; [|unfold linux_listed; described].
    intros Hi. do 8 eexists. split; [exact Hc|]. split; [exact Hm|]. split; [by repeat constructor|exact Hi].
Qed.

Lemma windows_lists program command core map root a b c d e limit (p : @Process W) :
  lists show_windows (windows_listed core map [root; a; b; c; d; e; limit])
    (windows_processes_elf [program; command; core; map; root; a; b; c; d; e; limit] p) p.
Proof.
  unfold windows_processes_elf, arg. cbn [lookup list_lookup from_option]. rewrite !parse_within_u64.
  apply dump_lists; [by intros items (bundle & ? & ? & ? & ? & ? & ? & ? & ? & Hc & _); exists bundle|].
  intros bundle session state Hc Hst Hg. unfold vmi, lift, mbind, stateful_bind.
  destruct (SymbolTable.from_system_map_file map) as [profile|] eqn:Hm; cbn [map_err]; [|refuse].
  do 7 next_number. eapply traverse_lists.
  - eapply reads_run; [exact Hst|]. eapply reads_wprocesses; [apply Hg|in_range|].
    split; [in_range|]. split; [repeat constructor; in_range|by apply (system_map_addressed map)].
  - intros items. split; [|unfold windows_listed; described].
    intros Hi. do 9 eexists. split; [exact Hc|]. split; [exact Hm|]. split; [by repeat constructor|exact Hi].
Qed.
End listing.

(** * Properties *)

(** C32: the process listings print exactly the processes of the image.  When
    [linux-processes-elf] or [windows-processes-elf] succeeds, its arguments
    are numbers, its core and its System.map decode, and it has printed one
    line for each process that the structures at the linear addresses of the
    core's image, found by the AMD64 walk from the given root, describe, in
    their order; when it fails it has printed nothing; and it succeeds
    whenever those structures describe a list and memory suffices. *)
Theorem cli_processes_exact `{Allocator, Bitflags, FileSystem, Decompressors, Pdb, Clock, QmpJson, StrDebug}
    {W : Type} (env : Environment) (program core map root a b c d e limit : string) (p : @Process W) :
  lists show_linux (linux_listed core map [root; a; b; c; d; limit])
    (run_args env [program; "linux-processes-elf"%string; core; map; root; a; b; c; d; limit] p) p /\
  lists show_windows (windows_listed core map [root; a; b; c; d; e; limit])
    (run_args env [program; "windows-processes-elf"%string; core; map; root; a; b; c; d; e; limit] p) p.
Proof.
  split; [apply linux_lists|apply windows_lists].
Qed.
